(** * Audio2Face inference server: WebSocket transport, sessions, dispatcher

    A shallow embedding of the inference server
    (source/inference-server: websocket_server.cpp, inference_sessions.cpp,
    main.cpp) and the properties established about it.

    Conventions.  Machine integers are [Z] with the wrap-around written
    out ([u8], [u32], [u64], [i64]); [std::size_t] is 64 bits wide.  Octets
    on the wire are [Z] values in [0, 256).  [std::vector] and
    [std::array] are lists; [operator[]] is [nth] and an indexed store is
    the list insert [<[i := v]>]. *)

From Stdlib Require Import ZArith List String Ascii Bool Lia QArith DecimalString Sorted.
From stdpp Require Import base list.
Import ListNotations.
Local Open Scope Z_scope.

(** ** Fixed-width integers *)

Definition u8 (x : Z) : Z := Z.land x 0xff.
Definition u32 (x : Z) : Z := x mod 2 ^ 32.
Definition u64 (x : Z) : Z := x mod 2 ^ 64.

(** [static_cast<std::int64_t>] of a 64-bit pattern. *)
Definition i64 (x : Z) : Z :=
  let v := x mod 2 ^ 64 in
  if v <? 2 ^ 63 then v else v - 2 ^ 64.

Definition is_byte (b : Z) : Prop := 0 <= b < 256.

(** The [n] octets of [v] and the value of a list of octets, most
    significant first. *)
Definition big_endian_bytes (n : nat) (v : Z) : list Z :=
  map (fun i => (v / 256 ^ Z.of_nat i) mod 256) (rev (seq 0 n)).

Definition big_endian_value (bytes : list Z) : Z :=
  fold_left (fun acc b => acc * 256 + b) bytes 0.

(** Octets of a [std::string] / [std::string_view]. *)
Definition bytes_of_string (s : string) : list Z :=
  map (fun c => Z.of_N (N_of_ascii c)) (list_ascii_of_string s).

Definition push_back (s : string) (c : ascii) : string :=
  String.append s (String c EmptyString).

(** * websocket_server.cpp *)

Module a2fws.

(** ** Sha1 *)

Definition leftRotate (value bits : Z) : Z :=
  Z.lor (u32 (Z.shiftl value bits)) (Z.shiftr value (32 - bits)).

(** [~b] on a [std::uint32_t]. *)
Definition not32 (b : Z) : Z := u32 (Z.lnot b).

(** [while ((msg.size() % 64) != 56) msg.push_back(0x00);]
    The loop runs at most 63 times; [fuel] bounds it. *)
Fixpoint Sha1_pad_loop (fuel : nat) (msg : list Z) : list Z :=
  match fuel with
  | O => msg
  | S fuel' =>
      if Z.of_nat (length msg) mod 64 =? 56 then msg
      else Sha1_pad_loop fuel' (msg ++ [0x00])
  end.

(** [for (int i = 7; i >= 0; --i) msg.push_back((bitLen >> (i * 8)) & 0xff);] *)
Definition Sha1_length_bytes (bitLen : Z) : list Z :=
  map (fun i => Z.land (Z.shiftr bitLen (i * 8)) 0xff) [7; 6; 5; 4; 3; 2; 1; 0].

Definition Sha1_message (input : list Z) : list Z :=
  let bitLen := u64 (Z.of_nat (length input) * 8) in
  let msg := input ++ [0x80] in
  let msg := Sha1_pad_loop 64 msg in
  msg ++ Sha1_length_bytes bitLen.

(** The big-endian word at [msg[idx .. idx + 3]]. *)
Definition Sha1_word (msg : list Z) (idx : nat) : Z :=
  Z.lor (Z.lor (Z.lor (Z.shiftl (nth idx msg 0) 24)
                      (Z.shiftl (nth (idx + 1) msg 0) 16))
               (Z.shiftl (nth (idx + 2) msg 0) 8))
        (nth (idx + 3) msg 0).

(** First inner loop: [w[i]] for [i < 16] from the chunk at offset [chunk]. *)
Definition Sha1_load (msg : list Z) (chunk : nat) (w : list Z) : list Z :=
  fold_left (fun w i => <[ i := Sha1_word msg (chunk + i * 4) ]> w) (seq 0 16) w.

(** Second inner loop: [w[i]] for [16 <= i < 80]. *)
Definition Sha1_extend (w : list Z) : list Z :=
  fold_left
    (fun w i =>
       <[ i := leftRotate
                 (Z.lxor (Z.lxor (Z.lxor (nth (i - 3) w 0) (nth (i - 8) w 0))
                                 (nth (i - 14) w 0))
                         (nth (i - 16) w 0)) 1 ]> w)
    (seq 16 64) w.

(** The working variables [a, b, c, d, e]. *)
Definition Sha1_vars : Type := Z * Z * Z * Z * Z.

(** One iteration of the 80-round loop. *)
Definition Sha1_round (w : list Z) (v : Sha1_vars) (i : nat) : Sha1_vars :=
  let '(a, b, c, d, e) := v in
  let '(f, k) :=
    if (i <? 20)%nat then
      (Z.lor (Z.land b c) (Z.land (not32 b) d), 0x5A827999)
    else if (i <? 40)%nat then
      (Z.lxor (Z.lxor b c) d, 0x6ED9EBA1)
    else if (i <? 60)%nat then
      (Z.lor (Z.lor (Z.land b c) (Z.land b d)) (Z.land c d), 0x8F1BBCDC)
    else
      (Z.lxor (Z.lxor b c) d, 0xCA62C1D6) in
  let temp := u32 (leftRotate a 5 + f + e + k + nth i w 0) in
  (temp, a, leftRotate b 30, c, d).

(** Body of the chunk loop: the state is the array [w] and [h0..h4]. *)
Definition Sha1_chunk (msg : list Z) (st : list Z * Sha1_vars) (chunk : nat)
  : list Z * Sha1_vars :=
  let '(w, (h0, h1, h2, h3, h4)) := st in
  let w := Sha1_load msg chunk w in
  let w := Sha1_extend w in
  let '(a, b, c, d, e) := fold_left (Sha1_round w) (seq 0 80) (h0, h1, h2, h3, h4) in
  (w, (u32 (h0 + a), u32 (h1 + b), u32 (h2 + c), u32 (h3 + d), u32 (h4 + e))).

(** [storeBE32] *)
Definition storeBE32 (v : Z) : list Z :=
  [ Z.land (Z.shiftr v 24) 0xff; Z.land (Z.shiftr v 16) 0xff;
    Z.land (Z.shiftr v 8) 0xff; Z.land v 0xff ].

(** [for (chunk = 0; chunk < msg.size(); chunk += 64)] visits the offsets
    [0, 64, ...] below [msg.size()]. *)
Definition Sha1_offsets (size : nat) : list nat :=
  map (fun k => (64 * k)%nat) (seq 0 ((size + 63) / 64)).

Definition Sha1 (input : list Z) : list Z :=
  let msg := Sha1_message input in
  let init := (0x67452301, 0xEFCDAB89, 0x98BADCFE, 0x10325476, 0xC3D2E1F0) in
  let '(_, (h0, h1, h2, h3, h4)) :=
    fold_left (Sha1_chunk msg) (Sha1_offsets (length msg)) (repeat 0 80, init) in
  storeBE32 h0 ++ storeBE32 h1 ++ storeBE32 h2 ++ storeBE32 h3 ++ storeBE32 h4.

(** ** Base64Encode *)

Definition kChars : string :=
  "ABCDEFGHIJKLMNOPQRSTUVWXYZabcdefghijklmnopqrstuvwxyz0123456789+/".

Definition kChars_at (i : Z) : ascii :=
  nth (Z.to_nat i) (list_ascii_of_string kChars) "="%char.

(** [for (i = 0; i < len; i += 3)]; the loop runs at most [len] times. *)
Fixpoint Base64Encode_loop (fuel : nat) (data : list Z) (i : nat) (out : string)
  : string :=
  match fuel with
  | O => out
  | S fuel' =>
      let len := length data in
      if (i <? len)%nat then
        let octetA := if (i <? len)%nat then nth i data 0 else 0 in
        let octetB := if (i + 1 <? len)%nat then nth (i + 1) data 0 else 0 in
        let octetC := if (i + 2 <? len)%nat then nth (i + 2) data 0 else 0 in
        let triple :=
          Z.lor (Z.lor (u32 (Z.shiftl octetA 16)) (u32 (Z.shiftl octetB 8))) octetC in
        let out := push_back out (kChars_at (Z.land (Z.shiftr triple 18) 0x3f)) in
        let out := push_back out (kChars_at (Z.land (Z.shiftr triple 12) 0x3f)) in
        let out :=
          push_back out (if (i + 1 <? len)%nat
                         then kChars_at (Z.land (Z.shiftr triple 6) 0x3f)
                         else "="%char) in
        let out :=
          push_back out (if (i + 2 <? len)%nat
                         then kChars_at (Z.land triple 0x3f)
                         else "="%char) in
        Base64Encode_loop fuel' data (i + 3) out
      else out
  end.

Definition Base64Encode (data : list Z) : string :=
  Base64Encode_loop (length data) data 0 EmptyString.

(** ** WebSocketAcceptKey *)

Definition kGuid : string := "258EAFA5-E914-47DA-95CA-C5AB0DC85B11".

Definition WebSocketAcceptKey (secWebSocketKey : string) : string :=
  let combined := String.append secWebSocketKey kGuid in
  let digest := Sha1 (bytes_of_string combined) in
  Base64Encode digest.

(** ** Socket

    The operating-system socket is outside the repository.  It is modelled
    by [rx], the octets that arrive before the stream ends; [tx], the
    octets the peer has accepted so far; and [txLimit], how many more
    octets the peer accepts before it closes ([None]: it never closes). *)

Record Socket := mkSocket {
  rx : list Z;
  tx : list Z;
  txLimit : option nat
}.

(** [Socket::SendAll]: short writes are retried until every octet is sent
    or the peer has closed. *)
Definition SendAll (sock : Socket) (data : list Z) : bool * Socket :=
  match txLimit sock with
  | None => (true, mkSocket (rx sock) (tx sock ++ data) None)
  | Some n =>
      if (length data <=? n)%nat then
        (true, mkSocket (rx sock) (tx sock ++ data) (Some (n - length data)%nat))
      else
        (false, mkSocket (rx sock) (tx sock ++ take n data) (Some O))
  end.

(** [Socket::RecvAll]: short reads are retried until [len] octets have
    arrived or the stream has ended. *)
Definition RecvAll (sock : Socket) (len : nat) : option (list Z) * Socket :=
  if (len <=? length (rx sock))%nat then
    (Some (take len (rx sock)), mkSocket (drop len (rx sock)) (tx sock) (txLimit sock))
  else
    (None, mkSocket [] (tx sock) (txLimit sock)).

(** ** Frames *)

Inductive Opcode :=
| Continuation
| Text
| Binary
| Close
| Ping
| Pong
| Reserved (v : Z).

(** [static_cast<std::uint8_t>(opcode)] *)
Definition Opcode_value (o : Opcode) : Z :=
  match o with
  | Continuation => 0x0
  | Text => 0x1
  | Binary => 0x2
  | Close => 0x8
  | Ping => 0x9
  | Pong => 0xA
  | Reserved v => v
  end.

(** [static_cast<Opcode>(v)] *)
Definition Opcode_cast (v : Z) : Opcode :=
  if v =? 0x0 then Continuation
  else if v =? 0x1 then Text
  else if v =? 0x2 then Binary
  else if v =? 0x8 then Close
  else if v =? 0x9 then Ping
  else if v =? 0xA then Pong
  else Reserved v.

(** The opcodes the enumeration names. *)
Definition named_opcode (op : Opcode) : Prop :=
  match op with Reserved _ => False | _ => True end.

Record Frame := mkFrame {
  fin : bool;
  opcode : Opcode;
  payload : list Z
}.

(** [payload[i] ^= maskKey[i % 4]] for [i] from [i0] on. *)
Fixpoint unmask (maskKey : list Z) (i : nat) (payload : list Z) : list Z :=
  match payload with
  | [] => []
  | b :: rest => Z.lxor b (nth (i mod 4) maskKey 0) :: unmask maskKey (S i) rest
  end.

(** The extended payload length: [payloadLen = (payloadLen << 8) | ext[i]]. *)
Definition ReadFrame_ext (ext : list Z) : Z :=
  fold_left (fun payloadLen b => Z.lor (u64 (Z.shiftl payloadLen 8)) b) ext 0.

Definition ReadFrame (sock : Socket) (maxPayloadBytes : Z) : option Frame * Socket :=
  match RecvAll sock 2 with
  | (None, sock) => (None, sock)
  | (Some header, sock) =>
      let fin := negb (Z.land (nth 0 header 0) 0x80 =? 0) in
      let opcode := Opcode_cast (Z.land (nth 0 header 0) 0x0f) in
      let masked := negb (Z.land (nth 1 header 0) 0x80 =? 0) in
      let payloadLen := Z.land (nth 1 header 0) 0x7f in
      if negb fin then (None, sock)
      else
        let '(len, sock) :=
          if payloadLen =? 126 then
            match RecvAll sock 2 with
            | (None, sock) => (None, sock)
            | (Some ext, sock) =>
                (Some (Z.lor (Z.shiftl (nth 0 ext 0) 8) (nth 1 ext 0)), sock)
            end
          else if payloadLen =? 127 then
            match RecvAll sock 8 with
            | (None, sock) => (None, sock)
            | (Some ext, sock) => (Some (ReadFrame_ext ext), sock)
            end
          else (Some payloadLen, sock) in
        match len with
        | None => (None, sock)
        | Some payloadLen =>
            if payloadLen >? maxPayloadBytes then (None, sock)
            else
              let '(key, sock) :=
                if masked then RecvAll sock 4 else (Some [0; 0; 0; 0], sock) in
              match key with
              | None => (None, sock)
              | Some maskKey =>
                  let '(body, sock) :=
                    if payloadLen >? 0 then RecvAll sock (Z.to_nat payloadLen)
                    else (Some [], sock) in
                  match body with
                  | None => (None, sock)
                  | Some payload =>
                      let payload :=
                        if masked then unmask maskKey 0 payload else payload in
                      (Some (mkFrame fin opcode payload), sock)
                  end
              end
        end
  end.

(** The octets [SendFrame] assembles in [frame] before the single
    [SendAll]. *)
Definition SendFrame_bytes (opcode : Opcode) (payload : list Z) : list Z :=
  let payloadLen := Z.of_nat (length payload) in
  let frame := [u8 (Z.lor 0x80 (Z.land (u8 (Opcode_value opcode)) 0x0f))] in
  let frame :=
    if payloadLen <=? 125 then frame ++ [u8 payloadLen]
    else if payloadLen <=? 0xffff then
      frame ++ [126; u8 (Z.land (Z.shiftr payloadLen 8) 0xff);
                u8 (Z.land payloadLen 0xff)]
    else
      frame ++ [127]
            ++ map (fun i => u8 (Z.land (Z.shiftr (u64 payloadLen) (i * 8)) 0xff))
                   [7; 6; 5; 4; 3; 2; 1; 0] in
  frame ++ payload.

Definition SendFrame (sock : Socket) (opcode : Opcode) (payload : list Z)
  : bool * Socket :=
  SendAll sock (SendFrame_bytes opcode payload).

End a2fws.

(** * Reference definitions

    The standards the handshake names, written from their own text:
    SHA-1 from FIPS 180-4 and Base64 from RFC 4648.  The code above is
    compared with them. *)

Module FIPS180.

(** Section 2.2.2: ROTL^n(x) = (x << n) or (x >> w - n), with w = 32. *)
Definition ROTL (n x : Z) : Z :=
  Z.lor (Z.shiftl x n mod 2 ^ 32) (Z.shiftr x (32 - n)).

(** Section 4.1.1: the functions f_t. *)
Definition Ch (x y z : Z) : Z :=
  Z.lxor (Z.land x y) (Z.land (Z.lnot x mod 2 ^ 32) z).
Definition Parity (x y z : Z) : Z := Z.lxor (Z.lxor x y) z.
Definition Maj (x y z : Z) : Z :=
  Z.lxor (Z.lxor (Z.land x y) (Z.land x z)) (Z.land y z).

Definition f (t : nat) (x y z : Z) : Z :=
  if (t <? 20)%nat then Ch x y z
  else if (t <? 40)%nat then Parity x y z
  else if (t <? 60)%nat then Maj x y z
  else Parity x y z.

(** Section 4.2.1: the constants K_t. *)
Definition K (t : nat) : Z :=
  if (t <? 20)%nat then 0x5a827999
  else if (t <? 40)%nat then 0x6ed9eba1
  else if (t <? 60)%nat then 0x8f1bbcdc
  else 0xca62c1d6.

(** Section 5.1.1: a message of [l] octets is followed by the octet 0x80,
    the least number [k] of zero octets with [l + 1 + k = 56 (mod 64)],
    and the bit length [8 l] as a 64-bit big-endian integer. *)
Definition pad (M : list Z) : list Z :=
  let l := Z.of_nat (length M) in
  M ++ [0x80] ++ repeat 0 (Z.to_nat ((55 - l) mod 64)) ++ big_endian_bytes 8 (8 * l).

(** Section 5.2.1: the padded message is parsed into blocks of sixteen
    32-bit big-endian words. *)
Definition word (b : list Z) : Z :=
  nth 0 b 0 * 2 ^ 24 + nth 1 b 0 * 2 ^ 16 + nth 2 b 0 * 2 ^ 8 + nth 3 b 0.

Definition block_words (block : list Z) : list Z :=
  map (fun i => word (take 4 (drop (4 * i) block))) (seq 0 16).

Fixpoint blocks (n : nat) (msg : list Z) : list (list Z) :=
  match n with
  | O => []
  | S n' => block_words (take 64 msg) :: blocks n' (drop 64 msg)
  end.

(** Section 6.1.2 step 1: the message schedule W_0 .. W_(n-1). *)
Fixpoint schedule (M : list Z) (n : nat) : list Z :=
  match n with
  | O => []
  | S t =>
      let W := schedule M t in
      W ++ [ if (t <? 16)%nat then nth t M 0
             else ROTL 1 (Z.lxor (Z.lxor (Z.lxor (nth (t - 3) W 0) (nth (t - 8) W 0))
                                         (nth (t - 14) W 0))
                                 (nth (t - 16) W 0)) ]
  end.

(** Section 6.1.2 step 3: rounds [t, t + n) on the working variables. *)
Fixpoint rounds (W : list Z) (n t : nat) (v : Z * Z * Z * Z * Z)
  : Z * Z * Z * Z * Z :=
  match n with
  | O => v
  | S n' =>
      let '(a, b, c, d, e) := v in
      let T := (ROTL 5 a + f t b c d + e + K t + nth t W 0) mod 2 ^ 32 in
      rounds W n' (S t) (T, a, ROTL 30 b, c, d)
  end.

(** Section 6.1.2 steps 2 and 4: one block. *)
Definition compress (H : Z * Z * Z * Z * Z) (M : list Z) : Z * Z * Z * Z * Z :=
  let '(H0, H1, H2, H3, H4) := H in
  let '(a, b, c, d, e) := rounds (schedule M 80) 80 0 H in
  ((a + H0) mod 2 ^ 32, (b + H1) mod 2 ^ 32, (c + H2) mod 2 ^ 32,
   (d + H3) mod 2 ^ 32, (e + H4) mod 2 ^ 32).

(** Section 5.3.1: the initial hash value. *)
Definition H_init : Z * Z * Z * Z * Z :=
  (0x67452301, 0xefcdab89, 0x98badcfe, 0x10325476, 0xc3d2e1f0).

Definition SHA1 (M : list Z) : list Z :=
  let msg := pad M in
  let '(H0, H1, H2, H3, H4) :=
    fold_left compress (blocks (length msg / 64) msg) H_init in
  big_endian_bytes 4 H0 ++ big_endian_bytes 4 H1 ++ big_endian_bytes 4 H2
    ++ big_endian_bytes 4 H3 ++ big_endian_bytes 4 H4.

End FIPS180.

Module RFC4648.

(** Table 1: the Base 64 alphabet. *)
Definition alphabet (v : Z) : ascii :=
  if v <? 26 then ascii_of_N (Z.to_N (65 + v))
  else if v <? 52 then ascii_of_N (Z.to_N (97 + (v - 26)))
  else if v <? 62 then ascii_of_N (Z.to_N (48 + (v - 52)))
  else if v =? 62 then "+"%char
  else "/"%char.

(** Section 4: each 24-bit group gives four characters; a final group of
    8 or 16 bits is padded with zero bits and with "=". *)
Fixpoint Base64 (data : list Z) : string :=
  match data with
  | [] => EmptyString
  | [a] =>
      String (alphabet (a / 4))
        (String (alphabet (a mod 4 * 16)) "==")
  | [a; b] =>
      String (alphabet (a / 4))
        (String (alphabet (a mod 4 * 16 + b / 16))
           (String (alphabet (b mod 16 * 4)) "="))
  | a :: b :: c :: rest =>
      String (alphabet (a / 4))
        (String (alphabet (a mod 4 * 16 + b / 16))
           (String (alphabet (b mod 16 * 4 + c / 64))
              (String (alphabet (c mod 64)) (Base64 rest))))
  end.

End RFC4648.

(** * The frame header, in the words of the wire format

    Byte 0 carries [fin] in bit 7 and the opcode in its low nibble; byte 1
    carries the mask flag in bit 7 and [len7] in its low seven bits; a
    [len7] of 126 or 127 announces 2 or 8 further octets holding the
    length in big-endian order. *)

Module Framing.

Definition fin_bit (b0 : Z) : bool := Z.testbit b0 7.
Definition opcode_bits (b0 : Z) : Z := b0 mod 16.
Definition mask_bit (b1 : Z) : bool := Z.testbit b1 7.
Definition len7 (b1 : Z) : Z := b1 mod 128.

Definition ext_size (b1 : Z) : nat :=
  if len7 b1 =? 126 then 2%nat else if len7 b1 =? 127 then 8%nat else 0%nat.

Definition declared_length (b1 : Z) (ext : list Z) : Z :=
  if (len7 b1 =? 126) || (len7 b1 =? 127) then big_endian_value ext else len7 b1.

(** A frame as a client sends it: [fin] set, the mask bit set, the length
    in the shortest of the three forms, the masking key, and the payload
    with octet [i] combined by exclusive or with octet [i mod 4] of the
    key. *)
Definition mask_payload (key payload : list Z) : list Z :=
  imap (fun i b => Z.lxor b (nth (i mod 4) key 0)) payload.

Definition masked_frame (opcode_value : Z) (key payload : list Z) : list Z :=
  let n := Z.of_nat (length payload) in
  [128 + opcode_value]
  ++ (if n <=? 125 then [128 + n]
      else if n <=? 65535 then 254 :: big_endian_bytes 2 n
      else 255 :: big_endian_bytes 8 n)
  ++ key ++ mask_payload key payload.

End Framing.

(** * JSON values

    [nlohmann::json] is a library outside the repository.  Its values are
    modelled as a tree; an object is a list of members in which a key
    occurs at most once.  A conversion that the library answers with a
    [type_error] exception gives [None]. *)

Module Json.

Local Unset Elimination Schemes.

Inductive json :=
| JNull
| JBool (b : bool)
| JInteger (v : Z)
| JUnsigned (v : Z)
| JFloat (v : Q)
| JString (s : string)
| JArray (items : list json)
| JObject (members : list (string * json)).

Local Set Elimination Schemes.

Definition is_object (j : json) : bool :=
  match j with JObject _ => true | _ => false end.
Definition is_string (j : json) : bool :=
  match j with JString _ => true | _ => false end.
Definition is_boolean (j : json) : bool :=
  match j with JBool _ => true | _ => false end.
(** [is_number_integer] holds of signed and of unsigned integers. *)
Definition is_number_integer (j : json) : bool :=
  match j with JInteger _ | JUnsigned _ => true | _ => false end.
Definition is_number_unsigned (j : json) : bool :=
  match j with JUnsigned _ => true | _ => false end.

Fixpoint lookup_member (key : string) (members : list (string * json))
  : option json :=
  match members with
  | [] => None
  | (k, v) :: rest => if String.eqb k key then Some v else lookup_member key rest
  end.

Definition contains (j : json) (key : string) : bool :=
  match j with
  | JObject members =>
      match lookup_member key members with Some _ => true | None => false end
  | _ => false
  end.

(** [j[key]] on a constant value, used after [contains]. *)
Definition at_key (j : json) (key : string) : json :=
  match j with
  | JObject members =>
      match lookup_member key members with Some v => v | None => JNull end
  | _ => JNull
  end.

Fixpoint set_member (key : string) (v : json) (members : list (string * json))
  : list (string * json) :=
  match members with
  | [] => [(key, v)]
  | (k, old) :: rest =>
      if String.eqb k key then (k, v) :: rest else (k, old) :: set_member key v rest
  end.

(** [j[key] = v] on a null or object value. *)
Definition set_key (j : json) (key : string) (v : json) : json :=
  match j with
  | JObject members => JObject (set_member key v members)
  | _ => JObject [(key, v)]
  end.

Definition get_string (j : json) : option string :=
  match j with JString s => Some s | _ => None end.
Definition get_bool (j : json) : option bool :=
  match j with JBool b => Some b | _ => None end.
(** [get<std::int64_t>()]: a number is converted by [static_cast]. *)
Definition get_int64 (j : json) : option Z :=
  match j with
  | JInteger v => Some v
  | JUnsigned v => Some (i64 v)
  | JFloat v => Some (i64 (Qnum v / Z.pos (Qden v)))
  | JBool b => Some (if b then 1 else 0)
  | _ => None
  end.
(** [get<std::size_t>()] *)
Definition get_size_t (j : json) : option Z :=
  match j with
  | JInteger v => Some (u64 v)
  | JUnsigned v => Some v
  | JFloat v => Some (u64 (Qnum v / Z.pos (Qden v)))
  | JBool b => Some (if b then 1 else 0)
  | _ => None
  end.

(** [j.value(key, default)] with a string default: an exception when [j]
    is not an object or the member is not a string. *)
Definition value_string (j : json) (key default : string) : option string :=
  match j with
  | JObject members =>
      match lookup_member key members with
      | Some v => get_string v
      | None => Some default
      end
  | _ => None
  end.

Definition value_bool (j : json) (key : string) (default : bool) : option bool :=
  match j with
  | JObject members =>
      match lookup_member key members with
      | Some v => get_bool v
      | None => Some default
      end
  | _ => None
  end.

(** ** [dump]

    The JSON library is outside the repository.  As it documents,
    [j.dump()] with the default (strict) error handler throws
    [type_error.316] when a string of [j], a key or a value, is not
    well-formed UTF-8; numbers, booleans and null are always written.
    Modelled from the Unicode Standard, table 3-7 (well-formed UTF-8 byte
    sequences), which the library's decoder implements: [utf8_octets]
    holds of the octet sequences that are well formed. *)

Definition utf8_tail (b : Z) : bool := (0x80 <=? b) && (b <=? 0xBF).

Fixpoint utf8_octets (octets : list Z) : bool :=
  match octets with
  | [] => true
  | b0 :: rest =>
      if b0 <=? 0x7F then utf8_octets rest
      else if (0xC2 <=? b0) && (b0 <=? 0xDF) then
        match rest with
        | b1 :: rest => utf8_tail b1 && utf8_octets rest
        | _ => false
        end
      else if (0xE0 <=? b0) && (b0 <=? 0xEF) then
        match rest with
        | b1 :: b2 :: rest =>
            (if b0 =? 0xE0 then (0xA0 <=? b1) && (b1 <=? 0xBF)
             else if b0 =? 0xED then (0x80 <=? b1) && (b1 <=? 0x9F)
             else utf8_tail b1)
            && utf8_tail b2 && utf8_octets rest
        | _ => false
        end
      else if (0xF0 <=? b0) && (b0 <=? 0xF4) then
        match rest with
        | b1 :: b2 :: b3 :: rest =>
            (if b0 =? 0xF0 then (0x90 <=? b1) && (b1 <=? 0xBF)
             else if b0 =? 0xF4 then (0x80 <=? b1) && (b1 <=? 0x8F)
             else utf8_tail b1)
            && utf8_tail b2 && utf8_tail b3 && utf8_octets rest
        | _ => false
        end
      else false
  end.

Definition utf8 (s : string) : bool := utf8_octets (bytes_of_string s).

(** [dumps j]: [j.dump()] returns; it throws otherwise. *)
Fixpoint dumps (j : json) : bool :=
  match j with
  | JString s => utf8 s
  | JArray items => forallb dumps items
  | JObject members => forallb (fun '(key, v) => utf8 key && dumps v) members
  | _ => true
  end.

(** A number as the library holds it: a signed integer is a
    [std::int64_t], an unsigned one a [std::uint64_t]. *)
Definition number_in_range (j : json) : Prop :=
  match j with
  | JInteger v => - 2 ^ 63 <= v < 2 ^ 63
  | JUnsigned v => 0 <= v < 2 ^ 64
  | _ => True
  end.

End Json.
Import Json.

(** * inference_sessions.cpp *)

Module a2fserver.

(** ** The connection as a session sees it

    A session sends whole frames through [a2fws::SendFrame]: JSON text and
    binary animation frames.  At this level the socket is modelled by
    [outbox], the frames the peer has accepted, and [credit], how many more
    frames it accepts before it closes ([None]: it never closes).  A text
    payload is kept as the JSON value that [dump()] serialises. *)

Inductive Body :=
| JsonText (j : json)
| Octets (bytes : list Z).

Record Connection := mkConnection {
  outbox : list (a2fws.Opcode * Body);
  credit : option nat
}.

Definition SendFrame (c : Connection) (opcode : a2fws.Opcode) (body : Body)
  : bool * Connection :=
  match credit c with
  | None => (true, mkConnection (outbox c ++ [(opcode, body)]) None)
  | Some (S n) => (true, mkConnection (outbox c ++ [(opcode, body)]) (Some n))
  | Some O => (false, c)
  end.

(** ** The inference engine

    Modelled from the spec: the engine (audio2face / audio2x: executor
    bundle, accumulators, CUDA runtime) is outside the sources at hand.
    Every engine operation returns a status; [Status] is the list of the
    statuses of the successive fallible calls, [Some message] for an error
    (an exhausted list means success from then on).  The message of an
    error is the engine's [err.message()], plain text that [dump()]
    serialises.  The audio accumulator
    is the list of samples accumulated since its last reset;
    [NbAccumulatedSamples] is its length and [DropSamplesBefore] frees
    storage without changing that count. *)

Definition Status : Type := list (option string).

Definition next_status (st : Status) : option string * Status :=
  match st with
  | [] => (None, [])
  | e :: rest => (e, rest)
  end.

Record Executor := mkExecutor {
  resultTypeIsDevice : bool;
  samplingRate : Z;
  frameRateNumerator : Z;
  frameRateDenominator : Z;
  weightCount : nat;
  skinPoses : option (list string);
  tonguePoses : option (list string)
}.

Record Bundle := mkBundle {
  executor : Executor;
  audioAccumulator : list Q;
  emotionAccumulator : list (Z * list Q);
  emotionClosed : bool;
  emotionSize : nat;
  bundleCudaStream : Z
}.

(** What the executor hands to the results callback.  [weights] is the
    device view, one 32-bit pattern per float; a null stream is [0]. *)
Record DeviceResults := mkDeviceResults {
  trackIndex : nat;
  weights : list Z;
  cudaStream : Z;
  timeStampCurrentFrame : Z;
  timeStampNextFrame : Z
}.

(** ** ServerConfig, SessionContext *)

Inductive ExecutionOption := OptNone | OptSkin | OptTongue | OptSkinTongue.

Record ServerConfig := mkServerConfig {
  host : string;
  port : Z;
  cudaDevice : Z;
  maxSessions : nat;
  modelJsonPath : string;
  diffusion : bool;
  diffusionIdentity : Z;
  diffusionConstantNoise : bool;
  useGpuSolver : bool;
  executionOption : ExecutionOption;
  fpsNumerator : Z;
  fpsDenominator : Z
}.

Record PendingFrame := mkPendingFrame {
  frameIndex : Z;
  tsCurrent : Z;
  tsNext : Z;
  slotIndex : nat
}.

Definition kFrameMagicA2FB : Z := 0x42463241.
Definition kProtocolVersion : Z := 1.
Definition kMaxStagedFrames : nat := 256.
Definition kFlushThresholdFrames : nat := 32.

(** A null [_wsSocket] or [_lastCudaStream] is [0]. *)
Record SessionContext := mkSessionContext {
  _wsSocket : Z;
  _cudaDeviceForThread : Z;
  _bundle : option Bundle;
  _weightsStaging : list Z;
  _audioFloatScratch : list Q;
  _sessionId : string;
  _modelJsonPath : string;
  _executionOptionStr : string;
  _useGpuSolver : bool;
  _samplingRate : Z;
  _fpsNumerator : Z;
  _fpsDenominator : Z;
  _weightCount : nat;
  _channels : list string;
  _skinWeightCount : nat;
  _tongueWeightCount : nat;
  _lastCudaStream : Z;
  _nextFrameIndex : Z;
  _pendingFrames : list PendingFrame
}.

(** The default-constructed [SessionContext]. *)
Definition SessionContext_default : SessionContext :=
  mkSessionContext 0 0 None [] [] "" "" "" true 0 0 0 0 [] 0 0 0 0 [].

Definition set_wsSocket (v : Z) (s : SessionContext) : SessionContext :=
  mkSessionContext v (_cudaDeviceForThread s) (_bundle s) (_weightsStaging s)
    (_audioFloatScratch s) (_sessionId s) (_modelJsonPath s) (_executionOptionStr s)
    (_useGpuSolver s) (_samplingRate s) (_fpsNumerator s) (_fpsDenominator s)
    (_weightCount s) (_channels s) (_skinWeightCount s) (_tongueWeightCount s)
    (_lastCudaStream s) (_nextFrameIndex s) (_pendingFrames s).

Definition set_bundle (v : option Bundle) (s : SessionContext) : SessionContext :=
  mkSessionContext (_wsSocket s) (_cudaDeviceForThread s) v (_weightsStaging s)
    (_audioFloatScratch s) (_sessionId s) (_modelJsonPath s) (_executionOptionStr s)
    (_useGpuSolver s) (_samplingRate s) (_fpsNumerator s) (_fpsDenominator s)
    (_weightCount s) (_channels s) (_skinWeightCount s) (_tongueWeightCount s)
    (_lastCudaStream s) (_nextFrameIndex s) (_pendingFrames s).

Definition set_weightsStaging (v : list Z) (s : SessionContext) : SessionContext :=
  mkSessionContext (_wsSocket s) (_cudaDeviceForThread s) (_bundle s) v
    (_audioFloatScratch s) (_sessionId s) (_modelJsonPath s) (_executionOptionStr s)
    (_useGpuSolver s) (_samplingRate s) (_fpsNumerator s) (_fpsDenominator s)
    (_weightCount s) (_channels s) (_skinWeightCount s) (_tongueWeightCount s)
    (_lastCudaStream s) (_nextFrameIndex s) (_pendingFrames s).

Definition set_audioFloatScratch (v : list Q) (s : SessionContext) : SessionContext :=
  mkSessionContext (_wsSocket s) (_cudaDeviceForThread s) (_bundle s) (_weightsStaging s)
    v (_sessionId s) (_modelJsonPath s) (_executionOptionStr s)
    (_useGpuSolver s) (_samplingRate s) (_fpsNumerator s) (_fpsDenominator s)
    (_weightCount s) (_channels s) (_skinWeightCount s) (_tongueWeightCount s)
    (_lastCudaStream s) (_nextFrameIndex s) (_pendingFrames s).

Definition set_sessionId (v : string) (s : SessionContext) : SessionContext :=
  mkSessionContext (_wsSocket s) (_cudaDeviceForThread s) (_bundle s) (_weightsStaging s)
    (_audioFloatScratch s) v (_modelJsonPath s) (_executionOptionStr s)
    (_useGpuSolver s) (_samplingRate s) (_fpsNumerator s) (_fpsDenominator s)
    (_weightCount s) (_channels s) (_skinWeightCount s) (_tongueWeightCount s)
    (_lastCudaStream s) (_nextFrameIndex s) (_pendingFrames s).

Definition set_lastCudaStream (v : Z) (s : SessionContext) : SessionContext :=
  mkSessionContext (_wsSocket s) (_cudaDeviceForThread s) (_bundle s) (_weightsStaging s)
    (_audioFloatScratch s) (_sessionId s) (_modelJsonPath s) (_executionOptionStr s)
    (_useGpuSolver s) (_samplingRate s) (_fpsNumerator s) (_fpsDenominator s)
    (_weightCount s) (_channels s) (_skinWeightCount s) (_tongueWeightCount s)
    v (_nextFrameIndex s) (_pendingFrames s).

Definition set_nextFrameIndex (v : Z) (s : SessionContext) : SessionContext :=
  mkSessionContext (_wsSocket s) (_cudaDeviceForThread s) (_bundle s) (_weightsStaging s)
    (_audioFloatScratch s) (_sessionId s) (_modelJsonPath s) (_executionOptionStr s)
    (_useGpuSolver s) (_samplingRate s) (_fpsNumerator s) (_fpsDenominator s)
    (_weightCount s) (_channels s) (_skinWeightCount s) (_tongueWeightCount s)
    (_lastCudaStream s) v (_pendingFrames s).

Definition set_pendingFrames (v : list PendingFrame) (s : SessionContext)
  : SessionContext :=
  mkSessionContext (_wsSocket s) (_cudaDeviceForThread s) (_bundle s) (_weightsStaging s)
    (_audioFloatScratch s) (_sessionId s) (_modelJsonPath s) (_executionOptionStr s)
    (_useGpuSolver s) (_samplingRate s) (_fpsNumerator s) (_fpsDenominator s)
    (_weightCount s) (_channels s) (_skinWeightCount s) (_tongueWeightCount s)
    (_lastCudaStream s) (_nextFrameIndex s) v.

(** What a session method works on besides the session itself: the socket
    [_wsSocket] points to, and the statuses of the engine calls to come. *)
Record Env := mkEnv {
  peer : Connection;
  engine : Status
}.

(** ** Helpers of the anonymous namespace *)

Definition kHex : string := "0123456789abcdef".

Definition kHex_at (i : Z) : ascii :=
  nth (Z.to_nat i) (list_ascii_of_string kHex) "0"%char.

(** [RandomHex]: [rnd] are the values drawn from the generator. *)
Fixpoint RandomHex (rnd : list Z) : string :=
  match rnd with
  | [] => EmptyString
  | r :: rest =>
      let v := u8 r in
      String (kHex_at (Z.shiftr v 4)) (String (kHex_at (Z.land v 0x0f)) (RandomHex rest))
  end.

Definition ExecutionOptionToString (opt : ExecutionOption) : string :=
  match opt with
  | OptNone => "None"
  | OptSkin => "Skin"
  | OptTongue => "Tongue"
  | OptSkinTongue => "SkinTongue"
  end.

Definition AppendU32LE (buf : list Z) (v : Z) : list Z :=
  buf ++ [ u8 (Z.land v 0xff); u8 (Z.land (Z.shiftr v 8) 0xff);
           u8 (Z.land (Z.shiftr v 16) 0xff); u8 (Z.land (Z.shiftr v 24) 0xff) ].

Definition AppendU64LE (buf : list Z) (v : Z) : list Z :=
  buf ++ map (fun i => u8 (Z.land (Z.shiftr v (i * 8)) 0xff)) [0; 1; 2; 3; 4; 5; 6; 7].

Definition AppendI64LE (buf : list Z) (v : Z) : list Z :=
  AppendU64LE buf (u64 v).

(** ** SessionContext methods *)

Definition Start (wsSocket : Z) (rnd : list Z) (self : SessionContext)
  : bool * SessionContext :=
  let self := set_wsSocket wsSocket self in
  let self := set_sessionId (RandomHex (take 16 rnd)) self in
  let self := set_pendingFrames [] self in
  let self := set_nextFrameIndex 0 self in
  (true, self).

Definition Stop (self : SessionContext) : SessionContext :=
  set_wsSocket 0 self.

Definition InitNeutralEmotionLocked (bundle : Bundle) (st : Status)
  : bool * Bundle * Status :=
  let zeros := repeat 0%Q (emotionSize bundle) in
  let '(err, st) := next_status st in
  match err with
  | Some _ => (false, bundle, st)
  | None =>
      let bundle :=
        mkBundle (executor bundle) (audioAccumulator bundle)
          (emotionAccumulator bundle ++ [(0, zeros)]) (emotionClosed bundle)
          (emotionSize bundle) (bundleCudaStream bundle) in
      let '(err, st) := next_status st in
      match err with
      | Some _ => (false, bundle, st)
      | None =>
          (true,
           mkBundle (executor bundle) (audioAccumulator bundle)
             (emotionAccumulator bundle) true (emotionSize bundle)
             (bundleCudaStream bundle),
           st)
      end
  end.

Definition ResetForReuse (self : SessionContext) (st : Status)
  : bool * SessionContext * Status :=
  match _bundle self with
  | None => (false, self, st)
  | Some bundle =>
      (* executor.Reset(0) *)
      let '(err, st) := next_status st in
      match err with
      | Some _ => (false, self, st)
      | None =>
          (* GetAudioAccumulator(0).Reset() *)
          let '(err, st) := next_status st in
          match err with
          | Some _ => (false, self, st)
          | None =>
              let bundle :=
                mkBundle (executor bundle) [] (emotionAccumulator bundle)
                  (emotionClosed bundle) (emotionSize bundle) (bundleCudaStream bundle) in
              (* GetEmotionAccumulator(0).Reset() *)
              let '(err, st) := next_status st in
              match err with
              | Some _ => (false, set_bundle (Some bundle) self, st)
              | None =>
                  let bundle :=
                    mkBundle (executor bundle) (audioAccumulator bundle) [] false
                      (emotionSize bundle) (bundleCudaStream bundle) in
                  let '(ok, bundle, st) := InitNeutralEmotionLocked bundle st in
                  let self := set_bundle (Some bundle) self in
                  if negb ok then (false, self, st)
                  else
                    let self := set_pendingFrames [] self in
                    let self := set_nextFrameIndex 0 self in
                    let self := set_lastCudaStream 0 self in
                    (true, self, st)
              end
          end
      end
  end.

Definition SessionId (self : SessionContext) : string := _sessionId self.

Definition DescribeSessionStarted (self : SessionContext) : json :=
  let msg := JNull in
  let msg := set_key msg "type" (JString "SessionStarted") in
  let msg := set_key msg "protocol" (JObject [("version"%string, JUnsigned kProtocolVersion)]) in
  let msg := set_key msg "session_id" (JString (_sessionId self)) in
  let msg := set_key msg "model" (JString (_modelJsonPath self)) in
  let msg :=
    set_key msg "options"
      (JObject [("use_gpu_solver"%string, JBool (_useGpuSolver self));
                ("execution_option"%string, JString (_executionOptionStr self))]) in
  let msg := set_key msg "sampling_rate" (JUnsigned (_samplingRate self)) in
  let msg :=
    set_key msg "frame_rate"
      (JObject [("numerator"%string, JUnsigned (_fpsNumerator self));
                ("denominator"%string, JUnsigned (_fpsDenominator self))]) in
  let msg := set_key msg "weight_count" (JUnsigned (Z.of_nat (_weightCount self))) in
  let msg := set_key msg "channels" (JArray (map JString (_channels self))) in
  let msg :=
    set_key msg "channel_groups"
      (JArray
         [JObject [("name"%string, JString "skin");
                   ("count"%string, JUnsigned (Z.of_nat (_skinWeightCount self)))];
          JObject [("name"%string, JString "tongue");
                   ("count"%string, JUnsigned (Z.of_nat (_tongueWeightCount self)))]]) in
  msg.

Definition ErrorMessage (message : string) : json :=
  set_key (set_key JNull "type" (JString "Error")) "message" (JString message).

Definition SendErrorLocked (message : string) (self : SessionContext) (env : Env)
  : Env :=
  if _wsSocket self =? 0 then env
  else
    let '(_, c) := SendFrame (peer env) a2fws.Text (JsonText (ErrorMessage message)) in
    mkEnv c (engine env).

(** [_weightsStaging->View(offset, size)] *)
Definition View (staging : list Z) (offset size : nat) : list Z :=
  take size (drop offset staging).

(** The effect of the device-to-host copy into [View(offset, |src|)]. *)
Definition CopyInto (staging : list Z) (offset : nat) (src : list Z) : list Z :=
  take offset staging ++ src ++ drop (offset + length src) staging.

(** The tail of [OnDeviceResults], once the device-to-host copy has been
    issued: the staging slot holds the weights, [_lastCudaStream] is the
    stream of the copy, and the frame is appended. *)
Definition StageFrame (results : DeviceResults) (self : SessionContext)
  : SessionContext :=
  let slotIndex := length (_pendingFrames self) in
  let self :=
    set_weightsStaging
      (CopyInto (_weightsStaging self) (slotIndex * _weightCount self)
         (weights results)) self in
  let self := set_lastCudaStream (cudaStream results) self in
  let frame :=
    mkPendingFrame (_nextFrameIndex self) (timeStampCurrentFrame results)
      (timeStampNextFrame results) slotIndex in
  let self := set_nextFrameIndex (u64 (_nextFrameIndex self + 1)) self in
  set_pendingFrames (_pendingFrames self ++ [frame]) self.

Definition OnDeviceResults (results : DeviceResults) (self : SessionContext) (env : Env)
  : bool * SessionContext * Env :=
  if _wsSocket self =? 0 then (false, self, env)
  else if (length (weights results) =? 0)%nat then (true, self, env)
  else if negb (length (weights results) =? _weightCount self)%nat then
    (false, self, SendErrorLocked "Unexpected weight vector size from executor" self env)
  else if (kMaxStagedFrames <=? length (_pendingFrames self))%nat then
    (false, self, SendErrorLocked "Too many pending frames (client too slow?)" self env)
  else
    (* CopyDeviceToHost *)
    let '(err, st) := next_status (engine env) in
    let env := mkEnv (peer env) st in
    match err with
    | Some m =>
        (false, self, SendErrorLocked (String.append "CopyDeviceToHost failed: " m) self env)
    | None => (true, StageFrame results self, env)
    end.

(** The payload of one animation frame. *)
Definition FramePayload (self : SessionContext) (frame : PendingFrame) : list Z :=
  let weights :=
    View (_weightsStaging self) (slotIndex frame * _weightCount self) (_weightCount self) in
  let payload := [] in
  let payload := AppendU32LE payload kFrameMagicA2FB in
  let payload := AppendU32LE payload kProtocolVersion in
  let payload := AppendU32LE payload (u32 (Z.of_nat (_weightCount self))) in
  let payload := AppendU32LE payload 0 in
  let payload := AppendU64LE payload (frameIndex frame) in
  let payload := AppendI64LE payload (tsCurrent frame) in
  let payload := AppendI64LE payload (tsNext frame) in
  fold_left AppendU32LE weights payload.

(** The loop of [FlushPendingFramesLocked] over the pending frames. *)
Fixpoint FlushPendingFrames_send (self : SessionContext) (frames : list PendingFrame)
  (c : Connection) : bool * Connection :=
  match frames with
  | [] => (true, c)
  | frame :: rest =>
      let '(ok, c) := SendFrame c a2fws.Binary (Octets (FramePayload self frame)) in
      if ok then FlushPendingFrames_send self rest c else (false, c)
  end.

Definition FlushPendingFramesLocked (self : SessionContext) (env : Env)
  : bool * SessionContext * Env :=
  match _pendingFrames self with
  | [] => (true, self, env)
  | _ :: _ =>
      if _lastCudaStream self =? 0 then
        (false, self,
         SendErrorLocked "Internal error: no CUDA stream associated with pending frames"
           self env)
      else
        let '(err, st) := next_status (engine env) in
        let env := mkEnv (peer env) st in
        match err with
        | Some m =>
            (false, self,
             SendErrorLocked (String.append "CUDA stream synchronization failed: " m)
               self env)
        | None =>
            let '(ok, c) := FlushPendingFrames_send self (_pendingFrames self) (peer env) in
            let env := mkEnv c (engine env) in
            if ok then (true, set_pendingFrames [] self, env) else (false, self, env)
        end
  end.

(** [executor.Execute(nullptr)] as the session sees it.

    Modelled from the spec: one step of the executor hands its results to
    the registered callback in turn; a callback that returns false cancels
    the rest of the step. *)
Fixpoint Execute_callbacks (results : list DeviceResults) (self : SessionContext)
  (env : Env) : SessionContext * Env :=
  match results with
  | [] => (self, env)
  | r :: rest =>
      let '(ok, self, env) := OnDeviceResults r self env in
      if ok then Execute_callbacks rest self env else (self, env)
  end.

(** The [while (GetNbReadyTracks(executor) > 0)] loop of [PushAudio];
    [steps] are the executor steps that are ready, each with the results it
    delivers. *)
Fixpoint PushAudio_execute (steps : list (list DeviceResults)) (self : SessionContext)
  (env : Env) : bool * SessionContext * Env :=
  match steps with
  | [] => (true, self, env)
  | step :: rest =>
      let '(self, env) := Execute_callbacks step self env in
      let '(err, st) := next_status (engine env) in
      let env := mkEnv (peer env) st in
      match err with
      | Some m =>
          (false, self, SendErrorLocked (String.append "Execute() failed: " m) self env)
      | None =>
          if (kFlushThresholdFrames <=? length (_pendingFrames self))%nat then
            let '(ok, self, env) := FlushPendingFramesLocked self env in
            if ok then PushAudio_execute rest self env else (false, self, env)
          else PushAudio_execute rest self env
      end
  end.

(** [static_cast<float>(pcm[i]) / 32768.0f].  A 16-bit sample divided by a
    power of two is exact in binary32, so the float is this rational. *)
Definition pcm_to_float (sample : Z) : Q := Qmake sample 32768.

Definition Accumulate (samples : list Q) (bundle : Bundle) : Bundle :=
  mkBundle (executor bundle) (audioAccumulator bundle ++ samples)
    (emotionAccumulator bundle) (emotionClosed bundle) (emotionSize bundle)
    (bundleCudaStream bundle).

(** The first part of [PushAudio], up to the second [Accumulate]: the
    checks, the silence for a gap and the converted samples.  The boolean
    tells whether the call goes on to drive the executor; when it does not,
    [PushAudio] returns false. *)
Definition PushAudio_accumulate (startSampleIndex : Z) (pcm : list Z)
  (self : SessionContext) (env : Env) : bool * SessionContext * Env :=
  if startSampleIndex <? 0 then
    (false, self, SendErrorLocked "startSampleIndex must be >= 0" self env)
  else
    (* SetCudaDeviceIfNeeded *)
    let '(err, st) := next_status (engine env) in
    let env := mkEnv (peer env) st in
    match err with
    | Some m =>
        (false, self, SendErrorLocked (String.append "Failed to set CUDA device: " m) self env)
    | None =>
        if _wsSocket self =? 0 then (false, self, env)
        else
          match _bundle self with
          | None =>
              (false, self, SendErrorLocked "Internal error: missing executor bundle" self env)
          | Some bundle =>
              let accumulated := Z.of_nat (length (audioAccumulator bundle)) in
              let startU := u64 startSampleIndex in
              if startU <? accumulated then
                (false, self,
                 SendErrorLocked
                   "PushAudio startSampleIndex is behind the accumulator (out-of-order audio)"
                   self env)
              else
                let gap := u64 (startU - accumulated) in
                if gap >? 16000 * 10 then
                  (false, self, SendErrorLocked "Audio gap too large" self env)
                else
                  (* silence padding *)
                  let '(gapErr, self, bundle, env) :=
                    if gap >? 0 then
                      let self := set_audioFloatScratch (repeat 0%Q (Z.to_nat gap)) self in
                      let '(err, st) := next_status (engine env) in
                      let env := mkEnv (peer env) st in
                      match err with
                      | Some m => (Some m, self, bundle, env)
                      | None =>
                          let bundle := Accumulate (_audioFloatScratch self) bundle in
                          (None, set_bundle (Some bundle) self, bundle, env)
                      end
                    else (None, self, bundle, env) in
                  match gapErr with
                  | Some m =>
                      (false, self,
                       SendErrorLocked (String.append "Failed to fill audio gap: " m) self env)
                  | None =>
                      let self := set_audioFloatScratch (map pcm_to_float pcm) self in
                      let '(err, st) := next_status (engine env) in
                      let env := mkEnv (peer env) st in
                      match err with
                      | Some m =>
                          (false, self,
                           SendErrorLocked (String.append "Failed to accumulate audio: " m)
                             self env)
                      | None =>
                          let bundle := Accumulate (_audioFloatScratch self) bundle in
                          (true, set_bundle (Some bundle) self, env)
                      end
                  end
          end
    end.

Definition PushAudio (startSampleIndex : Z) (pcm : list Z)
  (steps : list (list DeviceResults)) (self : SessionContext) (env : Env)
  : bool * SessionContext * Env :=
  let '(go, self, env) := PushAudio_accumulate startSampleIndex pcm self env in
  if negb go then (false, self, env)
  else
    let '(ok, self, env) := PushAudio_execute steps self env in
    if negb ok then (false, self, env)
    else
      let '(ok, self, env) := FlushPendingFramesLocked self env in
      if negb ok then (false, self, env)
      else (true, self, env).

(** [BuildChannelList] *)
Definition BuildChannelList (self : SessionContext) (ex : Executor)
  : bool * SessionContext :=
  let skin := match skinPoses ex with Some l => l | None => [] end in
  let tongue := match tonguePoses ex with Some l => l | None => [] end in
  let channels := skin ++ tongue in
  let self :=
    mkSessionContext (_wsSocket self) (_cudaDeviceForThread self) (_bundle self)
      (_weightsStaging self) (_audioFloatScratch self) (_sessionId self)
      (_modelJsonPath self) (_executionOptionStr self) (_useGpuSolver self)
      (_samplingRate self) (_fpsNumerator self) (_fpsDenominator self)
      (_weightCount self) channels (length skin) (length tongue)
      (_lastCudaStream self) (_nextFrameIndex self) (_pendingFrames self) in
  if negb (length channels =? _weightCount self)%nat then (false, self)
  else (true, self).

(** [Init].  [made] is what the engine's bundle factory returned. *)
Definition Init (config : ServerConfig) (made : option Bundle) (self : SessionContext)
  (st : Status) : bool * SessionContext * Status :=
  if negb (useGpuSolver config) then (false, self, st)
  else
    let self :=
      mkSessionContext (_wsSocket self) (cudaDevice config) (_bundle self)
        (_weightsStaging self) (_audioFloatScratch self) (_sessionId self)
        (modelJsonPath config) (ExecutionOptionToString (executionOption config))
        (useGpuSolver config) (_samplingRate self) (_fpsNumerator self)
        (_fpsDenominator self) (_weightCount self) (_channels self)
        (_skinWeightCount self) (_tongueWeightCount self) (_lastCudaStream self)
        (_nextFrameIndex self) (_pendingFrames self) in
    (* SetCudaDeviceIfNeeded *)
    let '(err, st) := next_status st in
    match err with
    | Some _ => (false, self, st)
    | None =>
        let self := set_bundle made self in
        match made with
        | None => (false, self, st)
        | Some bundle =>
            let ex := executor bundle in
            if negb (resultTypeIsDevice ex) then (false, self, st)
            else
              (* SetResultsCallback *)
              let '(err, st) := next_status st in
              match err with
              | Some _ => (false, self, st)
              | None =>
                  let self :=
                    mkSessionContext (_wsSocket self) (_cudaDeviceForThread self)
                      (_bundle self) (_weightsStaging self) (_audioFloatScratch self)
                      (_sessionId self) (_modelJsonPath self) (_executionOptionStr self)
                      (_useGpuSolver self) (samplingRate ex) (frameRateNumerator ex)
                      (frameRateDenominator ex) (weightCount ex) (_channels self)
                      (_skinWeightCount self) (_tongueWeightCount self)
                      (_lastCudaStream self) (_nextFrameIndex self) (_pendingFrames self) in
                  let '(ok, self) := BuildChannelList self ex in
                  if negb ok then (false, self, st)
                  else
                    (* CreateHostPinnedTensorFloat *)
                    let '(err, st) := next_status st in
                    match err with
                    | Some _ => (false, self, st)
                    | None =>
                        let self :=
                          set_weightsStaging
                            (repeat 0 (_weightCount self * kMaxStagedFrames)) self in
                        ResetForReuse self st
                    end
              end
        end
    end.

(** ** SessionPool *)

Record SessionPool := mkSessionPool {
  _sessions : list SessionContext;
  _freeIndices : list nat
}.

(** [*_sessions[idx]] *)
Definition Get (pool : SessionPool) (idx : nat) : SessionContext :=
  nth idx (_sessions pool) SessionContext_default.

Definition Acquire (wsSocket : Z) (rnd : list Z) (pool : SessionPool) (st : Status)
  : option nat * SessionPool * Status :=
  match rev (_freeIndices pool) with
  | [] => (None, pool, st)
  | idx :: _ =>
      let pool := mkSessionPool (_sessions pool) (removelast (_freeIndices pool)) in
      let '(ok, session, st) := ResetForReuse (Get pool idx) st in
      let pool := mkSessionPool (<[ idx := session ]> (_sessions pool)) (_freeIndices pool) in
      if negb ok then
        (None, mkSessionPool (_sessions pool) (_freeIndices pool ++ [idx]), st)
      else
        let '(_, session) := Start wsSocket rnd session in
        (Some idx, mkSessionPool (<[ idx := session ]> (_sessions pool)) (_freeIndices pool), st)
  end.

Definition Release (idx : nat) (pool : SessionPool) : SessionPool :=
  if (length (_sessions pool) <=? idx)%nat then pool
  else
    mkSessionPool (<[ idx := Stop (Get pool idx) ]> (_sessions pool))
      (_freeIndices pool ++ [idx]).

(** [SessionPool::Init].  [made] are the bundles the engine's factory
    returns, one for each session in turn; [i] is the loop index. *)
Fixpoint SessionPool_Init_loop (config : ServerConfig) (count i : nat)
  (made : list (option Bundle)) (pool : SessionPool) (st : Status)
  : bool * SessionPool * Status :=
  match count with
  | O => (true, pool, st)
  | S count =>
      let '(ok, session, st) := Init config (hd None made) SessionContext_default st in
      if negb ok then (false, pool, st)
      else
        SessionPool_Init_loop config count (S i) (tl made)
          (mkSessionPool (_sessions pool ++ [session]) (_freeIndices pool ++ [i])) st
  end.

Definition SessionPool_Init (config : ServerConfig) (made : list (option Bundle))
  (st : Status) : bool * SessionPool * Status :=
  SessionPool_Init_loop config (maxSessions config) 0 made (mkSessionPool [] []) st.

(** What the pool keeps between calls: the free indices are indices of
    sessions, none occurs twice, and a free session is detached. *)
Definition pool_invariant (pool : SessionPool) : Prop :=
  Forall (fun idx => (idx < length (_sessions pool))%nat
                     /\ _wsSocket (Get pool idx) = 0) (_freeIndices pool)
  /\ NoDup (_freeIndices pool).

(** ** A session over time *)

(** One [PushAudio] call with the executor steps its audio makes ready. *)
Record PushCall := mkPushCall {
  call_start : Z;
  call_pcm : list Z;
  call_steps : list (list DeviceResults)
}.

(** Successive [PushAudio] calls on one session and connection. *)
Fixpoint PushAll (calls : list PushCall) (self : SessionContext) (env : Env)
  : list bool * SessionContext * Env :=
  match calls with
  | [] => ([], self, env)
  | c :: rest =>
      let '(ok, self, env) :=
        PushAudio (call_start c) (call_pcm c) (call_steps c) self env in
      let '(oks, self, env) := PushAll rest self env in
      (ok :: oks, self, env)
  end.

(** The states a session can be in: a default-constructed session, and
    whatever [Init], [ResetForReuse], [Start], [Stop], [PushAudio] and a
    results callback lead to from one, in any environment.  [P] holds of
    every [DeviceResults] the engine supplies. *)
Inductive reachable (P : DeviceResults -> Prop) : SessionContext -> Prop :=
| reach_default : reachable P SessionContext_default
| reach_Init s config made st :
    reachable P s -> reachable P (snd (fst (Init config made s st)))
| reach_ResetForReuse s st :
    reachable P s -> reachable P (snd (fst (ResetForReuse s st)))
| reach_Start s wsSocket rnd :
    reachable P s -> reachable P (snd (Start wsSocket rnd s))
| reach_Stop s :
    reachable P s -> reachable P (Stop s)
| reach_PushAudio s startSampleIndex pcm steps env :
    reachable P s -> Forall (Forall P) steps ->
    reachable P (snd (fst (PushAudio startSampleIndex pcm steps s env)))
| reach_OnDeviceResults s results env :
    reachable P s -> P results ->
    reachable P (snd (fst (OnDeviceResults results s env))).

(** ** The animation frame as a receiver reads it

    Offsets 16 and 24 of the payload hold [frameIndex] (unsigned) and
    [tsCurrent] (signed), eight octets each, least significant first. *)

Definition little_endian_value (bytes : list Z) : Z :=
  fold_right (fun b acc => b + 256 * acc) 0 bytes.

Definition payload_frameIndex (payload : list Z) : Z :=
  little_endian_value (take 8 (drop 16 payload)).

Definition payload_tsCurrent (payload : list Z) : Z :=
  i64 (little_endian_value (take 8 (drop 24 payload))).

(** The payloads of the binary frames among sent frames. *)
Definition binary_payloads (sent : list (a2fws.Opcode * Body)) : list (list Z) :=
  flat_map (fun m => match m with
                     | (a2fws.Binary, Octets payload) => [payload]
                     | _ => []
                     end) sent.

(** The error frame with a given message. *)
Definition ErrorFrame (message : string) : a2fws.Opcode * Body :=
  (a2fws.Text, JsonText (ErrorMessage message)).

(** The weight views the callback stages: not empty and of the session's
    weight count. *)
Definition staged_view (self : SessionContext) (r : DeviceResults) : bool :=
  negb (length (weights r) =? 0)%nat && (length (weights r) =? _weightCount self)%nat.

(** The other fields of the payload: [magic], [version], [weightCount]
    and [reserved] at offsets 0, 4, 8 and 12, four octets each; [tsNext]
    (signed) at offset 32; from offset 40 on, the weights, four octets
    each.  All least significant octet first. *)

Definition payload_magic (payload : list Z) : Z :=
  little_endian_value (take 4 payload).

Definition payload_version (payload : list Z) : Z :=
  little_endian_value (take 4 (drop 4 payload)).

Definition payload_weightCount (payload : list Z) : Z :=
  little_endian_value (take 4 (drop 8 payload)).

Definition payload_reserved (payload : list Z) : Z :=
  little_endian_value (take 4 (drop 12 payload)).

Definition payload_tsNext (payload : list Z) : Z :=
  i64 (little_endian_value (take 8 (drop 32 payload))).

Fixpoint little_endian_words (bytes : list Z) : list Z :=
  match bytes with
  | b0 :: b1 :: b2 :: b3 :: rest =>
      little_endian_value [b0; b1; b2; b3] :: little_endian_words rest
  | _ => []
  end.

Definition payload_weights (payload : list Z) : list Z :=
  little_endian_words (drop 40 payload).

(** ** Invariants of the pending queue *)

(** At most [kMaxStagedFrames] frames are pending and their slots are
    [0, 1, ..] in queue order. *)
Definition pending_invariant (self : SessionContext) : Prop :=
  (length (_pendingFrames self) <= kMaxStagedFrames)%nat
  /\ map slotIndex (_pendingFrames self) = seq 0 (length (_pendingFrames self)).

(** The frame [OnDeviceResults] appends for [results]. *)
Definition staged_frame (results : DeviceResults) (self : SessionContext) : PendingFrame :=
  mkPendingFrame (_nextFrameIndex self) (timeStampCurrentFrame results)
    (timeStampNextFrame results) (length (_pendingFrames self)).

(** When frames are pending, [_lastCudaStream] is the stream of the
    results the last of them was staged from, and those results satisfy
    [P]. *)
Definition stream_invariant (P : DeviceResults -> Prop) (self : SessionContext) : Prop :=
  match last (_pendingFrames self) with
  | None => True
  | Some frame =>
      exists results,
        P results
        /\ tsCurrent frame = timeStampCurrentFrame results
        /\ tsNext frame = timeStampNextFrame results
        /\ _lastCudaStream self = cudaStream results
  end.

Definition stream_not_null (results : DeviceResults) : Prop := cudaStream results <> 0.

Definition kNoStreamError : string :=
  "Internal error: no CUDA stream associated with pending frames".

(** What a run has sent and staged since [Start], with [staged] the
    frames staged so far and [processed] the results handed to the callback
    so far: the binary frames sent are the first [k] staged frames, the
    pending frames are the staged frames from some [p <= k] on, a peer that
    got only part of the queue has closed, frame indices count up from 0,
    and the staged timestamps are among the processed ones, in order. *)
Definition run_invariant (sent0 : list (a2fws.Opcode * Body)) (staged : list PendingFrame)
  (processed : list DeviceResults) (self : SessionContext) (env : Env) : Prop :=
  exists (news : list (a2fws.Opcode * Body)) (k p : nat),
    outbox (peer env) = sent0 ++ news
    /\ map payload_frameIndex (binary_payloads news) = map frameIndex (take k staged)
    /\ map payload_tsCurrent (binary_payloads news)
       = map (fun f => i64 (tsCurrent f)) (take k staged)
    /\ _pendingFrames self = drop p staged
    /\ (p <= k <= length staged)%nat
    /\ ((p < k)%nat -> credit (peer env) = Some 0%nat)
    /\ map frameIndex staged = map (fun i => Z.of_nat i mod 2 ^ 64) (seq 0 (length staged))
    /\ _nextFrameIndex self = Z.of_nat (length staged) mod 2 ^ 64
    /\ sublist (map tsCurrent staged) (map timeStampCurrentFrame processed).

(** [env'] has sent what [env] had sent and then frames that satisfy [Q]. *)
Definition sends_only (Q : a2fws.Opcode * Body -> Prop) (env env' : Env) : Prop :=
  exists news, outbox (peer env') = outbox (peer env) ++ news /\ Forall Q news.

(** [env'] has sent what [env] had sent and then frames that are not
    binary, and a peer that had closed is still closed. *)
Definition sends_text (env env' : Env) : Prop :=
  (exists extra, outbox (peer env') = outbox (peer env) ++ extra
                 /\ binary_payloads extra = [])
  /\ (credit (peer env) = Some 0%nat -> credit (peer env') = Some 0%nat).

(** A binary frame, and a frame other than the error "no CUDA stream
    associated". *)
Definition binary_frame (m : a2fws.Opcode * Body) : Prop := m.1 = a2fws.Binary.

Definition not_stream_error (m : a2fws.Opcode * Body) : Prop :=
  m <> ErrorFrame kNoStreamError.

(** ** Conditions on a run of [PushAudio] calls *)

(** Each call starts at or after the samples accumulated so far, at most
    160000 samples after them. *)
Fixpoint audio_in_order (accumulated : Z) (calls : list PushCall) : Prop :=
  match calls with
  | [] => True
  | c :: rest =>
      accumulated <= call_start c <= accumulated + 160000
      /\ call_start c < 2 ^ 63
      /\ audio_in_order (call_start c + Z.of_nat (length (call_pcm c))) rest
  end.

(** A step of the executor that the callback takes without complaint:
    every weight view is empty or of the session's weight count, every
    stream is set, and at most 225 views are not empty. *)
Definition step_accepted (weightCount : nat) (step : list DeviceResults) : Prop :=
  Forall (fun r => (length (weights r) = 0%nat \/ length (weights r) = weightCount)
                   /\ cudaStream r <> 0) step
  /\ (length (filter (fun r => negb (length (weights r) =? 0)%nat) step) <= 225)%nat.

(** Every status the engine is going to report is a success. *)
Definition engine_succeeds (st : Status) : Prop := Forall (fun e => e = None) st.

(** The results handed to the callback over a run, in order. *)
Definition results_of (calls : list PushCall) : list DeviceResults :=
  concat (concat (map call_steps calls)).

Definition in_int64 (v : Z) : Prop := - 2 ^ 63 <= v < 2 ^ 63.

(** What the staging buffer holds, with [rs] the results the pending
    frames were staged from, in queue order: the buffer has 256 slots of
    [_weightCount] weights; the frames have the slots [0, 1, ..]; and each
    frame has the next time stamp of its results and, in its slot, their
    weights. *)
Definition staging_invariant (rs : list DeviceResults) (self : SessionContext) : Prop :=
  length (_weightsStaging self) = (_weightCount self * kMaxStagedFrames)%nat
  /\ (length (_pendingFrames self) <= kMaxStagedFrames)%nat
  /\ map slotIndex (_pendingFrames self) = seq 0 (length (_pendingFrames self))
  /\ Forall2 (fun f r =>
                tsNext f = timeStampNextFrame r
                /\ View (_weightsStaging self) (slotIndex f * _weightCount self)
                     (_weightCount self) = weights r)
       (_pendingFrames self) rs.

(** Results whose weights are 32-bit patterns and whose next time stamp is
    an [int64]. *)
Definition results_in_range (r : DeviceResults) : Prop :=
  Forall (fun w => 0 <= w < 2 ^ 32) (weights r) /\ in_int64 (timeStampNextFrame r).

(** Payloads that carry, one for one, the weights and the next time
    stamps of the results [rs]. *)
Definition carries (payloads : list (list Z)) (rs : list DeviceResults) : Prop :=
  map payload_weights payloads = map weights rs
  /\ map payload_tsNext payloads = map timeStampNextFrame rs.

(** ** Sample sessions

    A session initialised for a model of two weights, idle and attached. *)

Definition sample_config : ServerConfig :=
  mkServerConfig "0.0.0.0" 8765 0 1 "model.json" false 0 true true OptSkinTongue 60 1.

Definition sample_bundle : Bundle :=
  mkBundle (mkExecutor true 16000 60 1 2 (Some ["jawOpen"%string]) (Some ["tongueOut"%string]))
    [] [] false 10 7.

Definition sample_idle : SessionContext :=
  snd (fst (Init sample_config (Some sample_bundle) SessionContext_default [])).

Definition sample_attached : SessionContext :=
  snd (Start 1 [] (snd (fst (ResetForReuse sample_idle [])))).

Definition sample_env : Env := mkEnv (mkConnection [] None) [].

Definition sample_results (ts : Z) : DeviceResults :=
  mkDeviceResults 0 [0x3f800000; 0] 7 ts (ts + 1).

(** The attached sample after one executor step has delivered 256
    results. *)
Definition sample_full : SessionContext :=
  fst (Execute_callbacks (map (fun i => sample_results (Z.of_nat i)) (seq 0 256))
         sample_attached sample_env).

End a2fserver.

(** * main.cpp *)

Module Main.
Import a2fserver.

(** ** Character classes of the "C" locale *)

Definition char_code (c : ascii) : Z := Z.of_N (N_of_ascii c).
Definition char_of (v : Z) : ascii := ascii_of_N (Z.to_N v).

Definition isspace (c : ascii) : bool :=
  let v := char_code c in (v =? 32) || ((9 <=? v) && (v <=? 13)).

Definition isalnum (c : ascii) : bool :=
  let v := char_code c in
  ((48 <=? v) && (v <=? 57)) || ((65 <=? v) && (v <=? 90)) || ((97 <=? v) && (v <=? 122)).

Definition tolower (c : ascii) : ascii :=
  let v := char_code c in
  if (65 <=? v) && (v <=? 90) then char_of (v + 32) else c.

Fixpoint map_string (f : ascii -> ascii) (s : string) : string :=
  match s with
  | EmptyString => EmptyString
  | String c rest => String (f c) (map_string f rest)
  end.

Fixpoint filter_string (f : ascii -> bool) (s : string) : string :=
  match s with
  | EmptyString => EmptyString
  | String c rest => if f c then String c (filter_string f rest) else filter_string f rest
  end.

(** [while (!s.empty() && p(s.front())) s.erase(s.begin());] *)
Fixpoint erase_front_while (p : ascii -> bool) (s : string) : string :=
  match s with
  | EmptyString => EmptyString
  | String c rest => if p c then erase_front_while p rest else s
  end.

Definition reverse_string (s : string) : string :=
  string_of_list_ascii (rev (list_ascii_of_string s)).

(** [while (!s.empty() && p(s.back())) s.pop_back();] *)
Definition pop_back_while (p : ascii -> bool) (s : string) : string :=
  reverse_string (erase_front_while p (reverse_string s)).

Definition LowerAscii (s : string) : string := map_string tolower s.

(** [CanonicalizePath], as compiled where [_WIN32] is not defined. *)
Definition CanonicalizePath (s : string) : string :=
  let s := map_string (fun c => if Ascii.eqb c "\"%char then "/"%char else c) s in
  let s := pop_back_while (fun c => Ascii.eqb c "/"%char || isspace c) s in
  let s := erase_front_while isspace s in
  match s with
  | String "."%char (String "/"%char rest) => rest
  | _ => s
  end.

Definition CanonicalizeExecutionOption (s : string) : string :=
  filter_string isalnum (LowerAscii s).

Definition ReadI64LE (data : list Z) : option Z :=
  if (length data <? 8)%nat then None
  else
    Some (i64 (fold_left
                 (fun v i => Z.lor v (u64 (Z.shiftl (nth i data 0) (8 * Z.of_nat i))))
                 (seq 0 8) 0)).

(** [SendJson]: [None] when [msg.dump()] throws, before anything is
    sent; the exception leaves [SendJson]. *)
Definition SendJson (sock : Connection) (msg : json) : option Connection :=
  if dumps msg then Some (snd (SendFrame sock a2fws.Text (JsonText msg))) else None.

(** [oss << n] for a [std::size_t]. *)
Definition decimal (n : Z) : string :=
  NilZero.string_of_uint (N.to_uint (Z.to_N n)).

(** [TryParseFrameRate]: [inl (outNum, outDen)] for true, [inr outError]
    for false. *)
Definition TryParseFrameRate (v : json) : (Z * Z) + string :=
  if is_number_integer v || is_number_unsigned v then
    match get_int64 v with
    | None => inr "fps must be an integer or an object {numerator,denominator}"%string
    | Some fps =>
        if fps <=? 0 then inr "fps must be > 0"%string
        else inl (u64 fps, 1)
    end
  else if is_object v then
    if negb (contains v "numerator") || negb (contains v "denominator") then
      inr "frame_rate must contain numerator and denominator"%string
    else if negb (is_number_integer (at_key v "numerator")
                  || is_number_unsigned (at_key v "numerator"))
         || negb (is_number_integer (at_key v "denominator")
                  || is_number_unsigned (at_key v "denominator")) then
      inr "frame_rate numerator/denominator must be integers"%string
    else
      match get_int64 (at_key v "numerator"), get_int64 (at_key v "denominator") with
      | Some num, Some den =>
          if (num <=? 0) || (den <=? 0) then
            inr "frame_rate numerator/denominator must be > 0"%string
          else inl (u64 num, u64 den)
      | _, _ => inr "frame_rate numerator/denominator must be integers"%string
      end
  else inr "fps must be an integer or an object {numerator,denominator}"%string.

(** The result of [ValidateStartSessionRequest]: true, false with
    [outError], or an exception of the JSON library. *)
Inductive Validation :=
| Valid
| Invalid (outError : string)
| Thrown.

Definition Validate_model (request sessionStarted : json) : Validation :=
  if contains request "model" then
    match get_string (at_key request "model") with
    | None => Invalid "StartSession.model must be a string"
    | Some reqModelRaw =>
        let reqModel := CanonicalizePath reqModelRaw in
        match value_string sessionStarted "model" "" with
        | None => Thrown
        | Some actualRaw =>
            let actualModel := CanonicalizePath actualRaw in
            if negb (String.eqb actualModel "") && negb (String.eqb reqModel actualModel)
            then Invalid "Requested model does not match server model"
            else Valid
        end
    end
  else Valid.

Definition frame_rate_mismatch (reqNum reqDen actualNum actualDen : Z) : string :=
  String.append "Requested frame_rate "
    (String.append (decimal reqNum)
       (String.append "/"
          (String.append (decimal reqDen)
             (String.append " does not match server "
                (String.append (decimal actualNum)
                   (String.append "/" (decimal actualDen))))))).

Definition Validate_frame_rate (request sessionStarted : json) : Validation :=
  if contains request "fps" || contains request "frame_rate" then
    let fpsVal :=
      if contains request "frame_rate" then at_key request "frame_rate"
      else at_key request "fps" in
    match TryParseFrameRate fpsVal with
    | inr parseErr => Invalid parseErr
    | inl (reqNum, reqDen) =>
        if negb (contains sessionStarted "frame_rate")
           || negb (is_object (at_key sessionStarted "frame_rate")) then
          Invalid "Internal error: missing frame_rate in SessionStarted"
        else
          let fr := at_key sessionStarted "frame_rate" in
          if negb (contains fr "numerator") || negb (contains fr "denominator") then
            Invalid "Internal error: invalid frame_rate in SessionStarted"
          else
            match get_size_t (at_key fr "numerator"), get_size_t (at_key fr "denominator") with
            | Some actualNum, Some actualDen =>
                if negb (reqNum =? actualNum) || negb (reqDen =? actualDen) then
                  Invalid (frame_rate_mismatch reqNum reqDen actualNum actualDen)
                else Valid
            | _, _ => Thrown
            end
    end
  else Valid.

Definition Validate_options (request sessionStarted : json) : Validation :=
  if contains request "options" then
    if negb (is_object (at_key request "options")) then
      Invalid "StartSession.options must be an object"
    else if negb (contains sessionStarted "options")
         || negb (is_object (at_key sessionStarted "options")) then
      Invalid "Internal error: missing options in SessionStarted"
    else
      let reqOpt := at_key request "options" in
      let actualOpt := at_key sessionStarted "options" in
      let gpu :=
        if contains reqOpt "use_gpu_solver" then
          match get_bool (at_key reqOpt "use_gpu_solver") with
          | None => Invalid "options.use_gpu_solver must be boolean"
          | Some reqGpu =>
              match value_bool actualOpt "use_gpu_solver" true with
              | None => Thrown
              | Some actualGpu =>
                  if negb (Bool.eqb reqGpu actualGpu) then
                    Invalid "options.use_gpu_solver does not match server"
                  else Valid
              end
          end
        else Valid in
      match gpu with
      | Valid =>
          if contains reqOpt "execution_option" then
            match get_string (at_key reqOpt "execution_option") with
            | None => Invalid "options.execution_option must be a string"
            | Some reqRaw =>
                let reqExec := CanonicalizeExecutionOption reqRaw in
                match value_string actualOpt "execution_option" "" with
                | None => Thrown
                | Some actualRaw =>
                    let actualExec := CanonicalizeExecutionOption actualRaw in
                    if negb (String.eqb actualExec "")
                       && negb (String.eqb reqExec actualExec) then
                      Invalid "options.execution_option does not match server"
                    else Valid
                end
            end
          else Valid
      | other => other
      end
  else Valid.

(** [ValidateStartSessionRequest]: the three groups of checks in the order
    of the source, the first failure deciding. *)
Definition ValidateStartSessionRequest (request sessionStarted : json) : Validation :=
  match Validate_model request sessionStarted with
  | Valid =>
      match Validate_frame_rate request sessionStarted with
      | Valid => Validate_options request sessionStarted
      | other => other
      end
  | other => other
  end.

(** ** HandleClient *)

Definition kMaxPayload : Z := 4 * 1024 * 1024.

(** The state of one connection's worker: the pool it shares, its socket
    [client], the session bound to the connection and the statuses of the
    engine calls to come. *)

Record Worker := mkWorker {
  pool : SessionPool;
  client : Connection;
  sessionIndex : option nat;
  status : Status
}.

(** What one turn of the loop leads to: the next turn, the end of the
    loop, or an exception that leaves [HandleClient], which has no handler
    but the one around [json::parse]. *)
Inductive Turn :=
| Continue (w : Worker)
| Break (w : Worker)
| Uncaught.

(** [SendJson(client, msg); continue;] *)
Definition SendJson_continue (msg : json) (w : Worker) : Turn :=
  match SendJson (client w) msg with
  | Some sock => Continue (mkWorker (pool w) sock (sessionIndex w) (status w))
  | None => Uncaught
  end.

(** [SendJson(client, json{{"type", "Error"}, {"message", message}}); continue;] *)
Definition SendError (message : string) (w : Worker) : Turn :=
  SendJson_continue (ErrorMessage message) w.

(** [type == "StartSession"].  [clientAddr] is [&client]; [rnd] are the
    values drawn for the session id. *)
Definition HandleStartSession (msg : json) (clientAddr : Z) (rnd : list Z) (w : Worker)
  : Turn :=
  match sessionIndex w with
  | Some _ => SendError "Session already started for this connection" w
  | None =>
      let '(acquired, pool', st) := Acquire clientAddr rnd (pool w) (status w) in
      let w := mkWorker pool' (client w) (sessionIndex w) st in
      match acquired with
      | None => SendError "Server busy (no free sessions)" w
      | Some idx =>
          let started := DescribeSessionStarted (Get (pool w) idx) in
          match ValidateStartSessionRequest msg started with
          | Thrown => Uncaught
          | Invalid validationError =>
              let w := mkWorker (Release idx (pool w)) (client w) (sessionIndex w) (status w) in
              SendError validationError w
          | Valid =>
              SendJson_continue started
                (mkWorker (pool w) (client w) (Some idx) (status w))
          end
      end
  end.

(** [type == "EndSession"] *)
Definition HandleEndSession (msg : json) (w : Worker) : Turn :=
  match sessionIndex w with
  | None => SendError "No active session for this connection" w
  | Some idx =>
      let sid := SessionId (Get (pool w) idx) in
      let ended :=
        let w := mkWorker (Release idx (pool w)) (client w) None (status w) in
        let reply :=
          set_key (set_key JNull "type" (JString "SessionEnded")) "session_id" (JString sid) in
        SendJson_continue reply w in
      if contains msg "session_id" then
        match get_string (at_key msg "session_id") with
        | None => SendError "EndSession.session_id must be a string" w
        | Some given =>
            if negb (String.eqb given sid) then
              SendError "EndSession.session_id does not match active session" w
            else ended
        end
      else ended
  end.

(** A text frame whose payload parsed to [msg]. *)
Definition HandleText (msg : json) (clientAddr : Z) (rnd : list Z) (w : Worker) : Turn :=
  match value_string msg "type" "" with
  | None => Uncaught
  | Some type =>
      if String.eqb type "StartSession" then HandleStartSession msg clientAddr rnd w
      else if String.eqb type "EndSession" then HandleEndSession msg w
      else SendError "Unknown message type" w
  end.

(** The samples at [payload.data() + 8], read as [std::int16_t] on a
    little-endian host. *)
Fixpoint pcm_of_bytes (bytes : list Z) : list Z :=
  match bytes with
  | lo :: hi :: rest =>
      let v := lo + 256 * hi in
      (if v <? 32768 then v else v - 65536) :: pcm_of_bytes rest
  | _ => []
  end.

(** A binary frame; [steps] are the executor steps the audio makes ready. *)
Definition HandleBinary (payload : list Z) (steps : list (list DeviceResults)) (w : Worker)
  : Turn :=
  match sessionIndex w with
  | None => SendError "StartSession must be called before PushAudio" w
  | Some idx =>
      if (length payload <? 8)%nat || negb (((length payload - 8) mod 2 =? 0)%nat) then
        SendError "Invalid PushAudio binary payload" w
      else
        match ReadI64LE payload with
        | None => SendError "Invalid PushAudio header" w
        | Some startSample =>
            let pcm := pcm_of_bytes (drop 8 payload) in
            let '(_, session, env) :=
              PushAudio startSample pcm steps (Get (pool w) idx)
                (mkEnv (client w) (status w)) in
            Continue
              (mkWorker
                 (mkSessionPool (<[ idx := session ]> (_sessions (pool w)))
                    (_freeIndices (pool w)))
                 (peer env) (sessionIndex w) (engine env))
        end
  end.

(** ** The frame rate a request asks for

    Following the protocol's words: [fps] stands for the rate fps/1,
    [frame_rate] for its [numerator] over its [denominator]; integers
    only. *)

Definition integer_value (j : json) : option Z :=
  match j with
  | JInteger v | JUnsigned v => Some v
  | _ => None
  end.

Definition requested_rate (request : json) (num den : Z) : Prop :=
  (contains request "frame_rate"%string = false
   /\ integer_value (at_key request "fps"%string) = Some num /\ den = 1)
  \/ (integer_value (at_key (at_key request "frame_rate"%string) "numerator"%string) = Some num
      /\ integer_value (at_key (at_key request "frame_rate"%string) "denominator"%string) = Some den).

(** ** Sample worker

    A connection with no session yet, over a pool whose one session is
    free; the server's frame rate is 60/1. *)

Definition sample_worker : Worker :=
  mkWorker (mkSessionPool [sample_idle] [0%nat]) (mkConnection [] None) None [].

(** ** ParseExecutionOption *)

Definition ParseExecutionOption (s : string) : option ExecutionOption :=
  let v := map_string tolower s in
  if String.eqb v "skintongue" then Some OptSkinTongue
  else if String.eqb v "skin" then Some OptSkin
  else if String.eqb v "tongue" then Some OptTongue
  else if String.eqb v "none" then Some OptNone
  else None.

(** ** The PushAudio payload as a client writes it

    Following the protocol's words: [startSampleIndex] in eight octets,
    then every sample in two octets, all least significant octet first. *)

Definition pcm_bytes (samples : list Z) : list Z :=
  flat_map (fun s => [s mod 256; (s / 256) mod 256]) samples.

Definition PushAudio_payload (startSampleIndex : Z) (samples : list Z) : list Z :=
  map (fun i => (startSampleIndex / 256 ^ i) mod 256) [0; 1; 2; 3; 4; 5; 6; 7]
  ++ pcm_bytes samples.

(** ** The loop of [HandleClient]

    [json::parse] is outside the repository: [parse] gives the value a
    text payload parses to, or [e.what()] when it throws; the message of
    the library quotes the octets it could not read, so that [e.what()]
    need not be well-formed UTF-8.  One message from
    the client is the frame [ReadFrame] returned, together with the values
    drawn if it starts a session and the executor steps its audio makes
    ready. *)

Record Incoming := mkIncoming {
  in_frame : a2fws.Frame;
  in_rnd : list Z;
  in_steps : list (list DeviceResults)
}.

(** One turn of the loop, after [ReadFrame] has returned true. *)
Definition HandleFrame (parse : list Z -> json + string) (clientAddr : Z)
  (m : Incoming) (w : Worker) : Turn :=
  let frame := in_frame m in
  match a2fws.opcode frame with
  | a2fws.Ping =>
      Continue
        (mkWorker (pool w)
           (snd (SendFrame (client w) a2fws.Pong (Octets (a2fws.payload frame))))
           (sessionIndex w) (status w))
  | a2fws.Close =>
      Break
        (mkWorker (pool w) (snd (SendFrame (client w) a2fws.Close (Octets [])))
           (sessionIndex w) (status w))
  | a2fws.Text =>
      match parse (a2fws.payload frame) with
      | inr what => SendError (String.append "Invalid JSON: " what) w
      | inl msg => HandleText msg clientAddr (in_rnd m) w
      end
  | a2fws.Binary => HandleBinary (a2fws.payload frame) (in_steps m) w
  | _ => Continue w
  end.

(** The loop: [incoming] are the frames [ReadFrame] returns before it
    fails.  [None] is an exception that leaves [HandleClient]. *)
Fixpoint HandleClient_loop (parse : list Z -> json + string) (clientAddr : Z)
  (incoming : list Incoming) (w : Worker) : option Worker :=
  match incoming with
  | [] => Some w
  | m :: rest =>
      match HandleFrame parse clientAddr m w with
      | Continue w => HandleClient_loop parse clientAddr rest w
      | Break w => Some w
      | Uncaught => None
      end
  end.

(** [HandleClient] from the end of the handshake on: the loop, then the
    release of the session the connection still holds. *)
Definition HandleClient (parse : list Z -> json + string) (clientAddr : Z)
  (incoming : list Incoming) (pool0 : SessionPool) (client0 : Connection)
  (st : Status) : option Worker :=
  match HandleClient_loop parse clientAddr incoming (mkWorker pool0 client0 None st) with
  | None => None
  | Some w =>
      match sessionIndex w with
      | Some idx =>
          Some (mkWorker (Release idx (pool w)) (client w) (sessionIndex w) (status w))
      | None => Some w
      end
  end.

(** What a worker keeps from turn to turn, over a pool of [n] sessions
    whose free indices were [free0] when the connection was accepted: the
    free indices, together with the session the connection holds, are
    [free0] in some order; and every free session is detached. *)
Definition held (w : Worker) : list nat :=
  match sessionIndex w with
  | Some idx => [idx]
  | None => []
  end.

(** The strings a session puts into its messages are well-formed UTF-8:
    its id, the model path, the name of the execution option and the names
    of the channels. *)
Definition session_text (s : SessionContext) : Prop :=
  utf8 (_sessionId s) = true /\ utf8 (_modelJsonPath s) = true
  /\ utf8 (_executionOptionStr s) = true /\ forallb utf8 (_channels s) = true.

Definition worker_invariant (n : nat) (free0 : list nat) (w : Worker) : Prop :=
  length (_sessions (pool w)) = n
  /\ Permutation (_freeIndices (pool w) ++ held w) free0
  /\ Forall (fun idx => _wsSocket (Get (pool w) idx) = 0) (_freeIndices (pool w)).

End Main.

(** * websocket_server.cpp: the opening handshake

    [ToLower], [Trim], [Socket::RecvUntil] and [PerformServerHandshake].
    They use the character classes of the "C" locale given with main.cpp
    above. *)

Module Handshake.
Import a2fws Main.

Definition CR : ascii := "013"%char.
Definition LF : ascii := "010"%char.
Definition CRLF : string := String CR (String LF EmptyString).

(** Characters of the octets [recv] stores in a [char] buffer. *)
Definition string_of_bytes (data : list Z) : string :=
  string_of_list_ascii (map char_of data).

Definition ToLower (s : string) : string := map_string tolower s.

(** [Trim]: [start] passes the leading white space; [end] steps back over
    the trailing white space and stops at [start]. *)
Definition Trim (s : string) : string :=
  pop_back_while isspace (erase_front_while isspace s).

(** [s.find(needle)]: the first position at which [needle] occurs. *)
Fixpoint find (needle s : string) : option nat :=
  if String.prefix needle s then Some O
  else
    match s with
    | EmptyString => None
    | String _ rest => option_map S (find needle rest)
    end.

(** [s.find(c)] *)
Fixpoint find_char (c : ascii) (s : string) : option nat :=
  match s with
  | EmptyString => None
  | String d rest => if Ascii.eqb d c then Some O else option_map S (find_char c rest)
  end.

(** One [recv] into a buffer of [n] octets.  The system decides how many
    octets arrive at once: [chunk] of them, at least one and at most [n]
    and at most what is left of the stream.  [None] stands for a result
    [<= 0]: the stream has ended. *)
Definition recv (sock : Socket) (n chunk : nat) : option (list Z) * Socket :=
  match rx sock with
  | [] => (None, sock)
  | _ :: _ =>
      let k := Nat.max 1 (Nat.min chunk n) in
      (Some (take k (rx sock)), mkSocket (drop k (rx sock)) (tx sock) (txLimit sock))
  end.

(** [Socket::RecvUntil]: [Some out] for true.  [chunks] gives the size of
    each [recv] in turn, 1024 once it is used up.  Every turn of the loop
    appends at least one octet, so that [while (out.size() < maxBytes)]
    runs at most [maxBytes] times. *)
Fixpoint RecvUntil_loop (fuel : nat) (chunks : list nat) (sock : Socket) (out : string)
  (delimiter : string) (maxBytes : nat) : option string * Socket :=
  match fuel with
  | O => (None, sock)
  | S fuel' =>
      if (String.length out <? maxBytes)%nat then
        match recv sock 1024 (hd 1024%nat chunks) with
        | (None, sock) => (None, sock)
        | (Some received, sock) =>
            let out := String.append out (string_of_bytes received) in
            match find delimiter out with
            | Some _ => (Some out, sock)
            | None => RecvUntil_loop fuel' (tl chunks) sock out delimiter maxBytes
            end
        end
      else (None, sock)
  end.

Definition RecvUntil (chunks : list nat) (sock : Socket) (delimiter : string)
  (maxBytes : nat) : option string * Socket :=
  RecvUntil_loop maxBytes chunks sock EmptyString delimiter maxBytes.

(** The lines [std::getline] extracts from a stream over [s], one after
    another until it fails: a line ends before a line feed, which is
    dropped, or at the end of [s]; nothing is extracted once no character
    is left. *)
Fixpoint getlines (s : string) : list string :=
  match s with
  | EmptyString => []
  | String c rest =>
      if Ascii.eqb c LF then EmptyString :: getlines rest
      else
        match getlines rest with
        | [] => [String c EmptyString]
        | line :: lines => String c line :: lines
        end
  end.

(** [if (!line.empty() && line.back() == '\r') line.pop_back();] *)
Definition pop_back_cr (line : string) : string :=
  match reverse_string line with
  | String c rest => if Ascii.eqb c CR then reverse_string rest else line
  | EmptyString => line
  end.

(** The loop over the header lines, with [secKey] and [isWebSocket]. *)
Fixpoint PerformServerHandshake_lines (lines : list string) (secKey : string)
  (isWebSocket : bool) : string * bool :=
  match lines with
  | [] => (secKey, isWebSocket)
  | line :: lines =>
      let line := pop_back_cr line in
      if String.eqb line EmptyString then (secKey, isWebSocket)
      else
        match find_char ":"%char line with
        | None => PerformServerHandshake_lines lines secKey isWebSocket
        | Some colonPos =>
            let key := ToLower (Trim (substring 0 colonPos line)) in
            let value :=
              Trim (substring (colonPos + 1) (String.length line - (colonPos + 1)) line) in
            if String.eqb key "sec-websocket-key" then
              PerformServerHandshake_lines lines value isWebSocket
            else if String.eqb key "upgrade" && String.eqb (ToLower value) "websocket" then
              PerformServerHandshake_lines lines secKey true
            else PerformServerHandshake_lines lines secKey isWebSocket
        end
  end.

(** [resp.str()] *)
Definition PerformServerHandshake_response (accept : string) : string :=
  String.append "HTTP/1.1 101 Switching Protocols"
    (String.append CRLF
       (String.append "Upgrade: websocket"
          (String.append CRLF
             (String.append "Connection: Upgrade"
                (String.append CRLF
                   (String.append "Sec-WebSocket-Accept: "
                      (String.append accept (String.append CRLF CRLF)))))))).

Definition PerformServerHandshake (chunks : list nat) (sock : Socket) : bool * Socket :=
  match RecvUntil chunks sock (String.append CRLF CRLF) (16 * 1024) with
  | (None, sock) => (false, sock)
  | (Some request, sock) =>
      let '(secKey, isWebSocket) :=
        PerformServerHandshake_lines (getlines request) EmptyString false in
      if negb isWebSocket || String.eqb secKey EmptyString then (false, sock)
      else
        SendAll sock
          (bytes_of_string (PerformServerHandshake_response (WebSocketAcceptKey secKey)))
  end.

(** ** A request as a client writes it

    A request line and header fields, each line ended by CR LF, and an
    empty line. *)

Definition header_line (h : string * string) : string :=
  String.append (fst h) (String.append ":" (String.append (snd h) CRLF)).

Fixpoint header_lines (headers : list (string * string)) : string :=
  match headers with
  | [] => EmptyString
  | h :: rest => String.append (header_line h) (header_lines rest)
  end.

Definition request_text (start : string) (headers : list (string * string)) : string :=
  String.append start (String.append CRLF (String.append (header_lines headers) CRLF)).

(** [c] does not occur in [s]. *)
Definition free_of (c : ascii) (s : string) : Prop := find_char c s = None.

(** A request line that is not empty and has no colon and no line feed,
    and fields whose names have no colon and no line feed and whose
    values have no line feed. *)
Definition request_well_formed (start : string) (headers : list (string * string))
  : Prop :=
  start <> EmptyString /\ free_of ":" start /\ free_of LF start
  /\ Forall (fun h => free_of ":" (fst h) /\ free_of LF (fst h) /\ free_of LF (snd h))
       headers.

(** What the fields ask for: the value of the last Sec-WebSocket-Key
    field, and whether a field Upgrade has the value websocket; names and
    the value of Upgrade without regard to case, names and values without
    the white space around them. *)
Definition field_name (h : string * string) : string := ToLower (Trim (fst h)).
Definition field_value (h : string * string) : string := Trim (snd h).

Definition requested_key (headers : list (string * string)) : string :=
  fold_left (fun key h => if String.eqb (field_name h) "sec-websocket-key"
                          then field_value h else key)
    headers EmptyString.

Definition upgrade_requested (headers : list (string * string)) : bool :=
  existsb (fun h => String.eqb (field_name h) "upgrade"
                    && String.eqb (ToLower (field_value h)) "websocket")
    headers.

End Handshake.

(** * Known answers

    The reference definitions on the test vectors of their standards, and
    the code on the vector of the handshake. *)

Example SHA1_abc :
  FIPS180.SHA1 (bytes_of_string "abc")
  = [0xa9; 0x99; 0x3e; 0x36; 0x47; 0x06; 0x81; 0x6a; 0xba; 0x3e;
     0x25; 0x71; 0x78; 0x50; 0xc2; 0x6c; 0x9c; 0xd0; 0xd8; 0x9d].
Proof. vm_compute. reflexivity. Qed.

Example SHA1_empty :
  FIPS180.SHA1 []
  = [0xda; 0x39; 0xa3; 0xee; 0x5e; 0x6b; 0x4b; 0x0d; 0x32; 0x55;
     0xbf; 0xef; 0x95; 0x60; 0x18; 0x90; 0xaf; 0xd8; 0x07; 0x09].
Proof. vm_compute. reflexivity. Qed.

Example SHA1_two_blocks :
  FIPS180.SHA1
    (bytes_of_string "abcdbcdecdefdefgefghfghighijhijkijkljklmklmnlmnomnopnopq")
  = [0x84; 0x98; 0x3e; 0x44; 0x1c; 0x3b; 0xd2; 0x6e; 0xba; 0xae;
     0x4a; 0xa1; 0xf9; 0x51; 0x29; 0xe5; 0xe5; 0x46; 0x70; 0xf1].
Proof. vm_compute. reflexivity. Qed.

Example Base64_foobar :
  map (fun s => RFC4648.Base64 (bytes_of_string s))
    [""; "f"; "fo"; "foo"; "foob"; "fooba"; "foobar"]%string
  = [""; "Zg=="; "Zm8="; "Zm9v"; "Zm9vYg=="; "Zm9vYmE="; "Zm9vYmFy"]%string.
Proof. vm_compute. reflexivity. Qed.

Example Sha1_accept_digest :
  a2fws.Sha1
    (bytes_of_string "dGhlIHNhbXBsZSBub25jZQ==258EAFA5-E914-47DA-95CA-C5AB0DC85B11")
  = [0xb3; 0x7a; 0x4f; 0x2c; 0xc0; 0x62; 0x4f; 0x16; 0x90; 0xf6;
     0x46; 0x06; 0xcf; 0x38; 0x59; 0x45; 0xb2; 0xbe; 0xc4; 0xea].
Proof. vm_compute. reflexivity. Qed.

(** * Properties *)

(** ** Bit arithmetic *)

Lemma land_0xff x : Z.land x 0xff = x mod 256.
Proof. change 0xff with (Z.ones 8). now rewrite Z.land_ones by lia. Qed.

Lemma land_0x7f x : Z.land x 0x7f = x mod 128.
Proof. change 0x7f with (Z.ones 7). now rewrite Z.land_ones by lia. Qed.

Lemma land_0x0f x : Z.land x 0x0f = x mod 16.
Proof. change 0x0f with (Z.ones 4). now rewrite Z.land_ones by lia. Qed.

Lemma land_0x3f x : Z.land x 0x3f = x mod 64.
Proof. change 0x3f with (Z.ones 6). now rewrite Z.land_ones by lia. Qed.

Lemma u8_small x : 0 <= x < 256 -> u8 x = x.
Proof. intros. unfold u8. rewrite land_0xff. now apply Z.mod_small. Qed.

Lemma u8_mod x : u8 (x mod 256) = x mod 256.
Proof. apply u8_small. apply Z.mod_pos_bound. lia. Qed.

Lemma testbit_small x n i : 0 <= x < 2 ^ n -> 0 <= n <= i -> Z.testbit x i = false.
Proof.
  intros Hx Hi. rewrite <- (Z.mod_small x (2 ^ n)) by lia.
  now apply Z.mod_pow2_bits_high.
Qed.

Lemma land_shiftl_disjoint hi lo n :
  0 <= n -> 0 <= lo < 2 ^ n -> Z.land (hi * 2 ^ n) lo = 0.
Proof.
  intros Hn Hlo. apply Z.bits_inj'. intros i Hi.
  rewrite Z.land_spec, Z.bits_0.
  destruct (Z.ltb_spec i n).
  - rewrite Z.mul_pow2_bits_low by lia. reflexivity.
  - rewrite (testbit_small lo n i) by lia. apply andb_false_r.
Qed.

Lemma lor_shiftl_add hi lo n :
  0 <= n -> 0 <= lo < 2 ^ n -> Z.lor (Z.shiftl hi n) lo = hi * 2 ^ n + lo.
Proof.
  intros Hn Hlo. rewrite Z.shiftl_mul_pow2 by lia.
  rewrite <- Z.lxor_lor, <- Z.add_nocarry_lxor;
    auto using land_shiftl_disjoint.
Qed.

Lemma land_0x80_testbit x : (Z.land x 0x80 =? 0) = negb (Z.testbit x 7).
Proof.
  assert (H : Z.land x 0x80 = if Z.testbit x 7 then 0x80 else 0).
  { apply Z.bits_inj'. intros i Hi. rewrite Z.land_spec.
    replace (Z.testbit 0x80 i) with (7 =? i)
      by (symmetry; apply (Z.pow2_bits_eqb 7); lia).
    destruct (Z.eqb_spec 7 i) as [<-|Hne].
    - rewrite andb_true_r. now destruct (Z.testbit x 7).
    - rewrite andb_false_r. destruct (Z.testbit x 7).
      + symmetry. apply (Z.pow2_bits_false 7). lia.
      + now rewrite Z.bits_0. }
  rewrite H. now destruct (Z.testbit x 7).
Qed.

(** ** The frame codec *)

Section FrameCodec.
Import a2fws Framing.

Lemma RecvAll_app (pre post txs : list Z) (lim : option nat) :
  RecvAll (mkSocket (pre ++ post) txs lim) (length pre)
  = (Some pre, mkSocket post txs lim).
Proof.
  unfold RecvAll. cbn [rx tx txLimit].
  rewrite length_app.
  destruct (Nat.leb_spec (length pre) (length pre + length post)); [|lia].
  now rewrite take_app_length, drop_app_length.
Qed.

Lemma ReadFrame_ext_big_endian (ext : list Z) (acc : Z) :
  Forall is_byte ext -> (length ext <= 8)%nat ->
  0 <= acc < 256 ^ (8 - Z.of_nat (length ext)) ->
  fold_left (fun payloadLen b => Z.lor (u64 (Z.shiftl payloadLen 8)) b) ext acc
  = fold_left (fun acc b => acc * 256 + b) ext acc.
Proof.
  intros Hb. revert acc. induction Hb as [|b ext Hb _ IH]; intros acc Hlen Hacc.
  - reflexivity.
  - cbn [fold_left]. cbn [length] in Hlen, Hacc.
    assert (Hpow : 256 ^ (8 - Z.of_nat (length ext))
                   = 256 * 256 ^ (8 - Z.of_nat (S (length ext)))).
    { rewrite <- Z.pow_succ_r by lia. f_equal. lia. }
    assert (Hle : 256 ^ (8 - Z.of_nat (length ext)) <= 256 ^ 8).
    { apply Z.pow_le_mono_r; lia. }
    assert (Hstep : Z.lor (u64 (Z.shiftl acc 8)) b = acc * 256 + b).
    { unfold u64. rewrite Z.shiftl_mul_pow2 by lia.
      rewrite Z.mod_small by (change (2 ^ 64) with (256 ^ 8); change (2 ^ 8) with 256; lia).
      rewrite <- Z.shiftl_mul_pow2 by lia.
      rewrite lor_shiftl_add; unfold is_byte in Hb; lia. }
    rewrite Hstep. apply IH; [lia|]. unfold is_byte in Hb. lia.
Qed.

Lemma ReadFrame_ext_value (ext : list Z) :
  Forall is_byte ext -> length ext = 8%nat -> ReadFrame_ext ext = big_endian_value ext.
Proof.
  intros Hb Hlen. unfold ReadFrame_ext, big_endian_value.
  apply ReadFrame_ext_big_endian; auto; rewrite Hlen; simpl; lia.
Qed.

Lemma ext16_value (e0 e1 : Z) :
  is_byte e1 -> Z.lor (Z.shiftl e0 8) e1 = big_endian_value [e0; e1].
Proof.
  intros H. unfold is_byte in H. rewrite lor_shiftl_add by lia.
  unfold big_endian_value. cbn [fold_left]. change (2 ^ 8) with 256. lia.
Qed.

(** Reading the two header octets and the extended length. *)
Ltac read_header b0 b1 ext :=
  unfold ReadFrame;
  change (b0 :: b1 :: ?t) with ([b0; b1] ++ t);
  rewrite (RecvAll_app [b0; b1]);
  cbn [nth negb];
  rewrite ?land_0x80_testbit, ?land_0x7f, ?land_0x0f, ?negb_involutive;
  fold (fin_bit b0); fold (mask_bit b1); fold (len7 b1); fold (opcode_bits b0).

Lemma ReadFrame_not_fin (b0 b1 : Z) (tail txs : list Z) (lim : option nat) (max : Z) :
  fin_bit b0 = false ->
  ReadFrame (mkSocket (b0 :: b1 :: tail) txs lim) max = (None, mkSocket tail txs lim).
Proof.
  intros Hfin. read_header b0 b1 tail. rewrite Hfin. reflexivity.
Qed.

(** After a header with [fin] set, [ReadFrame] has read the extended
    length and holds the declared length. *)
Lemma ReadFrame_length (b0 b1 : Z) (ext tail txs : list Z) (lim : option nat) (max : Z) :
  Forall is_byte ext -> length ext = ext_size b1 -> fin_bit b0 = true ->
  ReadFrame (mkSocket (b0 :: b1 :: ext ++ tail) txs lim) max
  = let payloadLen := declared_length b1 ext in
    let sock := mkSocket tail txs lim in
    if payloadLen >? max then (None, sock)
    else
      let '(key, sock) :=
        if mask_bit b1 then RecvAll sock 4 else (Some [0; 0; 0; 0], sock) in
      match key with
      | None => (None, sock)
      | Some maskKey =>
          let '(body, sock) :=
            if payloadLen >? 0 then RecvAll sock (Z.to_nat payloadLen)
            else (Some [], sock) in
          match body with
          | None => (None, sock)
          | Some payload =>
              (Some (mkFrame true (Opcode_cast (opcode_bits b0))
                       (if mask_bit b1 then unmask maskKey 0 payload else payload)),
               sock)
          end
      end.
Proof.
  intros Hb Hlen Hfin. read_header b0 b1 ext. rewrite Hfin. cbn [negb].
  unfold ext_size, declared_length in *.
  destruct (Z.eqb_spec (len7 b1) 126) as [E126|N126].
  - destruct ext as [|e0 [|e1 [|]]]; try discriminate Hlen.
    change ([e0; e1] ++ tail) with ([e0; e1] ++ tail).
    rewrite (RecvAll_app [e0; e1]). cbn [nth orb].
    rewrite ext16_value by (inversion Hb as [|? ? ? Hb']; now inversion Hb').
    reflexivity.
  - destruct (Z.eqb_spec (len7 b1) 127) as [E127|N127].
    + replace 8%nat with (length ext) at 1 by assumption.
      rewrite RecvAll_app. cbn [orb].
      rewrite ReadFrame_ext_value by assumption. reflexivity.
    + destruct ext; try discriminate Hlen. cbn [orb app]. reflexivity.
Qed.

Lemma declared_length_nonneg (b1 : Z) (ext : list Z) :
  Forall is_byte ext -> 0 <= declared_length b1 ext.
Proof.
  intros Hb. unfold declared_length, len7.
  assert (Hfold : forall acc, 0 <= acc ->
            0 <= fold_left (fun acc b => acc * 256 + b) ext acc).
  { induction Hb as [|b l Hbyte _ IH]; intros acc Hacc; cbn [fold_left]; [lia|].
    apply IH. unfold is_byte in Hbyte. lia. }
  destruct (_ || _).
  - apply Hfold. lia.
  - apply Z.mod_pos_bound. lia.
Qed.

(** An unmasked frame within the cap is returned as it arrived. *)
Lemma ReadFrame_unmasked (b0 b1 : Z) (ext body rest txs : list Z) (lim : option nat)
  (max : Z) :
  Forall is_byte ext -> length ext = ext_size b1 ->
  fin_bit b0 = true -> mask_bit b1 = false ->
  declared_length b1 ext <= max ->
  Z.of_nat (length body) = declared_length b1 ext ->
  ReadFrame (mkSocket (b0 :: b1 :: ext ++ body ++ rest) txs lim) max
  = (Some (mkFrame true (Opcode_cast (opcode_bits b0)) body), mkSocket rest txs lim).
Proof.
  intros Hb Hlen Hfin Hmask Hmax Hbody.
  rewrite ReadFrame_length by assumption. cbv zeta. rewrite Hmask.
  destruct (Z.gtb_spec (declared_length b1 ext) max); [lia|].
  destruct (Z.gtb_spec (declared_length b1 ext) 0).
  - rewrite <- Hbody, Nat2Z.id, RecvAll_app. reflexivity.
  - destruct body; [reflexivity|]. cbn [length] in Hbody. lia.
Qed.

(** A masked frame within the cap is returned with the mask removed. *)
Lemma ReadFrame_masked (b0 b1 : Z) (ext key body rest txs : list Z) (lim : option nat)
  (max : Z) :
  Forall is_byte ext -> length ext = ext_size b1 ->
  fin_bit b0 = true -> mask_bit b1 = true -> length key = 4%nat ->
  declared_length b1 ext <= max ->
  Z.of_nat (length body) = declared_length b1 ext ->
  ReadFrame (mkSocket (b0 :: b1 :: ext ++ key ++ body ++ rest) txs lim) max
  = (Some (mkFrame true (Opcode_cast (opcode_bits b0)) (unmask key 0 body)),
     mkSocket rest txs lim).
Proof.
  intros Hb Hlen Hfin Hmask Hkey Hmax Hbody.
  rewrite ReadFrame_length by assumption. cbv zeta. rewrite Hmask.
  destruct (Z.gtb_spec (declared_length b1 ext) max); [lia|].
  rewrite <- Hkey, RecvAll_app.
  destruct (Z.gtb_spec (declared_length b1 ext) 0).
  - rewrite <- Hbody, Nat2Z.id, RecvAll_app. reflexivity.
  - destruct body; [reflexivity|]. cbn [length] in Hbody. lia.
Qed.

(** A frame that declares more than the cap fails with the mask key and
    the payload still unread. *)
Lemma ReadFrame_oversize (b0 b1 : Z) (ext tail txs : list Z) (lim : option nat) (max : Z) :
  Forall is_byte ext -> length ext = ext_size b1 -> fin_bit b0 = true ->
  max < declared_length b1 ext ->
  ReadFrame (mkSocket (b0 :: b1 :: ext ++ tail) txs lim) max
  = (None, mkSocket tail txs lim).
Proof.
  intros Hb Hlen Hfin Hmax.
  rewrite ReadFrame_length by assumption. cbv zeta.
  destruct (Z.gtb_spec (declared_length b1 ext) max); [reflexivity|lia].
Qed.

Lemma big_endian_value_from (bytes : list Z) (acc : Z) :
  fold_left (fun acc b => acc * 256 + b) bytes acc
  = acc * 256 ^ Z.of_nat (length bytes) + big_endian_value bytes.
Proof.
  unfold big_endian_value. revert acc.
  induction bytes as [|b bytes IH]; intros acc; cbn [fold_left length].
  - change (256 ^ Z.of_nat 0) with 1. lia.
  - rewrite IH, (IH (0 * 256 + b)), Nat2Z.inj_succ, Z.pow_succ_r by lia. lia.
Qed.

Lemma big_endian_bytes_length (n : nat) (v : Z) : length (big_endian_bytes n v) = n.
Proof. unfold big_endian_bytes. now rewrite length_map, length_rev, length_seq. Qed.

Lemma big_endian_bytes_range (n : nat) (v : Z) : Forall is_byte (big_endian_bytes n v).
Proof.
  unfold big_endian_bytes. apply Forall_map, Forall_forall. intros i _.
  apply Z.mod_pos_bound. lia.
Qed.

(** Reading back the octets of [v] gives [v] reduced to [n] octets. *)
Lemma big_endian_value_bytes (n : nat) (v : Z) :
  big_endian_value (big_endian_bytes n v) = v mod 256 ^ Z.of_nat n.
Proof.
  induction n as [|n IH].
  - change (256 ^ Z.of_nat 0) with 1. now rewrite Z.mod_1_r.
  - unfold big_endian_bytes in *. rewrite seq_S, rev_app_distr. cbn [rev app map Nat.add].
    unfold big_endian_value at 1. cbn [fold_left].
    rewrite big_endian_value_from, IH, length_map, length_rev, length_seq.
    rewrite Nat2Z.inj_succ, Z.pow_succ_r by lia.
    assert (Hp : 0 < 256 ^ Z.of_nat n) by (apply Z.pow_pos_nonneg; lia).
    rewrite (Z.mul_comm 256), Z.rem_mul_r by lia. lia.
Qed.

Lemma byte_at (v i : Z) :
  0 <= i -> u8 (Z.land (Z.shiftr v (i * 8)) 0xff) = (v / 256 ^ i) mod 256.
Proof.
  intros Hi. rewrite land_0xff, u8_mod, Z.shiftr_div_pow2 by lia.
  rewrite Z.mul_comm, Z.pow_mul_r by lia. reflexivity.
Qed.

(** The octets [SendFrame] emits: a header with [fin] set and the mask
    flag clear that declares the payload's length, then the payload. *)
Lemma SendFrame_bytes_shape (op : Opcode) (payload : list Z) :
  named_opcode op -> Z.of_nat (length payload) < 2 ^ 64 ->
  exists b0 b1 ext,
    SendFrame_bytes op payload = b0 :: b1 :: ext ++ payload
    /\ Forall is_byte ext /\ length ext = ext_size b1
    /\ fin_bit b0 = true /\ mask_bit b1 = false
    /\ Opcode_cast (opcode_bits b0) = op
    /\ declared_length b1 ext = Z.of_nat (length payload).
Proof.
  intros Hop Hlen. unfold SendFrame_bytes. cbv zeta.
  set (len := Z.of_nat (length payload)) in *.
  assert (Hlen0 : 0 <= len) by (subst len; lia).
  exists (u8 (Z.lor 0x80 (Z.land (u8 (Opcode_value op)) 0x0f))).
  assert (Hb0 : fin_bit (u8 (Z.lor 0x80 (Z.land (u8 (Opcode_value op)) 0x0f))) = true
                /\ Opcode_cast (opcode_bits (u8 (Z.lor 0x80 (Z.land (u8 (Opcode_value op)) 0x0f)))) = op).
  { destruct op; try contradiction; split; reflexivity. }
  destruct Hb0 as [Hfin Hcast].
  destruct (Z.leb_spec len 125) as [H125|H125].
  - exists (u8 len), []. rewrite (u8_small len) by lia. cbn iota.
    unfold ext_size, declared_length, mask_bit, len7.
    rewrite Z.mod_small by lia.
    destruct (Z.eqb_spec len 126); [lia|]. destruct (Z.eqb_spec len 127); [lia|].
    repeat split; auto. apply (testbit_small len 7); lia.
  - destruct (Z.leb_spec len 0xffff) as [Hffff|Hffff].
    + exists 126, (big_endian_bytes 2 len).
      split; [|repeat split; auto using big_endian_bytes_range].
      * cbn [app]. do 2 f_equal. unfold big_endian_bytes. cbn [seq rev app map].
        rewrite !land_0xff, !u8_mod, Z.shiftr_div_pow2 by lia.
        change (256 ^ Z.of_nat 1) with (2 ^ 8). change (256 ^ Z.of_nat 0) with 1.
        now rewrite Z.div_1_r.
      * unfold declared_length. change (len7 126 =? 126) with true. cbn [orb].
        rewrite big_endian_value_bytes. apply Z.mod_small.
        change (256 ^ Z.of_nat 2) with 65536. lia.
    + exists 127, (big_endian_bytes 8 len).
      split; [|repeat split; auto using big_endian_bytes_range].
      * cbn [app]. do 2 f_equal. unfold u64. rewrite Z.mod_small by lia.
        unfold big_endian_bytes. cbn [seq rev app map].
        rewrite !byte_at by lia. reflexivity.
      * unfold declared_length. change (len7 127 =? 127) with true.
        rewrite orb_true_r, big_endian_value_bytes. apply Z.mod_small.
        change (256 ^ Z.of_nat 8) with (2 ^ 64). lia.
Qed.

Lemma SendFrame_ReadFrame (op : Opcode) (payload rest txs : list Z) (lim : option nat)
  (max : Z) :
  named_opcode op -> Z.of_nat (length payload) < 2 ^ 64 ->
  Z.of_nat (length payload) <= max ->
  ReadFrame (mkSocket (SendFrame_bytes op payload ++ rest) txs lim) max
  = (Some (mkFrame true op payload), mkSocket rest txs lim).
Proof.
  intros Hop Hlen Hmax.
  destruct (SendFrame_bytes_shape op payload Hop Hlen)
    as (b0 & b1 & ext & -> & Hb & Hext & Hfin & Hmask & Hcast & Hdecl).
  cbn [app]. rewrite <- !app_assoc, <- Hcast.
  apply ReadFrame_unmasked; auto; lia.
Qed.

Lemma SendFrame_tx (sock sock' : Socket) (op : Opcode) (payload : list Z) :
  SendFrame sock op payload = (true, sock') ->
  tx sock' = tx sock ++ SendFrame_bytes op payload.
Proof.
  unfold SendFrame, SendAll. destruct (txLimit sock) as [n|].
  - destruct (_ <=? _)%nat; intros H; inversion H; reflexivity.
  - intros H; inversion H; reflexivity.
Qed.

End FrameCodec.

(** C6.  Decoding a frame produced by encoding returns it: when
    [SendFrame] succeeds for a Text or Binary frame whose payload has one
    of the lengths 0, 1, 125, 126, 65535, 65536, and the receiving socket
    is handed the octets that call emitted, [ReadFrame] (with a cap that
    covers the payload, as the dispatcher's 4 MiB does) returns the same
    opcode and payload with [fin] true, and has consumed exactly that
    frame. *)
Theorem frame_round_trip
  (op : a2fws.Opcode) (payload : list Z) (sender sender' receiver : a2fws.Socket)
  (rest : list Z) (maxPayloadBytes : Z) :
  op = a2fws.Text \/ op = a2fws.Binary ->
  In (Z.of_nat (length payload)) [0; 1; 125; 126; 65535; 65536] ->
  Z.of_nat (length payload) <= maxPayloadBytes ->
  a2fws.SendFrame sender op payload = (true, sender') ->
  a2fws.rx receiver = drop (length (a2fws.tx sender)) (a2fws.tx sender') ++ rest ->
  a2fws.ReadFrame receiver maxPayloadBytes
  = (Some (a2fws.mkFrame true op payload),
     a2fws.mkSocket rest (a2fws.tx receiver) (a2fws.txLimit receiver)).
Proof.
  intros Hop Hlen Hmax Hsend Hrx.
  apply SendFrame_tx in Hsend. rewrite Hsend, drop_app_length in Hrx.
  destruct receiver as [rxs txs lim]. cbn [a2fws.rx a2fws.tx a2fws.txLimit] in *.
  subst rxs. apply SendFrame_ReadFrame; auto.
  - destruct Hop; subst op; exact I.
  - cbn [In] in Hlen. change (2 ^ 64) with 18446744073709551616. lia.
Qed.

Lemma frame_round_trip_witness :
  a2fws.ReadFrame
    (a2fws.mkSocket (a2fws.SendFrame_bytes a2fws.Text [104] ++ [7]) [] None)
    Main.kMaxPayload
  = (Some (a2fws.mkFrame true a2fws.Text [104]), a2fws.mkSocket [7] [] None).
Proof.
  apply (frame_round_trip a2fws.Text [104] (a2fws.mkSocket [] [] None)
           (a2fws.mkSocket [] (a2fws.SendFrame_bytes a2fws.Text [104]) None)
           (a2fws.mkSocket (a2fws.SendFrame_bytes a2fws.Text [104] ++ [7]) [] None)
           [7] Main.kMaxPayload).
  - left; reflexivity.
  - right; left; reflexivity.
  - vm_compute; discriminate.
  - reflexivity.
  - reflexivity.
Defined.


(** C7.  The payload cap of [ReadFrame].  (1) A frame with [fin] set whose
    declared length equals the cap is accepted and its body is read (with
    the mask removed when the frame is masked).  (2) A frame with [fin] set
    whose declared length exceeds the cap, in the 7-bit form or in the
    16-bit or 64-bit extended form, fails once the header and the extended
    length are read: the mask key and every payload octet are still in the
    stream.  (3) A frame with [fin] clear is rejected. *)
Theorem read_frame_payload_cap :
  (forall (b0 b1 : Z) (ext key body rest txs : list Z) (lim : option nat) (cap : Z),
      Forall is_byte ext -> length ext = Framing.ext_size b1 ->
      Framing.fin_bit b0 = true ->
      Framing.declared_length b1 ext = cap ->
      length key = (if Framing.mask_bit b1 then 4%nat else 0%nat) ->
      Z.of_nat (length body) = cap ->
      a2fws.ReadFrame (a2fws.mkSocket (b0 :: b1 :: ext ++ key ++ body ++ rest) txs lim) cap
      = (Some (a2fws.mkFrame true (a2fws.Opcode_cast (Framing.opcode_bits b0))
                 (if Framing.mask_bit b1 then a2fws.unmask key 0 body else body)),
         a2fws.mkSocket rest txs lim))
  /\ (forall (b0 b1 : Z) (ext tail txs : list Z) (lim : option nat) (cap : Z),
         Forall is_byte ext -> length ext = Framing.ext_size b1 ->
         Framing.fin_bit b0 = true ->
         cap < Framing.declared_length b1 ext ->
         a2fws.ReadFrame (a2fws.mkSocket (b0 :: b1 :: ext ++ tail) txs lim) cap
         = (None, a2fws.mkSocket tail txs lim))
  /\ (forall (b0 b1 : Z) (tail txs : list Z) (lim : option nat) (cap : Z),
         Framing.fin_bit b0 = false ->
         a2fws.ReadFrame (a2fws.mkSocket (b0 :: b1 :: tail) txs lim) cap
         = (None, a2fws.mkSocket tail txs lim)).
Proof.
  split; [|split].
  - intros b0 b1 ext key body rest txs lim cap Hb Hext Hfin Hdecl Hkey Hbody.
    destruct (Framing.mask_bit b1) eqn:Hmask.
    + apply ReadFrame_masked; auto; lia.
    + destruct key; [|discriminate Hkey]. cbn [app].
      apply ReadFrame_unmasked; auto; lia.
  - intros. now apply ReadFrame_oversize.
  - intros. now apply ReadFrame_not_fin.
Qed.

(** The dispatcher's cap with a 64-bit length one above it: the frame is
    refused and its five following octets stay unread; a one-octet frame
    at a cap of one is accepted; a fragment is refused. *)
Lemma read_frame_payload_cap_witness :
  a2fws.ReadFrame
    (a2fws.mkSocket (130 :: 127 :: [0; 0; 0; 0; 0; 64; 0; 1] ++ [1; 2; 3; 4; 5]) [] None)
    Main.kMaxPayload
  = (None, a2fws.mkSocket [1; 2; 3; 4; 5] [] None)
  /\ a2fws.ReadFrame (a2fws.mkSocket (129 :: 1 :: [] ++ [] ++ [55] ++ [9]) [] None) 1
     = (Some (a2fws.mkFrame true a2fws.Text [55]), a2fws.mkSocket [9] [] None)
  /\ a2fws.ReadFrame (a2fws.mkSocket (1 :: 1 :: [55]) [] None) Main.kMaxPayload
     = (None, a2fws.mkSocket [55] [] None).
Proof.
  destruct read_frame_payload_cap as (Hcap & Hover & Hfrag).
  split; [|split].
  - apply Hover.
    + repeat constructor; unfold is_byte; lia.
    + reflexivity.
    + reflexivity.
    + vm_compute. reflexivity.
  - apply (Hcap 129 1 [] [] [55] [9] [] None 1).
    + constructor.
    + reflexivity.
    + reflexivity.
    + reflexivity.
    + reflexivity.
    + reflexivity.
  - apply Hfrag. reflexivity.
Defined.

(** C9.  An unmasked frame is accepted: for a frame with [fin] set, the
    mask flag clear and a declared length within the cap, [ReadFrame]
    succeeds and its payload is the octets that followed the header,
    unchanged.  Nothing requires a client frame to be masked. *)
Theorem read_frame_accepts_unmasked
  (b0 b1 : Z) (ext body rest txs : list Z) (lim : option nat) (maxPayloadBytes : Z) :
  Forall is_byte ext -> length ext = Framing.ext_size b1 ->
  Framing.fin_bit b0 = true -> Framing.mask_bit b1 = false ->
  Framing.declared_length b1 ext <= maxPayloadBytes ->
  Z.of_nat (length body) = Framing.declared_length b1 ext ->
  a2fws.ReadFrame (a2fws.mkSocket (b0 :: b1 :: ext ++ body ++ rest) txs lim) maxPayloadBytes
  = (Some (a2fws.mkFrame true (a2fws.Opcode_cast (Framing.opcode_bits b0)) body),
     a2fws.mkSocket rest txs lim).
Proof. intros. now apply ReadFrame_unmasked. Qed.

(** An unmasked text frame "Hi" from a client. *)
Lemma read_frame_accepts_unmasked_witness :
  a2fws.ReadFrame (a2fws.mkSocket (129 :: 2 :: [] ++ [72; 105] ++ []) [] None)
    Main.kMaxPayload
  = (Some (a2fws.mkFrame true a2fws.Text [72; 105]), a2fws.mkSocket [] [] None).
Proof.
  apply (read_frame_accepts_unmasked 129 2 [] [72; 105] [] [] None Main.kMaxPayload).
  - constructor.
  - reflexivity.
  - reflexivity.
  - reflexivity.
  - vm_compute. discriminate.
  - reflexivity.
Defined.

(** ** Sha1 against FIPS 180-4 *)

Section Sha1Refinement.
Import a2fws.

Lemma Sha1_pad_loop_zeros (k fuel : nat) (msg : list Z) :
  (k <= fuel)%nat ->
  (Z.of_nat (length msg) + Z.of_nat k) mod 64 = 56 ->
  (forall j, 0 <= j < Z.of_nat k -> (Z.of_nat (length msg) + j) mod 64 <> 56) ->
  Sha1_pad_loop fuel msg = msg ++ repeat 0 k.
Proof.
  revert fuel msg. induction k as [|k IH]; intros fuel msg Hfuel Hend Hmin.
  - cbn [repeat]. rewrite app_nil_r. rewrite Z.add_0_r in Hend.
    destruct fuel; cbn [Sha1_pad_loop]; [reflexivity|].
    now rewrite Hend.
  - destruct fuel as [|fuel]; [lia|]. cbn [Sha1_pad_loop].
    destruct (Z.eqb_spec (Z.of_nat (length msg) mod 64) 56) as [E|_].
    + exfalso. apply (Hmin 0); [lia|]. now rewrite Z.add_0_r.
    + rewrite (IH fuel (msg ++ [0])).
      * rewrite <- app_assoc. reflexivity.
      * lia.
      * rewrite length_app. cbn [length]. rewrite <- Hend. f_equal. lia.
      * intros j Hj. rewrite length_app. cbn [length].
        replace (Z.of_nat (length msg + 1) + j) with (Z.of_nat (length msg) + (j + 1)) by lia.
        apply Hmin. lia.
Qed.

Lemma bytes_msb_first (n : nat) (v : Z) :
  map (fun i => Z.land (Z.shiftr v (i * 8)) 0xff) (map Z.of_nat (rev (seq 0 n)))
  = big_endian_bytes n v.
Proof.
  unfold big_endian_bytes. rewrite map_map. apply map_ext. intros i.
  rewrite land_0xff, Z.shiftr_div_pow2, Z.mul_comm, Z.pow_mul_r by lia.
  reflexivity.
Qed.

Lemma Sha1_length_bytes_big_endian (v : Z) :
  Sha1_length_bytes v = big_endian_bytes 8 v.
Proof. exact (bytes_msb_first 8 v). Qed.

Lemma Sha1_message_pad (input : list Z) :
  Z.of_nat (length input) * 8 < 2 ^ 64 ->
  Sha1_message input = FIPS180.pad input.
Proof.
  intros Hlen. unfold Sha1_message, FIPS180.pad. cbv zeta.
  set (l := Z.of_nat (length input)) in *.
  assert (Hl : 0 <= l) by (subst l; lia).
  assert (Hm : 0 <= (55 - l) mod 64 < 64) by (apply Z.mod_pos_bound; lia).
  rewrite (Sha1_pad_loop_zeros (Z.to_nat ((55 - l) mod 64))).
  - rewrite Sha1_length_bytes_big_endian. unfold u64.
    rewrite (Z.mod_small (l * 8)) by lia.
    rewrite <- !app_assoc, (Z.mul_comm l 8). reflexivity.
  - lia.
  - rewrite length_app, Nat2Z.inj_add, Z2Nat.id by lia. cbn [length]. fold l.
    change (Z.of_nat 1) with 1. clear Hlen. Z.div_mod_to_equations. lia.
  - intros j Hj. rewrite length_app, Nat2Z.inj_add. cbn [length]. fold l.
    rewrite Z2Nat.id in Hj by lia. change (Z.of_nat 1) with 1.
    clear Hlen. Z.div_mod_to_equations. lia.
Qed.

Lemma storeBE32_big_endian (v : Z) : storeBE32 v = big_endian_bytes 4 v.
Proof. exact (bytes_msb_first 4 v). Qed.

Lemma fold_insert_seq (g : list Z -> nat -> Z) (T : nat -> list Z) (a n : nat)
  (w : list Z) :
  (forall i, length (T i) = i) ->
  (forall i tail, (a <= i < a + n)%nat -> T (S i) = T i ++ [g (T i ++ tail) i]) ->
  (a + n <= length w)%nat -> take a w = T a ->
  fold_left (fun w i => <[ i := g w i ]> w) (seq a n) w = T (a + n)%nat ++ drop (a + n) w.
Proof.
  intros HT. induction n as [|n IH]; intros Hstep Hlen Hstart.
  - rewrite Nat.add_0_r, <- Hstart. cbn [seq fold_left]. now rewrite take_drop.
  - rewrite seq_S, fold_left_app. cbn [fold_left].
    rewrite IH by (auto; try lia; intros; apply Hstep; lia).
    destruct (lookup_lt_is_Some_2 w (a + n)) as [x Hx]; [lia|].
    rewrite (drop_S _ _ _ Hx).
    rewrite insert_app_r_alt by (rewrite HT; lia).
    rewrite HT, Nat.sub_diag. cbn [insert list_insert].
    replace (a + S n)%nat with (S (a + n)) by lia.
    rewrite (Hstep (a + n)%nat (x :: drop (S (a + n)) w)) by lia.
    now rewrite <- app_assoc.
Qed.

Lemma nth_take_lt (l : list Z) (n j : nat) :
  (j < n)%nat -> nth j (take n l) 0 = nth j l 0.
Proof. intros. now rewrite !nth_lookup, lookup_take_lt. Qed.

Lemma nth_drop_add (l : list Z) (n j : nat) : nth j (drop n l) 0 = nth (n + j) l 0.
Proof. now rewrite !nth_lookup, lookup_drop. Qed.

Lemma nth_is_byte (l : list Z) (i : nat) : Forall is_byte l -> is_byte (nth i l 0).
Proof.
  intros Hb. destruct (nth_in_or_default i l 0) as [Hin| ->].
  - rewrite Forall_forall in Hb. now apply Hb, list_elem_of_In.
  - unfold is_byte. lia.
Qed.

Lemma be32_word (b0 b1 b2 b3 : Z) :
  is_byte b1 -> is_byte b2 -> is_byte b3 ->
  Z.lor (Z.lor (Z.lor (Z.shiftl b0 24) (Z.shiftl b1 16)) (Z.shiftl b2 8)) b3
  = b0 * 2 ^ 24 + b1 * 2 ^ 16 + b2 * 2 ^ 8 + b3.
Proof.
  unfold is_byte. intros H1 H2 H3.
  replace (Z.shiftl b0 24) with (Z.shiftl (Z.shiftl (Z.shiftl b0 8) 8) 8)
    by (rewrite !Z.shiftl_shiftl by lia; reflexivity).
  replace (Z.shiftl b1 16) with (Z.shiftl (Z.shiftl b1 8) 8)
    by (rewrite !Z.shiftl_shiftl by lia; reflexivity).
  rewrite <- !Z.shiftl_lor.
  rewrite (lor_shiftl_add b0 b1 8) by lia.
  rewrite (lor_shiftl_add _ b2 8) by lia.
  rewrite (lor_shiftl_add _ b3 8) by lia.
  lia.
Qed.

Lemma nth_map_seq (f : nat -> Z) (n i : nat) :
  (i < n)%nat -> nth i (map f (seq 0 n)) 0 = f i.
Proof.
  intros Hi. rewrite (nth_indep _ 0 (f 0%nat)) by (rewrite length_map, length_seq; lia).
  rewrite (map_nth f). now rewrite seq_nth.
Qed.

Lemma block_octet (msg : list Z) (chunk i j : nat) :
  (i < 16)%nat -> (j < 4)%nat ->
  nth j (take 4 (drop (4 * i) (take 64 (drop chunk msg)))) 0
  = nth (chunk + i * 4 + j) msg 0.
Proof.
  intros Hi Hj.
  rewrite nth_take_lt, nth_drop_add, nth_take_lt, nth_drop_add by lia.
  f_equal. lia.
Qed.

(** The word [Sha1_load] stores at index [i] is word [i] of the block. *)
Lemma Sha1_word_block (msg : list Z) (chunk i : nat) :
  Forall is_byte msg -> (i < 16)%nat ->
  Sha1_word msg (chunk + i * 4)
  = nth i (FIPS180.block_words (take 64 (drop chunk msg))) 0.
Proof.
  intros Hb Hi. unfold FIPS180.block_words. rewrite nth_map_seq by lia.
  unfold Sha1_word. rewrite be32_word by auto using nth_is_byte.
  unfold FIPS180.word. rewrite !block_octet by lia.
  now rewrite Nat.add_0_r.
Qed.

Lemma schedule_length (M : list Z) (t : nat) : length (FIPS180.schedule M t) = t.
Proof.
  induction t as [|t IH]; [reflexivity|].
  cbn [FIPS180.schedule]. rewrite length_app, IH. cbn [length]. lia.
Qed.

Lemma Sha1_schedule (msg w : list Z) (chunk : nat) :
  Forall is_byte msg -> length w = 80%nat ->
  Sha1_extend (Sha1_load msg chunk w)
  = FIPS180.schedule (FIPS180.block_words (take 64 (drop chunk msg))) 80.
Proof.
  intros Hb Hw.
  set (M := FIPS180.block_words (take 64 (drop chunk msg))).
  assert (Hload : Sha1_load msg chunk w = FIPS180.schedule M 16 ++ drop 16 w).
  { unfold Sha1_load.
    apply (fold_insert_seq (fun _ i => Sha1_word msg (chunk + i * 4)) (FIPS180.schedule M) 0 16 w).
    - apply schedule_length.
    - intros i tail Hi. cbn [FIPS180.schedule].
      destruct (Nat.ltb_spec i 16); [|lia]. do 2 f_equal.
      symmetry. apply Sha1_word_block; [assumption|lia].
    - lia.
    - reflexivity. }
  unfold Sha1_extend. rewrite Hload.
  rewrite (fold_insert_seq
             (fun w i =>
                leftRotate
                  (Z.lxor (Z.lxor (Z.lxor (nth (i - 3) w 0) (nth (i - 8) w 0))
                                  (nth (i - 14) w 0))
                          (nth (i - 16) w 0)) 1)
             (FIPS180.schedule M) 16 64).
  - rewrite drop_ge; [apply app_nil_r|].
    rewrite length_app, schedule_length, length_drop. lia.
  - apply schedule_length.
  - intros i tail Hi. cbn [FIPS180.schedule].
    destruct (Nat.ltb_spec i 16); [lia|]. do 2 f_equal.
    rewrite !app_nth1 by (rewrite schedule_length; lia). reflexivity.
  - rewrite length_app, schedule_length, length_drop. lia.
  - rewrite take_app_length'; [reflexivity|]. now rewrite schedule_length.
Qed.

Lemma Ch_or_xor (b c d : Z) :
  Z.lor (Z.land b c) (Z.land (not32 b) d) = FIPS180.Ch b c d.
Proof.
  unfold FIPS180.Ch, not32, u32. symmetry. apply Z.lxor_lor.
  apply Z.bits_inj'. intros i Hi.
  rewrite !Z.land_spec, Z.testbit_mod_pow2, Z.lnot_spec, Z.bits_0 by lia.
  destruct (Z.testbit b i), (Z.testbit c i), (Z.testbit d i), (i <? 32); reflexivity.
Qed.

Lemma Maj_or_xor (b c d : Z) :
  Z.lor (Z.lor (Z.land b c) (Z.land b d)) (Z.land c d) = FIPS180.Maj b c d.
Proof.
  unfold FIPS180.Maj. apply Z.bits_inj'. intros i Hi.
  rewrite !Z.lor_spec, !Z.lxor_spec, !Z.land_spec.
  destruct (Z.testbit b i), (Z.testbit c i), (Z.testbit d i); reflexivity.
Qed.

Lemma Sha1_rounds (w : list Z) (n t : nat) (v : Sha1_vars) :
  fold_left (Sha1_round w) (seq t n) v = FIPS180.rounds w n t v.
Proof.
  revert t v. induction n as [|n IH]; intros t v; [reflexivity|].
  cbn [seq fold_left FIPS180.rounds]. rewrite IH.
  destruct v as [[[[a b] c] d] e]. f_equal.
  unfold Sha1_round, FIPS180.f, FIPS180.K.
  destruct (t <? 20)%nat; [|destruct (t <? 40)%nat; [|destruct (t <? 60)%nat]];
    rewrite ?Ch_or_xor, ?Maj_or_xor; reflexivity.
Qed.

Lemma Sha1_chunk_compress (msg w : list Z) (chunk : nat) (H : Sha1_vars) :
  Forall is_byte msg -> length w = 80%nat ->
  Sha1_chunk msg (w, H) chunk
  = (FIPS180.schedule (FIPS180.block_words (take 64 (drop chunk msg))) 80,
     FIPS180.compress H (FIPS180.block_words (take 64 (drop chunk msg)))).
Proof.
  intros Hb Hw. destruct H as [[[[h0 h1] h2] h3] h4].
  unfold Sha1_chunk, FIPS180.compress. rewrite Sha1_schedule, Sha1_rounds by assumption.
  destruct (FIPS180.rounds _ 80 0 _) as [[[[a b] c] d] e].
  unfold u32. now rewrite !(Z.add_comm _ a), (Z.add_comm _ b), (Z.add_comm _ c),
    (Z.add_comm _ d), (Z.add_comm _ e).
Qed.

Lemma Sha1_chunks_blocks (msg : list Z) (n k : nat) (w : list Z) (H : Sha1_vars) :
  Forall is_byte msg -> length w = 80%nat ->
  snd (fold_left (Sha1_chunk msg) (map (fun k => (64 * k)%nat) (seq k n)) (w, H))
  = fold_left FIPS180.compress (FIPS180.blocks n (drop (64 * k) msg)) H.
Proof.
  intros Hb. revert k w H. induction n as [|n IH]; intros k w H Hw; [reflexivity|].
  cbn [seq map fold_left FIPS180.blocks].
  rewrite Sha1_chunk_compress by assumption.
  rewrite IH by apply schedule_length.
  rewrite drop_drop. do 3 f_equal. lia.
Qed.

Lemma Sha1_SHA1 (input : list Z) :
  Forall is_byte input -> Z.of_nat (length input) * 8 < 2 ^ 64 ->
  Sha1 input = FIPS180.SHA1 input.
Proof.
  intros Hb Hlen. unfold Sha1, FIPS180.SHA1. cbv zeta.
  rewrite Sha1_message_pad by assumption.
  set (msg := FIPS180.pad input).
  assert (Hmsg : Forall is_byte msg).
  { unfold msg, FIPS180.pad. repeat apply Forall_app_2; auto.
    - repeat constructor; unfold is_byte; lia.
    - apply Forall_forall. intros x Hx. apply list_elem_of_In, repeat_spec in Hx.
      subst x. unfold is_byte. lia.
    - apply big_endian_bytes_range. }
  assert (H64 : exists N, length msg = (64 * N)%nat).
  { unfold msg, FIPS180.pad. rewrite !length_app, repeat_length, big_endian_bytes_length.
    cbn [length].
    assert (Hm : 0 <= (55 - Z.of_nat (length input)) mod 64 < 64)
      by (apply Z.mod_pos_bound; lia).
    exists (Z.to_nat ((Z.of_nat (length input) + 1
                       + (55 - Z.of_nat (length input)) mod 64 + 8) / 64)).
    apply Nat2Z.inj. rewrite !Nat2Z.inj_add, Nat2Z.inj_mul, !Z2Nat.id.
    - change (Z.of_nat 64) with 64. change (Z.of_nat 1) with 1. change (Z.of_nat 8) with 8.
      Z.div_mod_to_equations. lia.
    - apply Z.div_pos; lia.
    - lia. }
  destruct H64 as [N HN].
  unfold Sha1_offsets. rewrite HN.
  replace ((64 * N + 63) / 64)%nat with N
    by (apply Nat.div_unique with (r := 63%nat); lia).
  replace (64 * N / 64)%nat with N
    by (symmetry; rewrite Nat.mul_comm; apply Nat.div_mul; lia).
  pose proof (Sha1_chunks_blocks msg N 0 (repeat 0 80)
                (0x67452301, 0xEFCDAB89, 0x98BADCFE, 0x10325476, 0xC3D2E1F0)
                Hmsg (repeat_length _ _)) as Hfold.
  rewrite Nat.mul_0_r, drop_0 in Hfold.
  destruct (fold_left (Sha1_chunk msg) _ _) as [w' [[[[h0 h1] h2] h3] h4]].
  cbn [snd] in Hfold. unfold FIPS180.H_init. rewrite <- Hfold.
  now rewrite !storeBE32_big_endian.
Qed.

End Sha1Refinement.

(** ** Base64Encode against RFC 4648 *)

Section Base64Refinement.
Import a2fws.

Lemma append_nil_r (s : string) : String.append s "" = s.
Proof. induction s as [|c s IH]; cbn [String.append]; [reflexivity|now rewrite IH]. Qed.

Lemma append_assoc (s1 s2 s3 : string) :
  String.append (String.append s1 s2) s3 = String.append s1 (String.append s2 s3).
Proof. induction s1 as [|c s IH]; cbn [String.append]; [reflexivity|now rewrite IH]. Qed.

Lemma push_back_append (s : string) (c : ascii) (t : string) :
  String.append (push_back s c) t = String.append s (String c t).
Proof. unfold push_back. now rewrite append_assoc. Qed.

Lemma range_check (P : Z -> bool) (n : nat) :
  forallb P (map Z.of_nat (seq 0 n)) = true ->
  forall v, 0 <= v < Z.of_nat n -> P v = true.
Proof.
  intros Hall v Hv. rewrite forallb_forall in Hall. apply Hall.
  apply in_map_iff. exists (Z.to_nat v). split; [lia|]. apply in_seq. lia.
Qed.

Lemma kChars_alphabet (v : Z) : 0 <= v < 64 -> kChars_at v = RFC4648.alphabet v.
Proof.
  intros Hv.
  assert (H : Ascii.eqb (kChars_at v) (RFC4648.alphabet v) = true).
  { apply (range_check (fun v => Ascii.eqb (kChars_at v) (RFC4648.alphabet v)) 64);
      [vm_compute; reflexivity|exact Hv]. }
  now apply Ascii.eqb_eq.
Qed.

Lemma triple_value (a b c : Z) :
  is_byte a -> is_byte b -> is_byte c ->
  Z.lor (Z.lor (u32 (Z.shiftl a 16)) (u32 (Z.shiftl b 8))) c = a * 65536 + b * 256 + c.
Proof.
  unfold is_byte, u32. intros Ha Hb Hc.
  rewrite !Z.shiftl_mul_pow2 by lia.
  rewrite !Z.mod_small by lia.
  rewrite <- !Z.shiftl_mul_pow2 by lia.
  replace (Z.shiftl a 16) with (Z.shiftl (Z.shiftl a 8) 8)
    by (rewrite Z.shiftl_shiftl by lia; reflexivity).
  rewrite <- Z.shiftl_lor.
  rewrite (lor_shiftl_add a b 8), (lor_shiftl_add _ c 8) by lia. lia.
Qed.

Lemma sextets (a b c : Z) :
  is_byte a -> is_byte b -> is_byte c ->
  let triple := a * 65536 + b * 256 + c in
  Z.land (Z.shiftr triple 18) 0x3f = a / 4
  /\ Z.land (Z.shiftr triple 12) 0x3f = a mod 4 * 16 + b / 16
  /\ Z.land (Z.shiftr triple 6) 0x3f = b mod 16 * 4 + c / 64
  /\ Z.land triple 0x3f = c mod 64.
Proof.
  intros Ha Hb Hc. cbv zeta. unfold is_byte in *.
  rewrite !land_0x3f, !Z.shiftr_div_pow2 by lia.
  change (2 ^ 18) with 262144. change (2 ^ 12) with 4096. change (2 ^ 6) with 64.
  repeat split; Z.div_mod_to_equations; lia.
Qed.

Lemma sextet_range (a b : Z) :
  is_byte a -> is_byte b ->
  0 <= a / 4 < 64 /\ 0 <= a mod 4 * 16 + b / 16 < 64
  /\ 0 <= a mod 16 * 4 + b / 64 < 64 /\ 0 <= a mod 64 < 64.
Proof. unfold is_byte. intros. repeat split; Z.div_mod_to_equations; lia. Qed.

Lemma drop_cons_nth (data : list Z) (i : nat) (a : Z) (l : list Z) :
  drop i data = a :: l ->
  nth i data 0 = a /\ drop (S i) data = l /\ (i < length data)%nat.
Proof.
  intros H. assert (Hi : (i < length data)%nat).
  { destruct (Nat.lt_ge_cases i (length data)) as [|Hge]; [assumption|].
    rewrite drop_ge in H by lia. discriminate. }
  destruct (lookup_lt_is_Some_2 data i Hi) as [x Hx].
  rewrite (drop_S _ _ _ Hx) in H. inversion H; subst.
  split; [now apply nth_lookup_Some|auto].
Qed.

Lemma drop_nil_length (data : list Z) (i : nat) :
  drop i data = [] -> (length data <= i)%nat.
Proof. intros H. apply (f_equal length) in H. rewrite length_drop in H. cbn in H. lia. Qed.

Lemma Base64Encode_loop_spec (fuel : nat) (data : list Z) (i : nat) (out : string) :
  Forall is_byte data -> (length data <= i + 3 * fuel)%nat ->
  Base64Encode_loop fuel data i out
  = String.append out (RFC4648.Base64 (drop i data)).
Proof.
  intros Hb. revert i out. induction fuel as [|fuel IH]; intros i out Hfuel.
  - rewrite drop_ge by lia. cbn. now rewrite append_nil_r.
  - cbn [Base64Encode_loop]. cbv zeta.
    destruct (Nat.ltb_spec i (length data)) as [Hi|Hi];
      [|rewrite drop_ge by lia; cbn; now rewrite append_nil_r].
    rewrite IH by lia. rewrite !push_back_append.
    destruct (drop i data) as [|a l] eqn:Ha; [apply drop_nil_length in Ha; lia|].
    apply drop_cons_nth in Ha. destruct Ha as (Hna & Hl & _).
    assert (Hba : is_byte a) by (subst a; now apply nth_is_byte).
    assert (Hz : is_byte 0) by (unfold is_byte; lia).
    destruct l as [|b l].
    { apply drop_nil_length in Hl.
      destruct (Nat.ltb_spec (i + 1) (length data)); [lia|].
      destruct (Nat.ltb_spec (i + 2) (length data)); [lia|].
      rewrite drop_ge by lia. rewrite Hna, triple_value by assumption.
      destruct (sextets a 0 0 Hba Hz Hz) as (-> & -> & _ & _).
      destruct (sextet_range a 0 Hba Hz) as (? & ? & _ & _).
      rewrite !kChars_alphabet by assumption.
      cbn [RFC4648.Base64]. change (0 / 16) with 0. now rewrite Z.add_0_r. }
    apply drop_cons_nth in Hl. destruct Hl as (Hnb & Hl & Hi1).
    assert (Hbb : is_byte b) by (subst b; now apply nth_is_byte).
    replace (S i) with (i + 1)%nat in * by lia.
    destruct (Nat.ltb_spec (i + 1) (length data)); [|lia].
    destruct l as [|c l].
    { apply drop_nil_length in Hl.
      destruct (Nat.ltb_spec (i + 2) (length data)); [lia|].
      rewrite drop_ge by lia. rewrite Hna, Hnb, triple_value by assumption.
      destruct (sextets a b 0 Hba Hbb Hz) as (-> & -> & -> & _).
      destruct (sextet_range a b Hba Hbb) as (? & ? & _ & _).
      destruct (sextet_range b 0 Hbb Hz) as (_ & _ & ? & _).
      rewrite !kChars_alphabet by assumption.
      cbn [RFC4648.Base64]. change (0 / 64) with 0. now rewrite Z.add_0_r. }
    replace (S (i + 1)) with (i + 2)%nat in * by lia.
    apply drop_cons_nth in Hl. destruct Hl as (Hnc & Hl & Hi2).
    assert (Hbc : is_byte c) by (subst c; now apply nth_is_byte).
    replace (S (i + 2)) with (i + 3)%nat in * by lia.
    destruct (Nat.ltb_spec (i + 2) (length data)); [|lia].
    rewrite Hna, Hnb, Hnc, Hl, triple_value by assumption.
    destruct (sextets a b c Hba Hbb Hbc) as (-> & -> & -> & ->).
    destruct (sextet_range a b Hba Hbb) as (? & ? & _ & _).
    destruct (sextet_range b c Hbb Hbc) as (_ & _ & ? & _).
    destruct (sextet_range c 0 Hbc Hz) as (_ & _ & _ & ?).
    rewrite !kChars_alphabet by assumption.
    reflexivity.
Qed.

Lemma Base64Encode_Base64 (data : list Z) :
  Forall is_byte data -> Base64Encode data = RFC4648.Base64 data.
Proof.
  intros Hb. unfold Base64Encode.
  rewrite Base64Encode_loop_spec by (auto; lia). reflexivity.
Qed.

Lemma bytes_of_string_range (s : string) : Forall is_byte (bytes_of_string s).
Proof.
  unfold bytes_of_string. apply Forall_map, Forall_forall. intros c _.
  pose proof (N_ascii_bounded c). unfold is_byte. lia.
Qed.

Lemma bytes_of_string_append (s t : string) :
  bytes_of_string (String.append s t) = bytes_of_string s ++ bytes_of_string t.
Proof.
  unfold bytes_of_string. induction s as [|c s IH]; [reflexivity|].
  cbn [String.append list_ascii_of_string map app]. now rewrite IH.
Qed.

Lemma bytes_of_string_length (s : string) :
  length (bytes_of_string s) = String.length s.
Proof.
  unfold bytes_of_string. rewrite length_map.
  induction s as [|c s IH]; cbn; [reflexivity|now rewrite IH].
Qed.

Lemma SHA1_range (M : list Z) : Forall is_byte (FIPS180.SHA1 M).
Proof.
  unfold FIPS180.SHA1. cbv zeta.
  destruct (fold_left _ _ _) as [[[[h0 h1] h2] h3] h4].
  repeat apply Forall_app_2; apply big_endian_bytes_range.
Qed.

End Base64Refinement.

(** C5.  The accept key of the handshake.  For every client key [K], the
    value [WebSocketAcceptKey] computes for the [Sec-WebSocket-Accept]
    header is Base64 (RFC 4648) of SHA-1 (FIPS 180-4) of [K] followed by
    the GUID "258EAFA5-E914-47DA-95CA-C5AB0DC85B11"; for the key
    "dGhlIHNhbXBsZSBub25jZQ==" it is "s3pPLMBiTxaQ9kYGzzhZRbK+xOo=".
    The bound on the length of [K] keeps the 64-bit bit count of [Sha1]
    from wrapping; the handshake reads at most 16 KiB. *)
Theorem websocket_accept_key :
  (forall K : string,
      Z.of_nat (String.length K) < 2 ^ 60 ->
      a2fws.WebSocketAcceptKey K
      = RFC4648.Base64
          (FIPS180.SHA1
             (bytes_of_string K
              ++ bytes_of_string "258EAFA5-E914-47DA-95CA-C5AB0DC85B11")))
  /\ a2fws.WebSocketAcceptKey "dGhlIHNhbXBsZSBub25jZQ=="
     = "s3pPLMBiTxaQ9kYGzzhZRbK+xOo="%string.
Proof.
  split; [|vm_compute; reflexivity].
  intros K HK. unfold a2fws.WebSocketAcceptKey. cbv zeta.
  rewrite bytes_of_string_append.
  rewrite Sha1_SHA1.
  - apply Base64Encode_Base64, SHA1_range.
  - apply Forall_app_2; apply bytes_of_string_range.
  - rewrite length_app, !bytes_of_string_length.
    change (String.length a2fws.kGuid) with 36%nat.
    rewrite Nat2Z.inj_add. change (Z.of_nat 36) with 36.
    change (2 ^ 60) with 1152921504606846976 in HK.
    change (2 ^ 64) with 18446744073709551616. lia.
Qed.

Lemma websocket_accept_key_witness :
  a2fws.WebSocketAcceptKey "x3JJHMbDL1EzLkh9GBhXDw=="
  = RFC4648.Base64
      (FIPS180.SHA1
         (bytes_of_string "x3JJHMbDL1EzLkh9GBhXDw=="
          ++ bytes_of_string "258EAFA5-E914-47DA-95CA-C5AB0DC85B11")).
Proof.
  apply (proj1 websocket_accept_key "x3JJHMbDL1EzLkh9GBhXDw=="%string).
  vm_compute. reflexivity.
Defined.

(** ** Sessions: what each operation does to the state *)

Section SessionSteps.
Import Json a2fserver.

Lemma SendFrame_outbox (c : Connection) (op : a2fws.Opcode) (body : Body) :
  let '(ok, c') := SendFrame c op body in
  outbox c' = outbox c ++ (if ok then [(op, body)] else [])
  /\ (credit c = Some 0%nat -> ok = false /\ c' = c)
  /\ (credit c = None -> ok = true /\ credit c' = None)
  /\ (ok = false -> credit c' = Some 0%nat).
Proof.
  unfold SendFrame. destruct (credit c) as [[|n]|] eqn:Hc; cbn [outbox credit].
  - rewrite app_nil_r. repeat split; auto; discriminate.
  - repeat split; auto; discriminate.
  - repeat split; auto; discriminate.
Qed.

(** [SendErrorLocked] leaves the statuses alone and sends at most the
    error frame. *)
Lemma SendErrorLocked_env (message : string) (s : SessionContext) (env : Env) :
  engine (SendErrorLocked message s env) = engine env
  /\ (exists news, outbox (peer (SendErrorLocked message s env)) = outbox (peer env) ++ news
                   /\ (news = [] \/ news = [ErrorFrame message]))
  /\ (credit (peer env) = Some 0%nat -> peer (SendErrorLocked message s env) = peer env)
  /\ (credit (peer env) = None -> credit (peer (SendErrorLocked message s env)) = None).
Proof.
  unfold SendErrorLocked. destruct (_wsSocket s =? 0).
  - repeat split; auto. exists []. rewrite app_nil_r. auto.
  - pose proof (SendFrame_outbox (peer env) a2fws.Text (JsonText (ErrorMessage message))) as H.
    destruct (SendFrame _ _ _) as [ok c']. destruct H as (Hout & Hdead & Hopen & _).
    cbn [engine peer]. repeat split; auto.
    + exists (if ok then [ErrorFrame message] else []). split; [exact Hout|].
      destruct ok; auto.
    + intros Hc. now apply Hdead.
    + intros Hc. now apply Hopen.
Qed.

(** [OnDeviceResults] leaves the session as it is or stages the frame. *)
Lemma OnDeviceResults_state (r : DeviceResults) (s : SessionContext) (env : Env) :
  (OnDeviceResults r s env).1.2 = s
  \/ ((OnDeviceResults r s env).1.2 = StageFrame r s
      /\ (OnDeviceResults r s env).1.1 = true
      /\ _wsSocket s <> 0 /\ staged_view s r = true
      /\ (length (_pendingFrames s) < kMaxStagedFrames)%nat).
Proof.
  unfold OnDeviceResults, staged_view.
  destruct (Z.eqb_spec (_wsSocket s) 0); [now left|].
  destruct (length (weights r) =? 0)%nat; [now left|].
  destruct (length (weights r) =? _weightCount s)%nat; cbn [negb]; [|now left].
  destruct (Nat.leb_spec kMaxStagedFrames (length (_pendingFrames s))); [now left|].
  destruct (next_status (engine env)) as [[m|] st]; [now left|].
  right. cbn [fst snd]. auto.
Qed.

Lemma FlushPendingFramesLocked_state (s : SessionContext) (env : Env) :
  (FlushPendingFramesLocked s env).1.2 = s
  \/ (FlushPendingFramesLocked s env).1.2 = set_pendingFrames [] s.
Proof.
  unfold FlushPendingFramesLocked.
  destruct (_pendingFrames s); [now left|].
  destruct (_lastCudaStream s =? 0); [now left|].
  destruct (next_status (engine env)) as [[m|] st]; [now left|].
  destruct (FlushPendingFrames_send _ _ _) as [[] c]; [now right|now left].
Qed.

(** The first part of [PushAudio] touches only the scratch buffer and the
    bundle. *)
Lemma PushAudio_accumulate_state (start : Z) (pcm : list Z) (s : SessionContext)
  (env : Env) :
  let s' := (PushAudio_accumulate start pcm s env).1.2 in
  _wsSocket s' = _wsSocket s /\ _pendingFrames s' = _pendingFrames s
  /\ _lastCudaStream s' = _lastCudaStream s /\ _nextFrameIndex s' = _nextFrameIndex s
  /\ _weightCount s' = _weightCount s /\ _weightsStaging s' = _weightsStaging s.
Proof.
  unfold PushAudio_accumulate.
  destruct (start <? 0); [cbn; auto 10|].
  destruct (next_status (engine env)) as [[m|] st]; [cbn; auto 10|].
  destruct (_wsSocket s =? 0); [cbn; auto 10|].
  destruct (_bundle s) as [bundle|]; [|cbn; auto 10].
  destruct (_ <? _); [cbn; auto 10|].
  destruct (_ >? 16000 * 10); [cbn; auto 10|].
  destruct (_ >? 0).
  - cbn [engine peer]. destruct (next_status st) as [[m|] st1]; [cbn; auto 10|].
    cbn [engine peer]. destruct (next_status st1) as [[m|] st2]; cbn; auto 10.
  - cbn [engine peer]. destruct (next_status st) as [[m|] st1]; cbn; auto 10.
Qed.

End SessionSteps.

(** ** Invariants that depend on the queue and the last stream only *)

Section SessionInvariant.
Import Json a2fserver.

Variable P : DeviceResults -> Prop.
Variable I : SessionContext -> Prop.

Hypothesis I_fields : forall s s',
  _pendingFrames s' = _pendingFrames s -> _lastCudaStream s' = _lastCudaStream s ->
  I s -> I s'.
Hypothesis I_empty : forall s, _pendingFrames s = [] -> I s.
Hypothesis I_stage : forall r s,
  P r -> I s -> _wsSocket s <> 0 -> staged_view s r = true ->
  (length (_pendingFrames s) < kMaxStagedFrames)%nat -> I (StageFrame r s).

Lemma OnDeviceResults_invariant (r : DeviceResults) (s : SessionContext) (env : Env) :
  P r -> I s -> I (OnDeviceResults r s env).1.2.
Proof using All.
  intros Hr Hs. destruct (OnDeviceResults_state r s env) as [->|(-> & _ & ? & ? & ?)]; auto.
Qed.

Lemma Execute_callbacks_invariant (results : list DeviceResults) (s : SessionContext)
  (env : Env) :
  Forall P results -> I s -> I (Execute_callbacks results s env).1.
Proof using All.
  intros Hrs. revert s env. induction Hrs as [|r results Hr _ IH]; intros s env Hs; [exact Hs|].
  cbn [Execute_callbacks].
  pose proof (OnDeviceResults_invariant r s env Hr Hs) as Hs'.
  destruct (OnDeviceResults r s env) as [[ok s'] env']. cbn [fst snd] in Hs'.
  destruct ok; [now apply IH|exact Hs'].
Qed.

Lemma FlushPendingFramesLocked_invariant (s : SessionContext) (env : Env) :
  I s -> I (FlushPendingFramesLocked s env).1.2.
Proof using All.
  intros Hs. destruct (FlushPendingFramesLocked_state s env) as [->| ->]; auto.
Qed.

Lemma PushAudio_execute_invariant (steps : list (list DeviceResults)) (s : SessionContext)
  (env : Env) :
  Forall (Forall P) steps -> I s -> I (PushAudio_execute steps s env).1.2.
Proof using All.
  intros Hsteps. revert s env.
  induction Hsteps as [|step steps Hstep _ IH]; intros s env Hs; [exact Hs|].
  cbn [PushAudio_execute].
  pose proof (Execute_callbacks_invariant step s env Hstep Hs) as Hs1.
  destruct (Execute_callbacks step s env) as [s1 env1]. cbn [fst] in Hs1.
  destruct (next_status (engine env1)) as [[m|] st]; [exact Hs1|].
  destruct (kFlushThresholdFrames <=? length (_pendingFrames s1))%nat; [|now apply IH].
  pose proof (FlushPendingFramesLocked_invariant s1 (mkEnv (peer env1) st) Hs1) as Hs2.
  destruct (FlushPendingFramesLocked s1 _) as [[ok s2] env2]. cbn [fst snd] in Hs2.
  destruct ok; [now apply IH|exact Hs2].
Qed.

Lemma PushAudio_invariant (start : Z) (pcm : list Z) (steps : list (list DeviceResults))
  (s : SessionContext) (env : Env) :
  Forall (Forall P) steps -> I s -> I (PushAudio start pcm steps s env).1.2.
Proof using All.
  intros Hsteps Hs. unfold PushAudio.
  pose proof (PushAudio_accumulate_state start pcm s env) as Hacc.
  destruct (PushAudio_accumulate start pcm s env) as [[go s1] env1].
  cbn [fst snd] in Hacc. destruct Hacc as (_ & Hp & Hl & _).
  assert (Hs1 : I s1) by (apply (I_fields s); auto).
  destruct go; cbn [negb]; [|exact Hs1].
  pose proof (PushAudio_execute_invariant steps s1 env1 Hsteps Hs1) as Hs2.
  destruct (PushAudio_execute steps s1 env1) as [[ok s2] env2]. cbn [fst snd] in Hs2.
  destruct ok; cbn [negb]; [|exact Hs2].
  pose proof (FlushPendingFramesLocked_invariant s2 env2 Hs2) as Hs3.
  destruct (FlushPendingFramesLocked s2 env2) as [[ok s3] env3]. cbn [fst snd] in Hs3.
  now destruct ok.
Qed.

Lemma Start_invariant (wsSocket : Z) (rnd : list Z) (s : SessionContext) :
  I (Start wsSocket rnd s).2.
Proof using All. apply I_empty. reflexivity. Qed.

Lemma Stop_invariant (s : SessionContext) : I s -> I (Stop s).
Proof using All. apply I_fields; reflexivity. Qed.

Lemma ResetForReuse_invariant (s : SessionContext) (st : Status) :
  I s -> I (ResetForReuse s st).1.2.
Proof using All.
  intros Hs. unfold ResetForReuse.
  destruct (_bundle s) as [bundle|]; [|exact Hs].
  destruct (next_status st) as [[m|] st1]; [exact Hs|].
  destruct (next_status st1) as [[m|] st2]; [exact Hs|].
  destruct (next_status st2) as [[m|] st3]; [revert Hs; apply I_fields; reflexivity|].
  destruct (InitNeutralEmotionLocked _ st3) as [[ok b] st4].
  destruct ok; cbn [negb fst snd].
  - apply I_empty. reflexivity.
  - revert Hs. apply I_fields; reflexivity.
Qed.

Lemma Init_invariant (config : ServerConfig) (made : option Bundle) (s : SessionContext)
  (st : Status) :
  I s -> I (Init config made s st).1.2.
Proof using All.
  intros Hs. unfold Init.
  destruct (useGpuSolver config); cbn [negb]; [|exact Hs].
  destruct (next_status st) as [[m|] st1]; [revert Hs; apply I_fields; reflexivity|].
  destruct made as [bundle|]; [|revert Hs; apply I_fields; reflexivity].
  destruct (resultTypeIsDevice (executor bundle)); cbn [negb];
    [|revert Hs; apply I_fields; reflexivity].
  destruct (next_status st1) as [[m|] st2]; [revert Hs; apply I_fields; reflexivity|].
  unfold BuildChannelList.
  destruct (length _ =? _)%nat; cbn [negb];
    [|revert Hs; apply I_fields; reflexivity].
  destruct (next_status st2) as [[m|] st3]; [revert Hs; apply I_fields; reflexivity|].
  apply ResetForReuse_invariant. revert Hs. apply I_fields; reflexivity.
Qed.

Lemma reachable_invariant (s : SessionContext) : reachable P s -> I s.
Proof using All.
  induction 1.
  - apply I_empty. reflexivity.
  - now apply Init_invariant.
  - now apply ResetForReuse_invariant.
  - apply Start_invariant.
  - now apply Stop_invariant.
  - now apply PushAudio_invariant.
  - now apply OnDeviceResults_invariant.
Qed.

End SessionInvariant.

Section PendingQueue.
Import Json a2fserver.

Lemma pending_invariant_fields (s s' : SessionContext) :
  _pendingFrames s' = _pendingFrames s -> _lastCudaStream s' = _lastCudaStream s ->
  pending_invariant s -> pending_invariant s'.
Proof. unfold pending_invariant. intros -> _. auto. Qed.

Lemma pending_invariant_empty (s : SessionContext) :
  _pendingFrames s = [] -> pending_invariant s.
Proof. unfold pending_invariant. intros ->. cbn. split; [lia|reflexivity]. Qed.

Lemma StageFrame_pending (r : DeviceResults) (s : SessionContext) :
  _pendingFrames (StageFrame r s) = _pendingFrames s ++ [staged_frame r s].
Proof. reflexivity. Qed.

Lemma pending_invariant_stage (r : DeviceResults) (s : SessionContext) :
  True -> pending_invariant s -> _wsSocket s <> 0 -> staged_view s r = true ->
  (length (_pendingFrames s) < kMaxStagedFrames)%nat -> pending_invariant (StageFrame r s).
Proof.
  unfold pending_invariant. intros _ [Hlen Hslots] _ _ Hroom.
  rewrite StageFrame_pending, length_app, map_app, Hslots. cbn [length map staged_frame slotIndex].
  split; [lia|]. now rewrite Nat.add_1_r, seq_S.
Qed.

Lemma stream_invariant_fields (P : DeviceResults -> Prop) (s s' : SessionContext) :
  _pendingFrames s' = _pendingFrames s -> _lastCudaStream s' = _lastCudaStream s ->
  stream_invariant P s -> stream_invariant P s'.
Proof. unfold stream_invariant. intros -> ->. auto. Qed.

Lemma stream_invariant_empty (P : DeviceResults -> Prop) (s : SessionContext) :
  _pendingFrames s = [] -> stream_invariant P s.
Proof. unfold stream_invariant. intros ->. exact I. Qed.

Lemma stream_invariant_stage (P : DeviceResults -> Prop) (r : DeviceResults)
  (s : SessionContext) :
  P r -> stream_invariant P s -> _wsSocket s <> 0 -> staged_view s r = true ->
  (length (_pendingFrames s) < kMaxStagedFrames)%nat -> stream_invariant P (StageFrame r s).
Proof.
  intros Hr _ _ _ _. unfold stream_invariant.
  rewrite StageFrame_pending, last_snoc. exists r. repeat split; auto.
Qed.

Lemma stream_invariant_not_null (s : SessionContext) :
  stream_invariant stream_not_null s -> _pendingFrames s <> [] -> _lastCudaStream s <> 0.
Proof.
  unfold stream_invariant. intros Hinv Hne.
  destruct (last (_pendingFrames s)) as [f|] eqn:Hlast.
  - destruct Hinv as (r & Hr & _ & _ & ->). exact Hr.
  - apply last_None in Hlast. contradiction.
Qed.

End PendingQueue.

Section Sending.
Import Json a2fserver.

Lemma sends_only_refl (Q : a2fws.Opcode * Body -> Prop) (env env' : Env) :
  outbox (peer env') = outbox (peer env) -> sends_only Q env env'.
Proof. intros H. exists []. now rewrite app_nil_r. Qed.

Lemma sends_only_trans (Q : a2fws.Opcode * Body -> Prop) (env1 env2 env3 : Env) :
  sends_only Q env1 env2 -> sends_only Q env2 env3 -> sends_only Q env1 env3.
Proof.
  intros (n1 & H1 & Q1) (n2 & H2 & Q2). exists (n1 ++ n2).
  rewrite H2, H1, app_assoc. split; [reflexivity|now apply Forall_app_2].
Qed.

Lemma sends_only_error (Q : a2fws.Opcode * Body -> Prop) (message : string)
  (s : SessionContext) (env env0 : Env) :
  outbox (peer env0) = outbox (peer env) -> Q (ErrorFrame message) ->
  sends_only Q env (SendErrorLocked message s env0).
Proof.
  intros Hout HQ.
  destruct (SendErrorLocked_env message s env0) as (_ & (news & Hnews & Hcase) & _).
  exists news. rewrite Hnews, Hout. split; [reflexivity|].
  destruct Hcase as [-> | ->]; auto.
Qed.

Lemma ErrorFrame_inj (m1 m2 : string) : ErrorFrame m1 = ErrorFrame m2 -> m1 = m2.
Proof. unfold ErrorFrame, ErrorMessage. cbn. now intros [= ->]. Qed.

(** The loop of the flush sends a prefix of the queue, all of it when it
    succeeds; a peer that has closed gets nothing. *)
Lemma FlushPendingFrames_send_spec (s : SessionContext) (frames : list PendingFrame)
  (c : Connection) :
  let '(ok, c') := FlushPendingFrames_send s frames c in
  exists j : nat,
    (j <= length frames)%nat
    /\ outbox c'
       = outbox c ++ map (fun f => (a2fws.Binary, Octets (FramePayload s f))) (take j frames)
    /\ (ok = true -> j = length frames)
    /\ (ok = false -> (j < length frames)%nat /\ credit c' = Some 0%nat)
    /\ (credit c = Some 0%nat -> j = 0%nat /\ c' = c)
    /\ (credit c = None -> ok = true /\ credit c' = None).
Proof.
  revert c. induction frames as [|f frames IH]; intros c; cbn [FlushPendingFrames_send].
  - exists 0%nat. cbn. rewrite app_nil_r. split_and!; auto; discriminate.
  - pose proof (SendFrame_outbox c a2fws.Binary (Octets (FramePayload s f))) as Hsend.
    destruct (SendFrame c _ _) as [ok c1]. destruct Hsend as (Hout & Hdead & Hopen & Hfail).
    destruct ok.
    + specialize (IH c1). destruct (FlushPendingFrames_send s frames c1) as [ok c2].
      destruct IH as (j & Hj & Hout2 & Hok & Hno & Hdead2 & Hopen2).
      exists (S j). cbn [length take map]. rewrite Hout2, Hout, <- app_assoc.
      split; [lia|]. split; [reflexivity|]. split; [|split; [|split]].
      * intros ->. f_equal. now apply Hok.
      * intros ->. destruct (Hno eq_refl). split; [lia|assumption].
      * intros Hc. destruct (Hdead Hc). discriminate.
      * intros Hc. destruct (Hopen Hc) as [_ Hc1]. now apply Hopen2.
    + exists 0%nat. cbn [length take map]. rewrite Hout.
      split; [lia|]. split; [reflexivity|]. split; [|split; [|split]].
      * discriminate.
      * intros _. split; [lia|now apply Hfail].
      * intros Hc. now destruct (Hdead Hc).
      * intros Hc. destruct (Hopen Hc). discriminate.
Qed.

End Sending.

Section NoStreamError.
Import Json a2fserver.


Ltac other_error :=
  let H := fresh in
  unfold not_stream_error; intros H; apply ErrorFrame_inj in H; unfold kNoStreamError in H;
  cbn in H; discriminate H.

Lemma OnDeviceResults_other (r : DeviceResults) (s : SessionContext) (env : Env) :
  sends_only not_stream_error env (OnDeviceResults r s env).2.
Proof.
  unfold OnDeviceResults.
  destruct (_wsSocket s =? 0); [now apply sends_only_refl|].
  destruct (length (weights r) =? 0)%nat; [now apply sends_only_refl|].
  destruct (length (weights r) =? _weightCount s)%nat; cbn [negb snd];
    [|apply sends_only_error; [reflexivity|other_error]].
  destruct (kMaxStagedFrames <=? _)%nat; cbn [snd];
    [apply sends_only_error; [reflexivity|other_error]|].
  destruct (next_status (engine env)) as [[m|] st]; cbn [snd].
  - apply sends_only_error; [reflexivity|other_error].
  - now apply sends_only_refl.
Qed.

Lemma Execute_callbacks_other (results : list DeviceResults) (s : SessionContext)
  (env : Env) :
  sends_only not_stream_error env (Execute_callbacks results s env).2.
Proof.
  revert s env. induction results as [|r results IH]; intros s env; cbn [Execute_callbacks].
  - now apply sends_only_refl.
  - pose proof (OnDeviceResults_other r s env) as H1.
    destruct (OnDeviceResults r s env) as [[ok s1] env1]. cbn [snd] in H1.
    destruct ok; [|exact H1].
    eapply sends_only_trans; [exact H1|apply IH].
Qed.

Lemma FlushPendingFramesLocked_other (s : SessionContext) (env : Env) :
  (_pendingFrames s <> [] -> _lastCudaStream s <> 0) ->
  sends_only not_stream_error env (FlushPendingFramesLocked s env).2.
Proof.
  intros Hstream. unfold FlushPendingFramesLocked.
  destruct (_pendingFrames s) as [|f frames] eqn:Hp; [now apply sends_only_refl|].
  destruct (Z.eqb_spec (_lastCudaStream s) 0) as [E|_];
    [exfalso; now apply Hstream|].
  destruct (next_status (engine env)) as [[m|] st]; cbn [snd].
  - apply sends_only_error; [reflexivity|other_error].
  - pose proof (FlushPendingFrames_send_spec s (f :: frames) (peer env)) as Hsend.
    cbn [peer engine] in *.
    destruct (FlushPendingFrames_send s (f :: frames) (peer env)) as [ok c].
    destruct Hsend as (j & _ & Hout & _).
    assert (Hs : sends_only not_stream_error env (mkEnv c st)).
    { eexists. split; [exact Hout|]. apply Forall_forall. intros x Hx.
      apply list_elem_of_In, in_map_iff in Hx. destruct Hx as (g & <- & _).
      unfold not_stream_error, ErrorFrame. discriminate. }
    now destruct ok.
Qed.

Lemma PushAudio_execute_other (steps : list (list DeviceResults)) (s : SessionContext)
  (env : Env) :
  Forall (Forall stream_not_null) steps -> stream_invariant stream_not_null s ->
  sends_only not_stream_error env (PushAudio_execute steps s env).2.
Proof.
  intros Hsteps. revert s env.
  induction Hsteps as [|step steps Hstep _ IH]; intros s env Hs; cbn [PushAudio_execute].
  - now apply sends_only_refl.
  - pose proof (Execute_callbacks_invariant stream_not_null (stream_invariant stream_not_null)
                  (stream_invariant_fields _) (stream_invariant_empty _)
                  (stream_invariant_stage _) step s env Hstep Hs) as Hs1.
    pose proof (Execute_callbacks_other step s env) as H1.
    destruct (Execute_callbacks step s env) as [s1 env1]. cbn [fst snd] in Hs1, H1.
    destruct (next_status (engine env1)) as [[m|] st]; cbn [snd].
    + eapply sends_only_trans; [exact H1|].
      apply sends_only_error; [reflexivity|other_error].
    + assert (H1' : sends_only not_stream_error env (mkEnv (peer env1) st)) by exact H1.
      destruct (kFlushThresholdFrames <=? _)%nat.
      * pose proof (FlushPendingFramesLocked_invariant stream_not_null
                      (stream_invariant stream_not_null)
                      (stream_invariant_fields _) (stream_invariant_empty _)
                      (stream_invariant_stage _) s1 (mkEnv (peer env1) st) Hs1) as Hs2.
        pose proof (FlushPendingFramesLocked_other s1 (mkEnv (peer env1) st)
                      (stream_invariant_not_null s1 Hs1)) as H2.
        destruct (FlushPendingFramesLocked s1 _) as [[ok s2] env2]. cbn [fst snd] in Hs2, H2.
        destruct ok; cbn [snd].
        -- eapply sends_only_trans; [exact H1'|].
           eapply sends_only_trans; [exact H2|now apply IH].
        -- eapply sends_only_trans; [exact H1'|exact H2].
      * eapply sends_only_trans; [exact H1'|now apply IH].
Qed.

Lemma PushAudio_accumulate_other (start : Z) (pcm : list Z) (s : SessionContext)
  (env : Env) :
  sends_only not_stream_error env (PushAudio_accumulate start pcm s env).2.
Proof.
  unfold PushAudio_accumulate.
  destruct (start <? 0); cbn [snd]; [apply sends_only_error; [reflexivity|other_error]|].
  destruct (next_status (engine env)) as [[m|] st]; cbn [snd];
    [apply sends_only_error; [reflexivity|other_error]|].
  destruct (_wsSocket s =? 0); [now apply sends_only_refl|].
  destruct (_bundle s) as [bundle|]; cbn [snd];
    [|apply sends_only_error; [reflexivity|other_error]].
  destruct (_ <? _); cbn [snd]; [apply sends_only_error; [reflexivity|other_error]|].
  destruct (_ >? 16000 * 10); cbn [snd];
    [apply sends_only_error; [reflexivity|other_error]|].
  destruct (_ >? 0); cbn [engine peer].
  - destruct (next_status st) as [[m|] st1]; cbn [snd engine peer];
      [apply sends_only_error; [reflexivity|other_error]|].
    destruct (next_status st1) as [[m|] st2]; cbn [snd];
      [apply sends_only_error; [reflexivity|other_error]|now apply sends_only_refl].
  - destruct (next_status st) as [[m|] st1]; cbn [snd];
      [apply sends_only_error; [reflexivity|other_error]|now apply sends_only_refl].
Qed.

Lemma PushAudio_other (start : Z) (pcm : list Z) (steps : list (list DeviceResults))
  (s : SessionContext) (env : Env) :
  Forall (Forall stream_not_null) steps -> stream_invariant stream_not_null s ->
  sends_only not_stream_error env (PushAudio start pcm steps s env).2.
Proof.
  intros Hsteps Hs. unfold PushAudio.
  pose proof (PushAudio_accumulate_state start pcm s env) as Hacc.
  pose proof (PushAudio_accumulate_other start pcm s env) as H1.
  destruct (PushAudio_accumulate start pcm s env) as [[go s1] env1].
  cbn [fst snd] in Hacc, H1. destruct Hacc as (_ & Hp & Hl & _).
  assert (Hs1 : stream_invariant stream_not_null s1)
    by (apply (stream_invariant_fields _ s); auto).
  destruct go; cbn [negb snd]; [|exact H1].
  pose proof (PushAudio_execute_invariant stream_not_null (stream_invariant stream_not_null)
                (stream_invariant_fields _) (stream_invariant_empty _)
                (stream_invariant_stage _) steps s1 env1 Hsteps Hs1) as Hs2.
  pose proof (PushAudio_execute_other steps s1 env1 Hsteps Hs1) as H2.
  destruct (PushAudio_execute steps s1 env1) as [[ok s2] env2]. cbn [fst snd] in Hs2, H2.
  destruct ok; cbn [negb snd]; [|eapply sends_only_trans; eassumption].
  pose proof (FlushPendingFramesLocked_other s2 env2 (stream_invariant_not_null s2 Hs2)) as H3.
  destruct (FlushPendingFramesLocked s2 env2) as [[ok s3] env3]. cbn [snd] in H3.
  assert (sends_only not_stream_error env env3)
    by (eapply sends_only_trans; [exact H1|eapply sends_only_trans; eassumption]).
  now destruct ok.
Qed.

End NoStreamError.

(** C3, as the code has it.  Every session operation keeps at most 256
    frames pending with slots [0, 1, ..] in queue order.  On an attached
    session, a callback with a weight view that is not empty, made while
    256 frames are pending, returns false, leaves the queue as it is and
    sends an error frame; with fewer frames pending, a view of the
    session's weight count and a copy that succeeds, it returns true and
    appends one frame whose slot is the previous length of the queue.  A
    callback on a detached session or with an empty view changes nothing
    and sends nothing. *)
Theorem pending_queue_bounded :
  (forall s : a2fserver.SessionContext,
      a2fserver.pending_invariant s ->
      (forall r env, a2fserver.pending_invariant (a2fserver.OnDeviceResults r s env).1.2)
      /\ (forall env, a2fserver.pending_invariant (a2fserver.FlushPendingFramesLocked s env).1.2)
      /\ (forall start pcm steps env,
             a2fserver.pending_invariant (a2fserver.PushAudio start pcm steps s env).1.2)
      /\ (forall wsSocket rnd, a2fserver.pending_invariant (a2fserver.Start wsSocket rnd s).2)
      /\ a2fserver.pending_invariant (a2fserver.Stop s)
      /\ (forall st, a2fserver.pending_invariant (a2fserver.ResetForReuse s st).1.2)
      /\ (forall config made st,
             a2fserver.pending_invariant (a2fserver.Init config made s st).1.2))
  /\ (forall r s env,
         a2fserver._wsSocket s <> 0 -> a2fserver.weights r <> [] ->
         length (a2fserver._pendingFrames s) = a2fserver.kMaxStagedFrames ->
         a2fserver.OnDeviceResults r s env
         = (false, s,
            a2fserver.mkEnv
              (a2fserver.SendFrame (a2fserver.peer env) a2fws.Text
                 (a2fserver.JsonText
                    (a2fserver.ErrorMessage
                       (if (length (a2fserver.weights r) =? a2fserver._weightCount s)%nat
                        then "Too many pending frames (client too slow?)"
                        else "Unexpected weight vector size from executor")))).2
              (a2fserver.engine env)))
  /\ (forall r s env st,
         a2fserver._wsSocket s <> 0 -> a2fserver.weights r <> [] ->
         length (a2fserver.weights r) = a2fserver._weightCount s ->
         (length (a2fserver._pendingFrames s) < a2fserver.kMaxStagedFrames)%nat ->
         a2fserver.next_status (a2fserver.engine env) = (None, st) ->
         a2fserver.OnDeviceResults r s env
         = (true, a2fserver.StageFrame r s, a2fserver.mkEnv (a2fserver.peer env) st)
         /\ a2fserver._pendingFrames (a2fserver.StageFrame r s)
            = a2fserver._pendingFrames s
              ++ [a2fserver.mkPendingFrame (a2fserver._nextFrameIndex s)
                    (a2fserver.timeStampCurrentFrame r) (a2fserver.timeStampNextFrame r)
                    (length (a2fserver._pendingFrames s))])
  /\ (forall r s env,
         a2fserver._wsSocket s = 0 ->
         a2fserver.OnDeviceResults r s env = (false, s, env))
  /\ (forall r s env,
         a2fserver._wsSocket s <> 0 -> a2fserver.weights r = [] ->
         a2fserver.OnDeviceResults r s env = (true, s, env)).
Proof.
  split; [|split; [|split; [|split]]].
  - intros s Hs.
    pose proof pending_invariant_fields as Hf.
    pose proof pending_invariant_empty as He.
    pose proof pending_invariant_stage as Hg.
    split_and!; intros.
    + now apply (OnDeviceResults_invariant (fun _ => True) _ Hf He Hg).
    + now apply (FlushPendingFramesLocked_invariant (fun _ => True) _ Hf He Hg).
    + apply (PushAudio_invariant (fun _ => True) _ Hf He Hg); auto.
      apply Forall_forall. intros step _. apply Forall_forall. auto.
    + now apply (Start_invariant (fun _ => True) _ Hf He Hg).
    + now apply (Stop_invariant (fun _ => True) _ Hf He Hg).
    + now apply (ResetForReuse_invariant (fun _ => True) _ Hf He Hg).
    + now apply (Init_invariant (fun _ => True) _ Hf He Hg).
  - intros r s env Hws Hw Hfull. unfold a2fserver.OnDeviceResults, a2fserver.SendErrorLocked.
    destruct (Z.eqb_spec (a2fserver._wsSocket s) 0) as [|_]; [contradiction|].
    destruct (Nat.eqb_spec (length (a2fserver.weights r)) 0) as [E|_];
      [apply length_zero_iff_nil in E; contradiction|].
    destruct (length (a2fserver.weights r) =? a2fserver._weightCount s)%nat; cbn [negb].
    + rewrite Hfull, Nat.leb_refl.
      now destruct (a2fserver.SendFrame _ _ _).
    + now destruct (a2fserver.SendFrame _ _ _).
  - intros r s env st Hws Hw Hwc Hroom Hst. split; [|reflexivity].
    unfold a2fserver.OnDeviceResults.
    destruct (Z.eqb_spec (a2fserver._wsSocket s) 0) as [|_]; [contradiction|].
    destruct (Nat.eqb_spec (length (a2fserver.weights r)) 0) as [E|_];
      [apply length_zero_iff_nil in E; contradiction|].
    rewrite Hwc, Nat.eqb_refl. cbn [negb].
    destruct (Nat.leb_spec a2fserver.kMaxStagedFrames (length (a2fserver._pendingFrames s)));
      [lia|].
    now rewrite Hst.
  - intros r s env Hws. unfold a2fserver.OnDeviceResults. now rewrite Hws.
  - intros r s env Hws Hw. unfold a2fserver.OnDeviceResults.
    destruct (Z.eqb_spec (a2fserver._wsSocket s) 0) as [|_]; [contradiction|].
    now rewrite Hw.
Qed.

(** The attached sample session: an empty queue satisfies the invariant
    and stays within it after a callback; the full queue refuses a frame
    with an error; the empty queue takes one into slot 0. *)
Lemma pending_queue_bounded_witness :
  a2fserver.pending_invariant
    (a2fserver.OnDeviceResults (a2fserver.sample_results 0) a2fserver.sample_attached
       a2fserver.sample_env).1.2
  /\ fst (fst (a2fserver.OnDeviceResults (a2fserver.sample_results 256)
                 a2fserver.sample_full a2fserver.sample_env)) = false
  /\ map a2fserver.slotIndex
       (a2fserver._pendingFrames
          (a2fserver.OnDeviceResults (a2fserver.sample_results 0) a2fserver.sample_attached
             a2fserver.sample_env).1.2) = [0%nat].
Proof.
  destruct pending_queue_bounded as (Hinv & Hfull & Hroom & _ & _).
  assert (H0 : a2fserver.pending_invariant a2fserver.sample_attached).
  { split; [vm_compute; lia|vm_compute; reflexivity]. }
  destruct (Hinv _ H0) as (Hcb & _).
  pose proof (Hfull (a2fserver.sample_results 256) a2fserver.sample_full a2fserver.sample_env)
    as Hf.
  pose proof (Hroom (a2fserver.sample_results 0) a2fserver.sample_attached
                a2fserver.sample_env []) as Hr.
  split; [exact (Hcb _ _)|]. split.
  - rewrite Hf.
    + reflexivity.
    + vm_compute. discriminate.
    + vm_compute. discriminate.
    + vm_compute. reflexivity.
  - destruct Hr as [Hr _].
    + vm_compute. discriminate.
    + vm_compute. discriminate.
    + vm_compute. reflexivity.
    + vm_compute. lia.
    + reflexivity.
    + rewrite Hr. vm_compute. reflexivity.
Defined.

(** C3 as stated fails: with 256 frames pending on an attached session, a
    callback with an empty weight view returns true and sends nothing. *)
Lemma full_queue_empty_view_no_error :
  length (a2fserver._pendingFrames a2fserver.sample_full) = 256%nat
  /\ a2fserver._wsSocket a2fserver.sample_full <> 0
  /\ a2fserver.OnDeviceResults (a2fserver.mkDeviceResults 0 [] 7 256 257)
       a2fserver.sample_full a2fserver.sample_env
     = (true, a2fserver.sample_full, a2fserver.sample_env).
Proof.
  split; [vm_compute; reflexivity|]. split; [vm_compute; discriminate|].
  vm_compute. reflexivity.
Qed.

(** C10.  In every reachable state with frames pending, [_lastCudaStream]
    is the stream of the results from which the last pending frame was
    staged; when the engine never supplies a null stream it is not null,
    and [PushAudio] never sends the error "no CUDA stream associated with
    pending frames". *)
Theorem pending_frames_have_stream :
  (forall (P : a2fserver.DeviceResults -> Prop) (s : a2fserver.SessionContext),
      a2fserver.reachable P s -> a2fserver.stream_invariant P s)
  /\ (forall s : a2fserver.SessionContext,
         a2fserver.reachable a2fserver.stream_not_null s ->
         a2fserver._pendingFrames s <> [] -> a2fserver._lastCudaStream s <> 0)
  /\ (forall (s : a2fserver.SessionContext) (start : Z) (pcm : list Z)
             (steps : list (list a2fserver.DeviceResults)) (env : a2fserver.Env),
         a2fserver.reachable a2fserver.stream_not_null s ->
         Forall (Forall a2fserver.stream_not_null) steps ->
         In (a2fserver.ErrorFrame a2fserver.kNoStreamError)
            (a2fserver.outbox (a2fserver.peer (a2fserver.PushAudio start pcm steps s env).2)) ->
         In (a2fserver.ErrorFrame a2fserver.kNoStreamError)
            (a2fserver.outbox (a2fserver.peer env))).
Proof.
  assert (Hreach : forall P s, a2fserver.reachable P s -> a2fserver.stream_invariant P s).
  { intros P s. apply (reachable_invariant P).
    - apply stream_invariant_fields.
    - apply stream_invariant_empty.
    - apply stream_invariant_stage. }
  split; [exact Hreach|]. split.
  - intros s Hs. apply stream_invariant_not_null. now apply Hreach.
  - intros s start pcm steps env Hs Hsteps Hin.
    destruct (PushAudio_other start pcm steps s env Hsteps (Hreach _ s Hs))
      as (news & Hout & Hnews).
    rewrite Hout in Hin. apply in_app_or in Hin. destruct Hin as [Hin|Hin]; [exact Hin|].
    rewrite Forall_forall in Hnews. apply list_elem_of_In, Hnews in Hin. now contradiction Hin.
Qed.

Lemma pending_frames_have_stream_witness :
  a2fserver._lastCudaStream
    (a2fserver.OnDeviceResults (a2fserver.sample_results 0) a2fserver.sample_attached
       a2fserver.sample_env).1.2 <> 0.
Proof.
  apply (proj1 (proj2 pending_frames_have_stream)).
  - apply a2fserver.reach_OnDeviceResults; [|vm_compute; discriminate].
    unfold a2fserver.sample_attached. apply a2fserver.reach_Start.
    apply a2fserver.reach_ResetForReuse.
    unfold a2fserver.sample_idle. apply a2fserver.reach_Init.
    apply a2fserver.reach_default.
  - vm_compute. discriminate.
Defined.

(** ** The animation frames of a run *)

Section AnimationFrames.
Import Json a2fserver.

Lemma little_endian_value_bytes (v : Z) (a n : nat) :
  little_endian_value (map (fun i => (v / 256 ^ Z.of_nat i) mod 256) (seq a n))
  = (v / 256 ^ Z.of_nat a) mod 256 ^ Z.of_nat n.
Proof.
  revert a. induction n as [|n IH]; intros a.
  - cbn. now rewrite Z.mod_1_r.
  - cbn [seq map little_endian_value fold_right].
    change (fold_right (fun b acc => b + 256 * acc) 0 ?l) with (little_endian_value l).
    rewrite IH, !Nat2Z.inj_succ, !Z.pow_succ_r by lia.
    assert (Hp : 0 < 256 ^ Z.of_nat n) by (apply Z.pow_pos_nonneg; lia).
    assert (Hq : 0 < 256 ^ Z.of_nat a) by (apply Z.pow_pos_nonneg; lia).
    rewrite Z.rem_mul_r by lia. f_equal. f_equal. f_equal.
    rewrite Z.div_div by lia. f_equal. lia.
Qed.

Lemma le_bytes_value (v : Z) :
  little_endian_value
    (map (fun i => u8 (Z.land (Z.shiftr v (i * 8)) 0xff)) [0; 1; 2; 3; 4; 5; 6; 7])
  = v mod 2 ^ 64.
Proof.
  change [0; 1; 2; 3; 4; 5; 6; 7] with (map Z.of_nat (seq 0 8)).
  rewrite map_map.
  rewrite (map_ext _ (fun i => (v / 256 ^ Z.of_nat i) mod 256))
    by (intros i; apply byte_at; lia).
  rewrite little_endian_value_bytes. change (256 ^ Z.of_nat 0) with 1.
  now rewrite Z.div_1_r.
Qed.

Lemma fold_AppendU32LE (ws buf : list Z) :
  exists tail, fold_left AppendU32LE ws buf = buf ++ tail.
Proof.
  revert buf. induction ws as [|w ws IH]; intros buf; cbn [fold_left].
  - exists []. now rewrite app_nil_r.
  - destruct (IH (AppendU32LE buf w)) as [tail ->]. unfold AppendU32LE.
    rewrite <- app_assoc. eauto.
Qed.

(** The header fields of a frame's payload, read back. *)
Lemma FramePayload_fields (s : SessionContext) (f : PendingFrame) :
  payload_frameIndex (FramePayload s f) = frameIndex f mod 2 ^ 64
  /\ payload_tsCurrent (FramePayload s f) = i64 (tsCurrent f).
Proof.
  unfold FramePayload. cbv zeta.
  destruct (fold_AppendU32LE
              (View (_weightsStaging s) (slotIndex f * _weightCount s) (_weightCount s))
              (AppendI64LE
                 (AppendI64LE
                    (AppendU64LE
                       (AppendU32LE
                          (AppendU32LE (AppendU32LE (AppendU32LE [] kFrameMagicA2FB)
                                          kProtocolVersion)
                             (u32 (Z.of_nat (_weightCount s)))) 0)
                       (frameIndex f)) (tsCurrent f)) (tsNext f))) as [tail ->].
  unfold payload_frameIndex, payload_tsCurrent, AppendI64LE, AppendU64LE, AppendU32LE.
  cbn [app map]. cbn [drop take].
  split.
  - exact (le_bytes_value (frameIndex f)).
  - transitivity (i64 (u64 (tsCurrent f) mod 2 ^ 64));
      [exact (f_equal i64 (le_bytes_value (u64 (tsCurrent f))))|].
    unfold i64, u64. now rewrite !Z.mod_mod by lia.
Qed.

Lemma i64_in_range (v : Z) : in_int64 v -> i64 v = v.
Proof.
  unfold in_int64, i64. intros Hv. cbv zeta.
  change (2 ^ 63) with 9223372036854775808 in *.
  change (2 ^ 64) with 18446744073709551616.
  destruct (Z_lt_le_dec v 0).
  - replace (v mod 18446744073709551616) with (v + 18446744073709551616)
      by (apply Z.mod_unique with (q := -1); lia).
    destruct (Z.ltb_spec (v + 18446744073709551616) 9223372036854775808); lia.
  - rewrite Z.mod_small by lia. destruct (Z.ltb_spec v 9223372036854775808); lia.
Qed.

Lemma binary_payloads_app (l1 l2 : list (a2fws.Opcode * Body)) :
  binary_payloads (l1 ++ l2) = binary_payloads l1 ++ binary_payloads l2.
Proof. unfold binary_payloads. apply flat_map_app. Qed.

Lemma binary_payloads_frames (s : SessionContext) (frames : list PendingFrame) :
  binary_payloads (map (fun f => (a2fws.Binary, Octets (FramePayload s f))) frames)
  = map (FramePayload s) frames.
Proof. induction frames as [|f frames IH]; cbn; [reflexivity|now rewrite <- IH]. Qed.

Lemma sends_text_refl (env env' : Env) : peer env' = peer env -> sends_text env env'.
Proof.
  intros H. split.
  - exists []. now rewrite app_nil_r, H.
  - now rewrite H.
Qed.

Lemma sends_text_trans (env1 env2 env3 : Env) :
  sends_text env1 env2 -> sends_text env2 env3 -> sends_text env1 env3.
Proof.
  intros [(x1 & H1 & B1) D1] [(x2 & H2 & B2) D2]. split; [|auto].
  exists (x1 ++ x2). rewrite H2, H1, app_assoc, binary_payloads_app, B1, B2. auto.
Qed.

Lemma sends_text_error (message : string) (s : SessionContext) (env env0 : Env) :
  peer env0 = peer env -> sends_text env (SendErrorLocked message s env0).
Proof.
  intros Hp.
  destruct (SendErrorLocked_env message s env0) as (_ & (news & Hnews & Hcase) & Hdead & _).
  split.
  - exists news. rewrite Hnews, Hp. split; [reflexivity|].
    destruct Hcase as [-> | ->]; reflexivity.
  - rewrite <- Hp. intros Hc. now rewrite (Hdead Hc).
Qed.

End AnimationFrames.

Section RunInvariant.
Import Json a2fserver.

Lemma OnDeviceResults_env (r : DeviceResults) (s : SessionContext) (env : Env) :
  ((OnDeviceResults r s env).1.2 = s /\ sends_text env (OnDeviceResults r s env).2)
  \/ ((OnDeviceResults r s env).1.2 = StageFrame r s
      /\ peer (OnDeviceResults r s env).2 = peer env).
Proof.
  unfold OnDeviceResults.
  destruct (_wsSocket s =? 0); [left; split; [reflexivity|now apply sends_text_refl]|].
  destruct (length (weights r) =? 0)%nat;
    [left; split; [reflexivity|now apply sends_text_refl]|].
  destruct (length (weights r) =? _weightCount s)%nat; cbn [negb];
    [|left; split; [reflexivity|now apply sends_text_error]].
  destruct (kMaxStagedFrames <=? _)%nat;
    [left; split; [reflexivity|now apply sends_text_error]|].
  destruct (next_status (engine env)) as [[m|] st].
  - left; split; [reflexivity|now apply sends_text_error].
  - right. split; reflexivity.
Qed.

Lemma run_invariant_fields (sent0 : list (a2fws.Opcode * Body)) (staged : list PendingFrame)
  (processed : list DeviceResults) (s s' : SessionContext) (env : Env) :
  _pendingFrames s' = _pendingFrames s -> _nextFrameIndex s' = _nextFrameIndex s ->
  run_invariant sent0 staged processed s env -> run_invariant sent0 staged processed s' env.
Proof. unfold run_invariant. intros -> ->. auto. Qed.

Lemma run_invariant_text (sent0 : list (a2fws.Opcode * Body)) (staged : list PendingFrame)
  (processed : list DeviceResults) (s : SessionContext) (env env' : Env) :
  sends_text env env' ->
  run_invariant sent0 staged processed s env -> run_invariant sent0 staged processed s env'.
Proof.
  intros [(extra & Hout & Hbin) Hdead]
    (news & k & p & H1 & H2 & H3 & H4 & H5 & H6 & H7 & H8 & H9).
  exists (news ++ extra), k, p.
  rewrite Hout, H1, <- app_assoc, binary_payloads_app, Hbin, app_nil_r.
  split_and!; auto; lia.
Qed.

Lemma run_invariant_processed (sent0 : list (a2fws.Opcode * Body))
  (staged : list PendingFrame) (processed more : list DeviceResults) (s : SessionContext)
  (env : Env) :
  run_invariant sent0 staged processed s env ->
  run_invariant sent0 staged (processed ++ more) s env.
Proof.
  intros (news & k & p & H1 & H2 & H3 & H4 & H5 & H6 & H7 & H8 & H9).
  exists news, k, p. split_and!; auto; try lia.
  rewrite map_app. now apply sublist_inserts_r.
Qed.

Lemma run_invariant_stage (sent0 : list (a2fws.Opcode * Body)) (staged : list PendingFrame)
  (processed : list DeviceResults) (r : DeviceResults) (s : SessionContext) (env env' : Env) :
  peer env' = peer env ->
  run_invariant sent0 staged processed s env ->
  run_invariant sent0 (staged ++ [staged_frame r s]) (processed ++ [r]) (StageFrame r s) env'.
Proof.
  intros Hp (news & k & p & H1 & H2 & H3 & H4 & H5 & H6 & H7 & H8 & H9).
  exists news, k, p. rewrite Hp.
  rewrite !take_app_le, drop_app_le, length_app by lia.
  split_and!; auto; try (cbn [length]; lia).
  - rewrite StageFrame_pending. now rewrite H4.
  - cbn [length]. rewrite Nat.add_1_r, seq_S, !map_app, H7. cbn [map staged_frame frameIndex].
    now rewrite H8.
  - cbn [length]. rewrite Nat.add_1_r, Nat2Z.inj_succ.
    change (_nextFrameIndex (StageFrame r s)) with (u64 (_nextFrameIndex s + 1)).
    rewrite H8. unfold u64. rewrite Zplus_mod_idemp_l. f_equal; lia.
  - rewrite !map_app. apply sublist_app; [exact H9|]. reflexivity.
Qed.

Lemma OnDeviceResults_run (sent0 : list (a2fws.Opcode * Body)) (staged : list PendingFrame)
  (processed : list DeviceResults) (r : DeviceResults) (s : SessionContext) (env : Env) :
  run_invariant sent0 staged processed s env ->
  exists staged',
    run_invariant sent0 staged' (processed ++ [r])
      (OnDeviceResults r s env).1.2 (OnDeviceResults r s env).2.
Proof.
  intros Hinv. destruct (OnDeviceResults_env r s env) as [[-> Htext]|[-> Hpeer]].
  - exists staged. apply run_invariant_processed. now apply (run_invariant_text _ _ _ _ env).
  - exists (staged ++ [staged_frame r s]). now apply (run_invariant_stage _ _ _ _ _ env).
Qed.

Lemma Execute_callbacks_run (sent0 : list (a2fws.Opcode * Body))
  (results : list DeviceResults) (staged : list PendingFrame)
  (processed : list DeviceResults) (s : SessionContext) (env : Env) :
  run_invariant sent0 staged processed s env ->
  exists staged',
    run_invariant sent0 staged' (processed ++ results)
      (Execute_callbacks results s env).1 (Execute_callbacks results s env).2.
Proof.
  revert staged processed s env.
  induction results as [|r results IH]; intros staged processed s env Hinv.
  - exists staged. now rewrite app_nil_r.
  - cbn [Execute_callbacks].
    destruct (OnDeviceResults_run sent0 staged processed r s env Hinv) as [staged1 H1].
    destruct (OnDeviceResults r s env) as [[ok s1] env1]. cbn [fst snd] in H1.
    destruct ok.
    + destruct (IH staged1 (processed ++ [r]) s1 env1 H1) as [staged2 H2].
      exists staged2. now rewrite <- app_assoc in H2.
    + exists staged1. cbn [fst snd].
      replace (processed ++ r :: results) with ((processed ++ [r]) ++ results)
        by now rewrite <- app_assoc.
      now apply run_invariant_processed.
Qed.

Lemma frameIndex_reduced (staged : list PendingFrame) :
  map frameIndex staged = map (fun i => Z.of_nat i mod 2 ^ 64) (seq 0 (length staged)) ->
  Forall (fun f => frameIndex f mod 2 ^ 64 = frameIndex f) staged.
Proof.
  intros H. apply Forall_forall. intros f Hf.
  apply (list_elem_of_fmap_2 frameIndex) in Hf. change (frameIndex <$> staged) with (map frameIndex staged) in Hf.
  rewrite H in Hf. apply list_elem_of_In, in_map_iff in Hf. destruct Hf as (i & <- & _).
  now rewrite Z.mod_mod by lia.
Qed.

Lemma FlushPendingFramesLocked_run (sent0 : list (a2fws.Opcode * Body))
  (staged : list PendingFrame) (processed : list DeviceResults) (s : SessionContext)
  (env : Env) :
  run_invariant sent0 staged processed s env ->
  run_invariant sent0 staged processed
    (FlushPendingFramesLocked s env).1.2 (FlushPendingFramesLocked s env).2.
Proof.
  intros Hinv. unfold FlushPendingFramesLocked.
  destruct (_pendingFrames s) as [|f0 frames0] eqn:Hpending; [exact Hinv|].
  destruct (_lastCudaStream s =? 0);
    [apply (run_invariant_text _ _ _ _ env); [now apply sends_text_error|exact Hinv]|].
  destruct (next_status (engine env)) as [[m|] st]; cbn [fst snd];
    [apply (run_invariant_text _ _ _ _ env); [now apply sends_text_error|exact Hinv]|].
  cbn [peer engine].
  pose proof (FlushPendingFrames_send_spec s (f0 :: frames0) (peer env)) as Hsend.
  destruct (FlushPendingFrames_send s (f0 :: frames0) (peer env)) as [ok c].
  destruct Hsend as (j & Hj & Hout & Hok & Hno & Hdead & _).
  destruct Hinv as (news & k & p & H1 & H2 & H3 & H4 & H5 & H6 & H7 & H8 & H9).
  rewrite Hpending in H4.
  destruct (Nat.eq_dec p k) as [->|Hpk].
  - (* the peer has every frame before the queue *)
    assert (Hred := frameIndex_reduced staged H7).
    assert (Hnews :
      outbox c = sent0 ++ news ++ map (fun f => (a2fws.Binary, Octets (FramePayload s f)))
                                    (take j (drop k staged))).
    { rewrite Hout, H1, H4, <- app_assoc. reflexivity. }
    assert (Hidx :
      map payload_frameIndex
        (binary_payloads (news ++ map (fun f => (a2fws.Binary, Octets (FramePayload s f)))
                                    (take j (drop k staged))))
      = map frameIndex (take (k + j) staged)).
    { rewrite binary_payloads_app, binary_payloads_frames, map_app, H2, <- take_take_drop,
        map_app, map_map. f_equal. apply map_ext_in. intros f Hf.
      rewrite (proj1 (FramePayload_fields s f)).
      rewrite Forall_forall in Hred. apply Hred.
      apply list_elem_of_In in Hf.
      apply (elem_of_sublist _ _ _ Hf).
      etransitivity; [apply sublist_take|apply sublist_drop]. }
    assert (Hts :
      map payload_tsCurrent
        (binary_payloads (news ++ map (fun f => (a2fws.Binary, Octets (FramePayload s f)))
                                    (take j (drop k staged))))
      = map (fun f => i64 (tsCurrent f)) (take (k + j) staged)).
    { rewrite binary_payloads_app, binary_payloads_frames, map_app, H3, <- take_take_drop,
        map_app, map_map. f_equal. apply map_ext. intros f.
      apply (proj2 (FramePayload_fields s f)). }
    assert (Hlen : length (f0 :: frames0) = (length staged - k)%nat)
      by (rewrite H4; apply length_drop).
    destruct ok; cbn [fst snd].
    + specialize (Hok eq_refl).
      exists (news ++ map (fun f => (a2fws.Binary, Octets (FramePayload s f)))
                        (take j (drop k staged))), (k + j)%nat, (length staged).
      cbn [peer]. split_and!; auto; try lia.
      * cbn. now rewrite drop_all.
    + destruct (Hno eq_refl) as [Hlt Hc].
      exists (news ++ map (fun f => (a2fws.Binary, Octets (FramePayload s f)))
                        (take j (drop k staged))), (k + j)%nat, k.
      cbn [peer]. split_and!; auto; try lia.
      now rewrite Hpending.
  - (* the peer closed in an earlier flush *)
    assert (Hc : credit (peer env) = Some 0%nat) by (apply H6; lia).
    destruct (Hdead Hc) as [-> ->].
    assert (ok = false) as ->.
    { destruct ok; [|reflexivity]. specialize (Hok eq_refl). discriminate Hok. }
    cbn [fst snd]. exists news, k, p. cbn [peer]. rewrite Hpending. split_and!; auto; lia.
Qed.

End RunInvariant.

Section Runs.
Import Json a2fserver.

Lemma PushAudio_execute_run (sent0 : list (a2fws.Opcode * Body))
  (steps : list (list DeviceResults)) (staged : list PendingFrame)
  (processed : list DeviceResults) (s : SessionContext) (env : Env) :
  run_invariant sent0 staged processed s env ->
  exists staged',
    run_invariant sent0 staged' (processed ++ concat steps)
      (PushAudio_execute steps s env).1.2 (PushAudio_execute steps s env).2.
Proof.
  revert staged processed s env.
  induction steps as [|step steps IH]; intros staged processed s env Hinv.
  - exists staged. cbn. now rewrite app_nil_r.
  - cbn [PushAudio_execute concat]. rewrite app_assoc.
    destruct (Execute_callbacks_run sent0 step staged processed s env Hinv) as [staged1 H1].
    destruct (Execute_callbacks step s env) as [s1 env1]. cbn [fst snd] in H1.
    destruct (next_status (engine env1)) as [[m|] st]; cbn [fst snd].
    + exists staged1. apply run_invariant_processed.
      apply (run_invariant_text _ _ _ _ env1); [now apply sends_text_error|exact H1].
    + assert (H1' : run_invariant sent0 staged1 (processed ++ step) s1 (mkEnv (peer env1) st))
        by (apply (run_invariant_text _ _ _ _ env1); [now apply sends_text_refl|exact H1]).
      destruct (kFlushThresholdFrames <=? _)%nat; [|exact (IH _ _ _ _ H1')].
      pose proof (FlushPendingFramesLocked_run _ _ _ _ _ H1') as H2.
      destruct (FlushPendingFramesLocked s1 _) as [[ok s2] env2]. cbn [fst snd] in H2.
      destruct ok; [exact (IH _ _ _ _ H2)|].
      exists staged1. now apply run_invariant_processed.
Qed.

Lemma PushAudio_accumulate_text (start : Z) (pcm : list Z) (s : SessionContext)
  (env : Env) :
  sends_text env (PushAudio_accumulate start pcm s env).2.
Proof.
  unfold PushAudio_accumulate.
  destruct (start <? 0); cbn [snd]; [now apply sends_text_error|].
  destruct (next_status (engine env)) as [[m|] st]; cbn [snd];
    [now apply sends_text_error|].
  destruct (_wsSocket s =? 0); [now apply sends_text_refl|].
  destruct (_bundle s) as [bundle|]; cbn [snd]; [|now apply sends_text_error].
  destruct (_ <? _); cbn [snd]; [now apply sends_text_error|].
  destruct (_ >? 16000 * 10); cbn [snd]; [now apply sends_text_error|].
  destruct (_ >? 0); cbn [engine peer].
  - destruct (next_status st) as [[m|] st1]; cbn [snd engine peer];
      [now apply sends_text_error|].
    destruct (next_status st1) as [[m|] st2]; cbn [snd];
      [now apply sends_text_error|now apply sends_text_refl].
  - destruct (next_status st) as [[m|] st1]; cbn [snd];
      [now apply sends_text_error|now apply sends_text_refl].
Qed.

Lemma PushAudio_run (sent0 : list (a2fws.Opcode * Body)) (start : Z) (pcm : list Z)
  (steps : list (list DeviceResults)) (staged : list PendingFrame)
  (processed : list DeviceResults) (s : SessionContext) (env : Env) :
  run_invariant sent0 staged processed s env ->
  exists staged',
    run_invariant sent0 staged' (processed ++ concat steps)
      (PushAudio start pcm steps s env).1.2 (PushAudio start pcm steps s env).2.
Proof.
  intros Hinv. unfold PushAudio.
  pose proof (PushAudio_accumulate_state start pcm s env) as Hacc.
  pose proof (PushAudio_accumulate_text start pcm s env) as Htext.
  destruct (PushAudio_accumulate start pcm s env) as [[go s1] env1].
  cbn [fst snd] in Hacc, Htext. destruct Hacc as (_ & Hp & _ & Hn & _).
  assert (H1 : run_invariant sent0 staged processed s1 env1).
  { apply (run_invariant_fields _ _ _ s); auto.
    now apply (run_invariant_text _ _ _ _ env). }
  destruct go; cbn [negb fst snd]; [|exists staged; now apply run_invariant_processed].
  destruct (PushAudio_execute_run sent0 steps staged processed s1 env1 H1) as [staged2 H2].
  destruct (PushAudio_execute steps s1 env1) as [[ok s2] env2]. cbn [fst snd] in H2.
  exists staged2.
  destruct ok; cbn [negb fst snd]; [|exact H2].
  pose proof (FlushPendingFramesLocked_run _ _ _ _ _ H2) as H3.
  destruct (FlushPendingFramesLocked s2 env2) as [[ok s3] env3]. cbn [fst snd] in H3.
  now destruct ok.
Qed.

Lemma PushAll_run (sent0 : list (a2fws.Opcode * Body)) (calls : list PushCall)
  (staged : list PendingFrame) (processed : list DeviceResults) (s : SessionContext)
  (env : Env) :
  run_invariant sent0 staged processed s env ->
  exists staged',
    run_invariant sent0 staged' (processed ++ results_of calls)
      (PushAll calls s env).1.2 (PushAll calls s env).2.
Proof.
  revert staged processed s env.
  induction calls as [|c calls IH]; intros staged processed s env Hinv.
  - exists staged. unfold results_of. cbn. now rewrite app_nil_r.
  - cbn [PushAll]. unfold results_of. cbn [map concat]. rewrite concat_app, app_assoc.
    destruct (PushAudio_run sent0 (call_start c) (call_pcm c) (call_steps c)
                staged processed s env Hinv) as [staged1 H1].
    destruct (PushAudio _ _ _ s env) as [[ok s1] env1]. cbn [fst snd] in H1.
    destruct (IH staged1 _ s1 env1 H1) as [staged2 H2].
    destruct (PushAll calls s1 env1) as [[oks s2] env2]. cbn [fst snd] in *.
    now exists staged2.
Qed.

Lemma Start_run (wsSocket : Z) (rnd : list Z) (s : SessionContext) (env : Env) :
  run_invariant (outbox (peer env)) [] [] (Start wsSocket rnd s).2 env.
Proof.
  exists [], 0%nat, 0%nat. rewrite app_nil_r. cbn. split_and!; auto; try lia.
Qed.

Lemma StronglySorted_sublist (l1 l2 : list Z) :
  l1 `sublist_of` l2 -> StronglySorted Z.le l2 -> StronglySorted Z.le l1.
Proof.
  induction 1 as [|x l1 l2 Hsub IH|x l1 l2 Hsub IH]; intros Hs.
  - constructor.
  - inversion Hs as [|? ? Hs' Hall]; subst. constructor; [auto|].
    apply Forall_forall. intros y Hy. rewrite Forall_forall in Hall. apply Hall.
    apply (elem_of_sublist _ _ _ Hy Hsub).
  - inversion Hs; subst. auto.
Qed.

Lemma Forall_sublist_Z (Q : Z -> Prop) (l1 l2 : list Z) :
  l1 `sublist_of` l2 -> Forall Q l2 -> Forall Q l1.
Proof.
  intros Hsub Hall. apply Forall_forall. intros y Hy.
  rewrite Forall_forall in Hall. apply Hall. apply (elem_of_sublist _ _ _ Hy Hsub).
Qed.

End Runs.

(** C2, as the code has it.  After [Start], whatever the [PushAudio]
    calls, the binary frames sent on the connection carry the frame
    indices 0, 1, 2, .. in order (as long as fewer than 2^64 frames are
    sent, the width of the counter).  Their [tsCurrent] values are those
    the engine handed to the callback, in the engine's order: the values
    on the wire, frame after frame, are time stamps of results of the
    calls (as [int64]; the time stamps themselves when these are within
    [int64]), each frame's result coming after the one of the frame before
    it.  So they are non-decreasing when the engine's time stamps are. *)
Theorem animation_frames_in_order
  (wsSocket : Z) (rnd : list Z) (calls : list a2fserver.PushCall)
  (s0 : a2fserver.SessionContext) (env0 : a2fserver.Env) :
  exists news,
    a2fserver.outbox
      (a2fserver.peer (a2fserver.PushAll calls (a2fserver.Start wsSocket rnd s0).2 env0).2)
    = a2fserver.outbox (a2fserver.peer env0) ++ news
    /\ let frames := a2fserver.binary_payloads news in
       (Z.of_nat (length frames) <= 2 ^ 64 ->
        map a2fserver.payload_frameIndex frames = map Z.of_nat (seq 0 (length frames)))
       /\ (Forall a2fserver.in_int64
             (map a2fserver.timeStampCurrentFrame (a2fserver.results_of calls)) ->
           Sorted Z.le (map a2fserver.timeStampCurrentFrame (a2fserver.results_of calls)) ->
           Sorted Z.le (map a2fserver.payload_tsCurrent frames))
       /\ map a2fserver.payload_tsCurrent frames
          `sublist_of` map (fun r => i64 (a2fserver.timeStampCurrentFrame r))
                         (a2fserver.results_of calls)
       /\ (Forall a2fserver.in_int64
             (map a2fserver.timeStampCurrentFrame (a2fserver.results_of calls)) ->
           map a2fserver.payload_tsCurrent frames
           `sublist_of` map a2fserver.timeStampCurrentFrame (a2fserver.results_of calls)).
Proof.
  destruct (PushAll_run _ calls [] [] _ env0 (Start_run wsSocket rnd s0 env0))
    as (staged & news & k & p & H1 & H2 & H3 & H4 & H5 & H6 & H7 & H8 & H9).
  exists news. split; [exact H1|]. cbv zeta.
  assert (Hlen : length (a2fserver.binary_payloads news) = k).
  { rewrite <- (length_map a2fserver.payload_frameIndex), H2, length_map, length_take. lia. }
  assert (Hsent : map a2fserver.tsCurrent (take k staged)
                  `sublist_of` map a2fserver.timeStampCurrentFrame
                                 (a2fserver.results_of calls)).
  { cbn [app] in H9. etransitivity; [|exact H9].
    rewrite <- (firstn_map a2fserver.tsCurrent). apply sublist_take. }
  assert (Hwire : map a2fserver.payload_tsCurrent (a2fserver.binary_payloads news)
                  `sublist_of` map (fun r => i64 (a2fserver.timeStampCurrentFrame r))
                                 (a2fserver.results_of calls)).
  { rewrite H3. rewrite <- (map_map a2fserver.tsCurrent i64).
    rewrite <- (map_map a2fserver.timeStampCurrentFrame i64).
    apply (fmap_sublist i64). exact Hsent. }
  split; [|split; [|split; [exact Hwire|]]].
  3: { intros Hrange. rewrite (map_ext_in _ a2fserver.timeStampCurrentFrame) in Hwire;
         [exact Hwire|].
       intros r Hr. apply i64_in_range. rewrite Forall_forall in Hrange. apply Hrange.
       apply list_elem_of_In. apply in_map. exact Hr. }
  - intros Hbound. rewrite H2, Hlen.
    rewrite <- (firstn_map a2fserver.frameIndex), H7.
    rewrite firstn_map, take_seq.
    replace (k `min` length staged)%nat with k by lia.
    apply map_ext_in. intros i Hi. apply in_seq in Hi. apply Z.mod_small. lia.
  - intros Hrange Hsorted. cbn [app] in H9.
    assert (Hsub : map a2fserver.tsCurrent (take k staged)
                   `sublist_of` map a2fserver.timeStampCurrentFrame (a2fserver.results_of calls)).
    { etransitivity; [|exact H9]. rewrite <- (firstn_map a2fserver.tsCurrent).
      apply sublist_take. }
    rewrite H3.
    rewrite (map_ext_in _ a2fserver.tsCurrent).
    + apply StronglySorted_Sorted. apply (StronglySorted_sublist _ _ Hsub).
      apply Sorted_StronglySorted; [|exact Hsorted]. intros x y z. apply Z.le_trans.
    + intros f Hf. apply i64_in_range.
      pose proof (Forall_sublist_Z _ _ _ Hsub Hrange) as Hall.
      rewrite Forall_forall in Hall. apply Hall.
      apply list_elem_of_In. apply in_map. exact Hf.
Qed.

Lemma animation_frames_in_order_witness :
  let run := a2fserver.PushAll
               [a2fserver.mkPushCall 0 []
                  [[a2fserver.sample_results 3; a2fserver.sample_results 5]]]
               (a2fserver.Start 1 [] a2fserver.sample_attached).2 a2fserver.sample_env in
  map a2fserver.payload_frameIndex
    (a2fserver.binary_payloads (a2fserver.outbox (a2fserver.peer run.2))) = [0; 1]
  /\ Sorted Z.le
       (map a2fserver.payload_tsCurrent
          (a2fserver.binary_payloads (a2fserver.outbox (a2fserver.peer run.2)))).
Proof.
  cbv zeta.
  destruct (animation_frames_in_order 1 []
              [a2fserver.mkPushCall 0 []
                 [[a2fserver.sample_results 3; a2fserver.sample_results 5]]]
              a2fserver.sample_attached a2fserver.sample_env)
    as (news & Hout & Hidx & Hts & _).
  cbv zeta in Hidx, Hts. rewrite Hout.
  cbn [a2fserver.outbox a2fserver.peer a2fserver.sample_env app].
  assert (Hlen : length (a2fserver.binary_payloads news) = 2%nat).
  { clear Hidx Hts.
    cbn [a2fserver.outbox a2fserver.peer a2fserver.sample_env app] in Hout.
    rewrite <- Hout. vm_compute. reflexivity. }
  split.
  - rewrite Hidx; [now rewrite Hlen|]. rewrite Hlen. vm_compute. discriminate.
  - apply Hts.
    + repeat constructor; vm_compute; discriminate.
    + vm_compute. repeat constructor; discriminate.
Defined.

(** C2 as stated does not hold for [tsCurrent]: the frames carry the time
    stamps the executor reports, in the order it reports them. *)
Lemma time_stamps_follow_executor :
  let run := a2fserver.PushAll
               [a2fserver.mkPushCall 0 []
                  [[a2fserver.sample_results 5; a2fserver.sample_results 3]]]
               a2fserver.sample_attached a2fserver.sample_env in
  run.1.1 = [true]
  /\ map a2fserver.payload_frameIndex
       (a2fserver.binary_payloads (a2fserver.outbox (a2fserver.peer run.2))) = [0; 1]
  /\ map a2fserver.payload_tsCurrent
       (a2fserver.binary_payloads (a2fserver.outbox (a2fserver.peer run.2))) = [5; 3]
  /\ ~ Sorted Z.le
         (map a2fserver.payload_tsCurrent
            (a2fserver.binary_payloads (a2fserver.outbox (a2fserver.peer run.2)))).
Proof.
  cbv zeta. split_and!; try (vm_compute; reflexivity).
  replace (map a2fserver.payload_tsCurrent _) with [5; 3] by (vm_compute; reflexivity).
  intros H. inversion H as [|? ? _ Hd]; subst. inversion Hd; subst. lia.
Qed.

(** ** Fields that staging and flushing leave alone *)

Section Preserved.
Import Json a2fserver.

Variable A : Type.
Variable g : SessionContext -> A.
Hypothesis g_stage : forall r s, g (StageFrame r s) = g s.
Hypothesis g_clear : forall s, g (set_pendingFrames [] s) = g s.

Lemma OnDeviceResults_preserves (r : DeviceResults) (s : SessionContext) (env : Env) :
  g (OnDeviceResults r s env).1.2 = g s.
Proof using All.
  destruct (OnDeviceResults_state r s env) as [->|(-> & _)]; auto.
Qed.

Lemma Execute_callbacks_preserves (results : list DeviceResults) (s : SessionContext)
  (env : Env) :
  g (Execute_callbacks results s env).1 = g s.
Proof using All.
  revert s env. induction results as [|r results IH]; intros s env; [reflexivity|].
  cbn [Execute_callbacks].
  pose proof (OnDeviceResults_preserves r s env) as H1.
  destruct (OnDeviceResults r s env) as [[ok s1] env1]. cbn [fst snd] in H1.
  destruct ok; [now rewrite IH|exact H1].
Qed.

Lemma FlushPendingFramesLocked_preserves (s : SessionContext) (env : Env) :
  g (FlushPendingFramesLocked s env).1.2 = g s.
Proof using All.
  destruct (FlushPendingFramesLocked_state s env) as [->| ->]; auto.
Qed.

Lemma PushAudio_execute_preserves (steps : list (list DeviceResults)) (s : SessionContext)
  (env : Env) :
  g (PushAudio_execute steps s env).1.2 = g s.
Proof using All.
  revert s env. induction steps as [|step steps IH]; intros s env; [reflexivity|].
  cbn [PushAudio_execute].
  pose proof (Execute_callbacks_preserves step s env) as H1.
  destruct (Execute_callbacks step s env) as [s1 env1]. cbn [fst] in H1.
  destruct (next_status (engine env1)) as [[m|] st]; [exact H1|].
  destruct (kFlushThresholdFrames <=? _)%nat; [|now rewrite IH].
  pose proof (FlushPendingFramesLocked_preserves s1 (mkEnv (peer env1) st)) as H2.
  destruct (FlushPendingFramesLocked s1 _) as [[ok s2] env2]. cbn [fst snd] in H2.
  destruct ok; [rewrite IH|cbn [fst snd]]; congruence.
Qed.

End Preserved.

Section Accumulating.
Import Json a2fserver.

Lemma u64_small (v : Z) : 0 <= v < 2 ^ 64 -> u64 v = v.
Proof. intros. now apply Z.mod_small. Qed.

(** After its checks and both [Accumulate] calls, [PushAudio] leaves the
    bundle as they made it. *)
Lemma PushAudio_bundle (start : Z) (pcm : list Z) (steps : list (list DeviceResults))
  (s : SessionContext) (env : Env) :
  _bundle (PushAudio start pcm steps s env).1.2
  = _bundle (PushAudio_accumulate start pcm s env).1.2.
Proof.
  unfold PushAudio.
  destruct (PushAudio_accumulate start pcm s env) as [[go s1] env1]. cbn [fst snd].
  destruct go; cbn [negb]; [|reflexivity].
  pose proof (PushAudio_execute_preserves _ _bundle (fun _ _ => eq_refl) (fun _ => eq_refl)
                steps s1 env1) as H2.
  destruct (PushAudio_execute steps s1 env1) as [[ok s2] env2]. cbn [fst snd] in H2.
  destruct ok; cbn [negb]; [|exact H2].
  pose proof (FlushPendingFramesLocked_preserves _ _bundle (fun _ _ => eq_refl)
                (fun _ => eq_refl) s2 env2) as H3.
  destruct (FlushPendingFramesLocked s2 env2) as [[ok s3] env3]. cbn [fst snd] in H3.
  destruct ok; cbn [negb fst snd]; congruence.
Qed.

End Accumulating.



(** ** Runs without a complaint *)

Section Accepted.
Import Json a2fserver.

Lemma next_status_succeeds (st : Status) :
  engine_succeeds st ->
  (next_status st).1 = None /\ engine_succeeds (next_status st).2.
Proof.
  unfold engine_succeeds. destruct 1 as [|e st He Hst]; cbn; auto.
Qed.

Lemma OnDeviceResults_accepted (r : DeviceResults) (s : SessionContext) (env : Env) :
  _wsSocket s <> 0 -> engine_succeeds (engine env) ->
  length (weights r) = 0%nat \/ length (weights r) = _weightCount s ->
  (length (weights r) <> 0%nat -> (length (_pendingFrames s) < kMaxStagedFrames)%nat) ->
  exists env',
    OnDeviceResults r s env
    = (true, if (length (weights r) =? 0)%nat then s else StageFrame r s, env')
    /\ peer env' = peer env /\ engine_succeeds (engine env').
Proof.
  intros Hws Heng Hshape Hroom. unfold OnDeviceResults.
  destruct (Z.eqb_spec (_wsSocket s) 0); [contradiction|].
  destruct (Nat.eqb_spec (length (weights r)) 0) as [E|N]; [exists env; auto|].
  destruct Hshape as [|Hwc]; [contradiction|].
  rewrite Hwc, Nat.eqb_refl. cbn [negb].
  destruct (Nat.leb_spec kMaxStagedFrames (length (_pendingFrames s)));
    [specialize (Hroom N); lia|].
  destruct (next_status_succeeds _ Heng) as [Hnone Hrest].
  destruct (next_status (engine env)) as [e st]. cbn [fst snd] in Hnone, Hrest. subst e.
  eexists. split; [reflexivity|]. auto.
Qed.

Lemma Execute_callbacks_accepted (step : list DeviceResults) (s : SessionContext)
  (env : Env) :
  _wsSocket s <> 0 -> engine_succeeds (engine env) ->
  Forall (fun r => (length (weights r) = 0%nat \/ length (weights r) = _weightCount s)
                   /\ cudaStream r <> 0) step ->
  (length (_pendingFrames s)
   + length (filter (fun r => negb (length (weights r) =? 0)%nat) step)
   <= kMaxStagedFrames)%nat ->
  peer (Execute_callbacks step s env).2 = peer env
  /\ engine_succeeds (engine (Execute_callbacks step s env).2).
Proof.
  intros Hws Heng Hstep. remember (_weightCount s) as wc eqn:Hwc.
  revert s env Hws Heng Hwc.
  induction Hstep as [|r step [Hshape _] _ IH]; intros s env Hws Heng Hwc Hroom; [auto|].
  subst wc. cbn [Execute_callbacks].
  destruct (OnDeviceResults_accepted r s env Hws Heng Hshape) as (env1 & -> & Hp & He).
  { intros Hne. rewrite filter_cons in Hroom.
    destruct (Nat.eqb_spec (length (weights r)) 0); [contradiction|].
    case_decide as Hd; [|now destruct Hd].
    cbn [length] in Hroom. unfold kMaxStagedFrames in *. lia. }
  rewrite filter_cons in Hroom.
  destruct (Nat.eqb_spec (length (weights r)) 0) as [E|N];
    case_decide as Hd; try (now destruct Hd).
  - rewrite <- Hp. now apply IH.
  - rewrite <- Hp. apply IH; auto.
    rewrite StageFrame_pending, length_app. cbn [length] in *. lia.
Qed.

Lemma FlushPendingFramesLocked_accepted (s : SessionContext) (env : Env) :
  credit (peer env) = None -> engine_succeeds (engine env) ->
  stream_invariant stream_not_null s ->
  exists s' env',
    FlushPendingFramesLocked s env = (true, s', env')
    /\ _pendingFrames s' = []
    /\ credit (peer env') = None /\ engine_succeeds (engine env')
    /\ sends_only binary_frame env env'.
Proof.
  intros Hc Heng Hinv. unfold FlushPendingFramesLocked.
  destruct (_pendingFrames s) as [|f frames] eqn:Hp.
  - exists s, env. split_and!; auto. now apply sends_only_refl.
  - destruct (Z.eqb_spec (_lastCudaStream s) 0) as [E|_].
    { exfalso. apply (stream_invariant_not_null s Hinv); [|exact E]. now rewrite Hp. }
    destruct (next_status_succeeds _ Heng) as [Hnone Hrest].
    destruct (next_status (engine env)) as [e st]. cbn [fst snd] in Hnone, Hrest. subst e.
    cbn [peer engine].
    pose proof (FlushPendingFrames_send_spec s (f :: frames) (peer env)) as Hsend.
    destruct (FlushPendingFrames_send s (f :: frames) (peer env)) as [ok c].
    destruct Hsend as (j & _ & Hout & _ & _ & _ & Hopen).
    destruct (Hopen Hc) as [-> Hc'].
    eexists _, _. split; [reflexivity|]. cbn [peer engine]. split_and!; auto.
    eexists. split; [exact Hout|]. apply Forall_forall. intros x Hx.
    apply list_elem_of_In, in_map_iff in Hx. now destruct Hx as (g & <- & _).
Qed.

Lemma PushAudio_execute_accepted (steps : list (list DeviceResults)) (s : SessionContext)
  (env : Env) :
  _wsSocket s <> 0 -> credit (peer env) = None -> engine_succeeds (engine env) ->
  stream_invariant stream_not_null s ->
  Forall (step_accepted (_weightCount s)) steps ->
  (length (_pendingFrames s) < kFlushThresholdFrames)%nat ->
  exists s' env',
    PushAudio_execute steps s env = (true, s', env')
    /\ credit (peer env') = None /\ engine_succeeds (engine env')
    /\ stream_invariant stream_not_null s'
    /\ sends_only binary_frame env env'.
Proof.
  revert s env.
  induction steps as [|step steps IH]; intros s env Hws Hc Heng Hinv Hsteps Hlen.
  - exists s, env. split_and!; auto. now apply sends_only_refl.
  - inversion Hsteps as [|? ? [Hshape Hcount] Hrest]; subst.
    cbn [PushAudio_execute].
    destruct (Execute_callbacks_accepted step s env Hws Heng Hshape) as [Hp1 He1].
    { unfold kFlushThresholdFrames, kMaxStagedFrames in *. lia. }
    pose proof (Execute_callbacks_invariant stream_not_null (stream_invariant stream_not_null)
                  (stream_invariant_fields _) (stream_invariant_empty _)
                  (stream_invariant_stage _) step s env) as Hinv1.
    pose proof (Execute_callbacks_preserves _ _wsSocket (fun _ _ => eq_refl)
                  (fun _ => eq_refl) step s env) as Hws1.
    pose proof (Execute_callbacks_preserves _ _weightCount (fun _ _ => eq_refl)
                  (fun _ => eq_refl) step s env) as Hwc1.
    destruct (Execute_callbacks step s env) as [s1 env1]. cbn [fst snd] in *.
    assert (Hi1 : stream_invariant stream_not_null s1).
    { apply Hinv1; [|exact Hinv]. eapply Forall_impl; [exact Hshape|]. now intros r [_ H]. }
    destruct (next_status_succeeds _ He1) as [Hnone He1'].
    destruct (next_status (engine env1)) as [e st]. cbn [fst snd] in Hnone, He1'. subst e.
    assert (Hs1 : sends_only binary_frame env (mkEnv (peer env1) st))
      by (apply sends_only_refl; cbn [peer]; now rewrite Hp1).
    destruct (Nat.leb_spec kFlushThresholdFrames (length (_pendingFrames s1))).
    + destruct (FlushPendingFramesLocked_accepted s1 (mkEnv (peer env1) st))
        as (s2 & env2 & Hf & Hp2 & Hc2 & He2 & Hs2); auto.
      { cbn [peer]. now rewrite Hp1. }
      pose proof (FlushPendingFramesLocked_preserves _ _wsSocket (fun _ _ => eq_refl)
                    (fun _ => eq_refl) s1 (mkEnv (peer env1) st)) as Hws2.
      pose proof (FlushPendingFramesLocked_preserves _ _weightCount (fun _ _ => eq_refl)
                    (fun _ => eq_refl) s1 (mkEnv (peer env1) st)) as Hwc2.
      rewrite Hf in *. cbn [fst snd] in Hws2, Hwc2.
      destruct (IH s2 env2) as (s3 & env3 & -> & Hc3 & He3 & Hi3 & Hs3); auto.
      * congruence.
      * now apply stream_invariant_empty.
      * now rewrite Hwc2, Hwc1.
      * rewrite Hp2. cbn. unfold kFlushThresholdFrames. lia.
      * exists s3, env3. split_and!; auto.
        eapply sends_only_trans; [exact Hs1|]. eapply sends_only_trans; eassumption.
    + destruct (IH s1 (mkEnv (peer env1) st)) as (s3 & env3 & -> & Hc3 & He3 & Hi3 & Hs3);
        auto.
      * congruence.
      * cbn [peer]. now rewrite Hp1.
      * now rewrite Hwc1.
      * exists s3, env3. split_and!; auto.
        eapply sends_only_trans; eassumption.
Qed.

Lemma PushAudio_accumulate_accepted (start : Z) (pcm : list Z) (s : SessionContext)
  (env : Env) (bundle : Bundle) :
  _wsSocket s <> 0 -> _bundle s = Some bundle -> engine_succeeds (engine env) ->
  Z.of_nat (length (audioAccumulator bundle)) <= start
    <= Z.of_nat (length (audioAccumulator bundle)) + 160000 ->
  start < 2 ^ 63 ->
  exists s' env' bundle',
    PushAudio_accumulate start pcm s env = (true, s', env')
    /\ peer env' = peer env /\ engine_succeeds (engine env')
    /\ _bundle s' = Some bundle'
    /\ Z.of_nat (length (audioAccumulator bundle')) = start + Z.of_nat (length pcm).
Proof.
  intros Hws Hb Heng Hord Hmax.
  change (2 ^ 63) with 9223372036854775808 in Hmax.
  unfold PushAudio_accumulate.
  destruct (Z.ltb_spec start 0); [lia|].
  destruct (next_status_succeeds _ Heng) as [Hnone He1].
  destruct (next_status (engine env)) as [e st]. cbn [fst snd] in Hnone, He1. subst e.
  destruct (Z.eqb_spec (_wsSocket s) 0); [contradiction|].
  rewrite Hb. rewrite (u64_small start) by (change (2 ^ 64) with 18446744073709551616; lia).
  destruct (Z.ltb_spec start (Z.of_nat (length (audioAccumulator bundle)))); [lia|].
  rewrite u64_small by (change (2 ^ 64) with 18446744073709551616; lia).
  destruct (Z.gtb_spec (start - Z.of_nat (length (audioAccumulator bundle))) (16000 * 10));
    [lia|].
  cbn [peer engine].
  destruct (next_status_succeeds _ He1) as [Hnone2 He2].
  destruct (next_status st) as [e st2] eqn:Hst. cbn [fst snd] in Hnone2, He2. subst e.
  destruct (Z.gtb_spec (start - Z.of_nat (length (audioAccumulator bundle))) 0).
  - cbn [peer engine].
    destruct (next_status_succeeds _ He2) as [Hnone3 He3].
    destruct (next_status st2) as [e st3]. cbn [fst snd] in Hnone3, He3. subst e.
    eexists _, _, _. split; [reflexivity|]. cbn. split_and!; auto.
    unfold Accumulate. cbn [audioAccumulator].
    rewrite !length_app, repeat_length, length_map. lia.
  - cbn [peer engine]. rewrite Hst.
    eexists _, _, _. split; [reflexivity|]. cbn. split_and!; auto.
    unfold Accumulate. cbn [audioAccumulator].
    rewrite !length_app, length_map. lia.
Qed.

Lemma PushAudio_accepted (start : Z) (pcm : list Z) (steps : list (list DeviceResults))
  (s : SessionContext) (env : Env) (bundle : Bundle) :
  _wsSocket s <> 0 -> _bundle s = Some bundle -> _pendingFrames s = [] ->
  credit (peer env) = None -> engine_succeeds (engine env) ->
  Z.of_nat (length (audioAccumulator bundle)) <= start
    <= Z.of_nat (length (audioAccumulator bundle)) + 160000 ->
  start < 2 ^ 63 ->
  Forall (step_accepted (_weightCount s)) steps ->
  exists s' env' bundle',
    PushAudio start pcm steps s env = (true, s', env')
    /\ _wsSocket s' <> 0 /\ _bundle s' = Some bundle' /\ _pendingFrames s' = []
    /\ _weightCount s' = _weightCount s
    /\ credit (peer env') = None /\ engine_succeeds (engine env')
    /\ Z.of_nat (length (audioAccumulator bundle')) = start + Z.of_nat (length pcm)
    /\ sends_only binary_frame env env'.
Proof.
  intros Hws Hb Hp Hc Heng Hord Hmax Hsteps.
  pose proof (PushAudio_bundle start pcm steps s env) as Hbundle.
  unfold PushAudio in *.
  pose proof (PushAudio_accumulate_state start pcm s env) as Hacc.
  destruct (PushAudio_accumulate_accepted start pcm s env bundle Hws Hb Heng Hord Hmax)
    as (s1 & env1 & bundle1 & Heq & Hp1 & He1 & Hb1 & Hlen1).
  rewrite Heq in *. cbn [fst snd negb] in *.
  destruct Hacc as (Hws1 & Hpend1 & _ & _ & Hwc1 & _).
  destruct (PushAudio_execute_accepted steps s1 env1) as (s2 & env2 & Hex & Hc2 & He2 & Hi2 & Hs2).
  { congruence. } { now rewrite Hp1. } { exact He1. }
  { apply stream_invariant_empty. congruence. }
  { now rewrite Hwc1. }
  { rewrite Hpend1, Hp. cbn. unfold kFlushThresholdFrames. lia. }
  pose proof (PushAudio_execute_preserves _ _wsSocket (fun _ _ => eq_refl)
                (fun _ => eq_refl) steps s1 env1) as Hws2.
  pose proof (PushAudio_execute_preserves _ _weightCount (fun _ _ => eq_refl)
                (fun _ => eq_refl) steps s1 env1) as Hwc2.
  rewrite Hex in *. cbn [fst snd negb] in *.
  destruct (FlushPendingFramesLocked_accepted s2 env2 Hc2 He2 Hi2)
    as (s3 & env3 & Hfl & Hp3 & Hc3 & He3 & Hs3).
  pose proof (FlushPendingFramesLocked_preserves _ _wsSocket (fun _ _ => eq_refl)
                (fun _ => eq_refl) s2 env2) as Hws3.
  pose proof (FlushPendingFramesLocked_preserves _ _weightCount (fun _ _ => eq_refl)
                (fun _ => eq_refl) s2 env2) as Hwc3.
  rewrite Hfl in *. cbn [fst snd negb] in *.
  exists s3, env3, bundle1. split_and!; auto; try congruence.
  eapply sends_only_trans; [apply sends_only_refl; now rewrite Hp1|].
  eapply sends_only_trans; eassumption.
Qed.

End Accepted.

(** C1, with the conditions the code needs: on an attached session with an
    empty pending queue, an open connection and an engine whose calls all
    succeed, a run of [PushAudio] calls each starting at or after the samples
    accumulated so far and at most 160000 samples after them, whose executor
    steps deliver views of the session's weight count with a stream, returns
    true at every call and sends binary frames only, so no Error message. *)
Theorem push_audio_in_order_succeeds (calls : list a2fserver.PushCall)
  (s : a2fserver.SessionContext) (env : a2fserver.Env) (bundle : a2fserver.Bundle) :
  a2fserver._wsSocket s <> 0 ->
  a2fserver._bundle s = Some bundle ->
  a2fserver._pendingFrames s = [] ->
  a2fserver.credit (a2fserver.peer env) = None ->
  a2fserver.engine_succeeds (a2fserver.engine env) ->
  a2fserver.audio_in_order (Z.of_nat (length (a2fserver.audioAccumulator bundle))) calls ->
  Forall (fun c => Forall (a2fserver.step_accepted (a2fserver._weightCount s))
                     (a2fserver.call_steps c)) calls ->
  (a2fserver.PushAll calls s env).1.1 = repeat true (length calls)
  /\ exists news,
       a2fserver.outbox (a2fserver.peer (a2fserver.PushAll calls s env).2)
       = a2fserver.outbox (a2fserver.peer env) ++ news
       /\ Forall a2fserver.binary_frame news
       /\ forall message, ~ In (a2fserver.ErrorFrame message) news.
Proof.
  revert s env bundle.
  induction calls as [|c calls IH]; intros s env bundle Hws Hb Hp Hc Heng Hord Hsteps.
  - split; [reflexivity|]. exists []. cbn. rewrite app_nil_r. auto.
  - destruct Hord as (Hstart & Hmax & Hord).
    inversion Hsteps as [|? ? Hstep Hrest]; subst.
    destruct (PushAudio_accepted (a2fserver.call_start c) (a2fserver.call_pcm c)
                (a2fserver.call_steps c) s env bundle)
      as (s1 & env1 & b1 & Heq & Hws1 & Hb1 & Hp1 & Hwc1 & Hc1 & He1 & Hlen1
          & news1 & Hout1 & Hbin1);
      auto.
    cbn [a2fserver.PushAll]. rewrite Heq.
    destruct (IH s1 env1 b1) as (Hoks & news2 & Hout2 & Hbin2 & _); auto.
    { now rewrite Hlen1. } { now rewrite Hwc1. }
    destruct (a2fserver.PushAll calls s1 env1) as [[oks s2] env2]. cbn [fst snd] in *.
    split; [now rewrite Hoks|].
    exists (news1 ++ news2). rewrite Hout2, Hout1, app_assoc.
    assert (Hall : Forall a2fserver.binary_frame (news1 ++ news2))
      by now apply Forall_app_2.
    split_and!; auto.
    intros message Hin. rewrite Forall_forall in Hall.
    apply list_elem_of_In, Hall in Hin. discriminate Hin.
Qed.

Lemma push_audio_in_order_succeeds_witness :
  (a2fserver.PushAll
     [a2fserver.mkPushCall 0 [1; 2; 3; 4]
        [[a2fserver.sample_results 0; a2fserver.sample_results 1]];
      a2fserver.mkPushCall 6 [5; 6] [[a2fserver.sample_results 2]]]
     a2fserver.sample_attached a2fserver.sample_env).1.1
  = [true; true].
Proof.
  refine (proj1 (push_audio_in_order_succeeds
         [a2fserver.mkPushCall 0 [1; 2; 3; 4]
            [[a2fserver.sample_results 0; a2fserver.sample_results 1]];
          a2fserver.mkPushCall 6 [5; 6] [[a2fserver.sample_results 2]]]
         a2fserver.sample_attached a2fserver.sample_env
         (a2fserver.mkBundle (a2fserver.executor a2fserver.sample_bundle) []
            [(0, repeat 0%Q 10)] true 10 7)
         _ _ _ _ _ _ _)).
  - vm_compute. discriminate.
  - vm_compute. reflexivity.
  - vm_compute. reflexivity.
  - reflexivity.
  - constructor.
  - cbn. lia.
  - repeat constructor; cbn; auto; try discriminate; vm_compute; lia.
Defined.

(** C1 as stated does not hold: a second call that starts inside the audio
    already accumulated has a start not below the first one's and a gap
    below 160000, and is refused with an Error message. *)
Lemma overlapping_audio_refused :
  exists s1 env1 bundle1 s2 env2,
    a2fserver.PushAudio 0 [1; 2; 3; 4] [] a2fserver.sample_attached a2fserver.sample_env
    = (true, s1, env1)
    /\ a2fserver._bundle s1 = Some bundle1
    /\ length (a2fserver.audioAccumulator bundle1) = 4%nat
    /\ 0 <= 2
    /\ 2 - Z.of_nat (length (a2fserver.audioAccumulator bundle1)) <= 160000
    /\ a2fserver.PushAudio 2 [1; 2] [] s1 env1 = (false, s2, env2)
    /\ a2fserver.outbox (a2fserver.peer env2)
       = [a2fserver.ErrorFrame
            "PushAudio startSampleIndex is behind the accumulator (out-of-order audio)"].
Proof.
  eexists _, _, _, _, _.
  split; [vm_compute; reflexivity|].
  split; [reflexivity|].
  split; [reflexivity|].
  split; [lia|].
  split; [cbn; lia|].
  split; vm_compute; reflexivity.
Qed.

(** ** StartSession *)

Section Serialising.
Import Json a2fserver Main.
Local Open Scope string_scope.

Lemma utf8_octets_ascii (octets : list Z) :
  Forall (fun b => b <= 127) octets -> utf8_octets octets = true.
Proof.
  induction 1 as [|b octets Hb _ IH]; [reflexivity|].
  cbn [utf8_octets]. destruct (Z.leb_spec b 127); [exact IH|lia].
Qed.

Lemma string_of_uint_ascii (d : Decimal.uint) :
  Forall (fun b => b <= 127) (bytes_of_string (NilEmpty.string_of_uint d)).
Proof.
  unfold bytes_of_string.
  induction d; cbn; constructor; auto; vm_compute; discriminate.
Qed.

Lemma decimal_ascii (n : Z) : Forall (fun b => b <= 127) (bytes_of_string (decimal n)).
Proof.
  unfold decimal, NilZero.string_of_uint.
  destruct (N.to_uint (Z.to_N n)) eqn:E; try (rewrite <- E; apply string_of_uint_ascii).
  repeat constructor. vm_compute. discriminate.
Qed.

Lemma frame_rate_mismatch_utf8 (reqNum reqDen actualNum actualDen : Z) :
  utf8 (frame_rate_mismatch reqNum reqDen actualNum actualDen) = true.
Proof.
  unfold utf8, frame_rate_mismatch. apply utf8_octets_ascii.
  rewrite !bytes_of_string_append.
  repeat apply Forall_app_2; try apply decimal_ascii;
    repeat constructor; vm_compute; discriminate.
Qed.

Lemma dumps_ErrorMessage (message : string) : dumps (ErrorMessage message) = utf8 message.
Proof.
  unfold ErrorMessage. cbn [set_key set_member String.eqb Ascii.eqb Bool.eqb dumps forallb].
  change (utf8 "type") with true. change (utf8 "Error") with true.
  change (utf8 "message") with true. cbn [andb]. now rewrite !andb_true_r.
Qed.

(** An Error whose message is well-formed UTF-8 is sent, and the loop
    goes on. *)
Lemma SendError_utf8 (message : string) (w : Worker) :
  utf8 message = true ->
  SendError message w
  = Continue (mkWorker (pool w)
                (SendFrame (client w) a2fws.Text (JsonText (ErrorMessage message))).2
                (sessionIndex w) (status w)).
Proof.
  intros H. unfold SendError, SendJson_continue, SendJson.
  now rewrite dumps_ErrorMessage, H.
Qed.

Lemma SendError_not_utf8 (message : string) (w : Worker) :
  utf8 message = false -> SendError message w = Uncaught.
Proof.
  intros H. unfold SendError, SendJson_continue, SendJson.
  now rewrite dumps_ErrorMessage, H.
Qed.

Lemma kHex_at_ascii (i : Z) : Z.of_N (N_of_ascii (kHex_at i)) <= 127.
Proof.
  unfold kHex_at.
  assert (H : Forall (fun c => Z.of_N (N_of_ascii c) <= 127) (list_ascii_of_string kHex))
    by (repeat constructor; vm_compute; discriminate).
  rewrite Forall_forall in H.
  destruct (nth_in_or_default (Z.to_nat i) (list_ascii_of_string kHex) "0"%char) as [Hin| ->].
  - apply H. now apply list_elem_of_In.
  - vm_compute. discriminate.
Qed.

Lemma RandomHex_utf8 (rnd : list Z) : utf8 (RandomHex rnd) = true.
Proof.
  apply utf8_octets_ascii. unfold bytes_of_string.
  induction rnd as [|r rnd IH]; [constructor|].
  cbn [RandomHex list_ascii_of_string map]. repeat constructor; auto using kHex_at_ascii.
Qed.

Lemma forallb_dumps_strings (l : list string) :
  forallb dumps (map JString l) = forallb utf8 l.
Proof. induction l as [|c l IH]; cbn [map forallb dumps]; [reflexivity|now rewrite IH]. Qed.

Lemma dumps_DescribeSessionStarted (s : SessionContext) :
  session_text s -> dumps (DescribeSessionStarted s) = true.
Proof.
  intros (Hid & Hmodel & Hopt & Hch). unfold DescribeSessionStarted.
  cbn [set_key set_member String.eqb Ascii.eqb Bool.eqb dumps forallb].
  rewrite forallb_dumps_strings, Hid, Hmodel, Hopt, Hch. vm_compute. reflexivity.
Qed.

Lemma dumps_DescribeSessionStarted_model (s : SessionContext) :
  utf8 (_modelJsonPath s) = false -> dumps (DescribeSessionStarted s) = false.
Proof.
  intros Hmodel. unfold DescribeSessionStarted.
  cbn [set_key set_member String.eqb Ascii.eqb Bool.eqb dumps forallb].
  rewrite Hmodel.
  repeat (rewrite ?andb_false_r, ?andb_false_l;
          try match goal with |- context [utf8 ?c] => is_ground c; change (utf8 c) with true end;
          cbn [andb]).
  now destruct (utf8 (_sessionId s)).
Qed.

Lemma TryParseFrameRate_error_utf8 (v : json) (e : string) :
  TryParseFrameRate v = inr e -> utf8 e = true.
Proof.
  unfold TryParseFrameRate. intros H.
  repeat match type of H with
         | context [match ?x with _ => _ end] => destruct x
         end;
    try discriminate; injection H as <-; reflexivity.
Qed.

(** The messages of [ValidateStartSessionRequest] are constants and
    decimal numbers. *)
Lemma ValidateStartSessionRequest_utf8 (request sessionStarted : json) (e : string) :
  ValidateStartSessionRequest request sessionStarted = Invalid e -> utf8 e = true.
Proof.
  assert (Hmodel : forall e, Validate_model request sessionStarted = Invalid e ->
                             utf8 e = true).
  { unfold Validate_model. intros e' H.
    repeat match type of H with
           | context [match ?x with _ => _ end] => destruct x
           end;
      try discriminate; injection H as <-; reflexivity. }
  assert (Hrate : forall e, Validate_frame_rate request sessionStarted = Invalid e ->
                            utf8 e = true).
  { unfold Validate_frame_rate. intros e' H.
    destruct (_ || _); [|discriminate].
    destruct (TryParseFrameRate _) as [[reqNum reqDen]|parseErr] eqn:E.
    - repeat match type of H with
             | context [match ?x with _ => _ end] => destruct x
             end;
        try discriminate; injection H as <-;
        try reflexivity; apply frame_rate_mismatch_utf8.
    - injection H as <-. now apply TryParseFrameRate_error_utf8 in E. }
  assert (Hopt : forall e, Validate_options request sessionStarted = Invalid e ->
                           utf8 e = true).
  { unfold Validate_options. intros e' H.
    repeat match type of H with
           | context [match ?x with _ => _ end] =>
               lazymatch x with
               | context [match _ with _ => _ end] => fail
               | _ => destruct x
               end
           end;
      try discriminate; injection H as <-; reflexivity. }
  unfold ValidateStartSessionRequest.
  destruct (Validate_model _ _) eqn:E1; [|intros [= <-]; now apply Hmodel|discriminate].
  destruct (Validate_frame_rate _ _) eqn:E2; [|intros [= <-]; now apply Hrate|discriminate].
  apply Hopt.
Qed.

Lemma ResetForReuse_text (s : SessionContext) (st : Status) :
  session_text s -> session_text (ResetForReuse s st).1.2.
Proof.
  unfold ResetForReuse. destruct (_bundle s); [|auto].
  repeat (let e := fresh in let t := fresh in
          destruct (next_status _) as [e t]; destruct e; cbn; auto).
  destruct (InitNeutralEmotionLocked _ _) as [[ok bundle1] st1]. destruct ok; cbn; auto.
Qed.

Lemma Start_text (wsSocket : Z) (rnd : list Z) (s : SessionContext) :
  session_text s -> session_text (Start wsSocket rnd s).2.
Proof.
  intros (_ & Hmodel & Hopt & Hch). unfold Start, session_text. cbn [snd].
  split_and!; [exact (RandomHex_utf8 (take 16 rnd))|exact Hmodel|exact Hopt|exact Hch].
Qed.

Lemma Get_session_text (pool : SessionPool) (idx : nat) :
  Forall session_text (_sessions pool) -> session_text (Get pool idx).
Proof.
  intros H. unfold Get.
  destruct (nth_in_or_default idx (_sessions pool) SessionContext_default) as [Hin| ->].
  - rewrite Forall_forall in H. apply H. now apply list_elem_of_In.
  - repeat split.
Qed.

Lemma Forall_insert_text (l : list SessionContext) (idx : nat) (s : SessionContext) :
  Forall session_text l -> session_text s -> Forall session_text (<[ idx := s ]> l).
Proof. intros Hl Hs. now apply Forall_insert. Qed.

(** [Acquire] and [Release] keep the strings of the sessions well formed. *)
Lemma Acquire_text (wsSocket : Z) (rnd : list Z) (pool : SessionPool) (st : Status) :
  Forall session_text (_sessions pool) ->
  Forall session_text (_sessions (Acquire wsSocket rnd pool st).1.2).
Proof.
  intros H. unfold Acquire. destruct (rev (_freeIndices pool)) as [|idx rest]; [exact H|].
  pose proof (ResetForReuse_text
                (Get (mkSessionPool (_sessions pool) (removelast (_freeIndices pool))) idx) st
                (Get_session_text _ idx H)) as Hreset.
  destruct (ResetForReuse _ st) as [[ok session] st1]. cbn [fst snd] in Hreset.
  cbn [_sessions _freeIndices].
  destruct ok; cbn [negb].
  - pose proof (Start_text wsSocket rnd session Hreset) as Hstart.
    destruct (Start wsSocket rnd session) as [ok' started]. cbn [fst snd] in *.
    now repeat apply Forall_insert_text.
  - cbn [fst snd _sessions]. now apply Forall_insert_text.
Qed.

Lemma Release_text (idx : nat) (pool : SessionPool) :
  Forall session_text (_sessions pool) -> Forall session_text (_sessions (Release idx pool)).
Proof.
  intros H. unfold Release. destruct (_ <=? _)%nat; [exact H|].
  cbn [_sessions]. apply Forall_insert_text; [exact H|].
  exact (Get_session_text pool idx H).
Qed.

End Serialising.

Section StartSession.
Import Json a2fserver Main.
Local Open Scope string_scope.

Lemma ResetForReuse_fields (s : SessionContext) (st : Status) :
  let s' := (ResetForReuse s st).1.2 in
  _fpsNumerator s' = _fpsNumerator s /\ _fpsDenominator s' = _fpsDenominator s.
Proof.
  unfold ResetForReuse. destruct (_bundle s); [|now split].
  repeat (let e := fresh in let t := fresh in
          destruct (next_status _) as [e t]; destruct e; cbn; try now split).
  destruct (InitNeutralEmotionLocked _ _) as [[ok bundle1] st1]. destruct ok; now split.
Qed.

Lemma DescribeSessionStarted_frame_rate (s : SessionContext) :
  contains (DescribeSessionStarted s) "frame_rate" = true
  /\ at_key (DescribeSessionStarted s) "frame_rate"
     = JObject [("numerator", JUnsigned (_fpsNumerator s));
                ("denominator", JUnsigned (_fpsDenominator s))].
Proof.
  unfold DescribeSessionStarted. cbn. auto.
Qed.

Lemma integer_value_get_int64 (v : json) (n : Z) :
  integer_value v = Some n -> 0 < n < 2 ^ 63 ->
  is_number_integer v || is_number_unsigned v = true
  /\ is_object v = false /\ get_int64 v = Some n /\ u64 n = n.
Proof.
  change (2 ^ 63) with 9223372036854775808.
  intros Hv Hn.
  assert (Hu : u64 n = n).
  { unfold u64. apply Z.mod_small. change (2 ^ 64) with 18446744073709551616. lia. }
  destruct v; try discriminate; injection Hv as ->; cbn; split_and!; auto.
  f_equal. unfold i64. fold (u64 n). rewrite Hu.
  change (2 ^ 63) with 9223372036854775808.
  destruct (Z.ltb_spec n 9223372036854775808); [reflexivity|lia].
Qed.

Lemma integer_value_contains (j : json) (key : string) (n : Z) :
  integer_value (at_key j key) = Some n -> contains j key = true.
Proof.
  unfold at_key, contains. destruct j; try discriminate.
  now destruct (lookup_member key members).
Qed.

Lemma integer_value_member (j : json) (key : string) (n : Z) :
  integer_value (at_key j key) = Some n -> is_object j = true.
Proof. destruct j; try discriminate. reflexivity. Qed.

Lemma TryParseFrameRate_integer (v : json) (n : Z) :
  integer_value v = Some n -> 0 < n < 2 ^ 63 ->
  TryParseFrameRate v = inl (n, 1).
Proof.
  intros Hv Hn. destruct (integer_value_get_int64 v n Hv Hn) as (Hint & _ & Hget & Hu).
  unfold TryParseFrameRate. rewrite Hint, Hget, Hu.
  destruct (Z.leb_spec n 0); [lia|reflexivity].
Qed.

Lemma TryParseFrameRate_object (v : json) (num den : Z) :
  integer_value (at_key v "numerator") = Some num ->
  integer_value (at_key v "denominator") = Some den ->
  0 < num < 2 ^ 63 -> 0 < den < 2 ^ 63 ->
  TryParseFrameRate v = inl (num, den).
Proof.
  intros Hnum Hden Hn Hd.
  destruct (integer_value_get_int64 _ _ Hnum Hn) as (Hin & _ & Hgn & Hun).
  destruct (integer_value_get_int64 _ _ Hden Hd) as (Hid & _ & Hgd & Hud).
  pose proof (integer_value_member _ _ _ Hnum) as Hobj.
  unfold TryParseFrameRate.
  replace (is_number_integer v || is_number_unsigned v) with false
    by (destruct v; try discriminate; reflexivity).
  rewrite Hobj, (integer_value_contains _ _ _ Hnum), (integer_value_contains _ _ _ Hden).
  rewrite Hin, Hid, Hgn, Hgd, Hun, Hud. cbn [negb orb].
  destruct (Z.leb_spec num 0); [lia|]. destruct (Z.leb_spec den 0); [lia|]. reflexivity.
Qed.

Lemma Validate_frame_rate_mismatch (request : json) (s : SessionContext) (num den : Z) :
  requested_rate request num den ->
  0 < num < 2 ^ 63 -> 0 < den < 2 ^ 63 ->
  (num, den) <> (_fpsNumerator s, _fpsDenominator s) ->
  Validate_frame_rate request (DescribeSessionStarted s)
  = Invalid (frame_rate_mismatch num den (_fpsNumerator s) (_fpsDenominator s)).
Proof.
  intros Hreq Hn Hd Hne. unfold Validate_frame_rate.
  destruct (DescribeSessionStarted_frame_rate s) as [Hc Hfr]. rewrite Hc, Hfr.
  assert (Hparse :
    contains request "fps" || contains request "frame_rate" = true
    /\ TryParseFrameRate (if contains request "frame_rate" then at_key request "frame_rate"
                          else at_key request "fps") = inl (num, den)).
  { destruct Hreq as [(Hno & Hfps & ->)|[Hnum Hden]].
    - rewrite Hno, (integer_value_contains _ _ _ Hfps).
      split; [reflexivity|]. now apply TryParseFrameRate_integer.
    - assert (Hfc : contains request "frame_rate" = true).
      { unfold contains, at_key in *. destruct request; try discriminate.
        now destruct (lookup_member "frame_rate" members). }
      rewrite Hfc, orb_true_r. split; [reflexivity|].
      now apply TryParseFrameRate_object. }
  destruct Hparse as [-> ->]. cbn.
  destruct (Z.eqb_spec num (_fpsNumerator s)) as [->|]; [|reflexivity].
  destruct (Z.eqb_spec den (_fpsDenominator s)) as [->|]; [|reflexivity].
  now contradiction Hne.
Qed.

Lemma nth_insert_eq {A} (l : list A) (i : nat) (x d : A) :
  (i < length l)%nat -> nth i (<[ i := x ]> l) d = x.
Proof.
  revert i. induction l as [|a l IH]; intros [|i] Hi; cbn in *; try lia; auto.
  apply IH. lia.
Qed.

End StartSession.

(** C8, with the conditions the code needs: a connection without a
    session, a free session whose reset succeeds, a request that passes the
    model check and asks (by [frame_rate], or by [fps] when it has no
    [frame_rate]) for a rate of positive integers below 2^63 that is not the
    server's.  The one message sent is the Error naming both rates (plain
    text, which [SendJson] serialises), the connection stays without a
    session, and the session is detached and back
    on the free stack, which is as it was. *)
Theorem start_session_frame_rate_mismatch (msg : Json.json) (clientAddr : Z)
  (rnd : list Z) (w : Main.Worker) (free : list nat) (idx : nat)
  (session : a2fserver.SessionContext) (st : a2fserver.Status) (num den : Z) :
  Main.sessionIndex w = None ->
  a2fserver._freeIndices (Main.pool w) = free ++ [idx] ->
  (idx < length (a2fserver._sessions (Main.pool w)))%nat ->
  a2fserver.ResetForReuse (a2fserver.Get (Main.pool w) idx) (Main.status w)
  = (true, session, st) ->
  Main.Validate_model msg
    (a2fserver.DescribeSessionStarted (a2fserver.Start clientAddr rnd session).2)
  = Main.Valid ->
  Main.requested_rate msg num den ->
  0 < num < 2 ^ 63 -> 0 < den < 2 ^ 63 ->
  (num, den) <> (a2fserver._fpsNumerator (a2fserver.Get (Main.pool w) idx),
                 a2fserver._fpsDenominator (a2fserver.Get (Main.pool w) idx)) ->
  exists w',
    Main.HandleStartSession msg clientAddr rnd w = Main.Continue w'
    /\ Main.SendJson (Main.client w)
         (a2fserver.ErrorMessage
            (Main.frame_rate_mismatch num den
               (a2fserver._fpsNumerator (a2fserver.Get (Main.pool w) idx))
               (a2fserver._fpsDenominator (a2fserver.Get (Main.pool w) idx))))
       = Some (Main.client w')
    /\ Main.sessionIndex w' = None
    /\ a2fserver._freeIndices (Main.pool w') = a2fserver._freeIndices (Main.pool w)
    /\ length (a2fserver._sessions (Main.pool w'))
       = length (a2fserver._sessions (Main.pool w))
    /\ a2fserver._wsSocket (a2fserver.Get (Main.pool w') idx) = 0.
Proof.
  intros Hnone Hfree Hidx Hreset Hmodel Hreq Hn Hd Hne.
  pose proof (ResetForReuse_fields (a2fserver.Get (Main.pool w) idx) (Main.status w))
    as Hfields.
  rewrite Hreset in Hfields. cbn [fst snd] in Hfields. destruct Hfields as [Hfn Hfd].
  unfold Main.HandleStartSession, a2fserver.Acquire.
  rewrite Hnone, Hfree, rev_unit, removelast_last.
  change (a2fserver.Get (a2fserver.mkSessionPool (a2fserver._sessions (Main.pool w)) free) idx)
    with (a2fserver.Get (Main.pool w) idx).
  rewrite Hreset. cbn [negb].
  destruct (a2fserver.Start clientAddr rnd session) as [ok started] eqn:Hstart.
  cbn [snd] in Hmodel.
  assert (Hs : a2fserver._fpsNumerator started
               = a2fserver._fpsNumerator (a2fserver.Get (Main.pool w) idx)
               /\ a2fserver._fpsDenominator started
                  = a2fserver._fpsDenominator (a2fserver.Get (Main.pool w) idx)).
  { unfold a2fserver.Start in Hstart. injection Hstart as _ <-. now rewrite <- Hfn, <- Hfd. }
  destruct Hs as [Hsn Hsd].
  cbn [Main.pool Main.client Main.sessionIndex Main.status
       a2fserver._sessions a2fserver._freeIndices].
  unfold a2fserver.Get at 1. cbn [a2fserver._sessions].
  rewrite nth_insert_eq by now rewrite length_insert.
  unfold Main.ValidateStartSessionRequest. rewrite Hmodel.
  rewrite (Validate_frame_rate_mismatch msg started num den Hreq Hn Hd)
    by now rewrite Hsn, Hsd.
  rewrite SendError_utf8 by apply frame_rate_mismatch_utf8.
  eexists. split; [reflexivity|].
  unfold Main.SendJson. rewrite dumps_ErrorMessage, frame_rate_mismatch_utf8.
  cbn [Main.client Main.pool Main.sessionIndex Main.status].
  unfold a2fserver.Release. cbn [a2fserver._sessions a2fserver._freeIndices].
  rewrite !length_insert.
  destruct (Nat.leb_spec (length (a2fserver._sessions (Main.pool w))) idx); [lia|].
  cbn [a2fserver._sessions a2fserver._freeIndices]. rewrite !length_insert.
  split_and!; auto.
  - now rewrite Hsn, Hsd.
  - unfold a2fserver.Get. cbn [a2fserver._sessions].
    rewrite nth_insert_eq by now rewrite !length_insert.
    reflexivity.
Qed.

Lemma start_session_frame_rate_mismatch_witness :
  exists w',
    Main.HandleStartSession
      (Json.JObject [("type"%string, Json.JString "StartSession");
                     ("fps"%string, Json.JUnsigned 30)])
      1 [] Main.sample_worker = Main.Continue w'
    /\ a2fserver.outbox (Main.client w')
       = [(a2fws.Text,
           a2fserver.JsonText
             (a2fserver.ErrorMessage "Requested frame_rate 30/1 does not match server 60/1"))]
    /\ a2fserver._freeIndices (Main.pool w') = [0%nat].
Proof.
  destruct (start_session_frame_rate_mismatch
              (Json.JObject [("type"%string, Json.JString "StartSession");
                             ("fps"%string, Json.JUnsigned 30)])
              1 [] Main.sample_worker [] 0%nat
              (a2fserver.ResetForReuse a2fserver.sample_idle []).1.2
              (a2fserver.ResetForReuse a2fserver.sample_idle []).2 30 1)
    as (w' & Heq & Hclient & _ & Hfree & _).
  - reflexivity.
  - reflexivity.
  - cbn. lia.
  - vm_compute. reflexivity.
  - vm_compute. reflexivity.
  - left. vm_compute. auto.
  - lia.
  - lia.
  - vm_compute. discriminate.
  - exists w'. split; [exact Heq|]. rewrite Hfree. split; [|vm_compute; reflexivity].
    remember (Main.client w') as c eqn:Hc. vm_compute in Hclient.
    injection Hclient as <-. reflexivity.
Defined.

(** C8 as stated does not hold: the model is checked before the frame
    rate, so a request for 30/1 on a server of 60/1 that also names another
    model is answered with the model's Error message. *)
Lemma frame_rate_after_model :
  let msg := Json.JObject [("type"%string, Json.JString "StartSession");
                           ("model"%string, Json.JString "other.json");
                           ("fps"%string, Json.JUnsigned 30)] in
  Main.requested_rate msg 30 1
  /\ (a2fserver._fpsNumerator a2fserver.sample_idle,
      a2fserver._fpsDenominator a2fserver.sample_idle) = (60, 1)
  /\ exists w',
       Main.HandleText msg 1 [] Main.sample_worker = Main.Continue w'
       /\ a2fserver.outbox (Main.client w')
          = [(a2fws.Text,
              a2fserver.JsonText
                (a2fserver.ErrorMessage "Requested model does not match server model"))].
Proof.
  cbv zeta. split; [left; vm_compute; auto|]. split; [vm_compute; reflexivity|].
  eexists. split; vm_compute; reflexivity.
Qed.

(** * Further properties of the code *)

(** ** Frames from a client *)

Section ClientFrames.
Import a2fws Framing.

Lemma unmask_imap (key payload : list Z) (i : nat) :
  unmask key i (imap (fun j b => Z.lxor b (nth ((i + j) mod 4) key 0)) payload) = payload.
Proof.
  revert i. induction payload as [|b payload IH]; intros i; [reflexivity|].
  cbn [imap unmask]. rewrite Nat.add_0_r, Z.lxor_assoc, Z.lxor_nilpotent, Z.lxor_0_r.
  f_equal. rewrite <- (IH (S i)) at 2. f_equal. apply imap_ext. intros j x _. cbn.
  now rewrite Nat.add_succ_r.
Qed.

Lemma unmask_mask_payload (key payload : list Z) :
  unmask key 0 (mask_payload key payload) = payload.
Proof. apply (unmask_imap key payload 0). Qed.

Lemma length_mask_payload (key payload : list Z) :
  length (mask_payload key payload) = length payload.
Proof. apply length_imap. Qed.

Lemma masked_frame_shape (op : Opcode) (key payload : list Z) :
  named_opcode op -> Z.of_nat (length payload) < 2 ^ 64 ->
  exists b0 b1 ext,
    masked_frame (Opcode_value op) key payload
    = b0 :: b1 :: ext ++ key ++ mask_payload key payload
    /\ Forall is_byte ext /\ length ext = ext_size b1
    /\ fin_bit b0 = true /\ mask_bit b1 = true
    /\ Opcode_cast (opcode_bits b0) = op
    /\ declared_length b1 ext = Z.of_nat (length payload).
Proof.
  intros Hop Hlen. unfold masked_frame. cbv zeta.
  set (len := Z.of_nat (length payload)) in *.
  assert (Hlen0 : 0 <= len) by (subst len; lia).
  exists (128 + Opcode_value op).
  assert (Hb0 : fin_bit (128 + Opcode_value op) = true
                /\ Opcode_cast (opcode_bits (128 + Opcode_value op)) = op).
  { destruct op; try contradiction; split; reflexivity. }
  destruct Hb0 as [Hfin Hcast].
  assert (Hmask : forall n, 0 <= n < 128 -> mask_bit (128 + n) = true /\ len7 (128 + n) = n).
  { intros n Hn. unfold mask_bit, len7. split.
    - change 128 with (2 ^ 7). rewrite Z.add_comm, Z.testbit_true by lia.
      replace ((n + 2 ^ 7) / 2 ^ 7) with 1; [reflexivity|].
      apply (Z.div_unique _ _ 1 n); lia.
    - symmetry. apply (Z.mod_unique _ _ 1 n); lia. }
  destruct (Z.leb_spec len 125) as [H125|H125].
  - exists (128 + len), []. destruct (Hmask len) as [Hm Hl]; [lia|].
    unfold ext_size, declared_length. rewrite Hl.
    destruct (Z.eqb_spec len 126); [lia|]. destruct (Z.eqb_spec len 127); [lia|].
    repeat split; auto.
  - destruct (Z.leb_spec len 65535) as [Hffff|Hffff].
    + exists 254, (big_endian_bytes 2 len).
      split; [reflexivity|]. repeat split; auto using big_endian_bytes_range.
      unfold declared_length. change (len7 254 =? 126) with true. cbn [orb].
      rewrite big_endian_value_bytes. apply Z.mod_small.
      change (256 ^ Z.of_nat 2) with 65536. lia.
    + exists 255, (big_endian_bytes 8 len).
      split; [reflexivity|]. repeat split; auto using big_endian_bytes_range.
      unfold declared_length. change (len7 255 =? 127) with true.
      rewrite orb_true_r, big_endian_value_bytes. apply Z.mod_small.
      change (256 ^ Z.of_nat 8) with (2 ^ 64). lia.
Qed.

End ClientFrames.

(** X1.  A frame a client writes as the wire format asks (fin set, mask
    bit set, shortest length form, four-octet key, payload combined with
    the key) is read back by [ReadFrame] with its opcode and its original
    payload, for every named opcode, every key and every payload within
    the cap; the octets after the frame stay in the stream. *)
Theorem read_frame_masked_round_trip
  (op : a2fws.Opcode) (key payload rest txs : list Z) (lim : option nat)
  (maxPayloadBytes : Z) :
  a2fws.named_opcode op -> length key = 4%nat ->
  Z.of_nat (length payload) < 2 ^ 64 ->
  Z.of_nat (length payload) <= maxPayloadBytes ->
  a2fws.ReadFrame
    (a2fws.mkSocket (Framing.masked_frame (a2fws.Opcode_value op) key payload ++ rest) txs lim)
    maxPayloadBytes
  = (Some (a2fws.mkFrame true op payload), a2fws.mkSocket rest txs lim).
Proof.
  intros Hop Hkey Hlen Hmax.
  destruct (masked_frame_shape op key payload Hop Hlen)
    as (b0 & b1 & ext & -> & Hext & Hsize & Hfin & Hmask & Hcast & Hdecl).
  cbn [app]. rewrite <- !app_assoc.
  rewrite (ReadFrame_masked b0 b1 ext key (Framing.mask_payload key payload) rest txs lim
             maxPayloadBytes); auto.
  - now rewrite Hcast, unmask_mask_payload.
  - now rewrite Hdecl.
  - now rewrite length_mask_payload, Hdecl.
Qed.

Lemma read_frame_masked_round_trip_witness :
  a2fws.ReadFrame
    (a2fws.mkSocket
       (Framing.masked_frame 1 [0x37; 0xfa; 0x21; 0x3d] [72; 101; 108; 108; 111] ++ [9]) [] None)
    Main.kMaxPayload
  = (Some (a2fws.mkFrame true a2fws.Text [72; 101; 108; 108; 111]),
     a2fws.mkSocket [9] [] None).
Proof.
  apply (read_frame_masked_round_trip a2fws.Text [0x37; 0xfa; 0x21; 0x3d]
           [72; 101; 108; 108; 111] [9] [] None Main.kMaxPayload).
  - exact I.
  - reflexivity.
  - vm_compute. reflexivity.
  - vm_compute. discriminate.
Defined.

Section TruncatedFrames.
Import a2fws Framing.

Lemma RecvAll_short (l txs : list Z) (lim : option nat) (k : nat) :
  (length l < k)%nat -> RecvAll (mkSocket l txs lim) k = (None, mkSocket [] txs lim).
Proof.
  intros H. unfold RecvAll. cbn [rx tx txLimit].
  destruct (Nat.leb_spec k (length l)); [lia|reflexivity].
Qed.

Lemma ReadFrame_short_ext (b0 b1 : Z) (pre txs : list Z) (lim : option nat) (max : Z) :
  (length pre < ext_size b1)%nat ->
  (ReadFrame (mkSocket (b0 :: b1 :: pre) txs lim) max).1 = None.
Proof.
  intros H. unfold ReadFrame.
  change (b0 :: b1 :: pre) with ([b0; b1] ++ pre). rewrite (RecvAll_app [b0; b1]).
  cbn [nth negb]. rewrite !land_0x80_testbit, !land_0x7f, !negb_involutive.
  fold (fin_bit b0); fold (len7 b1). unfold ext_size in H.
  destruct (fin_bit b0); [|reflexivity]. cbn [negb].
  destruct (len7 b1 =? 126).
  - now rewrite RecvAll_short.
  - destruct (len7 b1 =? 127); [now rewrite RecvAll_short|]. cbn in H. lia.
Qed.

(** A frame cut short: header, extended length, key (four octets when the
    mask bit is set, none otherwise) and body, of which only the first [n]
    octets arrive. *)
Lemma ReadFrame_truncated (b0 b1 : Z) (ext key body txs : list Z) (lim : option nat)
  (max : Z) (n : nat) :
  Forall is_byte ext -> length ext = ext_size b1 ->
  length key = (if mask_bit b1 then 4%nat else 0%nat) ->
  Z.of_nat (length body) = declared_length b1 ext ->
  (n < length (b0 :: b1 :: ext ++ key ++ body))%nat ->
  (ReadFrame (mkSocket (take n (b0 :: b1 :: ext ++ key ++ body)) txs lim) max).1 = None.
Proof.
  intros Hext Hsize Hkey Hbody Hn. cbn [length] in Hn. rewrite !length_app in Hn.
  destruct n as [|[|n]].
  - reflexivity.
  - reflexivity.
  - cbn [take]. destruct (Nat.lt_ge_cases n (length ext)) as [Hshort|Hlong].
    + apply ReadFrame_short_ext. rewrite length_take, length_app. lia.
    + rewrite take_app_ge by exact Hlong.
      destruct (fin_bit b0) eqn:Hfin.
      2:{ now rewrite ReadFrame_not_fin. }
      rewrite ReadFrame_length by auto. cbv zeta.
      destruct (declared_length b1 ext >? max); [reflexivity|].
      set (m := (n - length ext)%nat) in *.
      destruct (mask_bit b1).
      * destruct (Nat.lt_ge_cases m 4) as [Hm|Hm].
        -- rewrite RecvAll_short; [reflexivity|].
           rewrite length_take, length_app. lia.
        -- rewrite take_app_ge by lia. rewrite <- Hkey at 1. rewrite RecvAll_app.
           destruct (Z.gtb_spec (declared_length b1 ext) 0); [|lia].
           rewrite RecvAll_short; [reflexivity|]. rewrite length_take. lia.
      * destruct key; [|discriminate]. cbn [app length] in *.
        destruct (Z.gtb_spec (declared_length b1 ext) 0); [|lia].
        rewrite RecvAll_short; [reflexivity|]. rewrite length_take. lia.
Qed.

End TruncatedFrames.

(** X2.  A frame of which only a proper prefix arrives before the stream
    ends is never returned: for a frame as [SendFrame] writes it and for a
    masked frame as a client writes it, [ReadFrame] fails on the first [n]
    octets, for every [n] below the length of the frame. *)
Theorem read_frame_truncated
  (op : a2fws.Opcode) (key payload txs : list Z) (lim : option nat)
  (maxPayloadBytes : Z) (n : nat) :
  a2fws.named_opcode op -> length key = 4%nat ->
  Z.of_nat (length payload) < 2 ^ 64 ->
  ((n < length (a2fws.SendFrame_bytes op payload))%nat ->
   (a2fws.ReadFrame (a2fws.mkSocket (take n (a2fws.SendFrame_bytes op payload)) txs lim)
      maxPayloadBytes).1 = None)
  /\ ((n < length (Framing.masked_frame (a2fws.Opcode_value op) key payload))%nat ->
      (a2fws.ReadFrame
         (a2fws.mkSocket (take n (Framing.masked_frame (a2fws.Opcode_value op) key payload))
            txs lim)
         maxPayloadBytes).1 = None).
Proof.
  intros Hop Hkey Hlen. split.
  - destruct (SendFrame_bytes_shape op payload Hop Hlen)
      as (b0 & b1 & ext & -> & Hext & Hsize & Hfin & Hmask & Hcast & Hdecl).
    intros Hn.
    apply (ReadFrame_truncated b0 b1 ext [] payload); auto.
    now rewrite Hmask.
  - destruct (masked_frame_shape op key payload Hop Hlen)
      as (b0 & b1 & ext & -> & Hext & Hsize & Hfin & Hmask & Hcast & Hdecl).
    intros Hn.
    apply (ReadFrame_truncated b0 b1 ext key (Framing.mask_payload key payload)); auto.
    + now rewrite Hmask.
    + now rewrite length_mask_payload.
Qed.

Lemma read_frame_truncated_witness :
  (a2fws.ReadFrame
     (a2fws.mkSocket (take 5 (Framing.masked_frame 2 [1; 2; 3; 4] [10; 20; 30])) [] None)
     Main.kMaxPayload).1 = None.
Proof.
  apply (proj2 (read_frame_truncated a2fws.Binary [1; 2; 3; 4] [10; 20; 30] [] None
                  Main.kMaxPayload 5 I eq_refl eq_refl)).
  vm_compute. lia.
Defined.

(** X3.  What [SendFrame] writes is read back by [ReadFrame]: for every
    named opcode and every payload shorter than 2^64 octets and within the
    cap, the octets a successful [SendFrame] added to the stream decode to
    the same opcode and payload with [fin] set, and what follows them
    stays in the stream. *)
Theorem send_frame_read_frame
  (op : a2fws.Opcode) (payload : list Z) (sender sender' : a2fws.Socket)
  (rest txs : list Z) (lim : option nat) (maxPayloadBytes : Z) :
  a2fws.named_opcode op ->
  Z.of_nat (length payload) < 2 ^ 64 ->
  Z.of_nat (length payload) <= maxPayloadBytes ->
  a2fws.SendFrame sender op payload = (true, sender') ->
  a2fws.ReadFrame
    (a2fws.mkSocket (drop (length (a2fws.tx sender)) (a2fws.tx sender') ++ rest) txs lim)
    maxPayloadBytes
  = (Some (a2fws.mkFrame true op payload), a2fws.mkSocket rest txs lim).
Proof.
  intros Hop Hlen Hmax Hsend.
  apply SendFrame_tx in Hsend. rewrite Hsend, drop_app_length.
  now apply SendFrame_ReadFrame.
Qed.

Lemma send_frame_read_frame_witness :
  a2fws.ReadFrame
    (a2fws.mkSocket (a2fws.SendFrame_bytes a2fws.Pong (repeat 7 200) ++ [1; 2]) [] None)
    Main.kMaxPayload
  = (Some (a2fws.mkFrame true a2fws.Pong (repeat 7 200)), a2fws.mkSocket [1; 2] [] None).
Proof.
  apply (send_frame_read_frame a2fws.Pong (repeat 7 200) (a2fws.mkSocket [] [] None)
           (a2fws.mkSocket [] (a2fws.SendFrame_bytes a2fws.Pong (repeat 7 200)) None)
           [1; 2] [] None Main.kMaxPayload).
  - exact I.
  - vm_compute. reflexivity.
  - vm_compute. discriminate.
  - reflexivity.
Defined.

(** ** Canonical forms of the dispatcher *)

Section Canonical.
Import Json a2fserver Main.

Ltac each_char c := destruct c as [[] [] [] [] [] [] [] []]; vm_compute; auto.

Lemma tolower_tolower (c : ascii) : tolower (tolower c) = tolower c.
Proof. each_char c. Qed.

Lemma isalnum_tolower (c : ascii) : isalnum (tolower c) = isalnum c.
Proof. each_char c. Qed.

(** A digit or a small letter. *)
Lemma isalnum_tolower_range (c : ascii) :
  isalnum (tolower c) = true ->
  48 <= char_code (tolower c) <= 57 \/ 97 <= char_code (tolower c) <= 122.
Proof.
  destruct c as [[] [] [] [] [] [] [] []]; intros H; vm_compute in H;
    try discriminate H; clear H;
    match goal with
    | |- context [char_code ?x] =>
        let v := eval vm_compute in (char_code x) in change (char_code x) with v
    end; lia.
Qed.

Lemma map_string_tolower_involutive (s : string) :
  map_string tolower (map_string tolower s) = map_string tolower s.
Proof.
  induction s as [|c s IH]; cbn [map_string]; [reflexivity|].
  now rewrite tolower_tolower, IH.
Qed.

Lemma map_filter_lowered (s : string) :
  map_string tolower (filter_string isalnum (map_string tolower s))
  = filter_string isalnum (map_string tolower s).
Proof.
  induction s as [|c s IH]; cbn [map_string filter_string]; [reflexivity|].
  destruct (isalnum (tolower c)); cbn [map_string]; [|exact IH].
  now rewrite tolower_tolower, IH.
Qed.

Lemma filter_string_idempotent (p : ascii -> bool) (s : string) :
  filter_string p (filter_string p s) = filter_string p s.
Proof.
  induction s as [|c s IH]; cbn [filter_string]; [reflexivity|].
  destruct (p c) eqn:E; cbn [filter_string]; [|exact IH]. now rewrite E, IH.
Qed.

Lemma filter_string_append (p : ascii -> bool) (s t : string) :
  filter_string p (String.append s t)
  = String.append (filter_string p s) (filter_string p t).
Proof.
  induction s as [|c s IH]; cbn [filter_string String.append]; [reflexivity|].
  destruct (p c); cbn [String.append]; now rewrite IH.
Qed.

Lemma map_string_append (f : ascii -> ascii) (s t : string) :
  map_string f (String.append s t) = String.append (map_string f s) (map_string f t).
Proof.
  induction s as [|c s IH]; cbn [map_string String.append]; [reflexivity|now rewrite IH].
Qed.

Lemma filter_string_chars (p : ascii -> bool) (s : string) (c : ascii) :
  In c (list_ascii_of_string (filter_string p s)) ->
  In c (list_ascii_of_string s) /\ p c = true.
Proof.
  induction s as [|d s IH]; cbn [filter_string list_ascii_of_string]; [contradiction|].
  destruct (p d) eqn:E; cbn [list_ascii_of_string In].
  - intros [<-|H]; [auto|]. destruct (IH H). auto.
  - intros H. destruct (IH H). auto.
Qed.

Lemma map_string_chars (f : ascii -> ascii) (s : string) (c : ascii) :
  In c (list_ascii_of_string (map_string f s)) ->
  exists d, In d (list_ascii_of_string s) /\ c = f d.
Proof.
  induction s as [|d s IH]; cbn [map_string list_ascii_of_string In]; [contradiction|].
  intros [<-|H]; [eauto|]. destruct (IH H) as (e & He & ->). eauto.
Qed.

End Canonical.

(** X4.  [CanonicalizeExecutionOption] gives a canonical form: applying it
    twice is applying it once; its result holds digits and small letters
    only; and it takes no notice of the case of letters nor of characters
    that are neither letters nor digits, wherever they stand. *)
Theorem canonicalize_execution_option_canonical :
  (forall s, Main.CanonicalizeExecutionOption (Main.CanonicalizeExecutionOption s)
             = Main.CanonicalizeExecutionOption s)
  /\ (forall s c, In c (list_ascii_of_string (Main.CanonicalizeExecutionOption s)) ->
                  48 <= Main.char_code c <= 57 \/ 97 <= Main.char_code c <= 122)
  /\ (forall s, Main.CanonicalizeExecutionOption (Main.LowerAscii s)
                = Main.CanonicalizeExecutionOption s)
  /\ (forall s t c, Main.isalnum c = false ->
        Main.CanonicalizeExecutionOption (String.append s (String c t))
        = Main.CanonicalizeExecutionOption (String.append s t)).
Proof.
  unfold Main.CanonicalizeExecutionOption, Main.LowerAscii. split_and!.
  - intros s. now rewrite map_filter_lowered, filter_string_idempotent.
  - intros s c Hin. apply filter_string_chars in Hin. destruct Hin as [Hin Hc].
    apply map_string_chars in Hin. destruct Hin as (d & _ & ->).
    now apply isalnum_tolower_range.
  - intros s. now rewrite map_string_tolower_involutive.
  - intros s t c Hc. rewrite !map_string_append, !filter_string_append.
    cbn [Main.map_string Main.filter_string]. now rewrite isalnum_tolower, Hc.
Qed.

Lemma canonicalize_execution_option_canonical_witness :
  Main.CanonicalizeExecutionOption "Skin_Tongue" = Main.CanonicalizeExecutionOption "SkinTongue".
Proof.
  apply (proj2 (proj2 (proj2 canonicalize_execution_option_canonical))
           "Skin"%string "Tongue"%string "_"%char).
  reflexivity.
Defined.

(** X5.  [ParseExecutionOption] reads back the name [ExecutionOptionToString]
    gives to each option, and whatever string it reads as an option has the
    canonical form of that option's name: a client that sends the server's
    command-line spelling of the option passes the comparison of
    [ValidateStartSessionRequest]. *)
Theorem parse_execution_option_names :
  (forall opt, Main.ParseExecutionOption (a2fserver.ExecutionOptionToString opt) = Some opt)
  /\ (forall s opt, Main.ParseExecutionOption s = Some opt ->
        Main.CanonicalizeExecutionOption s
        = Main.CanonicalizeExecutionOption (a2fserver.ExecutionOptionToString opt)).
Proof.
  split.
  - intros []; reflexivity.
  - intros s opt. unfold Main.ParseExecutionOption, Main.CanonicalizeExecutionOption,
      Main.LowerAscii. cbv zeta.
    repeat match goal with
           | |- context [String.eqb ?a ?b] =>
               destruct (String.eqb_spec a b) as [E|_];
               [rewrite E; intros [= <-]; reflexivity|]
           end.
    discriminate.
Qed.

Lemma parse_execution_option_names_witness :
  Main.CanonicalizeExecutionOption "SKIN"
  = Main.CanonicalizeExecutionOption (a2fserver.ExecutionOptionToString a2fserver.OptSkin).
Proof.
  apply (proj2 parse_execution_option_names "SKIN"%string a2fserver.OptSkin).
  reflexivity.
Defined.

Section Paths.
Import Json a2fserver Main.

Lemma list_ascii_of_string_append (s t : string) :
  list_ascii_of_string (String.append s t)
  = list_ascii_of_string s ++ list_ascii_of_string t.
Proof.
  induction s as [|c s IH]; cbn [String.append list_ascii_of_string app];
    [reflexivity|now rewrite IH].
Qed.

Lemma string_of_list_ascii_app (l k : list ascii) :
  string_of_list_ascii (l ++ k)
  = String.append (string_of_list_ascii l) (string_of_list_ascii k).
Proof.
  induction l as [|c l IH]; cbn [app string_of_list_ascii String.append];
    [reflexivity|now rewrite IH].
Qed.

Lemma reverse_string_last (s : string) (c : ascii) :
  reverse_string (String.append s (String c EmptyString)) = String c (reverse_string s).
Proof.
  unfold reverse_string. rewrite list_ascii_of_string_append. cbn [list_ascii_of_string].
  now rewrite rev_unit.
Qed.

Lemma reverse_string_cons (s : string) (c : ascii) :
  reverse_string (String c s) = String.append (reverse_string s) (String c EmptyString).
Proof.
  unfold reverse_string. cbn [list_ascii_of_string rev].
  now rewrite string_of_list_ascii_app.
Qed.

Lemma erase_front_while_last (p : ascii -> bool) (r : string) (c : ascii) :
  p c = true ->
  erase_front_while p (String.append r (String c EmptyString))
  = match erase_front_while p r with
    | EmptyString => EmptyString
    | e => String.append e (String c EmptyString)
    end.
Proof.
  intros Hc. induction r as [|d r IH]; cbn [String.append erase_front_while].
  - now rewrite Hc.
  - destruct (p d); [exact IH|reflexivity].
Qed.

Lemma pop_back_while_last (p : ascii -> bool) (s : string) (c : ascii) :
  p c = true -> pop_back_while p (String.append s (String c EmptyString)) = pop_back_while p s.
Proof.
  intros Hc. unfold pop_back_while. rewrite reverse_string_last.
  cbn [erase_front_while]. now rewrite Hc.
Qed.

Lemma reverse_string_nonempty (d : ascii) (e : string) :
  reverse_string (String d e) <> EmptyString.
Proof.
  unfold reverse_string. cbn [list_ascii_of_string rev].
  destruct (rev (list_ascii_of_string e)); discriminate.
Qed.

Lemma pop_back_while_cons (p : ascii -> bool) (s : string) (c : ascii) :
  p c = true ->
  pop_back_while p (String c s)
  = match pop_back_while p s with
    | EmptyString => EmptyString
    | e => String c e
    end.
Proof.
  intros Hc. unfold pop_back_while.
  rewrite reverse_string_cons, erase_front_while_last by exact Hc.
  destruct (erase_front_while p (reverse_string s)) as [|d e]; [reflexivity|].
  rewrite reverse_string_last.
  pose proof (reverse_string_nonempty d e) as Hne.
  now destruct (reverse_string (String d e)).
Qed.

Lemma map_string_idempotent (f : ascii -> ascii) (s : string) :
  (forall c, f (f c) = f c) -> map_string f (map_string f s) = map_string f s.
Proof.
  intros Hf. induction s as [|c s IH]; cbn [map_string]; [reflexivity|].
  now rewrite Hf, IH.
Qed.

End Paths.

(** X6.  Paths that [CanonicalizePath] does not tell apart: a path and the
    same path with its backslashes written as slashes; a path and the same
    path followed by a slash, a backslash or a white-space character; a
    path and the same path after a white-space character. *)
Theorem canonicalize_path_equivalences (s : string) (c : ascii) :
  Main.CanonicalizePath
    (Main.map_string (fun c => if Ascii.eqb c "\"%char then "/"%char else c) s)
  = Main.CanonicalizePath s
  /\ (c = "/"%char \/ c = "\"%char \/ Main.isspace c = true ->
      Main.CanonicalizePath (String.append s (String c EmptyString))
      = Main.CanonicalizePath s)
  /\ (Main.isspace c = true ->
      Main.CanonicalizePath (String c s) = Main.CanonicalizePath s).
Proof.
  unfold Main.CanonicalizePath. cbv zeta. split_and!.
  - rewrite map_string_idempotent; [reflexivity|].
    intros d. destruct (Ascii.eqb_spec d "\"%char) as [->|]; [reflexivity|].
    destruct (Ascii.eqb_spec d "\"%char); [contradiction|reflexivity].
  - intros Hc. rewrite map_string_append. cbn [Main.map_string].
    rewrite pop_back_while_last; [reflexivity|].
    destruct Hc as [->|[->|Hc]]; [reflexivity|reflexivity|].
    destruct (Ascii.eqb_spec c "\"%char) as [->|]; [reflexivity|].
    rewrite Hc. apply orb_true_r.
  - intros Hc. cbn [Main.map_string].
    assert (Hn : Ascii.eqb c "\"%char = false).
    { destruct (Ascii.eqb_spec c "\"%char) as [->|]; [discriminate Hc|reflexivity]. }
    rewrite Hn, pop_back_while_cons by (rewrite Hc; apply orb_true_r).
    destruct (Main.pop_back_while _ _) as [|d e]; [reflexivity|].
    cbn [Main.erase_front_while]. now rewrite Hc.
Qed.

Lemma canonicalize_path_equivalences_witness :
  Main.CanonicalizePath "models/mark/ " = Main.CanonicalizePath "models/mark/".
Proof.
  apply (proj1 (proj2 (canonicalize_path_equivalences "models/mark/" " "%char))).
  right. right. reflexivity.
Defined.

(** ** Requests the dispatcher accepts *)

Section Requests.
Import Json a2fserver Main.
Local Open Scope string_scope.

Lemma get_int64_positive (j : json) (z : Z) :
  number_in_range j ->
  is_number_integer j || is_number_unsigned j = true ->
  get_int64 j = Some z -> 0 < z ->
  integer_value j = Some (u64 z) /\ 0 < u64 z < 2 ^ 63.
Proof.
  change (2 ^ 63) with 9223372036854775808.
  intros Hr Hn Hg Hz. destruct j; try discriminate; cbn in *; injection Hg as <-.
  - change (2 ^ 63) with 9223372036854775808 in Hr.
    unfold u64. change (2 ^ 64) with 18446744073709551616.
    rewrite Z.mod_small by lia. split; [reflexivity|lia].
  - change (2 ^ 64) with 18446744073709551616 in Hr.
    unfold i64, u64 in *. change (2 ^ 64) with 18446744073709551616 in *.
    change (2 ^ 63) with 9223372036854775808 in *.
    rewrite (Z.mod_small v) in * by lia.
    destruct (Z.ltb_spec v 9223372036854775808); [|lia].
    rewrite Z.mod_small by lia. split; [reflexivity|lia].
Qed.

End Requests.

(** X7.  What [TryParseFrameRate] accepts, for numbers as the JSON library
    holds them: exactly an integer above 0 and below 2^63, which stands for
    that rate over 1, or an object whose [numerator] and [denominator] are
    both such integers.  In particular an unsigned integer of 2^63 or more
    is refused, as is a number that is not an integer. *)
Theorem try_parse_frame_rate_accepts (v : Json.json) (num den : Z) :
  Json.number_in_range v ->
  Json.number_in_range (Json.at_key v "numerator") ->
  Json.number_in_range (Json.at_key v "denominator") ->
  Main.TryParseFrameRate v = inl (num, den)
  <-> 0 < num < 2 ^ 63 /\ 0 < den < 2 ^ 63
      /\ ((Main.integer_value v = Some num /\ den = 1)
          \/ (Main.integer_value (Json.at_key v "numerator") = Some num
              /\ Main.integer_value (Json.at_key v "denominator") = Some den)).
Proof.
  intros Hv Hnum Hden. split.
  - unfold Main.TryParseFrameRate.
    destruct (Json.is_number_integer v || Json.is_number_unsigned v) eqn:Hint.
    + destruct (Json.get_int64 v) as [fps|] eqn:Hget; [|discriminate].
      destruct (Z.leb_spec fps 0); [discriminate|]. intros [= <- <-].
      destruct (get_int64_positive v fps Hv Hint Hget) as [Hi Hr]; [lia|].
      split; [exact Hr|]. split; [change (2 ^ 63) with 9223372036854775808; lia|].
      left. auto.
    + destruct (Json.is_object v); [|discriminate].
      destruct (negb (Json.contains v "numerator") || negb (Json.contains v "denominator"));
        [discriminate|].
      destruct (Json.is_number_integer (Json.at_key v "numerator")
                || Json.is_number_unsigned (Json.at_key v "numerator")) eqn:Hin;
        [|discriminate].
      destruct (Json.is_number_integer (Json.at_key v "denominator")
                || Json.is_number_unsigned (Json.at_key v "denominator")) eqn:Hid;
        [|discriminate].
      cbn [negb orb].
      destruct (Json.get_int64 (Json.at_key v "numerator")) as [n|] eqn:Hgn; [|discriminate].
      destruct (Json.get_int64 (Json.at_key v "denominator")) as [d|] eqn:Hgd;
        [|discriminate].
      destruct (Z.leb_spec n 0); [discriminate|].
      destruct (Z.leb_spec d 0); [discriminate|]. intros [= <- <-].
      destruct (get_int64_positive _ n Hnum Hin Hgn) as [Hi1 Hr1]; [lia|].
      destruct (get_int64_positive _ d Hden Hid Hgd) as [Hi2 Hr2]; [lia|].
      auto.
  - intros (Hn & Hd & [[Hi ->]|[Hi1 Hi2]]).
    + now apply TryParseFrameRate_integer.
    + now apply TryParseFrameRate_object.
Qed.

Lemma try_parse_frame_rate_accepts_witness :
  Main.TryParseFrameRate
    (Json.JObject [("numerator"%string, Json.JUnsigned 30000);
                   ("denominator"%string, Json.JInteger 1001)])
  = inl (30000, 1001).
Proof.
  apply try_parse_frame_rate_accepts.
  - exact I.
  - cbn. lia.
  - cbn. lia.
  - split; [lia|]. split; [lia|]. right. split; reflexivity.
Defined.

Section Validation.
Import Json a2fserver Main.
Local Open Scope string_scope.

Lemma DescribeSessionStarted_model (s : SessionContext) :
  value_string (DescribeSessionStarted s) "model" "" = Some (_modelJsonPath s)
  /\ at_key (DescribeSessionStarted s) "model" = JString (_modelJsonPath s).
Proof. split; reflexivity. Qed.

Lemma DescribeSessionStarted_options (s : SessionContext) :
  contains (DescribeSessionStarted s) "options" = true
  /\ at_key (DescribeSessionStarted s) "options"
     = JObject [("use_gpu_solver", JBool (_useGpuSolver s));
                ("execution_option", JString (_executionOptionStr s))].
Proof. split; reflexivity. Qed.

Lemma Validate_model_not_thrown (request : json) (s : SessionContext) :
  Validate_model request (DescribeSessionStarted s) <> Thrown.
Proof.
  unfold Validate_model. destruct (contains request "model"); [|discriminate].
  destruct (get_string _); [|discriminate].
  rewrite (proj1 (DescribeSessionStarted_model s)).
  now destruct (_ && _).
Qed.

Lemma Validate_frame_rate_not_thrown (request : json) (s : SessionContext) :
  Validate_frame_rate request (DescribeSessionStarted s) <> Thrown.
Proof.
  unfold Validate_frame_rate. destruct (_ || _); [|discriminate].
  destruct (TryParseFrameRate _) as [[reqNum reqDen]|]; [|discriminate].
  destruct (DescribeSessionStarted_frame_rate s) as [Hc Hfr]. rewrite Hc, Hfr. cbn.
  now destruct (_ || _).
Qed.

Lemma Validate_options_not_thrown (request : json) (s : SessionContext) :
  Validate_options request (DescribeSessionStarted s) <> Thrown.
Proof.
  unfold Validate_options. destruct (contains request "options"); [|discriminate].
  destruct (negb (is_object _)); [discriminate|].
  destruct (DescribeSessionStarted_options s) as [Hc Ho]. rewrite Hc, Ho. cbn [is_object negb orb].
  destruct (contains (at_key request "options") "use_gpu_solver").
  - destruct (get_bool _); [|discriminate]. cbn.
    destruct (negb _); [discriminate|].
    destruct (contains _ "execution_option"); [|discriminate].
    destruct (get_string _); [|discriminate]. cbn. now destruct (_ && _).
  - destruct (contains _ "execution_option"); [|discriminate].
    destruct (get_string _); [|discriminate]. cbn. now destruct (_ && _).
Qed.

Lemma ValidateStartSessionRequest_not_thrown (request : json) (s : SessionContext) :
  ValidateStartSessionRequest request (DescribeSessionStarted s) <> Thrown.
Proof.
  unfold ValidateStartSessionRequest.
  pose proof (Validate_model_not_thrown request s).
  pose proof (Validate_frame_rate_not_thrown request s).
  pose proof (Validate_options_not_thrown request s).
  destruct (Validate_model _ _); try congruence.
  destruct (Validate_frame_rate _ _); congruence.
Qed.

Lemma HandleStartSession_caught (msg : json) (clientAddr : Z) (rnd : list Z) (w : Worker) :
  Forall session_text (_sessions (pool w)) ->
  HandleStartSession msg clientAddr rnd w <> Uncaught.
Proof.
  intros Htext. unfold HandleStartSession.
  destruct (sessionIndex w); [now rewrite SendError_utf8|].
  pose proof (Acquire_text clientAddr rnd (pool w) (status w) Htext) as Hacq.
  destruct (Acquire _ _ _ _) as [[[idx|] pool1] st]; cbn [fst snd] in Hacq;
    [|now rewrite SendError_utf8].
  cbn [pool client sessionIndex status].
  pose proof (ValidateStartSessionRequest_not_thrown msg (Get pool1 idx)) as H.
  destruct (ValidateStartSessionRequest _ _) as [|e|] eqn:E; [| |contradiction].
  - unfold SendJson_continue, SendJson. cbn [client].
    rewrite dumps_DescribeSessionStarted by (apply Get_session_text; exact Hacq).
    discriminate.
  - rewrite SendError_utf8 by (eapply ValidateStartSessionRequest_utf8; exact E).
    discriminate.
Qed.

Lemma HandleEndSession_caught (msg : json) (w : Worker) :
  Forall session_text (_sessions (pool w)) ->
  HandleEndSession msg w <> Uncaught.
Proof.
  intros Htext. unfold HandleEndSession.
  destruct (sessionIndex w) as [idx|]; [|now rewrite SendError_utf8].
  assert (Hended : SendJson_continue
                     (set_key (set_key JNull "type" (JString "SessionEnded")) "session_id"
                        (JString (SessionId (Get (pool w) idx))))
                     (mkWorker (Release idx (pool w)) (client w) None (status w))
                   <> Uncaught).
  { unfold SendJson_continue, SendJson.
    cbn [set_key set_member String.eqb Ascii.eqb Bool.eqb dumps forallb].
    destruct (Get_session_text (pool w) idx Htext) as (Hid & _).
    unfold SessionId. rewrite Hid. discriminate. }
  cbv zeta.
  destruct (contains msg "session_id"); [|exact Hended].
  destruct (get_string _); [|now rewrite SendError_utf8].
  destruct (negb _); [now rewrite SendError_utf8|exact Hended].
Qed.

Lemma HandleText_uncaught (msg : json) (clientAddr : Z) (rnd : list Z) (w : Worker) :
  Forall session_text (_sessions (pool w)) ->
  HandleText msg clientAddr rnd w = Uncaught <-> value_string msg "type" "" = None.
Proof.
  intros Htext. unfold HandleText. destruct (value_string msg "type" "") as [type|].
  - split; [|discriminate].
    destruct (String.eqb type "StartSession");
      [intros H; now apply HandleStartSession_caught in H|].
    destruct (String.eqb type "EndSession");
      [intros H; now apply HandleEndSession_caught in H|].
    now rewrite SendError_utf8.
  - split; reflexivity.
Qed.

End Validation.

(** X8.  The exceptions a text frame can raise out of [HandleClient],
    which has no handler but the one around [json::parse].  With sessions
    whose strings (id, model path, option name, channel names) are
    well-formed UTF-8, a turn of the loop on a text frame ends in an
    exception exactly when the payload does not parse and the message of
    the parser, which the Error reply quotes, is not well-formed UTF-8, or
    when it parses to a value that is not an object or has a [type] member
    that is not a string.  [ValidateStartSessionRequest] itself never
    throws on the description the session gives; and a session whose model
    path is not well-formed UTF-8 cannot send its SessionStarted message:
    [SendJson] throws. *)
Theorem handle_text_uncaught (parse : list Z -> Json.json + string) (clientAddr : Z)
  (m : Main.Incoming) (w : Main.Worker) :
  a2fws.opcode (Main.in_frame m) = a2fws.Text ->
  Forall Main.session_text (a2fserver._sessions (Main.pool w)) ->
  (Main.HandleFrame parse clientAddr m w = Main.Uncaught
   <-> match parse (a2fws.payload (Main.in_frame m)) with
       | inr what => Json.utf8 what = false
       | inl msg => Json.value_string msg "type" "" = None
       end)
  /\ (forall msg,
        Json.value_string msg "type" "" = None
        <-> Json.is_object msg = false
            \/ (Json.contains msg "type" = true
                /\ Json.is_string (Json.at_key msg "type") = false))
  /\ (forall msg s,
        Main.ValidateStartSessionRequest msg (a2fserver.DescribeSessionStarted s)
        <> Main.Thrown)
  /\ (forall sock s,
        Json.utf8 (a2fserver._modelJsonPath s) = false ->
        Main.SendJson sock (a2fserver.DescribeSessionStarted s) = None).
Proof.
  intros Hop Htext. split_and!.
  - unfold Main.HandleFrame. rewrite Hop.
    destruct (parse (a2fws.payload (Main.in_frame m))) as [msg|what].
    + now apply HandleText_uncaught.
    + assert (Hwhat : Json.utf8 (String.append "Invalid JSON: " what) = Json.utf8 what)
        by reflexivity.
      destruct (Json.utf8 what) eqn:E.
      * rewrite SendError_utf8 by exact Hwhat. split; discriminate.
      * rewrite SendError_not_utf8 by exact Hwhat. split; reflexivity.
  - intros msg. unfold Json.value_string, Json.contains, Json.at_key.
    destruct msg as [| | | | | | |members]; cbn [Json.is_object];
      try (split; [auto|reflexivity]).
    destruct (Json.lookup_member "type" members) as [v|].
    + destruct v; cbn; split; try discriminate; try tauto;
        intros [H|[_ H]]; discriminate H.
    + split; [discriminate|]. intros [H|[H _]]; discriminate H.
  - intros msg s. apply ValidateStartSessionRequest_not_thrown.
  - intros sock s Hmodel. unfold Main.SendJson.
    now rewrite dumps_DescribeSessionStarted_model.
Qed.

Lemma handle_text_uncaught_witness :
  Main.HandleFrame (fun _ => inr (String "255"%char EmptyString)) 1
    (Main.mkIncoming (a2fws.mkFrame true a2fws.Text [255]) [] [])
    Main.sample_worker
  = Main.Uncaught.
Proof.
  destruct (handle_text_uncaught (fun _ => inr (String "255"%char EmptyString)) 1
              (Main.mkIncoming (a2fws.mkFrame true a2fws.Text [255]) [] [])
              Main.sample_worker) as [[_ H] _].
  - reflexivity.
  - repeat constructor.
  - apply H. reflexivity.
Defined.

(** X9.  The server accepts what it advertises.  A StartSession request
    whose [model], [frame_rate] and [options] members, where present, are
    those of the session's own SessionStarted message, and which has an
    [fps] member only beside a [frame_rate], passes
    [ValidateStartSessionRequest], given a frame rate of positive
    components below 2^63; the SessionStarted message itself is such a
    request. *)
Theorem validate_accepts_description (request : Json.json) (s : a2fserver.SessionContext) :
  0 < a2fserver._fpsNumerator s < 2 ^ 63 ->
  0 < a2fserver._fpsDenominator s < 2 ^ 63 ->
  (forall key, In key ["model"; "frame_rate"; "options"]%string ->
     Json.contains request key = true ->
     Json.at_key request key = Json.at_key (a2fserver.DescribeSessionStarted s) key) ->
  (Json.contains request "frame_rate" = false -> Json.contains request "fps" = false) ->
  Main.ValidateStartSessionRequest request (a2fserver.DescribeSessionStarted s) = Main.Valid.
Proof.
  intros Hn Hd Hsame Hfps.
  assert (Hmodel : Main.Validate_model request (a2fserver.DescribeSessionStarted s)
                   = Main.Valid).
  { unfold Main.Validate_model.
    destruct (Json.contains request "model") eqn:Hc; [|reflexivity].
    rewrite (Hsame "model"%string) by (cbn; auto).
    destruct (DescribeSessionStarted_model s) as [-> ->]. cbn [Json.get_string].
    rewrite String.eqb_refl. cbn [negb]. now rewrite andb_false_r. }
  assert (Hrate : Main.Validate_frame_rate request (a2fserver.DescribeSessionStarted s)
                  = Main.Valid).
  { unfold Main.Validate_frame_rate.
    destruct (Json.contains request "frame_rate") eqn:Hc.
    - rewrite orb_true_r, (Hsame "frame_rate"%string) by (cbn; auto).
      destruct (DescribeSessionStarted_frame_rate s) as [-> ->].
      rewrite (TryParseFrameRate_object _ (a2fserver._fpsNumerator s)
                 (a2fserver._fpsDenominator s)) by (auto; reflexivity).
      cbn. now rewrite !Z.eqb_refl.
    - now rewrite (Hfps eq_refl). }
  assert (Hopt : Main.Validate_options request (a2fserver.DescribeSessionStarted s)
                 = Main.Valid).
  { unfold Main.Validate_options.
    destruct (Json.contains request "options") eqn:Hc; [|reflexivity].
    rewrite (Hsame "options"%string) by (cbn; auto).
    destruct (DescribeSessionStarted_options s) as [-> ->]. cbn.
    rewrite Bool.eqb_reflx, String.eqb_refl. cbn. now rewrite andb_false_r. }
  unfold Main.ValidateStartSessionRequest. now rewrite Hmodel, Hrate, Hopt.
Qed.

Lemma validate_accepts_description_witness :
  Main.ValidateStartSessionRequest
    (a2fserver.DescribeSessionStarted a2fserver.sample_attached)
    (a2fserver.DescribeSessionStarted a2fserver.sample_attached)
  = Main.Valid.
Proof.
  apply validate_accepts_description.
  - vm_compute. split; reflexivity.
  - vm_compute. split; reflexivity.
  - reflexivity.
  - discriminate.
Defined.

(** X10.  A StartSession that is accepted.  On a connection without a
    session, when the last free session resets and the request passes
    validation, the session is taken off the free stack and attached to
    the connection's socket with a new id, an empty queue and frame index
    0; the one message sent is the session's SessionStarted, and the
    connection holds the session from then on.  This is so whenever the
    SessionStarted message can be serialised, as it can when the strings
    of the session are well-formed UTF-8; when it cannot, the exception of
    [dump()] leaves [HandleClient] instead. *)
Theorem start_session_accepted (msg : Json.json) (clientAddr : Z)
  (rnd : list Z) (w : Main.Worker) (free : list nat) (idx : nat)
  (session : a2fserver.SessionContext) (st : a2fserver.Status) :
  Main.sessionIndex w = None ->
  a2fserver._freeIndices (Main.pool w) = free ++ [idx] ->
  (idx < length (a2fserver._sessions (Main.pool w)))%nat ->
  a2fserver.ResetForReuse (a2fserver.Get (Main.pool w) idx) (Main.status w)
  = (true, session, st) ->
  Main.ValidateStartSessionRequest msg
    (a2fserver.DescribeSessionStarted (a2fserver.Start clientAddr rnd session).2)
  = Main.Valid ->
  exists w',
    Main.HandleStartSession msg clientAddr rnd w
    = (if Json.dumps
            (a2fserver.DescribeSessionStarted (a2fserver.Start clientAddr rnd session).2)
       then Main.Continue w' else Main.Uncaught)
    /\ (Main.session_text session ->
        Main.HandleStartSession msg clientAddr rnd w = Main.Continue w')
    /\ Main.client w'
       = (a2fserver.SendFrame (Main.client w) a2fws.Text
            (a2fserver.JsonText
               (a2fserver.DescribeSessionStarted (a2fserver.Get (Main.pool w') idx)))).2
    /\ Main.sessionIndex w' = Some idx
    /\ a2fserver._freeIndices (Main.pool w') = free
    /\ a2fserver.Get (Main.pool w') idx = (a2fserver.Start clientAddr rnd session).2
    /\ a2fserver._wsSocket (a2fserver.Get (Main.pool w') idx) = clientAddr
    /\ a2fserver._sessionId (a2fserver.Get (Main.pool w') idx)
       = a2fserver.RandomHex (take 16 rnd)
    /\ a2fserver._pendingFrames (a2fserver.Get (Main.pool w') idx) = []
    /\ a2fserver._nextFrameIndex (a2fserver.Get (Main.pool w') idx) = 0.
Proof.
  intros Hnone Hfree Hidx Hreset Hvalid.
  unfold Main.HandleStartSession, a2fserver.Acquire.
  rewrite Hnone, Hfree, rev_unit, removelast_last.
  change (a2fserver.Get (a2fserver.mkSessionPool (a2fserver._sessions (Main.pool w)) free) idx)
    with (a2fserver.Get (Main.pool w) idx).
  rewrite Hreset. cbn [negb].
  destruct (a2fserver.Start clientAddr rnd session) as [ok started] eqn:Hstart.
  cbn [snd] in Hvalid.
  cbn [Main.pool Main.client Main.sessionIndex Main.status
       a2fserver._sessions a2fserver._freeIndices].
  assert (Hget : a2fserver.Get
                   (a2fserver.mkSessionPool
                      (<[idx:=started]> (<[idx:=session]> (a2fserver._sessions (Main.pool w))))
                      free) idx = started).
  { unfold a2fserver.Get. cbn [a2fserver._sessions].
    apply nth_insert_eq. now rewrite length_insert. }
  rewrite Hget, Hvalid.
  unfold Main.SendJson_continue, Main.SendJson.
  cbn [Main.client Main.pool Main.sessionIndex Main.status].
  pose proof (Start_text clientAddr rnd session) as Htext. rewrite Hstart in Htext.
  cbn [snd] in Htext |- *.
  exists (Main.mkWorker
            (a2fserver.mkSessionPool
               (<[idx:=started]> (<[idx:=session]> (a2fserver._sessions (Main.pool w))))
               free)
            (a2fserver.SendFrame (Main.client w) a2fws.Text
               (a2fserver.JsonText (a2fserver.DescribeSessionStarted started))).2
            (Some idx) st).
  split; [now destruct (Json.dumps (a2fserver.DescribeSessionStarted started))|].
  split; [intros Hs; now rewrite dumps_DescribeSessionStarted by auto|].
  cbn [Main.client Main.pool Main.sessionIndex a2fserver._freeIndices]. rewrite Hget.
  unfold a2fserver.Start in Hstart. injection Hstart as _ <-.
  split_and!; reflexivity.
Qed.

Lemma start_session_accepted_witness :
  exists w',
    Main.HandleStartSession (Json.JObject [("type"%string, Json.JString "StartSession")])
      5 (repeat 171 16) Main.sample_worker = Main.Continue w'
    /\ Main.sessionIndex w' = Some 0%nat
    /\ a2fserver._sessionId (a2fserver.Get (Main.pool w') 0)
       = "abababababababababababababababab"%string.
Proof.
  destruct (start_session_accepted
              (Json.JObject [("type"%string, Json.JString "StartSession")])
              5 (repeat 171 16) Main.sample_worker [] 0%nat
              (a2fserver.ResetForReuse a2fserver.sample_idle []).1.2
              (a2fserver.ResetForReuse a2fserver.sample_idle []).2)
    as (w' & _ & Heq & _ & Hidx & _ & _ & _ & Hid & _).
  - reflexivity.
  - reflexivity.
  - cbn. lia.
  - vm_compute. reflexivity.
  - vm_compute. reflexivity.
  - exists w'. split; [apply Heq; repeat split|].
    split; [exact Hidx|]. rewrite Hid. vm_compute. reflexivity.
Defined.

(** ** The PushAudio message *)

Section PushAudioMessage.
Import Json a2fserver Main.

Lemma lor_next_octet (acc b : Z) (i : Z) :
  0 <= i < 8 -> 0 <= acc < 2 ^ (8 * i) -> is_byte b ->
  Z.lor acc (u64 (Z.shiftl b (8 * i))) = acc + b * 2 ^ (8 * i)
  /\ 0 <= acc + b * 2 ^ (8 * i) < 2 ^ (8 * (i + 1)).
Proof.
  intros Hi Hacc Hb. unfold is_byte in Hb.
  assert (Hp : 0 < 2 ^ (8 * i)) by (apply Z.pow_pos_nonneg; lia).
  assert (Hpow : 2 ^ (8 * (i + 1)) = 256 * 2 ^ (8 * i)).
  { replace (8 * (i + 1)) with (8 + 8 * i) by lia. now rewrite Z.pow_add_r by lia. }
  assert (Hle : 2 ^ (8 * (i + 1)) <= 2 ^ 64) by (apply Z.pow_le_mono_r; lia).
  assert (Hbound : 0 <= acc + b * 2 ^ (8 * i) < 2 ^ (8 * (i + 1))) by (rewrite Hpow; nia).
  split; [|exact Hbound].
  rewrite Z.shiftl_mul_pow2 by lia.
  rewrite u64_small by nia.
  rewrite Z.lor_comm, <- Z.shiftl_mul_pow2 by lia.
  rewrite lor_shiftl_add by lia. rewrite Z.shiftl_mul_pow2 by lia. lia.
Qed.

Lemma ReadI64LE_value (b0 b1 b2 b3 b4 b5 b6 b7 : Z) (rest : list Z) :
  Forall is_byte [b0; b1; b2; b3; b4; b5; b6; b7] ->
  ReadI64LE (b0 :: b1 :: b2 :: b3 :: b4 :: b5 :: b6 :: b7 :: rest)
  = Some (i64 (little_endian_value [b0; b1; b2; b3; b4; b5; b6; b7])).
Proof.
  intros Hb.
  repeat match goal with H : Forall _ (_ :: _) |- _ => apply Forall_cons_1 in H; destruct H end.
  unfold ReadI64LE. cbn [length Nat.ltb Nat.leb seq fold_left nth]. do 2 f_equal.
  change (Z.of_nat 0) with 0. change (Z.of_nat 1) with 1. change (Z.of_nat 2) with 2.
  change (Z.of_nat 3) with 3. change (Z.of_nat 4) with 4. change (Z.of_nat 5) with 5.
  change (Z.of_nat 6) with 6. change (Z.of_nat 7) with 7.
  destruct (lor_next_octet 0 b0 0) as [-> B0]; [lia|cbn; lia|assumption|].
  destruct (lor_next_octet _ b1 1 ltac:(lia) B0) as [E1 B1]; [assumption|].
  destruct (lor_next_octet _ b2 2 ltac:(lia) B1) as [E2 B2]; [assumption|].
  destruct (lor_next_octet _ b3 3 ltac:(lia) B2) as [E3 B3]; [assumption|].
  destruct (lor_next_octet _ b4 4 ltac:(lia) B3) as [E4 B4]; [assumption|].
  destruct (lor_next_octet _ b5 5 ltac:(lia) B4) as [E5 B5]; [assumption|].
  destruct (lor_next_octet _ b6 6 ltac:(lia) B5) as [E6 B6]; [assumption|].
  destruct (lor_next_octet _ b7 7 ltac:(lia) B6) as [E7 B7]; [assumption|].
  rewrite E1, E2, E3, E4, E5, E6, E7.
  unfold little_endian_value. cbn [fold_right].
  change (2 ^ 0) with 1. change (2 ^ 8) with 256. change (2 ^ 16) with (256 * 256).
  change (2 ^ 24) with (256 * 256 * 256). change (2 ^ 32) with (256 * 256 * 256 * 256).
  change (2 ^ 40) with (256 * 256 * 256 * 256 * 256).
  change (2 ^ 48) with (256 * 256 * 256 * 256 * 256 * 256).
  change (2 ^ 56) with (256 * 256 * 256 * 256 * 256 * 256 * 256).
  lia.
Qed.

Lemma pcm_of_bytes_pcm_bytes (samples : list Z) :
  Forall (fun s => - 32768 <= s < 32768) samples ->
  pcm_of_bytes (pcm_bytes samples) = samples.
Proof.
  induction 1 as [|s samples Hs _ IH]; [reflexivity|].
  unfold pcm_bytes in *. cbn [flat_map app pcm_of_bytes]. rewrite IH. f_equal.
  assert (E : s mod 256 + 256 * ((s / 256) mod 256) = s mod 65536).
  { change 65536 with (256 * 256). rewrite Z.rem_mul_r by lia. reflexivity. }
  rewrite E. destruct (Z.ltb_spec (s mod 65536) 32768) as [H|H];
    Z.div_mod_to_equations; lia.
Qed.

Lemma length_pcm_bytes (samples : list Z) :
  length (pcm_bytes samples) = (2 * length samples)%nat.
Proof.
  unfold pcm_bytes. induction samples as [|s samples IH]; [reflexivity|].
  cbn [flat_map app length]. rewrite IH. lia.
Qed.

End PushAudioMessage.

(** X11.  The PushAudio message, as the protocol lays it out, reaches
    [PushAudio] unchanged.  For a start index within int64 and samples
    within int16, [ReadI64LE] and the sample view of [HandleBinary] read
    back the start index and the samples, and [HandleBinary] on a connection
    with a session is the [PushAudio] call with them on that session.  A
    payload shorter than 8 octets or of odd length is answered with an
    Error, and nothing else changes. *)
Theorem push_audio_message_round_trip (start : Z) (samples : list Z)
  (steps : list (list a2fserver.DeviceResults)) (w : Main.Worker) (idx : nat) :
  a2fserver.in_int64 start ->
  Forall (fun s => - 32768 <= s < 32768) samples ->
  Main.sessionIndex w = Some idx ->
  Main.ReadI64LE (Main.PushAudio_payload start samples) = Some start
  /\ Main.pcm_of_bytes (drop 8 (Main.PushAudio_payload start samples)) = samples
  /\ Main.HandleBinary (Main.PushAudio_payload start samples) steps w
     = (let '(_, session, env) :=
          a2fserver.PushAudio start samples steps (a2fserver.Get (Main.pool w) idx)
            (a2fserver.mkEnv (Main.client w) (Main.status w)) in
        Main.Continue
          (Main.mkWorker
             (a2fserver.mkSessionPool
                (<[ idx := session ]> (a2fserver._sessions (Main.pool w)))
                (a2fserver._freeIndices (Main.pool w)))
             (a2fserver.peer env) (Some idx) (a2fserver.engine env)))
  /\ (forall payload,
        (length payload < 8)%nat \/ Nat.Odd (length payload) ->
        Main.HandleBinary payload steps w
        = Main.Continue
            (Main.mkWorker (Main.pool w)
               (a2fserver.SendFrame (Main.client w) a2fws.Text
                  (a2fserver.JsonText
                     (a2fserver.ErrorMessage "Invalid PushAudio binary payload"))).2
               (Main.sessionIndex w) (Main.status w))).
Proof.
  intros Hstart Hsamples Hidx.
  assert (Hread : Main.ReadI64LE (Main.PushAudio_payload start samples) = Some start).
  { unfold Main.PushAudio_payload. cbn [map app].
    rewrite ReadI64LE_value.
    - f_equal.
      change [(start / 256 ^ 0) mod 256; (start / 256 ^ 1) mod 256; (start / 256 ^ 2) mod 256;
              (start / 256 ^ 3) mod 256; (start / 256 ^ 4) mod 256; (start / 256 ^ 5) mod 256;
              (start / 256 ^ 6) mod 256; (start / 256 ^ 7) mod 256]
        with (map (fun i => (start / 256 ^ Z.of_nat i) mod 256) (seq 0 8)).
      rewrite little_endian_value_bytes. change (256 ^ Z.of_nat 0) with 1.
      rewrite Z.div_1_r. change (256 ^ Z.of_nat 8) with (2 ^ 64).
      unfold a2fserver.in_int64 in Hstart. unfold i64.
      rewrite Z.mod_mod by (change (2 ^ 64) with 18446744073709551616; lia).
      change (2 ^ 64) with 18446744073709551616 in *.
      change (2 ^ 63) with 9223372036854775808 in *.
      destruct (Z.ltb_spec (start mod 18446744073709551616) 9223372036854775808);
        Z.div_mod_to_equations; lia.
    - repeat constructor; apply Z.mod_pos_bound; lia. }
  assert (Hpcm : Main.pcm_of_bytes (drop 8 (Main.PushAudio_payload start samples)) = samples).
  { unfold Main.PushAudio_payload. cbn [map app drop]. rewrite drop_0.
    now apply pcm_of_bytes_pcm_bytes. }
  split; [exact Hread|]. split; [exact Hpcm|]. split.
  - unfold Main.HandleBinary. rewrite Hidx, Hread, Hpcm.
    assert (Hlen : length (Main.PushAudio_payload start samples)
                   = (8 + 2 * length samples)%nat).
    { unfold Main.PushAudio_payload. rewrite length_app, length_pcm_bytes. reflexivity. }
    rewrite Hlen.
    destruct (Nat.ltb_spec (8 + 2 * length samples) 8); [lia|].
    replace (8 + 2 * length samples - 8)%nat with (length samples * 2)%nat by lia.
    rewrite Nat.Div0.mod_mul. reflexivity.
  - intros payload Hbad. unfold Main.HandleBinary. rewrite Hidx.
    rewrite SendError_utf8 by reflexivity. rewrite Hidx.
    destruct (Nat.ltb_spec (length payload) 8) as [|Hge]; [reflexivity|].
    destruct Hbad as [|[k Hk]]; [lia|].
    replace ((length payload - 8) mod 2)%nat with 1%nat; [reflexivity|].
    apply (Nat.mod_unique _ _ (k - 4)); lia.
Qed.

Lemma push_audio_message_round_trip_witness :
  Main.ReadI64LE (Main.PushAudio_payload 48000 [-1; 0; 32767; -32768]) = Some 48000
  /\ Main.pcm_of_bytes (drop 8 (Main.PushAudio_payload 48000 [-1; 0; 32767; -32768]))
     = [-1; 0; 32767; -32768].
Proof.
  destruct (push_audio_message_round_trip 48000 [-1; 0; 32767; -32768] []
              (Main.mkWorker (Main.pool Main.sample_worker) (Main.client Main.sample_worker)
                 (Some 0%nat) [])
              0%nat) as (H1 & H2 & _).
  - unfold a2fserver.in_int64. lia.
  - repeat constructor; lia.
  - reflexivity.
  - split; [exact H1|exact H2].
Defined.

(** ** The pool over a connection *)

Section PoolSteps.
Import Json a2fserver Main.

Lemma nth_insert_ne {A} (l : list A) (i j : nat) (x d : A) :
  i <> j -> nth j (<[ i := x ]> l) d = nth j l d.
Proof.
  revert i j. induction l as [|a l IH]; intros [|i] [|j] Hij; cbn; try reflexivity;
    try congruence.
  apply IH. congruence.
Qed.

Lemma Get_insert_ne (sessions : list SessionContext) (free free' : list nat)
  (i j : nat) (x : SessionContext) :
  i <> j ->
  Get (mkSessionPool (<[ i := x ]> sessions) free') j = Get (mkSessionPool sessions free) j.
Proof. intros H. unfold Get. cbn [_sessions]. now apply nth_insert_ne. Qed.

Lemma Get_insert_eq (sessions : list SessionContext) (free : list nat) (i : nat)
  (x : SessionContext) :
  (i < length sessions)%nat -> Get (mkSessionPool (<[ i := x ]> sessions) free) i = x.
Proof. intros H. unfold Get. cbn [_sessions]. now apply nth_insert_eq. Qed.

Lemma ResetForReuse_wsSocket (s : SessionContext) (st : Status) :
  _wsSocket (ResetForReuse s st).1.2 = _wsSocket s.
Proof.
  unfold ResetForReuse. destruct (_bundle s); [|reflexivity].
  repeat (let e := fresh in let t := fresh in
          destruct (next_status _) as [e t]; destruct e; cbn; try reflexivity).
  destruct (InitNeutralEmotionLocked _ _) as [[ok bundle1] st1]. now destruct ok.
Qed.

Lemma PushAudio_wsSocket (start : Z) (pcm : list Z) (steps : list (list DeviceResults))
  (s : SessionContext) (env : Env) :
  _wsSocket (PushAudio start pcm steps s env).1.2 = _wsSocket s.
Proof.
  unfold PushAudio.
  pose proof (PushAudio_accumulate_state start pcm s env) as Hacc.
  destruct (PushAudio_accumulate start pcm s env) as [[go s1] env1].
  cbn [fst snd] in Hacc. destruct Hacc as (Hws1 & _).
  destruct go; cbn [negb fst snd]; [|exact Hws1].
  pose proof (PushAudio_execute_preserves _ _wsSocket (fun _ _ => eq_refl)
                (fun _ => eq_refl) steps s1 env1) as Hws2.
  destruct (PushAudio_execute steps s1 env1) as [[ok s2] env2]. cbn [fst snd] in Hws2.
  destruct ok; cbn [negb fst snd]; [|congruence].
  pose proof (FlushPendingFramesLocked_preserves _ _wsSocket (fun _ _ => eq_refl)
                (fun _ => eq_refl) s2 env2) as Hws3.
  destruct (FlushPendingFramesLocked s2 env2) as [[ok3 s3] env3]. cbn [fst snd] in Hws3.
  destruct ok3; cbn [negb fst snd]; congruence.
Qed.


Lemma rev_cons_inv {A} (l r : list A) (x : A) : rev l = x :: r -> l = rev r ++ [x].
Proof. intros H. rewrite <- (rev_involutive l), H. reflexivity. Qed.

(** [Acquire]: the sessions stay as many; without a result the free stack
    is as before; with the result [idx] it was the top of the stack, and the
    session is attached; sessions other than the top of the stack are not
    touched, and the top one stays detached when it is not handed out. *)
Lemma Acquire_spec (wsSocket : Z) (rnd : list Z) (pool : SessionPool) (st : Status) :
  let '(r, pool', st') := Acquire wsSocket rnd pool st in
  length (_sessions pool') = length (_sessions pool)
  /\ (r = None -> _freeIndices pool' = _freeIndices pool)
  /\ (forall idx, r = Some idx ->
        _freeIndices pool = _freeIndices pool' ++ [idx]
        /\ ((idx < length (_sessions pool))%nat -> _wsSocket (Get pool' idx) = wsSocket))
  /\ (forall j, (forall f idx, _freeIndices pool = f ++ [idx] -> j <> idx) ->
        Get pool' j = Get pool j)
  /\ (forall f idx, _freeIndices pool = f ++ [idx] -> r = None ->
        _wsSocket (Get pool' idx) = _wsSocket (Get pool idx)).
Proof.
  unfold Acquire. destruct (rev (_freeIndices pool)) as [|idx r] eqn:Hrev.
  - split_and!; auto; discriminate.
  - apply rev_cons_inv in Hrev. rewrite Hrev, removelast_last.
    change (Get (mkSessionPool (_sessions pool) (rev r)) idx) with (Get pool idx).
    pose proof (ResetForReuse_wsSocket (Get pool idx) st) as Hws.
    destruct (ResetForReuse (Get pool idx) st) as [[ok session] st1]. cbn [fst snd] in Hws.
    cbn [_sessions _freeIndices]. destruct ok; cbn [negb].
    + destruct (Start wsSocket rnd session) as [b started] eqn:Hstart.
      cbn [_sessions _freeIndices]. rewrite !length_insert. split_and!; auto.
      * discriminate.
      * intros i [= <-]. split; [reflexivity|]. intros Hi.
        rewrite Get_insert_eq by now rewrite length_insert.
        unfold Start in Hstart. now injection Hstart as _ <-.
      * intros j Hj. specialize (Hj _ _ eq_refl).
        rewrite (Get_insert_ne _ (rev r)) by congruence.
        now rewrite (Get_insert_ne _ (_freeIndices pool)) by congruence.
      * discriminate.
    + cbn [_sessions _freeIndices]. rewrite !length_insert. split_and!; auto.
      * discriminate.
      * intros j Hj. specialize (Hj _ _ eq_refl).
        now rewrite (Get_insert_ne _ (_freeIndices pool)) by congruence.
      * intros f i Hf _. apply app_inj_tail in Hf. destruct Hf as [_ <-].
        destruct (Nat.lt_ge_cases idx (length (_sessions pool))) as [Hi|Hi].
        -- now rewrite Get_insert_eq.
        -- unfold Get. cbn [_sessions]. now rewrite list_insert_ge by lia.
Qed.

(** [Release] of an index of a session. *)
Lemma Release_spec (idx : nat) (pool : SessionPool) :
  (idx < length (_sessions pool))%nat ->
  length (_sessions (Release idx pool)) = length (_sessions pool)
  /\ _freeIndices (Release idx pool) = _freeIndices pool ++ [idx]
  /\ _wsSocket (Get (Release idx pool) idx) = 0
  /\ (forall j, j <> idx -> Get (Release idx pool) j = Get pool j).
Proof.
  intros Hidx. unfold Release.
  destruct (Nat.leb_spec (length (_sessions pool)) idx); [lia|].
  cbn [_sessions _freeIndices]. rewrite length_insert. split_and!; auto.
  - now rewrite Get_insert_eq.
  - intros j Hj. now rewrite (Get_insert_ne _ (_freeIndices pool)) by congruence.
Qed.

End PoolSteps.

Section WorkerInvariant.
Import Json a2fserver Main.

Variable n : nat.
Variable free0 : list nat.
Hypothesis free0_NoDup : NoDup free0.
Hypothesis free0_range : Forall (fun idx => (idx < n)%nat) free0.

Lemma worker_invariant_ext (w w' : Worker) :
  pool w' = pool w -> sessionIndex w' = sessionIndex w ->
  worker_invariant n free0 w -> worker_invariant n free0 w'.
Proof using Type.
  unfold worker_invariant, held. now intros -> ->.
Qed.

(** The session a connection holds, and the free ones. *)
Lemma worker_invariant_held (w : Worker) (idx : nat) :
  worker_invariant n free0 w -> sessionIndex w = Some idx ->
  (idx < n)%nat /\ idx ∉ _freeIndices (pool w).
Proof using All.
  intros (Hlen & Hperm & Hdet) Hidx. unfold held in Hperm. rewrite Hidx in Hperm.
  split.
  - rewrite Forall_forall in free0_range. apply free0_range.
    rewrite <- Hperm. apply elem_of_app. right. now apply list_elem_of_singleton.
  - assert (Hnd : NoDup (_freeIndices (pool w) ++ [idx])) by now rewrite Hperm.
    apply NoDup_app in Hnd. destruct Hnd as (_ & Hdisj & _).
    intros Hin. apply (Hdisj idx Hin). now apply list_elem_of_singleton.
Qed.

Lemma worker_invariant_top (w : Worker) (f : list nat) (idx : nat) :
  worker_invariant n free0 w -> sessionIndex w = None ->
  _freeIndices (pool w) = f ++ [idx] ->
  (idx < n)%nat /\ idx ∉ f.
Proof using All.
  intros (Hlen & Hperm & Hdet) Hnone Hf. unfold held in Hperm.
  rewrite Hnone, app_nil_r, Hf in Hperm. split.
  - rewrite Forall_forall in free0_range. apply free0_range.
    rewrite <- Hperm. apply elem_of_app. right. now apply list_elem_of_singleton.
  - assert (Hnd : NoDup (f ++ [idx])) by now rewrite Hperm.
    apply NoDup_app in Hnd. destruct Hnd as (_ & Hdisj & _).
    intros Hin. apply (Hdisj idx Hin). now apply list_elem_of_singleton.
Qed.

Lemma SendJson_continue_invariant (msg : json) (w w' : Worker) :
  worker_invariant n free0 w ->
  SendJson_continue msg w = Continue w' \/ SendJson_continue msg w = Break w' ->
  worker_invariant n free0 w'.
Proof using Type.
  intros Hinv. unfold SendJson_continue. destruct (SendJson _ _); [|intros [[=]|[=]]].
  intros [[= <-]|[=]]. now apply (worker_invariant_ext w).
Qed.

Lemma SendError_invariant (message : string) (w w' : Worker) :
  worker_invariant n free0 w ->
  SendError message w = Continue w' \/ SendError message w = Break w' ->
  worker_invariant n free0 w'.
Proof using Type. apply SendJson_continue_invariant. Qed.

Lemma HandleStartSession_invariant (msg : json) (clientAddr : Z) (rnd : list Z)
  (w w' : Worker) :
  worker_invariant n free0 w ->
  HandleStartSession msg clientAddr rnd w = Continue w'
  \/ HandleStartSession msg clientAddr rnd w = Break w' ->
  worker_invariant n free0 w'.
Proof using All.
  intros Hinv. unfold HandleStartSession.
  destruct (sessionIndex w) as [i|] eqn:Hidx.
  { now apply SendError_invariant. }
  pose proof (Acquire_spec clientAddr rnd (pool w) (status w)) as Hacq.
  destruct (Acquire clientAddr rnd (pool w) (status w)) as [[r pool1] st1].
  destruct Hacq as (Hlen1 & Hnone & Hsome & Hother & Htop).
  pose proof Hinv as (Hlen & Hperm & Hdet).
  unfold held in Hperm. rewrite Hidx, app_nil_r in Hperm.
  cbn [pool client sessionIndex status].
  (* every session that stays free is detached in [pool1] *)
  assert (Hfree : forall f idx, _freeIndices (pool w) = f ++ [idx] ->
                  Forall (fun j => _wsSocket (Get pool1 j) = 0) f).
  { intros f idx Hf. destruct (worker_invariant_top w f idx Hinv Hidx Hf) as [_ Hnotin].
    rewrite Hf in Hdet. apply Forall_app in Hdet. destruct Hdet as [Hdet _].
    rewrite Forall_forall in Hdet |- *. intros j Hj. rewrite Hother; [now apply Hdet|].
    intros f' idx' Hf'. rewrite Hf in Hf'. apply app_inj_tail in Hf'. destruct Hf' as [_ <-].
    intros ->. now apply Hnotin. }
  destruct r as [idx|].
  - destruct (Hsome idx eq_refl) as [Hf Hattached].
    destruct (worker_invariant_top w _ idx Hinv Hidx Hf) as [Hrange Hnotin].
    specialize (Hfree _ _ Hf).
    destruct (ValidateStartSessionRequest msg _) as [|outError|].
    + apply SendJson_continue_invariant.
      unfold worker_invariant, held. cbn [pool sessionIndex].
      split_and!; [congruence|now rewrite <- Hf|exact Hfree].
    + apply SendError_invariant.
      destruct (Release_spec idx pool1) as (Hl & Hfr & Hz & Hne); [lia|].
      unfold worker_invariant, held. cbn [pool sessionIndex].
      split_and!.
      * congruence.
      * now rewrite Hfr, <- Hf, app_nil_r.
      * rewrite Hfr. apply Forall_app_2; [|now constructor].
        rewrite Forall_forall in Hfree |- *. intros j Hj. rewrite Hne; [now apply Hfree|].
        intros ->. now apply Hnotin.
    + intros [[=]|[=]].
  - apply SendError_invariant. unfold worker_invariant, held.
    cbn [pool sessionIndex]. rewrite (Hnone eq_refl).
    split_and!; [congruence|now rewrite app_nil_r|].
    destruct (_freeIndices (pool w)) as [|x l] eqn:Hl using rev_ind; [constructor|].
    apply Forall_app_2; [now apply (Hfree l x)|].
    constructor; [|constructor]. rewrite (Htop l x eq_refl eq_refl).
    apply Forall_app in Hdet. destruct Hdet as [_ Hx]. now inversion Hx.
Qed.

Lemma HandleEndSession_invariant (msg : json) (w w' : Worker) :
  worker_invariant n free0 w ->
  HandleEndSession msg w = Continue w' \/ HandleEndSession msg w = Break w' ->
  worker_invariant n free0 w'.
Proof using All.
  intros Hinv. unfold HandleEndSession.
  destruct (sessionIndex w) as [idx|] eqn:Hidx.
  2:{ now apply SendError_invariant. }
  assert (Hended : worker_invariant n free0
                     (mkWorker (Release idx (pool w)) (client w) None (status w))).
  { destruct (worker_invariant_held w idx Hinv Hidx) as [Hrange Hnotin].
    destruct Hinv as (Hlen & Hperm & Hdet).
    destruct (Release_spec idx (pool w)) as (Hl & Hfr & Hz & Hne); [lia|].
    unfold worker_invariant, held. cbn [pool sessionIndex]. split_and!.
    - congruence.
    - rewrite Hfr, app_nil_r. rewrite <- Hperm. unfold held. now rewrite Hidx.
    - rewrite Hfr. apply Forall_app_2; [|now constructor].
      rewrite Forall_forall in Hdet |- *. intros j Hj. rewrite Hne; [now apply Hdet|].
      intros ->. now apply Hnotin. }
  cbv zeta.
  destruct (contains msg "session_id").
  - destruct (get_string _) as [given|].
    + destruct (negb _).
      * now apply SendError_invariant.
      * now apply SendJson_continue_invariant.
    + now apply SendError_invariant.
  - now apply SendJson_continue_invariant.
Qed.

Lemma HandleBinary_invariant (payload : list Z) (steps : list (list DeviceResults))
  (w w' : Worker) :
  worker_invariant n free0 w ->
  HandleBinary payload steps w = Continue w' \/ HandleBinary payload steps w = Break w' ->
  worker_invariant n free0 w'.
Proof using All.
  intros Hinv. unfold HandleBinary.
  destruct (sessionIndex w) as [idx|] eqn:Hidx.
  2:{ now apply SendError_invariant. }
  destruct (_ || _).
  { now apply SendError_invariant. }
  destruct (ReadI64LE payload) as [startSample|].
  2:{ now apply SendError_invariant. }
  destruct (PushAudio _ _ _ _ _) as [[ok session] env].
  intros [[= <-]|[=]].
  destruct (worker_invariant_held w idx Hinv Hidx) as [Hrange Hnotin].
  destruct Hinv as (Hlen & Hperm & Hdet).
  unfold worker_invariant, held. cbn [pool sessionIndex _sessions _freeIndices].
  rewrite length_insert. unfold held in Hperm. rewrite Hidx in Hperm.
  split_and!; [exact Hlen|exact Hperm|].
  rewrite Forall_forall in Hdet |- *. intros j Hj.
  rewrite (Get_insert_ne _ (_freeIndices (pool w))).
  - destruct (pool w). now apply Hdet.
  - intros ->. now apply Hnotin.
Qed.

Lemma HandleFrame_invariant (parse : list Z -> json + string) (clientAddr : Z)
  (m : Incoming) (w w' : Worker) :
  worker_invariant n free0 w ->
  HandleFrame parse clientAddr m w = Continue w'
  \/ HandleFrame parse clientAddr m w = Break w' ->
  worker_invariant n free0 w'.
Proof using All.
  intros Hinv. unfold HandleFrame. cbv zeta.
  destruct (a2fws.opcode (in_frame m)).
  - intros [[= <-]|[=]]. exact Hinv.
  - destruct (parse _) as [msg|what].
    + unfold HandleText. destruct (value_string msg "type" "") as [type|];
        [|intros [[=]|[=]]].
      destruct (String.eqb type "StartSession");
        [now apply HandleStartSession_invariant|].
      destruct (String.eqb type "EndSession"); [now apply HandleEndSession_invariant|].
      now apply SendError_invariant.
    + now apply SendError_invariant.
  - now apply HandleBinary_invariant.
  - intros [[=]|[= <-]]. now apply (worker_invariant_ext w).
  - intros [[= <-]|[=]]. now apply (worker_invariant_ext w).
  - intros [[= <-]|[=]]. exact Hinv.
  - intros [[= <-]|[=]]. exact Hinv.
Qed.

Lemma HandleClient_loop_invariant (parse : list Z -> json + string) (clientAddr : Z)
  (incoming : list Incoming) (w w' : Worker) :
  worker_invariant n free0 w ->
  HandleClient_loop parse clientAddr incoming w = Some w' ->
  worker_invariant n free0 w'.
Proof using All.
  revert w. induction incoming as [|m rest IH]; intros w Hinv; cbn [HandleClient_loop].
  - now intros [= <-].
  - destruct (HandleFrame parse clientAddr m w) as [w1|w1|] eqn:Hturn.
    + apply IH. apply (HandleFrame_invariant parse clientAddr m w); auto.
    + intros [= <-]. apply (HandleFrame_invariant parse clientAddr m w); auto.
    + discriminate.
Qed.

End WorkerInvariant.

(** X12.  A connection gives back the session it took.  When
    [HandleClient] returns (by the end of the stream, a frame that cannot
    be read, or a Close frame), whatever the frames in between, the pool
    has the sessions it had, the free indices are those from before the
    connection in some order, each still the index of a detached session
    and none twice. *)
Theorem handle_client_returns_session (parse : list Z -> Json.json + string)
  (clientAddr : Z) (incoming : list Main.Incoming) (pool0 : a2fserver.SessionPool)
  (client0 : a2fserver.Connection) (st : a2fserver.Status) (w : Main.Worker) :
  a2fserver.pool_invariant pool0 ->
  Main.HandleClient parse clientAddr incoming pool0 client0 st = Some w ->
  length (a2fserver._sessions (Main.pool w)) = length (a2fserver._sessions pool0)
  /\ Permutation (a2fserver._freeIndices (Main.pool w)) (a2fserver._freeIndices pool0)
  /\ a2fserver.pool_invariant (Main.pool w).
Proof.
  intros [Hfree Hnd] Hrun.
  assert (Hrange : Forall (fun idx => (idx < length (a2fserver._sessions pool0))%nat)
                     (a2fserver._freeIndices pool0)).
  { eapply Forall_impl; [exact Hfree|]. now intros idx [H _]. }
  assert (Hdet : Forall (fun idx => a2fserver._wsSocket (a2fserver.Get pool0 idx) = 0)
                   (a2fserver._freeIndices pool0)).
  { eapply Forall_impl; [exact Hfree|]. now intros idx [_ H]. }
  unfold Main.HandleClient in Hrun.
  destruct (Main.HandleClient_loop parse clientAddr incoming
              (Main.mkWorker pool0 client0 None st)) as [w1|] eqn:Hloop; [|discriminate].
  apply (HandleClient_loop_invariant (length (a2fserver._sessions pool0))
           (a2fserver._freeIndices pool0) Hnd Hrange) in Hloop.
  2:{ unfold Main.worker_invariant, Main.held. cbn. rewrite app_nil_r. auto. }
  assert (Hend : length (a2fserver._sessions (Main.pool w))
                 = length (a2fserver._sessions pool0)
                 /\ Permutation (a2fserver._freeIndices (Main.pool w))
                      (a2fserver._freeIndices pool0)
                 /\ Forall (fun idx => a2fserver._wsSocket (a2fserver.Get (Main.pool w) idx) = 0)
                      (a2fserver._freeIndices (Main.pool w))).
  { destruct (Main.sessionIndex w1) as [idx|] eqn:Hidx.
    - injection Hrun as <-. cbn [Main.pool].
      destruct (worker_invariant_held _ _ Hnd Hrange w1 idx Hloop Hidx) as [Hr Hnotin].
      destruct Hloop as (Hlen & Hperm & Hd).
      destruct (Release_spec idx (Main.pool w1)) as (Hl & Hfr & Hz & Hne); [lia|].
      split_and!; [congruence| |].
      + rewrite Hfr, <- Hperm. unfold Main.held. now rewrite Hidx.
      + rewrite Hfr. apply Forall_app_2; [|now constructor].
        rewrite Forall_forall in Hd |- *. intros j Hj. rewrite Hne; [now apply Hd|].
        intros ->. now apply Hnotin.
    - injection Hrun as <-. destruct Hloop as (Hlen & Hperm & Hd).
      unfold Main.held in Hperm. rewrite Hidx, app_nil_r in Hperm. auto. }
  destruct Hend as (Hlen & Hperm & Hd). split_and!; auto.
  split; [|now rewrite Hperm].
  rewrite Forall_forall in Hd |- *. intros idx Hin. split; [|now apply Hd].
  rewrite Hlen. rewrite Forall_forall in Hrange. apply Hrange. now rewrite <- Hperm.
Qed.

Lemma handle_client_returns_session_witness :
  match
    Main.HandleClient (fun _ => inl (Json.JObject [("type"%string, Json.JString "StartSession")]))
      1
      [Main.mkIncoming (a2fws.mkFrame true a2fws.Text []) [] [];
       Main.mkIncoming (a2fws.mkFrame true a2fws.Close []) [] []]
      (Main.pool Main.sample_worker) (Main.client Main.sample_worker) []
  with
  | Some w => Permutation (a2fserver._freeIndices (Main.pool w)) [0%nat]
  | None => False
  end.
Proof.
  destruct (Main.HandleClient _ _ _ _ _ _) as [w|] eqn:Hrun.
  - apply (handle_client_returns_session _ _ _ _ _ _ w) in Hrun; [apply Hrun|].
    split.
    + repeat constructor.
    + repeat constructor. intros H. inversion H.
  - vm_compute in Hrun. discriminate Hrun.
Defined.

(** X13.  [Acquire] and [Release] on a pool whose free indices are indices
    of detached sessions, none twice.  [Acquire] keeps the sessions as many
    and the pool in that state; on an empty free stack it returns nothing
    and changes nothing; when it returns nothing the free stack is as
    before; when it returns [idx], that was the top of the free stack, it
    is free no longer and its session is attached to the given socket; and
    a [Release] of [idx] then puts the free stack back as it was, the pool
    again in that state. *)
Theorem acquire_release (wsSocket : Z) (rnd : list Z) (pool : a2fserver.SessionPool)
  (st : a2fserver.Status) :
  a2fserver.pool_invariant pool ->
  (a2fserver._freeIndices pool = [] ->
   a2fserver.Acquire wsSocket rnd pool st = (None, pool, st))
  /\ let '(r, pool', st') := a2fserver.Acquire wsSocket rnd pool st in
     length (a2fserver._sessions pool') = length (a2fserver._sessions pool)
     /\ a2fserver.pool_invariant pool'
     /\ match r with
        | None => a2fserver._freeIndices pool' = a2fserver._freeIndices pool
        | Some idx =>
            a2fserver._freeIndices pool = a2fserver._freeIndices pool' ++ [idx]
            /\ (idx ∉ a2fserver._freeIndices pool')
            /\ a2fserver._wsSocket (a2fserver.Get pool' idx) = wsSocket
            /\ a2fserver._freeIndices (a2fserver.Release idx pool')
               = a2fserver._freeIndices pool
            /\ a2fserver.pool_invariant (a2fserver.Release idx pool')
        end.
Proof.
  intros [Hfree Hnd]. split.
  { intros Hempty. unfold a2fserver.Acquire. now rewrite Hempty. }
  pose proof (Acquire_spec wsSocket rnd pool st) as Hacq.
  destruct (a2fserver.Acquire wsSocket rnd pool st) as [[r pool1] st1].
  destruct Hacq as (Hlen & Hnone & Hsome & Hother & Htop).
  split; [exact Hlen|].
  rewrite Forall_forall in Hfree.
  destruct r as [idx|].
  - destruct (Hsome idx eq_refl) as [Hf Hattached].
    assert (Hin : idx ∈ a2fserver._freeIndices pool).
    { rewrite Hf. apply elem_of_app. right. now apply list_elem_of_singleton. }
    destruct (Hfree idx Hin) as [Hrange _].
    assert (Hnd1 : NoDup (a2fserver._freeIndices pool1 ++ [idx])) by now rewrite <- Hf.
    apply NoDup_app in Hnd1. destruct Hnd1 as (Hnd1 & Hdisj & _).
    assert (Hnotin : idx ∉ a2fserver._freeIndices pool1).
    { intros H. apply (Hdisj idx H). now apply list_elem_of_singleton. }
    assert (Hinv1 : Forall (fun j => (j < length (a2fserver._sessions pool1))%nat
                                     /\ a2fserver._wsSocket (a2fserver.Get pool1 j) = 0)
                      (a2fserver._freeIndices pool1)).
    { apply Forall_forall. intros j Hj.
      assert (Hj' : j ∈ a2fserver._freeIndices pool).
      { rewrite Hf. apply elem_of_app. now left. }
      destruct (Hfree j Hj') as [Hr Hd]. split; [now rewrite Hlen|].
      rewrite Hother; [exact Hd|].
      intros f i Hfi. rewrite Hf in Hfi. apply app_inj_tail in Hfi. destruct Hfi as [_ <-].
      intros ->. now apply Hnotin. }
    destruct (Release_spec idx pool1) as (Hl & Hfr & Hz & Hne); [lia|].
    split; [split; assumption|].
    split_and!; auto.
    + now rewrite Hfr.
    + split; [|now rewrite Hfr, <- Hf].
      rewrite Hfr. apply Forall_app_2.
      * rewrite Forall_forall in Hinv1 |- *. intros j Hj. destruct (Hinv1 j Hj) as [Hr Hd].
        split; [lia|]. rewrite Hne; [exact Hd|]. intros ->. now apply Hnotin.
      * constructor; [|constructor]. split; [lia|exact Hz].
  - split; [|now apply Hnone]. split; [|now rewrite (Hnone eq_refl)].
    rewrite (Hnone eq_refl). apply Forall_forall. intros j Hj.
    destruct (Hfree j Hj) as [Hr Hd]. split; [now rewrite Hlen|].
    destruct (a2fserver._freeIndices pool) as [|x l] eqn:Hl using rev_ind;
      [now apply elem_of_nil in Hj|].
    clear IHl.
    destruct (decide (j = x)) as [->|Hjx].
    + now rewrite (Htop l x eq_refl eq_refl).
    + rewrite Hother; [exact Hd|]. intros f i Hfi. apply app_inj_tail in Hfi.
      destruct Hfi as [_ <-]. exact Hjx.
Qed.

Lemma acquire_release_witness :
  let '(r, pool', _) :=
    a2fserver.Acquire 9 [] (Main.pool Main.sample_worker) [] in
  r = Some 0%nat /\ a2fserver._wsSocket (a2fserver.Get pool' 0) = 9.
Proof.
  pose proof (acquire_release 9 [] (Main.pool Main.sample_worker) []) as H.
  destruct H as [_ H].
  { split; [repeat constructor|]. repeat constructor. intros H. inversion H. }
  destruct (a2fserver.Acquire 9 [] (Main.pool Main.sample_worker) []) as [[r pool1] st1] eqn:E.
  destruct H as (_ & _ & H). destruct r as [idx|].
  - destruct H as (Hf & _ & Hws & _). vm_compute in E. injection E as E1 E2 E3.
    subst idx. split; [reflexivity|exact Hws].
  - vm_compute in E. discriminate E.
Defined.

(** ** Initialisation *)

Section Initialisation.
Import Json a2fserver Main.

Lemma InitNeutralEmotionLocked_true (bundle bundle' : Bundle) (st st' : Status) :
  InitNeutralEmotionLocked bundle st = (true, bundle', st') ->
  bundle' = mkBundle (executor bundle) (audioAccumulator bundle)
              (emotionAccumulator bundle ++ [(0, repeat 0%Q (emotionSize bundle))]) true
              (emotionSize bundle) (bundleCudaStream bundle).
Proof.
  unfold InitNeutralEmotionLocked.
  destruct (next_status st) as [[m|] st1]; [discriminate|].
  destruct (next_status st1) as [[m|] st2]; [discriminate|].
  now intros [= <- _].
Qed.

Lemma ResetForReuse_true (s s' : SessionContext) (st st' : Status) :
  ResetForReuse s st = (true, s', st') ->
  exists bundle,
    _bundle s = Some bundle
    /\ s' = set_lastCudaStream 0
              (set_nextFrameIndex 0
                 (set_pendingFrames []
                    (set_bundle
                       (Some (mkBundle (executor bundle) []
                                [(0, repeat 0%Q (emotionSize bundle))] true
                                (emotionSize bundle) (bundleCudaStream bundle))) s))).
Proof.
  unfold ResetForReuse. destruct (_bundle s) as [bundle|]; [|discriminate].
  destruct (next_status st) as [[m|] st1]; [discriminate|].
  destruct (next_status st1) as [[m|] st2]; [discriminate|].
  destruct (next_status st2) as [[m|] st3]; [discriminate|].
  destruct (InitNeutralEmotionLocked _ st3) as [[ok b] st4] eqn:Hinit.
  destruct ok; [|discriminate]. cbn [negb]. intros [= <- _].
  apply InitNeutralEmotionLocked_true in Hinit. subst b. now exists bundle.
Qed.

Lemma BuildChannelList_true (self s : SessionContext) (ex : Executor) :
  BuildChannelList self ex = (true, s) ->
  length (_channels s) = _weightCount s
  /\ (_skinWeightCount s + _tongueWeightCount s)%nat = _weightCount s
  /\ _weightCount s = _weightCount self
  /\ s = mkSessionContext (_wsSocket self) (_cudaDeviceForThread self) (_bundle self)
           (_weightsStaging self) (_audioFloatScratch self) (_sessionId self)
           (_modelJsonPath self) (_executionOptionStr self) (_useGpuSolver self)
           (_samplingRate self) (_fpsNumerator self) (_fpsDenominator self)
           (_weightCount self) (_channels s) (_skinWeightCount s) (_tongueWeightCount s)
           (_lastCudaStream self) (_nextFrameIndex self) (_pendingFrames self).
Proof.
  unfold BuildChannelList. cbv zeta.
  destruct (negb _) eqn:E; [discriminate|].
  apply negb_false_iff, Nat.eqb_eq in E. cbn in E.
  intros [= <-]. cbn. rewrite length_app in E |- *. split_and!; auto.
Qed.

Lemma Init_true (config : ServerConfig)
  (made : option Bundle) (self s : SessionContext)
  (st st' : Status) :
  Init config made self st = (true, s, st') ->
  useGpuSolver config = true
  /\ exists bundle bundle',
       made = Some bundle
       /\ resultTypeIsDevice (executor bundle) = true
       /\ _samplingRate s = samplingRate (executor bundle)
       /\ _fpsNumerator s = frameRateNumerator (executor bundle)
       /\ _fpsDenominator s
          = frameRateDenominator (executor bundle)
       /\ _weightCount s = weightCount (executor bundle)
       /\ _modelJsonPath s = modelJsonPath config
       /\ _executionOptionStr s
          = ExecutionOptionToString (executionOption config)
       /\ length (_channels s) = _weightCount s
       /\ (_skinWeightCount s + _tongueWeightCount s)%nat
          = _weightCount s
       /\ length (_weightsStaging s)
          = (_weightCount s * kMaxStagedFrames)%nat
       /\ _bundle s = Some bundle'
       /\ audioAccumulator bundle' = []
       /\ emotionClosed bundle' = true
       /\ _pendingFrames s = []
       /\ _nextFrameIndex s = 0
       /\ _lastCudaStream s = 0
       /\ _wsSocket s = _wsSocket self.
Proof.
  unfold Init.
  destruct (useGpuSolver config) eqn:Hgpu; [|discriminate]. cbn [negb].
  destruct (next_status st) as [[m|] st1]; [discriminate|].
  destruct made as [bundle|]; [|discriminate].
  destruct (resultTypeIsDevice (executor bundle)) eqn:Hdev;
    [|discriminate].
  cbn [negb].
  destruct (next_status st1) as [[m|] st2]; [discriminate|].
  destruct (BuildChannelList _ _) as [ok s1] eqn:Hbuild.
  destruct ok; [|discriminate]. cbn [negb].
  destruct (next_status st2) as [[m|] st3]; [discriminate|].
  intros Hreset. apply ResetForReuse_true in Hreset. destruct Hreset as (b & Hb & ->).
  apply BuildChannelList_true in Hbuild. destruct Hbuild as (Hch & Hsum & Hwc & Hs1).
  split; [reflexivity|]. exists bundle. eexists.
  cbn in Hwc. cbn. rewrite Hs1. cbn. rewrite repeat_length.
  split_and!; try reflexivity; auto; congruence.
Qed.


Lemma SessionPool_Init_loop_spec (config : ServerConfig) (count i : nat)
  (made : list (option Bundle)) (pool : SessionPool) (st : Status) :
  length (_sessions pool) = i -> _freeIndices pool = seq 0 i ->
  Forall (fun s => _wsSocket s = 0 /\ length (_channels s) = _weightCount s
                   /\ _pendingFrames s = []
                   /\ _modelJsonPath s = modelJsonPath config) (_sessions pool) ->
  let '(ok, pool', st') := SessionPool_Init_loop config count i made pool st in
  Forall (fun s => _wsSocket s = 0 /\ length (_channels s) = _weightCount s
                   /\ _pendingFrames s = []
                   /\ _modelJsonPath s = modelJsonPath config) (_sessions pool')
  /\ _freeIndices pool' = seq 0 (length (_sessions pool'))
  /\ (if ok then length (_sessions pool') = (i + count)%nat
      else (length (_sessions pool') < i + count)%nat).
Proof.
  revert i made pool st. induction count as [|count IH]; intros i made pool st Hlen Hfree Hall.
  - cbn [SessionPool_Init_loop]. rewrite Hlen. split_and!; auto; lia.
  - cbn [SessionPool_Init_loop].
    destruct (Init config (hd None made) SessionContext_default st) as [[ok session] st1]
      eqn:Hinit.
    destruct ok; cbn [negb].
    + apply Init_true in Hinit. destruct Hinit as (_ & b & b' & Hfacts).
      specialize (IH (S i) (tl made)
                    (mkSessionPool (_sessions pool ++ [session]) (_freeIndices pool ++ [i]))
                    st1).
      destruct (SessionPool_Init_loop config count (S i) (tl made) _ st1)
        as [[ok pool'] st'].
      destruct IH as (H1 & H2 & H3).
      * cbn [_sessions]. rewrite length_app. cbn [length]. lia.
      * cbn [_freeIndices]. rewrite Hfree. now rewrite seq_S.
      * cbn [_sessions]. apply Forall_app_2; [exact Hall|].
        constructor; [|constructor].
        destruct Hfacts as (_ & _ & _ & _ & _ & _ & Hm & _ & Hc & _ & _ & _ & _ & _ & Hp
                            & _ & _ & Hws).
        rewrite Hws. auto.
      * split_and!; auto; destruct ok; lia.
    + rewrite Hlen. split_and!; auto; lia.
Qed.

End Initialisation.

(** X14.  What a successful [SessionContext::Init] leaves.  The factory
    returned a bundle whose executor gives DEVICE results; the session has
    the executor's sampling rate, frame rate and weight count and the
    configuration's model path and option name; it has as many channels as
    weights, the skin and tongue counts adding up to that number; a staging
    buffer of 256 slots of that many weights; an empty audio accumulator,
    a closed emotion accumulator, an empty queue, frame index 0 and no
    stream; and the socket it had. *)
Theorem session_init_postcondition (config : a2fserver.ServerConfig)
  (made : option a2fserver.Bundle) (self s : a2fserver.SessionContext)
  (st st' : a2fserver.Status) :
  a2fserver.Init config made self st = (true, s, st') ->
  a2fserver.useGpuSolver config = true
  /\ exists bundle bundle',
       made = Some bundle
       /\ a2fserver.resultTypeIsDevice (a2fserver.executor bundle) = true
       /\ a2fserver._samplingRate s = a2fserver.samplingRate (a2fserver.executor bundle)
       /\ a2fserver._fpsNumerator s = a2fserver.frameRateNumerator (a2fserver.executor bundle)
       /\ a2fserver._fpsDenominator s
          = a2fserver.frameRateDenominator (a2fserver.executor bundle)
       /\ a2fserver._weightCount s = a2fserver.weightCount (a2fserver.executor bundle)
       /\ a2fserver._modelJsonPath s = a2fserver.modelJsonPath config
       /\ a2fserver._executionOptionStr s
          = a2fserver.ExecutionOptionToString (a2fserver.executionOption config)
       /\ length (a2fserver._channels s) = a2fserver._weightCount s
       /\ (a2fserver._skinWeightCount s + a2fserver._tongueWeightCount s)%nat
          = a2fserver._weightCount s
       /\ length (a2fserver._weightsStaging s)
          = (a2fserver._weightCount s * a2fserver.kMaxStagedFrames)%nat
       /\ a2fserver._bundle s = Some bundle'
       /\ a2fserver.audioAccumulator bundle' = []
       /\ a2fserver.emotionClosed bundle' = true
       /\ a2fserver._pendingFrames s = []
       /\ a2fserver._nextFrameIndex s = 0
       /\ a2fserver._lastCudaStream s = 0
       /\ a2fserver._wsSocket s = a2fserver._wsSocket self.
Proof. apply Init_true. Qed.

Lemma session_init_postcondition_witness :
  length (a2fserver._channels a2fserver.sample_idle)
  = a2fserver._weightCount a2fserver.sample_idle.
Proof.
  destruct (session_init_postcondition a2fserver.sample_config
              (Some a2fserver.sample_bundle) a2fserver.SessionContext_default
              a2fserver.sample_idle [] []) as (_ & b & b' & H).
  - vm_compute. reflexivity.
  - apply H.
Defined.

(** X15.  [SessionPool::Init].  When it returns true the pool has
    [maxSessions] sessions, all free, with the free stack [0, 1, ..] so
    that the last session is the first handed out; every session is
    detached, has as many channels as weights, an empty queue and the
    configuration's model path; and the free indices are indices of
    detached sessions, none twice.  When it returns false the pool holds
    fewer than [maxSessions] sessions. *)
Theorem session_pool_init (config : a2fserver.ServerConfig)
  (made : list (option a2fserver.Bundle)) (st : a2fserver.Status) :
  let '(ok, pool, _) := a2fserver.SessionPool_Init config made st in
  (ok = true ->
   length (a2fserver._sessions pool) = a2fserver.maxSessions config
   /\ a2fserver._freeIndices pool = seq 0 (a2fserver.maxSessions config)
   /\ Forall (fun s => a2fserver._wsSocket s = 0
                       /\ length (a2fserver._channels s) = a2fserver._weightCount s
                       /\ a2fserver._pendingFrames s = []
                       /\ a2fserver._modelJsonPath s = a2fserver.modelJsonPath config)
        (a2fserver._sessions pool)
   /\ a2fserver.pool_invariant pool)
  /\ (ok = false ->
      (length (a2fserver._sessions pool) < a2fserver.maxSessions config)%nat).
Proof.
  unfold a2fserver.SessionPool_Init.
  pose proof (SessionPool_Init_loop_spec config (a2fserver.maxSessions config) 0 made
                (a2fserver.mkSessionPool [] []) st eq_refl eq_refl (Forall_nil_2 _)) as H.
  destruct (a2fserver.SessionPool_Init_loop _ _ _ _ _ _) as [[ok pool] st'].
  destruct H as (Hall & Hfree & Hlen). split.
  - intros ->. cbn in Hlen. rewrite Hlen in Hfree. split_and!; auto.
    split; [|rewrite Hfree; apply NoDup_ListNoDup, seq_NoDup].
    rewrite Hfree. apply Forall_forall. intros idx Hin.
    apply list_elem_of_In, in_seq in Hin. split; [lia|].
    unfold a2fserver.Get. rewrite Forall_forall in Hall.
    apply (Hall (nth idx (a2fserver._sessions pool) a2fserver.SessionContext_default)).
    apply list_elem_of_In, nth_In. lia.
  - intros ->. exact Hlen.
Qed.

Lemma session_pool_init_witness :
  a2fserver._freeIndices
    (a2fserver.SessionPool_Init a2fserver.sample_config [Some a2fserver.sample_bundle] []).1.2
  = [0%nat].
Proof.
  pose proof (session_pool_init a2fserver.sample_config [Some a2fserver.sample_bundle] [])
    as H.
  destruct (a2fserver.SessionPool_Init _ _ _) as [[ok pool] st'] eqn:E.
  destruct H as [H _]. destruct ok; [|vm_compute in E; discriminate E].
  destruct (H eq_refl) as (_ & Hf & _). exact Hf.
Defined.

(** ** Session ids *)

Section SessionIds.
Import Json a2fserver.

Lemma kHex_at_hex (i : Z) :
  0 <= i < 16 -> In (kHex_at i) (list_ascii_of_string kHex).
Proof.
  intros Hi.
  assert (H : i = 0 \/ i = 1 \/ i = 2 \/ i = 3 \/ i = 4 \/ i = 5 \/ i = 6 \/ i = 7
              \/ i = 8 \/ i = 9 \/ i = 10 \/ i = 11 \/ i = 12 \/ i = 13 \/ i = 14 \/ i = 15)
    by lia.
  repeat (destruct H as [->|H]; [vm_compute; tauto|]). subst i. vm_compute. tauto.
Qed.

Lemma RandomHex_length (rnd : list Z) :
  String.length (RandomHex rnd) = (2 * length rnd)%nat.
Proof.
  induction rnd as [|r rnd IH]; [reflexivity|].
  cbn [RandomHex String.length length]. rewrite IH. lia.
Qed.

Lemma RandomHex_hex (rnd : list Z) (c : ascii) :
  In c (list_ascii_of_string (RandomHex rnd)) -> In c (list_ascii_of_string kHex).
Proof.
  induction rnd as [|r rnd IH]; [intros []|].
  cbn [RandomHex list_ascii_of_string In].
  assert (Hv : 0 <= u8 r < 256).
  { unfold u8. rewrite land_0xff. apply Z.mod_pos_bound. lia. }
  intros [<-|[<-|H]]; [| |now apply IH]; apply kHex_at_hex.
  - rewrite Z.shiftr_div_pow2 by lia. change (2 ^ 4) with 16.
    split; [apply Z.div_pos; lia|apply Z.div_lt_upper_bound; lia].
  - rewrite land_0x0f. apply Z.mod_pos_bound. lia.
Qed.

End SessionIds.

(** X16.  The id [Start] gives a session is written in the sixteen
    characters 0-9, a-f, two for each value drawn; with the sixteen values
    [Start] asks for it has 32 characters. *)
Theorem session_id_hex (wsSocket : Z) (rnd : list Z) (s : a2fserver.SessionContext) :
  let sid := a2fserver.SessionId (a2fserver.Start wsSocket rnd s).2 in
  (forall c, In c (list_ascii_of_string sid) ->
             In c (list_ascii_of_string "0123456789abcdef"))
  /\ ((16 <= length rnd)%nat -> String.length sid = 32%nat).
Proof.
  cbn. split.
  - intros c. apply RandomHex_hex.
  - intros Hlen. rewrite RandomHex_length, length_take. lia.
Qed.

Lemma session_id_hex_witness :
  String.length
    (a2fserver.SessionId (a2fserver.Start 1 (map Z.of_nat (seq 0 20)) a2fserver.sample_idle).2)
  = 32%nat.
Proof.
  apply (proj2 (session_id_hex 1 (map Z.of_nat (seq 0 20)) a2fserver.sample_idle)).
  vm_compute. lia.
Defined.

(** X17.  [PushAudio] on a session that is not attached returns false,
    leaves the session as it is and sends nothing, whatever the start index,
    the samples and the engine; the only engine call it can have made is
    the device selection. *)
Theorem push_audio_detached (start : Z) (pcm : list Z)
  (steps : list (list a2fserver.DeviceResults)) (s : a2fserver.SessionContext)
  (env : a2fserver.Env) :
  a2fserver._wsSocket s = 0 ->
  a2fserver.PushAudio start pcm steps s env
  = (false, s,
     a2fserver.mkEnv (a2fserver.peer env)
       (if start <? 0 then a2fserver.engine env
        else (a2fserver.next_status (a2fserver.engine env)).2)).
Proof.
  intros Hws. unfold a2fserver.PushAudio, a2fserver.PushAudio_accumulate,
    a2fserver.SendErrorLocked.
  rewrite Hws. cbn [Z.eqb].
  destruct (start <? 0); [now destruct env|].
  destruct (a2fserver.next_status (a2fserver.engine env)) as [[m|] st]; reflexivity.
Qed.

Lemma push_audio_detached_witness :
  a2fserver.PushAudio 0 [1; 2] [[a2fserver.sample_results 0]] a2fserver.sample_idle
    a2fserver.sample_env
  = (false, a2fserver.sample_idle, a2fserver.sample_env).
Proof.
  apply (push_audio_detached 0 [1; 2] [[a2fserver.sample_results 0]] a2fserver.sample_idle
           a2fserver.sample_env).
  vm_compute. reflexivity.
Defined.

(** X18.  The start indices [PushAudio] refuses on an attached session.  A
    negative index is answered with the Error "startSampleIndex must be >=
    0" before any engine call.  An index below the number of samples
    accumulated is answered, once the device selection has succeeded, with
    the Error about out-of-order audio.  In both cases the call returns
    false and the session, accumulator included, is as before. *)
Theorem push_audio_refused_start (start : Z) (pcm : list Z)
  (steps : list (list a2fserver.DeviceResults)) (s : a2fserver.SessionContext)
  (env : a2fserver.Env) (bundle : a2fserver.Bundle) :
  a2fserver._wsSocket s <> 0 ->
  (start < 0 ->
   a2fserver.PushAudio start pcm steps s env
   = (false, s,
      a2fserver.mkEnv
        (a2fserver.SendFrame (a2fserver.peer env) a2fws.Text
           (a2fserver.JsonText (a2fserver.ErrorMessage "startSampleIndex must be >= 0"))).2
        (a2fserver.engine env)))
  /\ (0 <= start < Z.of_nat (length (a2fserver.audioAccumulator bundle)) ->
      start < 2 ^ 63 ->
      a2fserver._bundle s = Some bundle ->
      (a2fserver.next_status (a2fserver.engine env)).1 = None ->
      a2fserver.PushAudio start pcm steps s env
      = (false, s,
         a2fserver.mkEnv
           (a2fserver.SendFrame (a2fserver.peer env) a2fws.Text
              (a2fserver.JsonText
                 (a2fserver.ErrorMessage
                    "PushAudio startSampleIndex is behind the accumulator (out-of-order audio)"))).2
           (a2fserver.next_status (a2fserver.engine env)).2)).
Proof.
  intros Hws. unfold a2fserver.PushAudio, a2fserver.PushAudio_accumulate,
    a2fserver.SendErrorLocked.
  destruct (Z.eqb_spec (a2fserver._wsSocket s) 0) as [|_]; [contradiction|]. split.
  - intros Hneg. destruct (Z.ltb_spec start 0); [|lia].
    now destruct (a2fserver.SendFrame _ _ _).
  - intros Hstart Hmax Hb Hst. destruct (Z.ltb_spec start 0); [lia|].
    destruct (a2fserver.next_status (a2fserver.engine env)) as [e st]. cbn [fst snd] in *.
    subst e. rewrite Hb. cbn [a2fserver.peer a2fserver.engine].
    assert (Hu : u64 start = start).
    { apply Z.mod_small. change (2 ^ 63) with 9223372036854775808 in Hmax.
      change (2 ^ 64) with 18446744073709551616. lia. }
    rewrite Hu.
    destruct (Z.ltb_spec start (Z.of_nat (length (a2fserver.audioAccumulator bundle))));
      [|lia].
    now destruct (a2fserver.SendFrame _ _ _).
Qed.

Lemma push_audio_refused_start_witness :
  (a2fserver.PushAudio (-1) [1; 2] [] a2fserver.sample_attached a2fserver.sample_env).1.1
  = false.
Proof.
  rewrite (proj1 (push_audio_refused_start (-1) [1; 2] [] a2fserver.sample_attached
                    a2fserver.sample_env a2fserver.sample_bundle
                    ltac:(vm_compute; discriminate))).
  - reflexivity.
  - lia.
Defined.

(** ** The layout of an animation frame *)

Section FrameLayout.
Import Json a2fserver.

Lemma AppendU32LE_octets (buf : list Z) (v : Z) :
  AppendU32LE buf v
  = buf ++ map (fun i => (v / 256 ^ Z.of_nat i) mod 256) (seq 0 4).
Proof.
  unfold AppendU32LE. f_equal. cbn [seq map].
  change (Z.of_nat 0) with 0. change (Z.of_nat 1) with 1. change (Z.of_nat 2) with 2.
  change (Z.of_nat 3) with 3.
  rewrite <- (byte_at v 0), <- (byte_at v 1), <- (byte_at v 2), <- (byte_at v 3) by lia.
  reflexivity.
Qed.

Lemma AppendU64LE_octets (buf : list Z) (v : Z) :
  AppendU64LE buf v
  = buf ++ map (fun i => (v / 256 ^ Z.of_nat i) mod 256) (seq 0 8).
Proof.
  unfold AppendU64LE. f_equal. cbn [seq map]. rewrite !byte_at by lia. reflexivity.
Qed.

Lemma fold_AppendU32LE_octets (ws buf : list Z) :
  fold_left AppendU32LE ws buf
  = buf ++ flat_map (fun w => map (fun i => (w / 256 ^ Z.of_nat i) mod 256) (seq 0 4)) ws.
Proof.
  revert buf. induction ws as [|w ws IH]; intros buf; cbn [fold_left flat_map].
  - now rewrite app_nil_r.
  - now rewrite IH, AppendU32LE_octets, <- app_assoc.
Qed.

Lemma little_endian_words_octets (ws : list Z) :
  little_endian_words
    (flat_map (fun w => map (fun i => (w / 256 ^ Z.of_nat i) mod 256) (seq 0 4)) ws)
  = map (fun w => w mod 2 ^ 32) ws.
Proof.
  induction ws as [|w ws IH]; [reflexivity|].
  cbn [flat_map map]. rewrite <- IH.
  change (map (fun i => (w / 256 ^ Z.of_nat i) mod 256) (seq 0 4))
    with [(w / 256 ^ Z.of_nat 0) mod 256; (w / 256 ^ Z.of_nat 1) mod 256;
          (w / 256 ^ Z.of_nat 2) mod 256; (w / 256 ^ Z.of_nat 3) mod 256].
  cbn [app little_endian_words]. f_equal.
  change [(w / 256 ^ Z.of_nat 0) mod 256; (w / 256 ^ Z.of_nat 1) mod 256;
          (w / 256 ^ Z.of_nat 2) mod 256; (w / 256 ^ Z.of_nat 3) mod 256]
    with (map (fun i => (w / 256 ^ Z.of_nat i) mod 256) (seq 0 4)).
  rewrite little_endian_value_bytes. change (256 ^ Z.of_nat 0) with 1.
  now rewrite Z.div_1_r.
Qed.

(** The payload, field by field. *)
Lemma FramePayload_octets (s : SessionContext) (f : PendingFrame) :
  FramePayload s f
  = map (fun i => (kFrameMagicA2FB / 256 ^ Z.of_nat i) mod 256) (seq 0 4)
    ++ map (fun i => (kProtocolVersion / 256 ^ Z.of_nat i) mod 256) (seq 0 4)
    ++ map (fun i => (u32 (Z.of_nat (_weightCount s)) / 256 ^ Z.of_nat i) mod 256) (seq 0 4)
    ++ map (fun i => (0 / 256 ^ Z.of_nat i) mod 256) (seq 0 4)
    ++ map (fun i => (frameIndex f / 256 ^ Z.of_nat i) mod 256) (seq 0 8)
    ++ map (fun i => (u64 (tsCurrent f) / 256 ^ Z.of_nat i) mod 256) (seq 0 8)
    ++ map (fun i => (u64 (tsNext f) / 256 ^ Z.of_nat i) mod 256) (seq 0 8)
    ++ flat_map (fun w => map (fun i => (w / 256 ^ Z.of_nat i) mod 256) (seq 0 4))
         (View (_weightsStaging s) (slotIndex f * _weightCount s) (_weightCount s)).
Proof.
  unfold FramePayload, AppendI64LE. cbv zeta.
  rewrite fold_AppendU32LE_octets, !AppendU64LE_octets, !AppendU32LE_octets.
  rewrite app_nil_l, <- !app_assoc. reflexivity.
Qed.

Lemma field_at (pre field post : list Z) (n m : nat) :
  length pre = n -> length field = m -> take m (drop n (pre ++ field ++ post)) = field.
Proof.
  intros <- <-. now rewrite drop_app_length, take_app_length.
Qed.

End FrameLayout.

(** X19.  An animation frame reads back as it was written.  With the
    weight count below 2^32, the frame index below 2^64, the time stamps
    within int64 and the weights of the slot 32-bit patterns, the payload
    [FlushPendingFramesLocked] builds for a pending frame is 40 octets
    followed by four for each weight, and its fields at the offsets of the
    layout are the magic number, version 1, the weight count, 0, the frame
    index, the two time stamps and the weights of the frame's staging
    slot. *)
Theorem animation_frame_layout (s : a2fserver.SessionContext) (f : a2fserver.PendingFrame) :
  let ws := a2fserver.View (a2fserver._weightsStaging s)
              (a2fserver.slotIndex f * a2fserver._weightCount s) (a2fserver._weightCount s) in
  Z.of_nat (a2fserver._weightCount s) < 2 ^ 32 ->
  0 <= a2fserver.frameIndex f < 2 ^ 64 ->
  a2fserver.in_int64 (a2fserver.tsCurrent f) ->
  a2fserver.in_int64 (a2fserver.tsNext f) ->
  Forall (fun w => 0 <= w < 2 ^ 32) ws ->
  length (a2fserver.FramePayload s f) = (40 + 4 * length ws)%nat
  /\ Forall is_byte (a2fserver.FramePayload s f)
  /\ a2fserver.payload_magic (a2fserver.FramePayload s f) = 0x42463241
  /\ a2fserver.payload_version (a2fserver.FramePayload s f) = 1
  /\ a2fserver.payload_weightCount (a2fserver.FramePayload s f)
     = Z.of_nat (a2fserver._weightCount s)
  /\ a2fserver.payload_reserved (a2fserver.FramePayload s f) = 0
  /\ a2fserver.payload_frameIndex (a2fserver.FramePayload s f) = a2fserver.frameIndex f
  /\ a2fserver.payload_tsCurrent (a2fserver.FramePayload s f) = a2fserver.tsCurrent f
  /\ a2fserver.payload_tsNext (a2fserver.FramePayload s f) = a2fserver.tsNext f
  /\ a2fserver.payload_weights (a2fserver.FramePayload s f) = ws.
Proof.
  intros ws Hwc Hidx Hcur Hnext Hws.
  rewrite FramePayload_octets. fold ws.
  set (W := flat_map _ ws).
  assert (HW : length W = (4 * length ws)%nat).
  { unfold W. clear. induction ws as [|w ws IH]; [reflexivity|].
    cbn [flat_map]. rewrite length_app, IH, length_map, length_seq. cbn [length]. lia. }
  assert (Hbytes : forall v n, Forall is_byte
                     (map (fun i => (v / 256 ^ Z.of_nat i) mod 256) (seq 0 n))).
  { intros v n. apply Forall_forall. intros b Hb.
    apply list_elem_of_In, in_map_iff in Hb. destruct Hb as (i & <- & _).
    apply Z.mod_pos_bound. lia. }
  assert (Hi64 : forall v, a2fserver.in_int64 v -> i64 (u64 v mod 256 ^ Z.of_nat 8) = v).
  { intros v Hv. unfold a2fserver.in_int64 in Hv. unfold i64, u64.
    change (256 ^ Z.of_nat 8) with (2 ^ 64).
    rewrite !Z.mod_mod by (change (2 ^ 64) with 18446744073709551616; lia).
    change (2 ^ 64) with 18446744073709551616 in *.
    change (2 ^ 63) with 9223372036854775808 in *.
    destruct (Z.ltb_spec (v mod 18446744073709551616) 9223372036854775808);
      Z.div_mod_to_equations; lia. }
  split_and!.
  - rewrite !length_app, !length_map, !length_seq, HW. lia.
  - repeat apply Forall_app_2; auto.
    unfold W. apply Forall_forall. intros b Hb.
    apply list_elem_of_In, in_flat_map in Hb. destruct Hb as (w & _ & Hb).
    apply in_map_iff in Hb. destruct Hb as (i & <- & _). apply Z.mod_pos_bound. lia.
  - unfold a2fserver.payload_magic. rewrite take_app_length' by reflexivity.
    now rewrite little_endian_value_bytes.
  - unfold a2fserver.payload_version.
    rewrite drop_app_length' by reflexivity. rewrite take_app_length' by reflexivity.
    now rewrite little_endian_value_bytes.
  - unfold a2fserver.payload_weightCount.
    rewrite (app_assoc (map _ (seq 0 4)) (map _ (seq 0 4))).
    rewrite drop_app_length' by reflexivity. rewrite take_app_length' by reflexivity.
    rewrite little_endian_value_bytes. change (256 ^ Z.of_nat 0) with 1.
    rewrite Z.div_1_r. unfold u32. change (256 ^ Z.of_nat 4) with (2 ^ 32).
    rewrite Z.mod_mod by lia. apply Z.mod_small. lia.
  - unfold a2fserver.payload_reserved.
    rewrite (app_assoc (map _ (seq 0 4)) (map _ (seq 0 4))).
    rewrite (app_assoc (_ ++ _) (map _ (seq 0 4))).
    rewrite drop_app_length' by reflexivity. rewrite take_app_length' by reflexivity.
    now rewrite little_endian_value_bytes.
  - unfold a2fserver.payload_frameIndex.
    rewrite (app_assoc (map _ (seq 0 4)) (map _ (seq 0 4))).
    rewrite (app_assoc (_ ++ _) (map _ (seq 0 4))).
    rewrite (app_assoc (_ ++ _) (map _ (seq 0 4))).
    rewrite drop_app_length' by reflexivity. rewrite take_app_length' by reflexivity.
    rewrite little_endian_value_bytes. change (256 ^ Z.of_nat 0) with 1.
    rewrite Z.div_1_r. change (256 ^ Z.of_nat 8) with (2 ^ 64). now apply Z.mod_small.
  - unfold a2fserver.payload_tsCurrent.
    rewrite (app_assoc (map _ (seq 0 4)) (map _ (seq 0 4))).
    rewrite (app_assoc (_ ++ _) (map _ (seq 0 4))).
    rewrite (app_assoc (_ ++ _) (map _ (seq 0 4))).
    rewrite (app_assoc (_ ++ _) (map _ (seq 0 8))).
    rewrite drop_app_length' by reflexivity. rewrite take_app_length' by reflexivity.
    rewrite little_endian_value_bytes. change (256 ^ Z.of_nat 0) with 1.
    rewrite Z.div_1_r. now apply Hi64.
  - unfold a2fserver.payload_tsNext.
    rewrite (app_assoc (map _ (seq 0 4)) (map _ (seq 0 4))).
    rewrite (app_assoc (_ ++ _) (map _ (seq 0 4))).
    rewrite (app_assoc (_ ++ _) (map _ (seq 0 4))).
    rewrite (app_assoc (_ ++ _) (map _ (seq 0 8))).
    rewrite (app_assoc (_ ++ _) (map _ (seq 0 8))).
    rewrite drop_app_length' by reflexivity. rewrite take_app_length' by reflexivity.
    rewrite little_endian_value_bytes. change (256 ^ Z.of_nat 0) with 1.
    rewrite Z.div_1_r. now apply Hi64.
  - unfold a2fserver.payload_weights.
    rewrite (app_assoc (map _ (seq 0 4)) (map _ (seq 0 4))).
    rewrite (app_assoc (_ ++ _) (map _ (seq 0 4))).
    rewrite (app_assoc (_ ++ _) (map _ (seq 0 4))).
    rewrite (app_assoc (_ ++ _) (map _ (seq 0 8))).
    rewrite (app_assoc (_ ++ _) (map _ (seq 0 8))).
    rewrite (app_assoc (_ ++ _) (map _ (seq 0 8))).
    rewrite drop_app_length' by reflexivity.
    unfold W. rewrite little_endian_words_octets.
    clear -Hws. induction Hws as [|w l Hw _ IH]; [reflexivity|].
    cbn [map]. rewrite IH. f_equal. now apply Z.mod_small.
Qed.

Lemma animation_frame_layout_witness :
  a2fserver.payload_weights
    (a2fserver.FramePayload
       (a2fserver.StageFrame (a2fserver.sample_results 7) a2fserver.sample_attached)
       (a2fserver.mkPendingFrame 0 7 8 0))
  = [0x3f800000; 0].
Proof.
  pose proof (animation_frame_layout
                (a2fserver.StageFrame (a2fserver.sample_results 7) a2fserver.sample_attached)
                (a2fserver.mkPendingFrame 0 7 8 0)) as H.
  cbv zeta in H.
  match type of H with ?A -> _ =>
    assert (H1 : A) by (vm_compute; reflexivity); specialize (H H1) end.
  match type of H with ?A -> _ =>
    assert (H2 : A) by (vm_compute; split; [discriminate|reflexivity]); specialize (H H2) end.
  match type of H with ?A -> _ =>
    assert (H3 : A) by (vm_compute; split; [discriminate|reflexivity]); specialize (H H3) end.
  match type of H with ?A -> _ =>
    assert (H4 : A) by (vm_compute; split; [discriminate|reflexivity]); specialize (H H4) end.
  match type of H with Forall ?P ?l -> _ =>
    let l' := eval vm_compute in l in
    assert (H5 : Forall P l') by (repeat constructor; lia); specialize (H H5) end.
  rewrite (proj2 (proj2 (proj2 (proj2 (proj2 (proj2 (proj2 (proj2 (proj2 H))))))))).
  vm_compute. reflexivity.
Defined.

(** ** The weights a frame carries *)

Section Staging.
Import Json a2fserver.

Lemma length_CopyInto (staging src : list Z) (offset : nat) :
  (offset + length src <= length staging)%nat ->
  length (CopyInto staging offset src) = length staging.
Proof.
  intros H. unfold CopyInto. rewrite !length_app, length_take, length_drop. lia.
Qed.

Lemma View_CopyInto_same (staging src : list Z) (offset : nat) :
  (offset <= length staging)%nat ->
  View (CopyInto staging offset src) offset (length src) = src.
Proof.
  intros H. unfold View, CopyInto.
  rewrite drop_app_length' by (rewrite length_take; lia).
  now rewrite take_app_length.
Qed.

Lemma View_CopyInto_before (staging src : list Z) (offset at_ size : nat) :
  (at_ + size <= offset)%nat -> (offset <= length staging)%nat ->
  View (CopyInto staging offset src) at_ size = View staging at_ size.
Proof.
  intros Hle Hlen. unfold View, CopyInto.
  rewrite drop_app_le by (rewrite length_take; lia).
  rewrite take_app_le by (rewrite length_drop, length_take; lia).
  rewrite !take_drop_commute, take_take. f_equal. f_equal. lia.
Qed.

Lemma slots_below (frames : list PendingFrame) (f : PendingFrame) :
  map slotIndex frames = seq 0 (length frames) -> In f frames ->
  (slotIndex f < length frames)%nat.
Proof.
  intros Hslots Hin. apply (in_map slotIndex) in Hin. rewrite Hslots in Hin.
  apply in_seq in Hin. lia.
Qed.

Lemma StageFrame_staging (rs : list DeviceResults) (r : DeviceResults)
  (s : SessionContext) :
  staging_invariant rs s -> length (weights r) = _weightCount s ->
  (length (_pendingFrames s) < kMaxStagedFrames)%nat ->
  staging_invariant (rs ++ [r]) (StageFrame r s).
Proof.
  intros (Hlen & Hmax & Hslots & Hall) Hwc Hroom. unfold kMaxStagedFrames in *.
  set (n := length (_pendingFrames s)) in *.
  set (wc := _weightCount s) in *.
  assert (Hoff : (n * wc + wc <= length (_weightsStaging s))%nat) by (rewrite Hlen; nia).
  unfold staging_invariant, StageFrame. cbn.
  fold n. fold wc. rewrite !length_app. cbn [length]. split_and!.
  - rewrite length_CopyInto; [exact Hlen|]. rewrite Hwc. exact Hoff.
  - unfold kMaxStagedFrames. lia.
  - rewrite map_app, Hslots. cbn [map slotIndex]. fold n.
    replace (n + 1)%nat with (S n) by lia. now rewrite seq_S.
  - apply Forall2_app.
    + assert (Hbelow : Forall (fun f => (slotIndex f < n)%nat) (_pendingFrames s)).
      { apply Forall_forall. intros f Hf. apply list_elem_of_In in Hf.
        now apply slots_below. }
      clear Hslots Hmax. clearbody n.
      induction Hall as [|f r0 frames' rs' [Hts Hv] _ IH]; constructor.
      * apply Forall_cons_1 in Hbelow. destruct Hbelow as [Hf _].
        split; [exact Hts|].
        pose proof (View_CopyInto_before (_weightsStaging s) (weights r) (n * wc)
                      (slotIndex f * wc) wc) as E.
        unfold View in E, Hv. rewrite E; [exact Hv|nia|lia].
      * apply IH. now apply Forall_cons_1 in Hbelow.
    + constructor; [|constructor]. cbn. split; [reflexivity|].
      pose proof (View_CopyInto_same (_weightsStaging s) (weights r) (n * wc)) as E.
      unfold View in E. rewrite Hwc in E. apply E. lia.
Qed.

End Staging.

Section FrameData.
Import Json a2fserver.

Lemma FramePayload_weights (s : SessionContext) (f : PendingFrame) :
  payload_weights (FramePayload s f)
  = map (fun w => w mod 2 ^ 32)
      (View (_weightsStaging s) (slotIndex f * _weightCount s) (_weightCount s)).
Proof.
  rewrite FramePayload_octets. unfold payload_weights.
  rewrite (app_assoc (map _ (seq 0 4)) (map _ (seq 0 4))).
  rewrite (app_assoc (_ ++ _) (map _ (seq 0 4))).
  rewrite (app_assoc (_ ++ _) (map _ (seq 0 4))).
  rewrite (app_assoc (_ ++ _) (map _ (seq 0 8))).
  rewrite (app_assoc (_ ++ _) (map _ (seq 0 8))).
  rewrite (app_assoc (_ ++ _) (map _ (seq 0 8))).
  rewrite drop_app_length' by reflexivity.
  apply little_endian_words_octets.
Qed.

Lemma FramePayload_tsNext (s : SessionContext) (f : PendingFrame) :
  payload_tsNext (FramePayload s f) = i64 (tsNext f).
Proof.
  rewrite FramePayload_octets. unfold payload_tsNext.
  rewrite (app_assoc (map _ (seq 0 4)) (map _ (seq 0 4))).
  rewrite (app_assoc (_ ++ _) (map _ (seq 0 4))).
  rewrite (app_assoc (_ ++ _) (map _ (seq 0 4))).
  rewrite (app_assoc (_ ++ _) (map _ (seq 0 8))).
  rewrite (app_assoc (_ ++ _) (map _ (seq 0 8))).
  rewrite drop_app_length' by reflexivity. rewrite take_app_length' by reflexivity.
  rewrite little_endian_value_bytes. change (256 ^ Z.of_nat 0) with 1.
  rewrite Z.div_1_r. unfold i64, u64. change (256 ^ Z.of_nat 8) with (2 ^ 64).
  now rewrite !Z.mod_mod by (change (2 ^ 64) with 18446744073709551616; lia).
Qed.

(** The payloads of the pending frames carry the results they were staged
    from. *)
Lemma staging_invariant_carries (rs : list DeviceResults) (s : SessionContext) :
  staging_invariant rs s -> Forall results_in_range rs ->
  carries (map (FramePayload s) (_pendingFrames s)) rs.
Proof.
  intros (_ & _ & _ & Hall) Hrange. unfold carries. rewrite !map_map.
  induction Hall as [|f r frames rs' [Hts Hv] _ IH]; [split; reflexivity|].
  apply Forall_cons_1 in Hrange. destruct Hrange as [[Hw Hn] Hrange].
  destruct (IH Hrange) as [IH1 IH2]. cbn [map]. rewrite IH1, IH2. split; f_equal.
  - rewrite FramePayload_weights, Hv. clear -Hw.
    induction Hw as [|w l Hw _ IH]; [reflexivity|]. cbn [map]. rewrite IH. f_equal.
    now apply Z.mod_small.
  - rewrite FramePayload_tsNext, Hts. now apply i64_in_range.
Qed.

Lemma carries_app (p1 p2 : list (list Z)) (r1 r2 : list DeviceResults) :
  carries p1 r1 -> carries p2 r2 -> carries (p1 ++ p2) (r1 ++ r2).
Proof. unfold carries. intros [H1 H2] [H3 H4]. now rewrite !map_app, H1, H2, H3, H4. Qed.

Lemma staging_invariant_fields (rs : list DeviceResults) (s s' : SessionContext) :
  _weightsStaging s' = _weightsStaging s -> _weightCount s' = _weightCount s ->
  _pendingFrames s' = _pendingFrames s ->
  staging_invariant rs s -> staging_invariant rs s'.
Proof. unfold staging_invariant. now intros -> -> ->. Qed.

Lemma staging_invariant_clear (rs : list DeviceResults) (s : SessionContext) :
  staging_invariant rs s -> staging_invariant [] (set_pendingFrames [] s).
Proof.
  intros (Hlen & _). unfold staging_invariant. cbn. split_and!; auto.
  unfold kMaxStagedFrames. lia.
Qed.

Lemma Execute_callbacks_data (step : list DeviceResults) (s : SessionContext)
  (env : Env) (rs : list DeviceResults) :
  _wsSocket s <> 0 -> engine_succeeds (engine env) ->
  Forall (fun r => (length (weights r) = 0%nat \/ length (weights r) = _weightCount s)
                   /\ cudaStream r <> 0) step ->
  (length (_pendingFrames s)
   + length (filter (fun r => negb (length (weights r) =? 0)%nat) step)
   <= kMaxStagedFrames)%nat ->
  staging_invariant rs s ->
  staging_invariant (rs ++ filter (fun r => negb (length (weights r) =? 0)%nat) step)
    (Execute_callbacks step s env).1.
Proof.
  intros Hws Heng Hstep. remember (_weightCount s) as wc eqn:Hwc.
  revert s env rs Hws Heng Hwc.
  induction Hstep as [|r step [Hshape _] _ IH]; intros s env rs Hws Heng Hwc Hroom Hinv.
  { cbn. now rewrite app_nil_r. }
  subst wc. cbn [Execute_callbacks]. rewrite filter_cons in Hroom |- *.
  destruct (OnDeviceResults_accepted r s env Hws Heng Hshape) as (env1 & -> & Hp & He).
  { intros Hne. destruct (Nat.eqb_spec (length (weights r)) 0); [contradiction|].
    case_decide as Hd; [|now destruct Hd].
    cbn [length] in Hroom. unfold kMaxStagedFrames in *. lia. }
  destruct (Nat.eqb_spec (length (weights r)) 0) as [E|N];
    case_decide as Hd; try (now destruct Hd).
  - now apply IH.
  - replace (rs ++ r :: filter _ step) with ((rs ++ [r]) ++ filter
      (fun r => negb (length (weights r) =? 0)%nat) step) by now rewrite <- app_assoc.
    destruct Hshape as [|Hsize]; [contradiction|].
    apply IH; auto.
    + rewrite StageFrame_pending, length_app. cbn [length] in *. lia.
    + apply StageFrame_staging; auto. cbn [length] in Hroom.
      unfold kMaxStagedFrames in *. lia.
Qed.

Lemma FlushPendingFramesLocked_data (s : SessionContext) (env : Env)
  (rs : list DeviceResults) :
  credit (peer env) = None -> engine_succeeds (engine env) ->
  stream_invariant stream_not_null s ->
  staging_invariant rs s -> Forall results_in_range rs ->
  exists env' news,
    FlushPendingFramesLocked s env = (true, set_pendingFrames [] s, env')
    /\ outbox (peer env') = outbox (peer env) ++ news
    /\ Forall binary_frame news
    /\ carries (binary_payloads news) rs
    /\ credit (peer env') = None /\ engine_succeeds (engine env').
Proof.
  intros Hc Heng Hstream Hinv Hrange.
  pose proof (staging_invariant_carries rs s Hinv Hrange) as Hcarry.
  unfold FlushPendingFramesLocked.
  destruct (_pendingFrames s) as [|f frames] eqn:Hp.
  - exists env, []. cbn in Hcarry. rewrite app_nil_r.
    replace (set_pendingFrames [] s) with s by (destruct s; cbn in Hp; now subst).
    split_and!; auto.
  - destruct (Z.eqb_spec (_lastCudaStream s) 0) as [E|_].
    { exfalso. apply (stream_invariant_not_null s Hstream); [|exact E]. now rewrite Hp. }
    destruct (next_status_succeeds _ Heng) as [Hnone Hrest].
    destruct (next_status (engine env)) as [e st]. cbn [fst snd] in Hnone, Hrest. subst e.
    cbn [peer engine].
    pose proof (FlushPendingFrames_send_spec s (f :: frames) (peer env)) as Hsend.
    destruct (FlushPendingFrames_send s (f :: frames) (peer env)) as [ok c].
    destruct Hsend as (j & _ & Hout & Hall & _ & _ & Hopen).
    destruct (Hopen Hc) as [-> Hc']. rewrite (Hall eq_refl), firstn_all in Hout.
    exists (mkEnv c st),
      (map (fun g => (a2fws.Binary, Octets (FramePayload s g))) (f :: frames)).
    split; [reflexivity|]. cbn [peer engine]. split_and!; auto.
    + apply Forall_forall. intros x Hx.
      apply list_elem_of_In, in_map_iff in Hx. now destruct Hx as (g & <- & _).
    + now rewrite binary_payloads_frames.
Qed.

End FrameData.

Section RunData.
Import Json a2fserver.

Lemma Forall_filter_results (P : DeviceResults -> Prop) (l : list DeviceResults) :
  Forall P l -> Forall P (filter (fun r => negb (length (weights r) =? 0)%nat) l).
Proof.
  rewrite !Forall_forall. intros H x Hx. apply list_elem_of_filter in Hx. now apply H.
Qed.

Lemma PushAudio_execute_data (steps : list (list DeviceResults)) (s : SessionContext)
  (env : Env) (rs : list DeviceResults) :
  _wsSocket s <> 0 -> credit (peer env) = None -> engine_succeeds (engine env) ->
  stream_invariant stream_not_null s ->
  Forall (step_accepted (_weightCount s)) steps ->
  (length (_pendingFrames s) < kFlushThresholdFrames)%nat ->
  staging_invariant rs s -> Forall results_in_range rs ->
  Forall (Forall results_in_range) steps ->
  exists s' env' news sent rs',
    PushAudio_execute steps s env = (true, s', env')
    /\ outbox (peer env') = outbox (peer env) ++ news
    /\ Forall binary_frame news
    /\ carries (binary_payloads news) sent
    /\ sent ++ rs' = rs ++ filter (fun r => negb (length (weights r) =? 0)%nat) (concat steps)
    /\ staging_invariant rs' s' /\ Forall results_in_range rs'
    /\ credit (peer env') = None /\ engine_succeeds (engine env')
    /\ stream_invariant stream_not_null s'.
Proof.
  revert s env rs.
  induction steps as [|step steps IH];
    intros s env rs Hws Hc Heng Hstream Hsteps Hlen Hinv Hr Hrs.
  - exists s, env, [], [], rs. cbn [concat]. rewrite filter_nil, !app_nil_r.
    split_and!; auto. split; reflexivity.
  - inversion Hsteps as [|? ? [Hshape Hcount] Hrest]; subst.
    inversion Hrs as [|? ? Hrstep Hrsrest]; subst.
    cbn [PushAudio_execute concat]. rewrite filter_app.
    assert (Hroom : (length (_pendingFrames s)
                     + length (filter (fun r => negb (length (weights r) =? 0)%nat) step)
                     <= kMaxStagedFrames)%nat).
    { unfold kFlushThresholdFrames, kMaxStagedFrames in *. lia. }
    destruct (Execute_callbacks_accepted step s env Hws Heng Hshape Hroom) as [Hp1 He1].
    pose proof (Execute_callbacks_data step s env rs Hws Heng Hshape Hroom Hinv) as Hinv1.
    pose proof (Execute_callbacks_invariant stream_not_null (stream_invariant stream_not_null)
                  (stream_invariant_fields _) (stream_invariant_empty _)
                  (stream_invariant_stage _) step s env) as Hstream1.
    pose proof (Execute_callbacks_preserves _ _wsSocket (fun _ _ => eq_refl)
                  (fun _ => eq_refl) step s env) as Hws1.
    pose proof (Execute_callbacks_preserves _ _weightCount (fun _ _ => eq_refl)
                  (fun _ => eq_refl) step s env) as Hwc1.
    destruct (Execute_callbacks step s env) as [s1 env1]. cbn [fst snd] in *.
    assert (Hs1 : stream_invariant stream_not_null s1).
    { apply Hstream1; [|exact Hstream]. eapply Forall_impl; [exact Hshape|].
      now intros r [_ H]. }
    assert (Hr1 : Forall results_in_range
                    (rs ++ filter (fun r => negb (length (weights r) =? 0)%nat) step)).
    { apply Forall_app_2; [exact Hr|]. now apply Forall_filter_results. }
    destruct (next_status_succeeds _ He1) as [Hnone He1'].
    destruct (next_status (engine env1)) as [e st]. cbn [fst snd] in Hnone, He1'. subst e.
    destruct (Nat.leb_spec kFlushThresholdFrames (length (_pendingFrames s1))).
    + destruct (FlushPendingFramesLocked_data s1 (mkEnv (peer env1) st)
                  (rs ++ filter (fun r => negb (length (weights r) =? 0)%nat) step))
        as (env2 & news1 & -> & Hout1 & Hbin1 & Hcar1 & Hc2 & He2); auto.
      { cbn [peer]. now rewrite Hp1. }
      cbn [peer] in Hout1. rewrite Hp1 in Hout1.
      destruct (IH (set_pendingFrames [] s1) env2 [])
        as (s3 & env3 & news2 & sent2 & rs' & -> & Hout2 & Hbin2 & Hcar2 & Hsplit & Hinv3
            & Hr3 & Hc3 & He3 & Hs3); auto.
      * cbn. congruence.
      * now apply stream_invariant_empty.
      * cbn. now rewrite Hwc1.
      * cbn. unfold kFlushThresholdFrames. lia.
      * eapply staging_invariant_clear. exact Hinv1.
      * exists s3, env3, (news1 ++ news2),
          ((rs ++ filter (fun r => negb (length (weights r) =? 0)%nat) step) ++ sent2), rs'.
        split_and!; auto.
        -- now rewrite Hout2, Hout1, app_assoc.
        -- now apply Forall_app_2.
        -- rewrite binary_payloads_app. now apply carries_app.
        -- rewrite <- !app_assoc. f_equal. f_equal. exact Hsplit.
    + destruct (IH s1 (mkEnv (peer env1) st)
                  (rs ++ filter (fun r => negb (length (weights r) =? 0)%nat) step))
        as (s3 & env3 & news2 & sent2 & rs' & -> & Hout2 & Hbin2 & Hcar2 & Hsplit & Hinv3
            & Hr3 & Hc3 & He3 & Hs3); auto.
      * congruence.
      * cbn [peer]. now rewrite Hp1.
      * now rewrite Hwc1.
      * exists s3, env3, news2, sent2, rs'. split_and!; auto.
        -- cbn [peer] in Hout2. now rewrite Hout2, Hp1.
        -- now rewrite Hsplit, <- app_assoc.
Qed.

Lemma PushAudio_data (start : Z) (pcm : list Z) (steps : list (list DeviceResults))
  (s : SessionContext) (env : Env) (bundle : Bundle) :
  _wsSocket s <> 0 -> _bundle s = Some bundle -> _pendingFrames s = [] ->
  length (_weightsStaging s) = (_weightCount s * kMaxStagedFrames)%nat ->
  credit (peer env) = None -> engine_succeeds (engine env) ->
  Z.of_nat (length (audioAccumulator bundle)) <= start
    <= Z.of_nat (length (audioAccumulator bundle)) + 160000 ->
  start < 2 ^ 63 ->
  Forall (step_accepted (_weightCount s)) steps ->
  Forall (Forall results_in_range) steps ->
  exists s' env' bundle' news,
    PushAudio start pcm steps s env = (true, s', env')
    /\ _wsSocket s' <> 0 /\ _bundle s' = Some bundle' /\ _pendingFrames s' = []
    /\ _weightCount s' = _weightCount s
    /\ length (_weightsStaging s') = (_weightCount s' * kMaxStagedFrames)%nat
    /\ credit (peer env') = None /\ engine_succeeds (engine env')
    /\ Z.of_nat (length (audioAccumulator bundle')) = start + Z.of_nat (length pcm)
    /\ outbox (peer env') = outbox (peer env) ++ news
    /\ Forall binary_frame news
    /\ carries (binary_payloads news)
         (filter (fun r => negb (length (weights r) =? 0)%nat) (concat steps)).
Proof.
  intros Hws Hb Hp Hstaging Hc Heng Hord Hmax Hsteps Hrs.
  unfold PushAudio.
  pose proof (PushAudio_accumulate_state start pcm s env) as Hacc.
  destruct (PushAudio_accumulate_accepted start pcm s env bundle Hws Hb Heng Hord Hmax)
    as (s1 & env1 & bundle1 & Heq & Hp1 & He1 & Hb1 & Hlen1).
  rewrite Heq in *. cbn [fst snd negb] in *.
  destruct Hacc as (Hws1 & Hpend1 & _ & _ & Hwc1 & Hst1).
  destruct (PushAudio_execute_data steps s1 env1 [])
    as (s2 & env2 & news1 & sent1 & rs' & Hex & Hout1 & Hbin1 & Hcar1 & Hsplit & Hinv2
        & Hr2 & Hc2 & He2 & Hs2); auto.
  { congruence. } { now rewrite Hp1. }
  { apply stream_invariant_empty. congruence. }
  { now rewrite Hwc1. }
  { rewrite Hpend1, Hp. cbn. unfold kFlushThresholdFrames. lia. }
  { unfold staging_invariant. rewrite Hst1, Hwc1, Hpend1, Hp. cbn.
    split_and!; auto. unfold kMaxStagedFrames. lia. }
  pose proof (PushAudio_execute_preserves _ _wsSocket (fun _ _ => eq_refl)
                (fun _ => eq_refl) steps s1 env1) as Hws2.
  pose proof (PushAudio_execute_preserves _ _weightCount (fun _ _ => eq_refl)
                (fun _ => eq_refl) steps s1 env1) as Hwc2.
  pose proof (PushAudio_execute_preserves _ _bundle (fun _ _ => eq_refl)
                (fun _ => eq_refl) steps s1 env1) as Hb2.
  rewrite Hex in *. cbn [fst snd negb] in *.
  destruct (FlushPendingFramesLocked_data s2 env2 rs' Hc2 He2 Hs2 Hinv2 Hr2)
    as (env3 & news2 & -> & Hout2 & Hbin2 & Hcar2 & Hc3 & He3).
  cbn [negb].
  exists (set_pendingFrames [] s2), env3, bundle1, (news1 ++ news2).
  split; [reflexivity|]. cbn. split_and!; auto; try congruence.
  - destruct Hinv2 as (Hl & _). exact Hl.
  - now rewrite Hout2, Hout1, Hp1, app_assoc.
  - now apply Forall_app_2.
  - rewrite binary_payloads_app. cbn [app] in Hsplit. rewrite <- Hsplit.
    now apply carries_app.
Qed.

Lemma PushAll_data (calls : list PushCall) (s : SessionContext) (env : Env)
  (bundle : Bundle) :
  _wsSocket s <> 0 -> _bundle s = Some bundle -> _pendingFrames s = [] ->
  length (_weightsStaging s) = (_weightCount s * kMaxStagedFrames)%nat ->
  credit (peer env) = None -> engine_succeeds (engine env) ->
  audio_in_order (Z.of_nat (length (audioAccumulator bundle))) calls ->
  Forall (fun c => Forall (step_accepted (_weightCount s)) (call_steps c)) calls ->
  Forall results_in_range (results_of calls) ->
  exists news,
    outbox (peer (PushAll calls s env).2) = outbox (peer env) ++ news
    /\ Forall binary_frame news
    /\ carries (binary_payloads news)
         (filter (fun r => negb (length (weights r) =? 0)%nat) (results_of calls)).
Proof.
  revert s env bundle.
  induction calls as [|c calls IH];
    intros s env bundle Hws Hb Hp Hst Hc Heng Hord Hsteps Hrange.
  - exists []. cbn. rewrite app_nil_r. split_and!; auto. split; reflexivity.
  - destruct Hord as (Hord & Hmax & Hrest).
    inversion Hsteps as [|? ? Hstep Hsteps']; subst.
    unfold results_of in Hrange |- *. cbn [map concat] in Hrange |- *.
    rewrite concat_app in Hrange |- *. apply Forall_app in Hrange as [Hr1 Hr2].
    rewrite filter_app. cbn [PushAll].
    destruct (PushAudio_data (call_start c) (call_pcm c) (call_steps c) s env bundle)
      as (s1 & env1 & bundle1 & news1 & -> & Hws1 & Hb1 & Hp1 & Hwc1 & Hst1 & Hc1 & He1
          & Hlen1 & Hout1 & Hbin1 & Hcar1); auto.
    { clear - Hr1. induction (call_steps c) as [|step steps IHs]; [constructor|].
      cbn [concat] in Hr1. apply Forall_app in Hr1 as [H1 H2].
      constructor; [exact H1|now apply IHs]. }
    destruct (IH s1 env1 bundle1) as (news2 & Hout2 & Hbin2 & Hcar2); auto.
    { now rewrite Hlen1. }
    { now rewrite Hwc1. }
    destruct (PushAll calls s1 env1) as [[oks s2] env2]. cbn [fst snd] in *.
    exists (news1 ++ news2). split_and!.
    + now rewrite Hout2, Hout1, app_assoc.
    + now apply Forall_app_2.
    + rewrite binary_payloads_app. now apply carries_app.
Qed.

End RunData.

(** X20. While a session is attached to a connection that takes every
    message, the engine reports no failure, the audio arrives in order and
    every executor step is one the callback accepts, the binary messages of a
    run of PushAudio calls carry, one message per non-empty result and in the
    order the executor delivered them, exactly the weights and the next time
    stamp of that result. *)
Theorem animation_frames_carry_results (calls : list a2fserver.PushCall)
  (s : a2fserver.SessionContext) (env : a2fserver.Env) (bundle : a2fserver.Bundle) :
  a2fserver._wsSocket s <> 0 ->
  a2fserver._bundle s = Some bundle ->
  a2fserver._pendingFrames s = [] ->
  length (a2fserver._weightsStaging s)
  = (a2fserver._weightCount s * a2fserver.kMaxStagedFrames)%nat ->
  a2fserver.credit (a2fserver.peer env) = None ->
  a2fserver.engine_succeeds (a2fserver.engine env) ->
  a2fserver.audio_in_order (Z.of_nat (length (a2fserver.audioAccumulator bundle))) calls ->
  Forall (fun c => Forall (a2fserver.step_accepted (a2fserver._weightCount s))
                     (a2fserver.call_steps c)) calls ->
  Forall a2fserver.results_in_range (a2fserver.results_of calls) ->
  exists news,
    a2fserver.outbox (a2fserver.peer (a2fserver.PushAll calls s env).2)
    = a2fserver.outbox (a2fserver.peer env) ++ news
    /\ Forall a2fserver.binary_frame news
    /\ map a2fserver.payload_weights (a2fserver.binary_payloads news)
       = map a2fserver.weights
           (filter (fun r => negb (length (a2fserver.weights r) =? 0)%nat)
              (a2fserver.results_of calls))
    /\ map a2fserver.payload_tsNext (a2fserver.binary_payloads news)
       = map a2fserver.timeStampNextFrame
           (filter (fun r => negb (length (a2fserver.weights r) =? 0)%nat)
              (a2fserver.results_of calls)).
Proof.
  intros Hws Hb Hp Hst Hc Heng Hord Hsteps Hrange.
  destruct (PushAll_data calls s env bundle Hws Hb Hp Hst Hc Heng Hord Hsteps Hrange)
    as (news & Hout & Hbin & Hw & Ht).
  exists news. auto.
Qed.

Lemma animation_frames_carry_results_witness :
  exists news,
    a2fserver.outbox (a2fserver.peer (a2fserver.PushAll
       [a2fserver.mkPushCall 0 [1; 2; 3; 4]
          [[a2fserver.sample_results 0; a2fserver.sample_results 1]];
        a2fserver.mkPushCall 6 [5; 6] [[a2fserver.sample_results 2]]]
       a2fserver.sample_attached a2fserver.sample_env).2)
    = a2fserver.outbox (a2fserver.peer a2fserver.sample_env) ++ news
    /\ map a2fserver.payload_weights (a2fserver.binary_payloads news)
       = [[0x3f800000; 0]; [0x3f800000; 0]; [0x3f800000; 0]]
    /\ map a2fserver.payload_tsNext (a2fserver.binary_payloads news) = [1; 2; 3].
Proof.
  destruct (animation_frames_carry_results
         [a2fserver.mkPushCall 0 [1; 2; 3; 4]
            [[a2fserver.sample_results 0; a2fserver.sample_results 1]];
          a2fserver.mkPushCall 6 [5; 6] [[a2fserver.sample_results 2]]]
         a2fserver.sample_attached a2fserver.sample_env
         (a2fserver.mkBundle (a2fserver.executor a2fserver.sample_bundle) []
            [(0, repeat 0%Q 10)] true 10 7))
    as (news & Hout & _ & Hw & Ht).
  - vm_compute. discriminate.
  - vm_compute. reflexivity.
  - vm_compute. reflexivity.
  - vm_compute. reflexivity.
  - reflexivity.
  - constructor.
  - cbn. lia.
  - repeat constructor; cbn; auto; try discriminate; vm_compute; lia.
  - let l := eval vm_compute in
      (a2fserver.results_of
         [a2fserver.mkPushCall 0 [1; 2; 3; 4]
            [[a2fserver.sample_results 0; a2fserver.sample_results 1]];
          a2fserver.mkPushCall 6 [5; 6] [[a2fserver.sample_results 2]]]) in
    change (Forall a2fserver.results_in_range l).
    repeat constructor; cbn; lia.
  - exists news. split; [exact Hout|]. split; [exact Hw|exact Ht].
Defined.

(** ** The digest and its encoding *)

Section Digests.
Import a2fws.

Lemma Sha1_length (input : list Z) : length (Sha1 input) = 20%nat.
Proof.
  unfold Sha1. cbv zeta.
  destruct (fold_left _ _ _) as [w [[[[h0 h1] h2] h3] h4]]. reflexivity.
Qed.

Lemma Base64_length (n : nat) (data : list Z) :
  (length data <= n)%nat ->
  String.length (RFC4648.Base64 data) = (4 * ((length data + 2) / 3))%nat.
Proof.
  revert data. induction n as [n IH] using lt_wf_ind. intros data Hn.
  destruct data as [|a [|b [|c rest]]]; try reflexivity.
  cbn [RFC4648.Base64 String.length length].
  rewrite (IH (length rest)) by (cbn in Hn; lia).
  cbn [length].
  replace (S (S (S (length rest))) + 2)%nat with (1 * 3 + (length rest + 2))%nat by lia.
  rewrite Nat.div_add_l by lia. lia.
Qed.

End Digests.

(** X21. On every input of octets whose bit count fits 64 bits, Sha1
    returns the SHA-1 digest of FIPS 180-4, twenty octets. *)
Theorem sha1_is_fips180 (input : list Z) :
  Forall is_byte input -> Z.of_nat (length input) * 8 < 2 ^ 64 ->
  a2fws.Sha1 input = FIPS180.SHA1 input /\ length (a2fws.Sha1 input) = 20%nat.
Proof.
  intros Hb Hlen. split; [now apply Sha1_SHA1|apply Sha1_length].
Qed.

Lemma sha1_is_fips180_witness :
  a2fws.Sha1 [97; 98; 99] = FIPS180.SHA1 [97; 98; 99]
  /\ length (a2fws.Sha1 [97; 98; 99]) = 20%nat.
Proof.
  apply (sha1_is_fips180 [97; 98; 99]).
  - repeat constructor; unfold is_byte; lia.
  - cbn. lia.
Defined.

(** X22. On every input of octets, Base64Encode returns the Base 64
    encoding of RFC 4648 with padding: four characters for every three
    octets or part of three. *)
Theorem base64_encode_is_rfc4648 (data : list Z) :
  Forall is_byte data ->
  a2fws.Base64Encode data = RFC4648.Base64 data
  /\ String.length (a2fws.Base64Encode data) = (4 * ((length data + 2) / 3))%nat.
Proof.
  intros Hb. rewrite Base64Encode_Base64 by exact Hb.
  split; [reflexivity|]. now apply (Base64_length (length data)).
Qed.

Lemma base64_encode_is_rfc4648_witness :
  a2fws.Base64Encode [102; 111; 111; 98] = RFC4648.Base64 [102; 111; 111; 98]
  /\ String.length (a2fws.Base64Encode [102; 111; 111; 98]) = 8%nat.
Proof.
  apply (base64_encode_is_rfc4648 [102; 111; 111; 98]).
  repeat constructor; unfold is_byte; lia.
Defined.

(** ** The opening handshake *)

Section RequestText.
Import a2fws Main Handshake.

Lemma length_append (s t : string) :
  String.length (String.append s t) = (String.length s + String.length t)%nat.
Proof. induction s as [|c s IH]; cbn [String.append String.length]; [reflexivity|now rewrite IH]. Qed.

Lemma reverse_string_involutive (s : string) : reverse_string (reverse_string s) = s.
Proof.
  unfold reverse_string.
  now rewrite list_ascii_of_string_of_list_ascii, rev_involutive, string_of_list_ascii_of_string.
Qed.

Lemma pop_back_cr_line (line : string) :
  pop_back_cr (String.append line (String CR EmptyString)) = line.
Proof.
  unfold pop_back_cr. rewrite reverse_string_last, Ascii.eqb_refl.
  apply reverse_string_involutive.
Qed.

Lemma free_of_cons (c d : ascii) (s : string) :
  free_of c (String d s) <-> d <> c /\ free_of c s.
Proof.
  unfold free_of. cbn [find_char]. destruct (Ascii.eqb_spec d c) as [->|Hne].
  - split; [discriminate|now intros [H _]].
  - destruct (find_char c s); cbn; split; try discriminate; auto.
    now intros [_ H].
Qed.

Lemma free_of_append (c : ascii) (s t : string) :
  free_of c (String.append s t) <-> free_of c s /\ free_of c t.
Proof.
  induction s as [|d s IH]; cbn [String.append].
  - split; [now split|now intros [_ H]].
  - rewrite !free_of_cons, IH. tauto.
Qed.

Lemma find_char_append (c : ascii) (s t : string) :
  free_of c s ->
  find_char c (String.append s (String c t)) = Some (String.length s).
Proof.
  induction s as [|d s IH]; cbn [String.append find_char String.length]; intros Hs.
  - now rewrite Ascii.eqb_refl.
  - apply free_of_cons in Hs as [Hd Hs]. apply Ascii.eqb_neq in Hd. rewrite Hd.
    now rewrite IH.
Qed.

Lemma substring_whole (s : string) : substring 0 (String.length s) s = s.
Proof. induction s as [|c s IH]; cbn; [reflexivity|now rewrite IH]. Qed.

Lemma substring_prefix (s t : string) :
  substring 0 (String.length s) (String.append s t) = s.
Proof.
  induction s as [|c s IH]; cbn [String.append String.length substring].
  - now destruct t.
  - now rewrite IH.
Qed.

Lemma substring_suffix (s t : string) (n : nat) :
  substring (String.length s + n) (String.length t - n) (String.append s t)
  = substring n (String.length t - n) t.
Proof. induction s as [|c s IH]; cbn [String.append String.length substring plus]; auto. Qed.

(** ** [getlines] *)

Lemma getlines_nonempty (c : ascii) (s : string) : getlines (String c s) <> [].
Proof.
  cbn [getlines]. destruct (Ascii.eqb c LF); [discriminate|].
  destruct (getlines s); discriminate.
Qed.

Lemma getlines_nil (s : string) : getlines s = [] -> s = EmptyString.
Proof. destruct s as [|c s]; [reflexivity|]. intros H. now apply getlines_nonempty in H. Qed.

Lemma getlines_append (a rest : string) :
  getlines (String.append a (String LF rest))
  = getlines (String.append a (String LF EmptyString)) ++ getlines rest.
Proof.
  induction a as [|c a IH]; cbn [String.append getlines].
  - now rewrite Ascii.eqb_refl.
  - destruct (Ascii.eqb c LF); [now rewrite IH|].
    rewrite IH.
    destruct (getlines (String.append a (String LF EmptyString))) as [|line lines] eqn:E;
      [|reflexivity].
    apply getlines_nil in E. now destruct a.
Qed.

Lemma getlines_line (line : string) :
  free_of LF line -> getlines (String.append line (String LF EmptyString)) = [line].
Proof.
  induction line as [|c line IH]; cbn [String.append getlines]; intros Hl.
  - now rewrite Ascii.eqb_refl.
  - apply free_of_cons in Hl as [Hc Hl]. apply Ascii.eqb_neq in Hc. rewrite Hc.
    now rewrite IH.
Qed.

Lemma getlines_crlf (line rest : string) :
  free_of LF line ->
  getlines (String.append line (String.append CRLF rest))
  = String.append line (String CR EmptyString) :: getlines rest.
Proof.
  intros Hl.
  change (String.append CRLF rest) with (String CR (String LF rest)).
  change (String CR (String LF rest))
    with (String.append (String CR EmptyString) (String LF rest)).
  rewrite <- append_assoc, getlines_append, getlines_line; [reflexivity|].
  apply free_of_append. split; [exact Hl|]. apply free_of_cons. split; [discriminate|reflexivity].
Qed.

(** The line of a header field as [std::getline] extracts it. *)
Lemma getlines_header_lines (headers : list (string * string)) (rest : string) :
  Forall (fun h => free_of ":" (fst h) /\ free_of LF (fst h) /\ free_of LF (snd h))
    headers ->
  getlines (String.append (header_lines headers) rest)
  = map (fun h => String.append
                    (String.append (fst h) (String.append ":" (snd h)))
                    (String CR EmptyString)) headers
    ++ getlines rest.
Proof.
  induction 1 as [|h headers (Hcolon & Hname & Hvalue) _ IH]; [reflexivity|].
  cbn [header_lines map app]. unfold header_line.
  rewrite <- IH.
  replace (String.append
             (String.append
                (String.append (fst h) (String.append ":" (String.append (snd h) CRLF)))
                (header_lines headers)) rest)
    with (String.append (String.append (fst h) (String.append ":" (snd h)))
            (String.append CRLF (String.append (header_lines headers) rest)))
    by (now rewrite !append_assoc).
  apply getlines_crlf.
  apply free_of_append. split; [exact Hname|].
  apply free_of_append. split; [|exact Hvalue].
  apply free_of_cons. split; [discriminate|reflexivity].
Qed.

Lemma getlines_request_text (start : string) (headers : list (string * string))
  (extra : string) :
  request_well_formed start headers ->
  getlines (String.append (request_text start headers) extra)
  = String.append start (String CR EmptyString)
    :: map (fun h => String.append
                       (String.append (fst h) (String.append ":" (snd h)))
                       (String CR EmptyString)) headers
    ++ String CR EmptyString :: getlines extra.
Proof.
  intros (_ & _ & Hstart & Hheaders). unfold request_text.
  rewrite !append_assoc, getlines_crlf by exact Hstart.
  rewrite getlines_header_lines by exact Hheaders.
  reflexivity.
Qed.

(** ** The loop over the lines *)

Lemma PerformServerHandshake_lines_field (h : string * string) (lines : list string)
  (secKey : string) (isWebSocket : bool) :
  free_of ":" (fst h) ->
  PerformServerHandshake_lines
    (String.append (String.append (fst h) (String.append ":" (snd h)))
       (String CR EmptyString) :: lines) secKey isWebSocket
  = PerformServerHandshake_lines lines
      (if String.eqb (field_name h) "sec-websocket-key" then field_value h else secKey)
      (isWebSocket
       || String.eqb (field_name h) "upgrade"
          && String.eqb (ToLower (field_value h)) "websocket").
Proof.
  intros Hcolon. cbn [PerformServerHandshake_lines]. cbv zeta.
  rewrite pop_back_cr_line.
  assert (Hne : String.eqb (String.append (fst h) (String.append ":" (snd h))) "" = false).
  { destruct (fst h); reflexivity. }
  rewrite Hne.
  change (String.append ":" (snd h)) with (String ":" (snd h)).
  rewrite find_char_append by exact Hcolon.
  rewrite substring_prefix.
  rewrite length_append. cbn [String.length].
  replace (String.length (fst h) + S (String.length (snd h)) - (String.length (fst h) + 1))%nat
    with (String.length (String ":" (snd h)) - 1)%nat by (cbn [String.length]; lia).
  rewrite substring_suffix. cbn [String.length substring Nat.sub].
  rewrite Nat.sub_0_r, substring_whole.
  fold (field_name h). fold (field_value h).
  destruct (String.eqb_spec (field_name h) "sec-websocket-key") as [E|_].
  - rewrite E. cbn. now rewrite orb_false_r.
  - destruct (String.eqb (field_name h) "upgrade"
              && String.eqb (ToLower (field_value h)) "websocket");
      [now rewrite orb_true_r|now rewrite orb_false_r].
Qed.

Lemma PerformServerHandshake_lines_fields (headers : list (string * string))
  (lines : list string) (secKey : string) (isWebSocket : bool) :
  Forall (fun h => free_of ":" (fst h) /\ free_of LF (fst h) /\ free_of LF (snd h))
    headers ->
  PerformServerHandshake_lines
    (map (fun h => String.append
                     (String.append (fst h) (String.append ":" (snd h)))
                     (String CR EmptyString)) headers
     ++ String CR EmptyString :: lines) secKey isWebSocket
  = (fold_left (fun key h => if String.eqb (field_name h) "sec-websocket-key"
                             then field_value h else key) headers secKey,
     isWebSocket || upgrade_requested headers).
Proof.
  intros Hheaders. revert secKey isWebSocket.
  induction Hheaders as [|h headers (Hcolon & _) _ IH]; intros secKey isWebSocket.
  - cbn. now rewrite orb_false_r.
  - cbn [map app fold_left]. rewrite PerformServerHandshake_lines_field by exact Hcolon.
    rewrite IH. unfold upgrade_requested. cbn [existsb]. now rewrite orb_assoc.
Qed.

Lemma PerformServerHandshake_lines_request (start : string)
  (headers : list (string * string)) (extra : string) :
  request_well_formed start headers ->
  PerformServerHandshake_lines
    (getlines (String.append (request_text start headers) extra)) EmptyString false
  = (requested_key headers, upgrade_requested headers).
Proof.
  intros Hwf. rewrite getlines_request_text by exact Hwf.
  destruct Hwf as (Hne & Hcolon & _ & Hheaders).
  cbn [PerformServerHandshake_lines]. cbv zeta. rewrite pop_back_cr_line.
  destruct (String.eqb_spec start "") as [E|_]; [contradiction|].
  unfold free_of in Hcolon. rewrite Hcolon.
  now rewrite PerformServerHandshake_lines_fields.
Qed.

End RequestText.

Section Delimiter.
Import a2fws Main Handshake.

Lemma prefix_append (d x : string) : String.prefix d (String.append d x) = true.
Proof.
  induction d as [|c d IH]; cbn [String.append String.prefix].
  - now destruct x.
  - destruct (ascii_dec c c); [exact IH|contradiction].
Qed.

Lemma prefix_split (d s : string) :
  String.prefix d s = true -> exists b, s = String.append d b.
Proof.
  revert s. induction d as [|c d IH]; intros s H.
  - now exists s.
  - destruct s as [|c' s]; [discriminate|]. cbn [String.prefix] in H.
    destruct (ascii_dec c c') as [->|]; [|discriminate].
    destruct (IH s H) as [b ->]. now exists b.
Qed.

Lemma find_found (d a x : string) :
  find d (String.append a (String.append d x)) <> None.
Proof.
  induction a as [|c a IH]; cbn [String.append].
  - destruct d as [|c d].
    + now destruct x.
    + cbn [find String.append]. change (String c (String.append d x))
        with (String.append (String c d) x). now rewrite prefix_append.
  - cbn [find]. destruct (String.prefix d _); [discriminate|].
    destruct (find d _); [discriminate|contradiction].
Qed.

Lemma find_split (d s : string) (i : nat) :
  find d s = Some i -> exists a b, s = String.append a (String.append d b).
Proof.
  revert i. induction s as [|c s IH]; intros i H.
  - cbn [find] in H. destruct (String.prefix d "") eqn:E; [|discriminate].
    apply prefix_split in E as [b ->]. now exists EmptyString, b.
  - cbn [find] in H. destruct (String.prefix d (String c s)) eqn:E.
    + apply prefix_split in E as [b ->]. now exists EmptyString, b.
    + destruct (find d s) as [j|]; [|discriminate].
      destruct (IH j eq_refl) as (a & b & ->). now exists (String c a), b.
Qed.

(** Nothing is found in a part of a text in which nothing is found. *)
Lemma find_none_prefix (d p r : string) :
  find d (String.append p r) = None -> find d p = None.
Proof.
  intros H. destruct (find d p) as [i|] eqn:E; [|reflexivity].
  apply find_split in E as (a & b & ->).
  rewrite !append_assoc in H. now apply find_found in H.
Qed.





Lemma header_lines_end (headers : list (string * string)) :
  headers <> [] -> exists y, header_lines headers = String.append y CRLF.
Proof.
  induction headers as [|h headers IH]; [contradiction|]. intros _.
  cbn [header_lines]. destruct headers as [|h' headers].
  - cbn [header_lines]. rewrite append_nil_r. unfold header_line.
    exists (String.append (fst h) (String.append ":" (snd h))).
    now rewrite !append_assoc.
  - destruct IH as [y Hy]; [discriminate|]. rewrite Hy.
    exists (String.append (header_line h) y). now rewrite append_assoc.
Qed.

Lemma request_text_end (start : string) (headers : list (string * string)) :
  exists a, request_text start headers = String.append a (String.append CRLF CRLF).
Proof.
  unfold request_text. destruct headers as [|h headers].
  - exists start. reflexivity.
  - destruct (header_lines_end (h :: headers)) as [y Hy]; [discriminate|]. rewrite Hy.
    exists (String.append start (String.append CRLF y)). now rewrite !append_assoc.
Qed.

Lemma request_text_found (start : string) (headers : list (string * string))
  (extra : string) :
  find (String.append CRLF CRLF) (String.append (request_text start headers) extra)
  <> None.
Proof.
  destruct (request_text_end start headers) as [a ->].
  rewrite append_assoc. apply find_found.
Qed.


End Delimiter.

Section Receiving.
Import a2fws Main Handshake.

Lemma string_of_bytes_app (l k : list Z) :
  string_of_bytes (l ++ k) = String.append (string_of_bytes l) (string_of_bytes k).
Proof. unfold string_of_bytes. now rewrite map_app, string_of_list_ascii_app. Qed.

Lemma string_of_bytes_of_string (s : string) : string_of_bytes (bytes_of_string s) = s.
Proof.
  unfold string_of_bytes, bytes_of_string. rewrite map_map.
  rewrite <- (string_of_list_ascii_of_string s) at 2. f_equal.
  rewrite <- (map_id (list_ascii_of_string s)) at 2. apply map_ext. intros c.
  unfold char_of. now rewrite N2Z.id, ascii_N_embedding.
Qed.

Lemma length_string_of_bytes (l : list Z) : String.length (string_of_bytes l) = length l.
Proof.
  unfold string_of_bytes. induction l as [|b l IH]; cbn; [reflexivity|now rewrite IH].
Qed.



(** One [recv] that takes all that is left of the stream. *)
Lemma RecvUntil_single (chunks : list nat) (sock : Socket) (delimiter : string)
  (maxBytes : nat) :
  (0 < maxBytes)%nat -> rx sock <> [] ->
  (length (rx sock) <= Nat.min (hd 1024%nat chunks) 1024)%nat ->
  find delimiter (string_of_bytes (rx sock)) <> None ->
  RecvUntil chunks sock delimiter maxBytes
  = (Some (string_of_bytes (rx sock)), mkSocket [] (tx sock) (txLimit sock)).
Proof.
  intros Hmax Hrx Hlen Hfound. unfold RecvUntil.
  destruct maxBytes as [|fuel]; [lia|]. cbn [RecvUntil_loop String.length].
  destruct (Nat.ltb_spec 0 (S fuel)) as [_|?]; [|lia].
  unfold recv. destruct (rx sock) as [|b rest] eqn:Erx; [contradiction|].
  rewrite <- Erx in *. cbv zeta.
  rewrite take_ge, drop_ge by lia. cbn [String.append].
  now destruct (find delimiter (string_of_bytes (rx sock))).
Qed.

(** Without the delimiter among the octets that [RecvUntil] can read,
    it fails, and sends nothing. *)
Lemma RecvUntil_loop_not_found (all : list Z) (delimiter : string) (maxBytes : nat) :
  find delimiter (string_of_bytes (take (maxBytes + 1023) all)) = None ->
  forall (fuel : nat) (chunks : list nat) (sock : Socket) (consumed : list Z),
    consumed ++ rx sock = all ->
    (RecvUntil_loop fuel chunks sock (string_of_bytes consumed) delimiter maxBytes).1 = None
    /\ tx (RecvUntil_loop fuel chunks sock (string_of_bytes consumed) delimiter maxBytes).2
       = tx sock
    /\ txLimit (RecvUntil_loop fuel chunks sock (string_of_bytes consumed) delimiter
                  maxBytes).2
       = txLimit sock.
Proof.
  intros Hnone. induction fuel as [|fuel IH]; intros chunks sock consumed Hall; [now cbn|].
  cbn [RecvUntil_loop]. rewrite length_string_of_bytes.
  destruct (Nat.ltb_spec (length consumed) maxBytes) as [Hlt|?]; [|now cbn].
  unfold recv. destruct (rx sock) as [|b rest] eqn:Erx; [now cbn|].
  rewrite <- Erx in *. clear b rest Erx.
  set (k := Nat.max 1 (Nat.min (hd 1024%nat chunks) 1024)).
  assert (Hk : (k <= 1024)%nat) by (subst k; lia).
  cbv zeta. rewrite <- string_of_bytes_app.
  set (consumed' := consumed ++ take k (rx sock)).
  assert (Hall' : consumed' ++ drop k (rx sock) = all).
  { subst consumed'. now rewrite <- app_assoc, take_drop. }
  assert (Hlen : (length consumed' <= maxBytes + 1023)%nat).
  { subst consumed'. rewrite length_app, length_take. lia. }
  assert (Hpre : take (maxBytes + 1023) all
                 = consumed' ++ drop (length consumed') (take (maxBytes + 1023) all)).
  { rewrite <- (take_drop (length consumed') (take (maxBytes + 1023) all)) at 1.
    f_equal. rewrite take_take, Nat.min_l by exact Hlen.
    rewrite <- Hall'. now rewrite take_app_length. }
  rewrite Hpre, string_of_bytes_app in Hnone. apply find_none_prefix in Hnone.
  rewrite Hnone.
  apply (IH (tl chunks) (mkSocket (drop k (rx sock)) (tx sock) (txLimit sock)) consumed').
  exact Hall'.
Qed.

(** What [PerformServerHandshake] makes of a request that [RecvUntil]
    has returned. *)
Lemma PerformServerHandshake_request (chunks : list nat) (sock sock' : Socket)
  (start : string) (headers : list (string * string)) (extra : string) :
  request_well_formed start headers ->
  RecvUntil chunks sock (String.append CRLF CRLF) (16 * 1024)
  = (Some (String.append (request_text start headers) extra), sock') ->
  PerformServerHandshake chunks sock
  = if upgrade_requested headers && negb (String.eqb (requested_key headers) EmptyString)
    then SendAll sock'
           (bytes_of_string
              (PerformServerHandshake_response (WebSocketAcceptKey (requested_key headers))))
    else (false, sock').
Proof.
  intros Hwf Hrecv. unfold PerformServerHandshake. rewrite Hrecv.
  rewrite PerformServerHandshake_lines_request by exact Hwf.
  destruct (upgrade_requested headers); [|reflexivity].
  now destruct (String.eqb (requested_key headers) "").
Qed.

Lemma SendAll_rx (sock : Socket) (data : list Z) : rx (SendAll sock data).2 = rx sock.
Proof.
  unfold SendAll. destruct (txLimit sock) as [n|]; [|reflexivity].
  now destruct (length data <=? n)%nat.
Qed.

End Receiving.



(** X24. When a request of a client and the octets that follow it, such
    as a first frame sent without waiting for the reply, arrive in one
    recv of at most 1024 octets, the handshake takes them all: it answers
    the request as it does otherwise, and leaves nothing of the stream to
    be read, so that the octets after the request are lost. *)
Theorem handshake_takes_following_octets (chunks : list nat) (sock : a2fws.Socket)
  (start : string) (headers : list (string * string)) (more : list Z) :
  Handshake.request_well_formed start headers ->
  a2fws.rx sock = bytes_of_string (Handshake.request_text start headers) ++ more ->
  (length (a2fws.rx sock) <= Nat.min (hd 1024%nat chunks) 1024)%nat ->
  a2fws.rx (Handshake.PerformServerHandshake chunks sock).2 = []
  /\ Handshake.PerformServerHandshake chunks sock
     = if Handshake.upgrade_requested headers
          && negb (String.eqb (Handshake.requested_key headers) EmptyString)
       then a2fws.SendAll (a2fws.mkSocket [] (a2fws.tx sock) (a2fws.txLimit sock))
              (bytes_of_string
                 (Handshake.PerformServerHandshake_response
                    (a2fws.WebSocketAcceptKey (Handshake.requested_key headers))))
       else (false, a2fws.mkSocket [] (a2fws.tx sock) (a2fws.txLimit sock)).
Proof.
  intros Hwf Hrx Hlen.
  assert (Hreq : Handshake.PerformServerHandshake chunks sock
     = if Handshake.upgrade_requested headers
          && negb (String.eqb (Handshake.requested_key headers) EmptyString)
       then a2fws.SendAll (a2fws.mkSocket [] (a2fws.tx sock) (a2fws.txLimit sock))
              (bytes_of_string
                 (Handshake.PerformServerHandshake_response
                    (a2fws.WebSocketAcceptKey (Handshake.requested_key headers))))
       else (false, a2fws.mkSocket [] (a2fws.tx sock) (a2fws.txLimit sock))).
  { apply (PerformServerHandshake_request chunks sock _ start headers
             (Handshake.string_of_bytes more) Hwf).
    rewrite RecvUntil_single.
    - now rewrite Hrx, string_of_bytes_app, string_of_bytes_of_string.
    - lia.
    - rewrite Hrx. destruct (request_text_end start headers) as [a ->].
      rewrite bytes_of_string_append. intros E. apply app_eq_nil in E as [E _].
      apply app_eq_nil in E as [_ E]. discriminate.
    - exact Hlen.
    - rewrite Hrx, string_of_bytes_app, string_of_bytes_of_string.
      apply request_text_found. }
  split; [|exact Hreq]. rewrite Hreq.
  destruct (_ && _); [now rewrite SendAll_rx|reflexivity].
Qed.

Lemma handshake_takes_following_octets_witness :
  a2fws.rx
    (Handshake.PerformServerHandshake []
       (a2fws.mkSocket
          (bytes_of_string
             (Handshake.request_text "GET /chat HTTP/1.1"
                [("Upgrade"%string, "websocket"%string); ("Sec-WebSocket-Key"%string, "dGhlIHNhbXBsZSBub25jZQ=="%string)])
           ++ [137; 128; 1; 2; 3; 4])
          [] None)).2
  = [].
Proof.
  refine (proj1 (handshake_takes_following_octets []
            (a2fws.mkSocket
               (bytes_of_string
                  (Handshake.request_text "GET /chat HTTP/1.1"
                     [("Upgrade"%string, "websocket"%string);
                      ("Sec-WebSocket-Key"%string, "dGhlIHNhbXBsZSBub25jZQ=="%string)])
                ++ [137; 128; 1; 2; 3; 4])
               [] None)
            "GET /chat HTTP/1.1"
            [("Upgrade"%string, "websocket"%string); ("Sec-WebSocket-Key"%string, "dGhlIHNhbXBsZSBub25jZQ=="%string)]
            [137; 128; 1; 2; 3; 4] _ _ _)).
  - split; [discriminate|]. repeat constructor.
  - reflexivity.
  - apply Nat.leb_le. vm_compute. reflexivity.
Defined.

(** X25. When CR LF CR LF does not occur among the first 17407 octets of
    the stream (16 KiB and the 1023 octets by which the last recv can pass
    them), the handshake fails and sends nothing, whether the stream ends
    early or goes on. *)
Theorem handshake_without_empty_line (chunks : list nat) (sock : a2fws.Socket) :
  Handshake.find (String.append Handshake.CRLF Handshake.CRLF)
    (Handshake.string_of_bytes (take (16 * 1024 + 1023) (a2fws.rx sock))) = None ->
  (Handshake.PerformServerHandshake chunks sock).1 = false
  /\ a2fws.tx (Handshake.PerformServerHandshake chunks sock).2 = a2fws.tx sock
  /\ a2fws.txLimit (Handshake.PerformServerHandshake chunks sock).2 = a2fws.txLimit sock.
Proof.
  intros Hnone.
  pose proof (RecvUntil_loop_not_found (a2fws.rx sock)
                (String.append Handshake.CRLF Handshake.CRLF) (16 * 1024) Hnone
                (16 * 1024) chunks sock [] eq_refl) as (H1 & H2 & H3).
  unfold Handshake.PerformServerHandshake, Handshake.RecvUntil.
  change (Handshake.string_of_bytes []) with EmptyString in H1, H2, H3.
  destruct (Handshake.RecvUntil_loop _ _ _ _ _ _) as [[request|] sock'];
    [discriminate|].
  auto.
Qed.

Lemma handshake_without_empty_line_witness :
  (Handshake.PerformServerHandshake [5%nat]
     (a2fws.mkSocket
        (bytes_of_string
           (String.append "GET /chat HTTP/1.1"
              (String.append Handshake.CRLF (String.append "Upgrade: websocket" Handshake.CRLF))))
        [] None)).1
  = false.
Proof.
  refine (proj1 (handshake_without_empty_line [5%nat]
            (a2fws.mkSocket
               (bytes_of_string
                  (String.append "GET /chat HTTP/1.1"
                     (String.append Handshake.CRLF
                        (String.append "Upgrade: websocket" Handshake.CRLF))))
               [] None) _)).
  vm_compute. reflexivity.
Defined.
